(* ===== verification/_CoqProject ===== *)
-Q . S2P
Prelude.v
GoStd.v
GoFloat.v
GoTime.v
Alerts.v
Pg.v
World.v
Contract.v
GoJson.v
Fixtures.v
Shared.v
Store.v
Process.v
JsonText.v
Decimal.v
Rounding.v
Escape.v
Scanned.v
GoFormat.v
Payload.v
Engine.v
Pool.v
Shutdown.v
Client.v
Liveness.v
Concurrent.v
Models.v
TimeText.v
Http.v
Response.v
Stored.v
Mux.v
ApiAlerts.v
ApiRules.v
ApiDevices.v
RateLimit.v
RateBudget.v
Server.v
Readable.v
System.v
Deletion.v
LastSeen.v
Metrics.v
Startup.v
EndToEnd.v
AlertFlow.v
