(* ===== verification/Prelude.v ===== *)
(** * SiteWatch verification library

    A model of the two Go services of SiteWatch and the theorems that make them
    correct.  The definitions are translations of the sources under src/; each
    names what it translates.

    ** The program

    - The _ingestion_ service (src/ingestion/) subscribes to
      "sitewatch/+/+/telemetry" over MQTT.  The subscription callback puts every
      message on a bounded channel and drops it when the channel is full;
      [workerCount] workers take messages, parse them, append them to the MongoDB
      collection telemetry_raw, refresh devices.last_seen_at at most once a minute,
      load the device's enabled rules and active alerts from PostgreSQL, run the
      debounced decision engine on in-memory streaks, and write the decisions back
      with a bounded retry.
    - The _api_ service (src/api/) serves sites, devices, telemetry, alerts and alert
      rules over HTTP, behind CORS, correlation-id and per-IP rate-limit middleware.
    - Both share the package src/shared/ (correlation ids, connection pools) and the
      schema of src/infra/postgres/init.sql.  They interact only through the
      databases: rules written by the API steer the engine, alerts written by the
      engine are acknowledged and resolved through the API.

    ** Files, in dependency order

    - [Prelude]: 64-bit integers, Go errors, programs as trees of atomic actions
      ([prog], with [run] for sequential execution, [each_step] and [rg] for
      rely-guarantee arguments, [all_results] for postconditions and [keeps] for an
      invariant together with one), shared lemmas.
    - [GoStd], [GoFloat], [GoTime], [GoJson]: the parts of Go's standard library the code
      uses: strings, strconv (Atoi, ParseInt, ParseUint, ParseFloat), net.SplitHostPort,
      binary64 comparison, time and its RFC 3339 parser, the scanner of encoding/json.
    - [JsonText], [Decimal], [Escape], [Rounding], [GoFormat]: the other direction: compact
      JSON and how the scanner reads it, decimal numerals, the string escapes of
      encoding/json with HTML escaping, what rounding does to a float64, and
      strconv.FormatFloat with the fewest digits; [Scanned]: what the scanner and the
      decoders deliver, whatever bytes were scanned.
    - [Alerts]: the pure half of ingestion/alerts.go: [Rule], [Decision],
      [BreachState], [compareThreshold], [EvaluateRules], [BreachTracker] and its
      [Evaluate].
    - [Pg]: the tables of init.sql as finite maps, one definition per SQL statement of
      both services with its CHECK and FOREIGN KEY failures, the schema invariant
      [Pg_ok], the life cycle of an alert ([alert_step]) and the guarantee
      [stmt_guarantee] every statement meets.
    - [World]: the whole mutable state (databases, streaks, last-seen marks, rate
      limiter, counters, log), the outside as an oracle [Env] indexed by a tick (clock,
      failure of every statement before or after it took effect, interrupted row
      iteration, random ids, row order), and the atomic actions.
    - [Contract]: ingestion/contract.go, with the way encoding/json fills a struct from
      a scanned value; [Fixtures]: the seed data of init.sql for the witnesses;
      [Shared]: correlation ids, pool sizes and [intFromEnv].
    - [Store]: ingestion/store.go and the SQL half of alerts.go ([LoadEnabledRules],
      [LoadActiveRuleIDs], [ApplyDecisions], [applyDecisionsWithRetry]).
    - [Process]: [process] and the body of [worker] of ingestion/main.go; [Payload]: the
      messages of the simulator, from object to bytes to [process].
    - [Engine]: the specification of the pipeline, an automaton [rule_spec] per rule,
      and the refinement theorems.
    - [Pool]: channel, worker pool, shutdown and concurrent API requests as a scheduled
      transition system; [Client]: one more program beside it, with the answer it gets;
      [Liveness]: its infinite runs under a fair scheduler; [Shutdown]: draining the channel
      and abandoning it; [Concurrent]: schedules in which the messages of one device are
      handled one at a time.
    - [Models], [Http], [Mux], [ApiAlerts], [ApiRules], [ApiDevices], [RateLimit],
      [Server]: the API: structs and their decoding; request and response writer,
      writeJSON, instrument, correlation ids and CORS; the dispatch of http.ServeMux; the
      handlers, one definition each; the rate limiter; the route table and the handler
      chain.
    - [TimeText], [Response]: the text of an instant, and the text of every response body
      with a reader of it; [Stored]: that what both services store fits it; [Readable]: that
      every answer can be read; [RateBudget]: how many requests of a client are admitted.
    - [System]: the two services together; [Deletion]: a rule deleted under a message;
      [LastSeen]: when devices.last_seen_at is written.
    - [Metrics]: the declared metrics, [PostgresPoolCollector] (shared/metrics.go) and the
      metrics server of the ingestion service.
    - [Startup]: [LoadRootEnv], the opening of the stores (shared/db.go), the two [main]
      functions with their deferred calls, and the shutdown of the API as a step
      relation.
    - [EndToEnd]: a message from its publisher to the reader of the API; [AlertFlow]:
      readings to the alert list of the API.

    Interfaces between components: [Pg.PgLib] (uuid input, text input and collation of
    PostgreSQL), [World.Env] (the outside), [Contract.GoText] (JSON scanning, float and
    RFC 3339 parsing, with the instance [GoJson.go_text]), [RateLimit.RateLib]
    (golang.org/x/time/rate) with the law [RateBudget.RateLaw] of its bucket, [Stored.TextLaws]
    (the encoding of the server's text and the range of the clocks), [Server.PromLib] and [Metrics.PprofLib] (the Prometheus and
    pprof handlers) and [Startup.Outside] (drivers, broker client, godotenv, by the
    outcome of each call) are classes of parameters with the documented laws the code
    relies on; [stmt_guarantee] and [world_step] are what statements and actions promise
    to the proofs about concurrency; [Response.JsonLaws] is what the encoding of a type
    promises to its readers, discharged field by field; [Http.handler_ok] and [Http.handler_replies] are what
    handlers promise to the server.

    ** What the theorems show

    - Alert engine: [EvaluateRules] is the decision table of docs/alert-engine.md; a
      decision fires exactly on [debounceN] consecutive readings; opposite decisions
      are a debounce window apart; a restart only delays.
    - Pipeline: one message at a time, while no statement and no query fails, the whole pipeline,
      from topic bytes to SQL rows, refines [rule_spec]; telemetry is written first
      under every failure; a failure before the write of the decisions leaves rules,
      alerts and streaks alone; the retry is bounded.  The alert list of the API shows
      exactly the rules whose readings call for it.
    - Contract: every message the simulator publishes is accepted and means what it was
      sent with, and the bytes of the API's telemetry page read back as exactly what was
      sent; whatever bytes are accepted carry ids, a type and finite readings; the
      subscription and [parseTopic] agree; the scanner reads back every value in
      compact form and never stops for lack of fuel.
    - Concurrency: under every interleaving of MQTT deliveries, workers and API
      requests, and every failure, the schema constraints and the life cycle of alerts
      hold and nothing is lost ([Server.system_safety]); at most one active alert per
      rule holds as long as no two messages of one device are in flight together, in
      particular with one worker; the channel is a bounded FIFO; under a fair scheduler
      every message on it is taken in its turn and handled to the end, one worker that
      has not returned can always drain it, and once all have returned nobody does.  The
      last-seen instants of a device that are stored are a window apart under every
      interleaving, though not always in order ([LastSeen]).
    - API: complete outcome of the alert transitions and of the rule endpoints, under every
      failure of their statements for most, exactness of the listings (filters, order,
      paging, every failure), safety of the
      dynamically built SQL, isolation of rate-limited clients and the budget of each
      across the clean-up of idle ones, tagging and metering of every response and at most
      one value as its body, the round trip of every body (strings, floating-point
      numbers, instants), an unambiguous route table; and, next to the ingestion
      service under every interleaving, that whatever is answered can be read.
    - Life of the processes: what is opened in which order, what a failing step does,
      that everything is closed in reverse order, and what the metrics server answers.
    - Departures from what comments or docs say are theorems as well: concurrent
      readings, the retry, and a rule deleted under a message can each duplicate an
      active alert, a null reading counts as 0, the line reporting a failed message lacks
      its correlation id, a failed lookup turns a conflict into "not found", listings
      ignore an interrupted iteration, a rule is created without the threshold that is called
      required, last_seen_at can go back by a window, a message of a year beyond 9999 empties the pages
      of its device, the API does not wait for requests in flight when it stops, the
      ingestion service not for the messages it has accepted.

    ** Conventions, bounds and fuel

    [int] and [int64] are [Z] with the wrap-around of [wrap64] where the code computes
    ([BreachState.Count], [time.Sub] saturates); [float64] is [spec_float], so NaN,
    infinities and signed zeros behave as in IEEE 754.  A [time.Time] is its instant in
    nanoseconds; TIMESTAMPTZ keeps microseconds and BSON milliseconds.  Strings are
    bytes.  The retry recurses on the attempts left (three).  The JSON scanner takes
    two steps of fuel per character, which suffices ([GoJson.scan_json_total]);
    [TrimSpace], [unquote] and [reverse_loop] take a fuel the length of their input
    suffices for (proved for the latter by [reverse_in_place_eq]).  [shortest] tries up to 1100
    digits, which always finds a numeral that reads back ([shortest_reads_back]);
    the year of an instant is found in eight steps and its month in twelve
    ([year_guess], [month_from_spec]); every other recursion is structural.  Instants are
    written in UTC, the zone of the containers.  A critical section under a mutex is one atomic action; so is one SQL
    statement or one MongoDB operation.  A write that fails may or may not have taken
    effect; the oracle's [FailBefore] also covers a statement refused for reasons the
    tables do not show.

    ** Not modelled

    What drivers, broker client, TLS and timeouts do inside a call (its outcome is a
    parameter); the effect of the telemetry index (it changes no result); the bodies of
    the Prometheus and pprof handlers and the duration histograms (observations of the
    outside); the bodies of http.Error and of the router beyond their text; escapes in the literal
    segments of a request's path, which the router undoes before it compares; the null a
    document without the field readings would be shown with (every document the service
    writes has it); attributes of log lines besides level, correlation id and message; the
    random walk of the device simulator; the browser frontend; scripts, containers and
    CI.

    ** What could follow

    A bound on the number of steps between a reading and its alert, and the frontend as
    a reader of the bodies. *)

From stdpp Require Export base list gmap strings sorting.
From Stdlib Require Export ZArith Lia.

#[global] Set Default Goal Selector "!".

(** ** Proof automation shared by the components *)

Create HintDb sitewatch discriminated.

(** ** Machine integers

    Go's [int] and [int64] on the 64-bit targets the services are built for:
    two's complement with wrap-around. *)
Definition min_int64 : Z := - 2 ^ 63.
Definition max_int64 : Z := 2 ^ 63 - 1.
Definition in_int64 (z : Z) : Prop := (min_int64 <= z <= max_int64)%Z.
Definition wrap64 (z : Z) : Z := ((z + 2 ^ 63) mod 2 ^ 64 - 2 ^ 63)%Z.

#[global] Instance in_int64_dec z : Decision (in_int64 z).
Proof. unfold in_int64. apply _. Defined.

Lemma wrap64_id z : in_int64 z → wrap64 z = z.
Proof.
  unfold in_int64, wrap64, min_int64, max_int64. intros H.
  rewrite Z.mod_small; lia.
Qed.

(** ** Errors and fallible results

    A Go [error] value: the sentinel and driver errors the code inspects with
    [errors.Is] / [errors.As], and the wrappers [fmt.Errorf] builds. *)
Inductive error :=
| Errorf (msg : string)                (* fmt.Errorf without %w *)
| Wrapf (msg : string) (e : error)     (* fmt.Errorf("<msg>: %w", e) *)
| ErrNoRows                            (* pgx.ErrNoRows *)
| PgError (code : string)              (* *pgconn.PgError, its SQLSTATE *)
| NetError                             (* connection failure or cancelled context *)
| ScanError                            (* rows.Scan / cursor.Decode failure *)
| SyntaxError                          (* encoding/json failure *)
| ErrNotExist.                         (* os.ErrNotExist *)

#[global] Instance error_eq_dec : EqDecision error.
Proof. solve_decision. Defined.

(** [errors.Is(err, pgx.ErrNoRows)]: walks the Unwrap chain. *)
Fixpoint errors_Is_NoRows (e : error) : bool :=
  match e with
  | ErrNoRows => true
  | Wrapf _ e' => errors_Is_NoRows e'
  | _ => false
  end.

(** [errors.Is(err, os.ErrNotExist)] *)
Fixpoint errors_Is_NotExist (e : error) : bool :=
  match e with
  | ErrNotExist => true
  | Wrapf _ e' => errors_Is_NotExist e'
  | _ => false
  end.

(** [errors.As(err, &pgErr)]: the first [*pgconn.PgError] of the chain. *)
Fixpoint errors_As_PgError (e : error) : option string :=
  match e with
  | PgError c => Some c
  | Wrapf _ e' => errors_As_PgError e'
  | _ => None
  end.

(** The pair [(v, err)] of a fallible Go function, read the way every caller
    of this program reads it: the value only when [err] is nil. *)
Inductive result (A : Type) :=
| Ok (a : A)
| Err (e : error).
Arguments Ok {A} a.
Arguments Err {A} e.

Declare Scope go_scope.
Delimit Scope go_scope with go.

Notation "x <-! c ; k" :=
  (match c with Ok x => k | Err e => Err e end)
  (at level 100, c at next level, k at level 200, right associativity) : go_scope.

(** ** Programs as trees of atomic actions

    A piece of sequential Go code that touches shared state is a tree whose
    nodes are its atomic actions (one SQL statement, one critical section, one
    clock reading, one log line) and whose leaves are its results.  [run]
    executes it alone; the scheduler of [Pool] interleaves several of them. *)
Inductive prog (S A : Type) : Type :=
| Ret (a : A)
| Act (B : Type) (f : S → B * S) (k : B → prog S A).
Arguments Ret {S A} a.
Arguments Act {S A B} f k.

Fixpoint bind {S A B} (p : prog S A) (k : A → prog S B) : prog S B :=
  match p with
  | Ret a => k a
  | Act f q => Act f (λ b, bind (q b) k)
  end.

Definition act {S A} (f : S → A * S) : prog S A := Act f Ret.

Fixpoint run {S A} (p : prog S A) (s : S) : A * S :=
  match p with
  | Ret a => (a, s)
  | Act f k => let '(b, s') := f s in run (k b) s'
  end.

Notation "x <- p ;; q" := (bind p (λ x, q))
  (at level 100, p at next level, q at level 200, right associativity) : go_scope.
Notation "p ;; q" := (bind p (λ _, q))
  (at level 100, q at level 200, right associativity) : go_scope.

(** Early return on error: [if err != nil { return err }]. *)
Notation "x <-? p ;; q" :=
  (bind p (λ r, match r with Ok x => q | Err e => Ret (Err e) end))
  (at level 100, p at next level, q at level 200, right associativity) : go_scope.

Lemma run_bind {S A B} (p : prog S A) (k : A → prog S B) s :
  run (bind p k) s = run (k (run p s).1) (run p s).2.
Proof.
  revert s. induction p as [a|C f q IH]; intros s; simpl; [done|].
  destruct (f s) as [b s'] eqn:E. by rewrite IH.
Qed.

Lemma run_act {S A} (f : S → A * S) s : run (act f) s = f s.
Proof. unfold act. simpl. by destruct (f s). Qed.

(** [each_step G p]: every atomic action of [p] is a [G]-transition, whatever
    state the other threads have left before it.  [G] is the guarantee of a
    rely-guarantee argument: an invariant that every [G]-transition keeps is kept
    by every interleaving of such programs. *)
Fixpoint each_step {S A} (G : S → S → Prop) (p : prog S A) : Prop :=
  match p with
  | Ret _ => True
  | Act f k => ∀ s, G s (f s).2 ∧ each_step G (k (f s).1)
  end.

Lemma each_step_bind {S A B} (G : S → S → Prop) (p : prog S A) (k : A → prog S B) :
  each_step G p → (∀ a, each_step G (k a)) → each_step G (bind p k).
Proof.
  intros Hp Hk. induction p as [a|C f q IH]; simpl in *; [done|].
  intros s. destruct (Hp s) as [??]. auto.
Qed.

Lemma each_step_act {S A} (G : S → S → Prop) (f : S → A * S) :
  (∀ s, G s (f s).2) → each_step G (act f).
Proof. simpl. auto. Qed.

Lemma each_step_Ret {S A} (G : S → S → Prop) (a : A) : each_step G (Ret a).
Proof. done. Qed.

Lemma each_step_weaken {S A} (G G' : S → S → Prop) (p : prog S A) :
  (∀ s s', G s s' → G' s s') → each_step G p → each_step G' p.
Proof.
  intros HG Hp. induction p as [a|C f q IH]; simpl in *; [done|].
  intros s. destruct (Hp s). auto.
Qed.

Lemma each_step_run {S A} (G : S → S → Prop) (p : prog S A) s :
  each_step G p → rtc G s (run p s).2.
Proof.
  revert s. induction p as [a|C f q IH]; intros s Hp; simpl; [done|].
  destruct (Hp s) as [H1 H2]. destruct (f s) as [b s']. econstructor; [done|]. by apply IH.
Qed.

(** [all_results Q p]: whatever the actions of [p] return, its result satisfies
    [Q]. *)
Fixpoint all_results {S A} (Q : A → Prop) (p : prog S A) : Prop :=
  match p with
  | Ret a => Q a
  | Act f k => ∀ b, all_results Q (k b)
  end.

Lemma all_results_bind {S A B} (Q : B → Prop) (p : prog S A) (k : A → prog S B) :
  (∀ a, all_results Q (k a)) → all_results Q (bind p k).
Proof. intros Hk. induction p as [a|C f q IH]; simpl; [apply Hk|]. intros b. apply IH. Qed.

Lemma all_results_bind_post {S A B} (P : A → Prop) (Q : B → Prop) (p : prog S A) (k : A → prog S B) :
  all_results P p → (∀ a, P a → all_results Q (k a)) → all_results Q (bind p k).
Proof. intros Hp Hk. induction p as [a|C f q IH]; simpl in *; [by apply Hk|]. intros b. by apply IH. Qed.

Lemma all_results_run {S A} (Q : A → Prop) (p : prog S A) s : all_results Q p → Q (run p s).1.
Proof.
  revert s. induction p as [a|C f q IH]; intros s Hp; simpl; [done|].
  destruct (f s) as [b s']. by apply IH.
Qed.

Lemma each_step_and {S A} (G G' : S → S → Prop) (p : prog S A) :
  each_step G p → each_step G' p → each_step (λ s s', G s s' ∧ G' s s') p.
Proof.
  induction p as [a|C f q IH]; simpl; [done|]. intros H1 H2 s.
  destruct (H1 s), (H2 s). auto.
Qed.

(** [rg R G p Q s]: run from [s] while other threads make [R]-transitions after
    every action, [p] makes only [G]-transitions and ends in a state and with a
    result that satisfy [Q]. *)
Fixpoint rg {S A} (R G : S → S → Prop) (p : prog S A) (Q : A → S → Prop) (s : S) : Prop :=
  match p with
  | Ret a => Q a s
  | Act f k => G s (f s).2 ∧ ∀ s', rtc R (f s).2 s' → rg R G (k (f s).1) Q s'
  end.

Lemma rg_bind {S A B} (R G : S → S → Prop) (p : prog S A) (k : A → prog S B) Q s :
  rg R G p (λ a s', rg R G (k a) Q s') s → rg R G (bind p k) Q s.
Proof.
  revert s. induction p as [a|C f q IH]; intros s; simpl; [done|].
  intros [HG Hq]. split; [done|]. intros s' Hs. by apply IH, Hq.
Qed.

Lemma rg_act {S A} (R G : S → S → Prop) (f : S → A * S) Q s :
  G s (f s).2 → (∀ s', rtc R (f s).2 s' → Q (f s).1 s') → rg R G (act f) Q s.
Proof. by split. Qed.

Lemma rg_weaken {S A} (R G : S → S → Prop) (p : prog S A) (Q Q' : A → S → Prop) s :
  (∀ a s', Q a s' → Q' a s') → rg R G p Q s → rg R G p Q' s.
Proof.
  intros HQ. revert s. induction p as [a|C f q IH]; intros s; simpl; [apply HQ|].
  intros [? Hq]. split; [done|]. intros s' Hs. by apply IH, Hq.
Qed.

(** One action and a final computation. *)
Lemma rg_single {S A B} (R G : S → S → Prop) (f : S → B * S) (k : B → prog S A) Q s :
  let p := bind (act f) k in
  (∀ b, ∃ a, k b = Ret a) → G s (run p s).2 →
  (∀ s', rtc R (run p s).2 s' → Q (run p s).1 s') → rg R G p Q s.
Proof.
  cbv zeta. rewrite run_bind, run_act. simpl. intros Hk. destruct (Hk (f s).1) as [a E].
  rewrite E. simpl. intros HG HQ. split; [done|]. intros s' Hs. by apply HQ.
Qed.

(** A program all of whose actions keep an invariant the others keep too. *)
Lemma rg_invariant {S A} (R G G' : S → S → Prop) (I : S → Prop) (p : prog S A) Q s :
  (∀ s1 s2, I s1 → rtc R s1 s2 → I s2) → (∀ s1 s2, I s1 → G' s1 s2 → G s1 s2 ∧ I s2) →
  each_step G' p → I s → (∀ a s', I s' → Q a s') → rg R G p Q s.
Proof.
  intros HR HG Hp Hs HQ. revert s Hs. induction p as [a|C f q IH]; intros s Hs; simpl in *; [by apply HQ|].
  destruct (Hp s) as [Hf Hq]. destruct (HG _ _ Hs Hf). split; [done|].
  intros s' Hs'. apply IH; [done|]. by eapply HR.
Qed.

(** [keeps I p Q]: while all threads keep the invariant [I], so does every action of
    [p], and its result satisfies [Q].  Where [rg] follows one state, this is a
    triple over all interleavings that keep [I]. *)
Fixpoint keeps {S A} (I : S → Prop) (p : prog S A) (Q : A → Prop) : Prop :=
  match p with
  | Ret a => Q a
  | Act f k => ∀ s, I s → I (f s).2 ∧ keeps I (k (f s).1) Q
  end.

Lemma keeps_Ret {S A} (I : S → Prop) (a : A) (Q : A → Prop) : Q a → keeps I (Ret a) Q.
Proof. done. Qed.

Lemma keeps_act {S A} (I : S → Prop) (f : S → A * S) (Q : A → Prop) :
  (∀ s, I s → I (f s).2 ∧ Q (f s).1) → keeps I (act f) Q.
Proof. done. Qed.

Lemma keeps_bind {S A B} (I : S → Prop) (p : prog S A) (k : A → prog S B) (P : A → Prop) (Q : B → Prop) :
  keeps I p P → (∀ a, P a → keeps I (k a) Q) → keeps I (bind p k) Q.
Proof.
  intros Hp Hk. induction p as [a|C f q IH]; simpl in *; [by apply Hk|].
  intros s Hs. destruct (Hp s Hs) as [??]. auto.
Qed.

Lemma keeps_weaken {S A} (I : S → Prop) (p : prog S A) (P Q : A → Prop) :
  keeps I p P → (∀ a, P a → Q a) → keeps I p Q.
Proof.
  intros Hp HQ. induction p as [a|C f q IH]; simpl in *; [by apply HQ|].
  intros s Hs. destruct (Hp s Hs). auto.
Qed.

(** One step of a program in flight. *)
Lemma keeps_step {S A B} (I : S → Prop) (f : S → B * S) (k : B → prog S A) Q s :
  keeps I (Act f k) Q → I s → I (f s).2 ∧ keeps I (k (f s).1) Q.
Proof. intros Hp. apply Hp. Qed.

#[global] Arguments each_step : simpl never.
#[global] Arguments rg : simpl never.
#[global] Arguments keeps : simpl never.
#[global] Arguments bind : simpl never.
#[export] Hint Resolve each_step_Ret each_step_bind each_step_act : sitewatch.

(** Goes through a program action by action. *)
Ltac solve_each_step :=
  repeat (intros; first
    [ exact I
    | apply each_step_bind; [solve [eauto with sitewatch]|]
    | solve [eauto with sitewatch]
    | case_match ]).

(** ** Finite-map helpers *)

Lemma map_Forall_alter {A} (P : string → A → Prop) (f : A → A) (m : gmap string A) k :
  map_Forall P m → (∀ x, P k x → P k (f x)) → map_Forall P (alter f k m).
Proof.
  intros Hm Hf i x. rewrite lookup_alter. case_decide as E; [subst|apply Hm].
  intros (y & Hy & ->)%fmap_Some. by apply Hf, Hm.
Qed.

Lemma map_Forall_members {A} (P : string → A → Prop) (m : gmap string A) (l : list (string * A)) :
  map_Forall P m → (∀ p, p ∈ l → p ∈ map_to_list m) → Forall (λ p, P p.1 p.2) l.
Proof. intros Hm Hl. apply Forall_forall. intros [k x] Hp%Hl%elem_of_map_to_list. by apply Hm. Qed.

(** Reading a Go map of type [map[K]V] yields the zero value for a missing
    key. *)
Definition map_get {A} (zero : A) (m : gmap string A) (k : string) : A :=
  default zero (m !! k).

Lemma map_get_insert_eq {A} (z v : A) m k : map_get z (<[k:=v]> m) k = v.
Proof. unfold map_get. by rewrite lookup_insert_eq. Qed.

Lemma map_get_insert_ne {A} (z v : A) m k k' :
  k ≠ k' → map_get z (<[k:=v]> m) k' = map_get z m k'.
Proof. intros. unfold map_get. by rewrite lookup_insert_ne. Qed.

Lemma fmap_Some_1_eq {A B} (f : A → B) (o : option A) b :
  f <$> o = Some b → ∃ a, f a = b ∧ o = Some a.
Proof. destruct o; naive_solver. Qed.

(** A computation known to succeed, without its value in sight. *)
Lemma Some_default {A} (d : A) (o : option A) :
  match o with Some _ => true | None => false end = true → o = Some (default d o).
Proof. by destruct o. Qed.

(** Sorting a permutation of [l] by a total order. *)
Lemma sorted_listing {A} (R : relation A) `{!RelDecision R, !Total R} (l l' : list A) :
  l' ≡ₚ l → NoDup l →
  NoDup (merge_sort R l') ∧ Sorted R (merge_sort R l') ∧ ∀ x, x ∈ merge_sort R l' ↔ x ∈ l.
Proof.
  intros Hp Hl. assert (merge_sort R l' ≡ₚ l) as Hm
    by (etransitivity; [apply merge_sort_Permutation|done]).
  split_and!; [by rewrite Hm|by apply Sorted_merge_sort|intros x; by rewrite Hm].
Qed.
