(* ===== verification/GoStd.v ===== *)
(** * The parts of Go's standard library the services use

    Byte strings ([strings.Split], [strings.Cut]), decimal integer parsing
    ([strconv.Atoi], [strconv.ParseInt], [strconv.ParseUint]), IEEE binary64
    comparison, and [time.Time] arithmetic, each with the lemmas the
    components need. *)

From S2P Require Import Prelude.
From Stdlib Require Export SpecFloat Ascii.
Open Scope Z_scope.

(** ** float64

    A Go [float64] is an IEEE 754 binary64 datum (without NaN payloads). *)
Abbreviation float64 := spec_float.

#[global] Instance float64_eq_dec : EqDecision float64.
Proof. solve_decision. Defined.

(** The float64 an integer literal denotes. *)
Definition float_of_Z (z : Z) : float64 := binary_normalize 53 1024 z 0 false.

Definition float_lt (x y : float64) : bool := SFltb x y.
Definition float_le (x y : float64) : bool := SFleb x y.

(** ** strings *)

Open Scope string_scope.
Open Scope list_scope.

Fixpoint has_char (c : ascii) (s : string) : bool :=
  match s with
  | EmptyString => false
  | String a s' => if decide (a = c) then true else has_char c s'
  end.

(** [strings.Split(s, sep)] for a one-byte separator. *)
Fixpoint Split (s : string) (sep : ascii) : list string :=
  match s with
  | EmptyString => [""]
  | String a s' =>
      if decide (a = sep) then "" :: Split s' sep
      else match Split s' sep with
           | x :: xs => String a x :: xs
           | [] => [String a ""]
           end
  end.

(** [strings.Join(l, sep)] for a one-byte separator. *)
Fixpoint Join (l : list string) (sep : ascii) : string :=
  match l with
  | [] => ""
  | [x] => x
  | x :: xs => x +:+ String sep (Join xs sep)
  end.

Lemma Split_not_nil s c : Split s c ≠ [].
Proof. destruct s as [|a s]; simpl; [done|]. case_decide; [done|]. by case_match. Qed.

Lemma Join_Split s c : Join (Split s c) c = s.
Proof.
  induction s as [|a s IH]; simpl; [done|]. case_decide as Ha.
  - subst. destruct (Split s c) eqn:E; [by apply Split_not_nil in E|].
    simpl in *. by rewrite IH.
  - destruct (Split s c) as [|x [|y xs]] eqn:E; [by apply Split_not_nil in E|..];
      simpl in *; by rewrite <-IH.
Qed.

Lemma Split_no_sep s c : Forall (λ x, has_char c x = false) (Split s c).
Proof.
  induction s as [|a s IH]; simpl; [by repeat constructor|].
  case_decide; [by constructor|].
  destruct (Split s c) as [|x xs]; inversion_clear IH; repeat constructor; simpl;
    by try rewrite decide_False.
Qed.

Lemma Split_prefix x s c :
  has_char c x = false → Split (x +:+ String c s) c = x :: Split s c.
Proof.
  induction x as [|a x IH]; simpl; intros Hx.
  - by rewrite decide_True.
  - case_decide; [done|]. by rewrite IH.
Qed.

Lemma Split_single x c : has_char c x = false → Split x c = [x].
Proof.
  induction x as [|a x IH]; simpl; intros Hx; [done|].
  case_decide; [done|]. by rewrite IH.
Qed.

(** [Split] and [Join] are inverse on non-empty lists of separator-free
    strings. *)
Lemma Split_Join l c :
  l ≠ [] → Forall (λ x, has_char c x = false) l → Split (Join l c) c = l.
Proof.
  induction l as [|x l IH]; intros Hl HF; [done|].
  inversion_clear HF as [|?? Hx HF']. destruct l as [|y l].
  - by apply Split_single.
  - change (Join (x :: y :: l) c) with (x +:+ String c (Join (y :: l) c)).
    rewrite Split_prefix by done. by rewrite IH.
Qed.

(** [strings.Cut(s, sep)] for a one-byte separator. *)
Fixpoint Cut (s : string) (sep : ascii) : string * string * bool :=
  match s with
  | EmptyString => ("", "", false)
  | String a s' =>
      if decide (a = sep) then ("", s', true)
      else let '(b, aft, found) := Cut s' sep in (String a b, aft, found)
  end.

(** Cutting at the last occurrence ([strings.LastIndexByte]). *)
Fixpoint CutLast (s : string) (sep : ascii) : option (string * string) :=
  match s with
  | EmptyString => None
  | String a s' =>
      match CutLast s' sep with
      | Some (b, aft) => Some (String a b, aft)
      | None => if decide (a = sep) then Some ("", s') else None
      end
  end.

Lemma CutLast_app x y c : has_char c y = false → CutLast (x +:+ String c y) c = Some (x, y).
Proof.
  assert (∀ z, has_char c z = false → CutLast z c = None) as Hnone.
  { induction z as [|a z IH]; simpl; [done|]. case_decide; [done|]. intros Hz. by rewrite IH. }
  intros Hy. induction x as [|a x IH]; simpl; [|by rewrite IH].
  by rewrite Hnone, decide_True.
Qed.

Lemma Cut_app x y c : has_char c x = false → Cut (x +:+ String c y) c = (x, y, true).
Proof.
  induction x as [|a x IH]; simpl; intros Hx; [by rewrite decide_True|].
  case_decide; [done|]. by rewrite IH.
Qed.

Lemma append_assoc (x y z : string) : (x +:+ y) +:+ z = x +:+ (y +:+ z).
Proof.
  induction x as [|a x IH]; [done|].
  change (String a ((x +:+ y) +:+ z) = String a (x +:+ (y +:+ z))). by rewrite IH.
Qed.

(** Every character satisfies [p]. *)
Fixpoint string_forallb (p : ascii → bool) (s : string) : bool :=
  match s with
  | EmptyString => true
  | String a s' => p a && string_forallb p s'
  end.

Lemma string_forallb_impl (p q : ascii → bool) s :
  (∀ a, p a = true → q a = true) → string_forallb p s = true → string_forallb q s = true.
Proof.
  intros Hpq. induction s as [|a s IH]; [done|]. cbn [string_forallb]. rewrite !andb_true_iff. naive_solver.
Qed.

Lemma string_forallb_app (p : ascii → bool) s t :
  string_forallb p (s +:+ t) = string_forallb p s && string_forallb p t.
Proof.
  induction s as [|a s IH]; [done|]. change (String a s +:+ t) with (String a (s +:+ t)).
  cbn [string_forallb]. by rewrite IH, andb_assoc.
Qed.

Lemma has_char_app c x y : has_char c (x +:+ y) = has_char c x || has_char c y.
Proof. induction x as [|a x IH]; simpl; [done|]. by case_decide. Qed.

(** [strings.TrimSpace]: the UTF-8 encodings of Unicode's white space are removed
    at both ends. *)
Definition bytes (l : list nat) : list ascii := ascii_of_nat <$> l.

Definition white_space : list (list ascii) :=
  (bytes <$> [[9]; [10]; [11]; [12]; [13]; [32]; [194; 133]; [194; 160]; [225; 154; 128];
              [226; 128; 168]; [226; 128; 169]; [226; 128; 175]; [226; 129; 159]; [227; 128; 128]]%nat) ++
  ((λ n, bytes [226; 128; n]%nat) <$> seq 128 11).

Fixpoint strip_prefix (p l : list ascii) : option (list ascii) :=
  match p, l with
  | [], _ => Some l
  | a :: p', b :: l' => if decide (a = b) then strip_prefix p' l' else None
  | _ :: _, [] => None
  end.

(** Removes leading members of [spaces]; [fuel] bounds their number. *)
Fixpoint trim_front (fuel : nat) (spaces : list (list ascii)) (l : list ascii) : list ascii :=
  match fuel with
  | O => l
  | S fuel' =>
      match list_find (λ p, is_Some (strip_prefix p l)) spaces with
      | Some (_, p) => trim_front fuel' spaces (default l (strip_prefix p l))
      | None => l
      end
  end.

Definition TrimSpace (s : string) : string :=
  let l := String.list_ascii_of_string s in
  let l1 := trim_front (length l) white_space l in
  let l2 := trim_front (length l1) (reverse <$> white_space) (reverse l1) in
  String.string_of_list_ascii (reverse l2).

(** [net.SplitHostPort] *)
Definition SplitHostPort (hostport : string) : option (string * string) :=
  match CutLast hostport ":" with
  | None => None
  | Some (before, port) =>
      match hostport with
      | String "[" rest =>
          let '(host, after, found) := Cut rest "]" in
          if negb found then None
          else if decide (after = "") then None
          else if decide (before = String "[" (host +:+ "]")) then
            if has_char "[" rest || has_char "]" after then None else Some (host, port)
          else None
      | _ =>
          if has_char ":" before || has_char "[" hostport || has_char "]" hostport then None
          else Some (before, port)
      end
  end.

(** ** strconv *)

Definition digit_val (a : ascii) : option Z :=
  let n := Z.of_nat (nat_of_ascii a) in
  if decide (48 <= n <= 57) then Some (n - 48) else None.

(** All-digit suffix with accumulator; [None] on any other byte. *)
Fixpoint parse_digits (acc : Z) (s : string) : option Z :=
  match s with
  | EmptyString => Some acc
  | String a s' =>
      match digit_val a with
      | Some d => parse_digits (10 * acc + d) s'
      | None => None
      end
  end.

(** [strconv.ParseUint(s, 10, bits)]: at least one digit, no sign, error when
    the value does not fit. *)
Definition ParseUint (s : string) (bits : Z) : option Z :=
  match s with
  | EmptyString => None
  | _ => match parse_digits 0 s with
         | Some n => if decide (n < 2 ^ bits) then Some n else None
         | None => None
         end
  end.

Arguments ParseUint : simpl never.

(** [strconv.ParseInt(s, 10, bits)]: optional sign, then as [ParseUint]. *)
Definition ParseInt (s : string) (bits : Z) : option Z :=
  let signed (neg : bool) (rest : string) :=
    match ParseUint rest 64 with
    | Some un =>
        if neg then if decide (un > 2 ^ (bits - 1)) then None else Some (- un)
        else if decide (un >= 2 ^ (bits - 1)) then None else Some un
    | None => None
    end in
  match s with
  | EmptyString => None
  | String a rest =>
      if decide (a = "+"%char) then signed false rest
      else if decide (a = "-"%char) then signed true rest
      else signed false s
  end.

(** [strconv.Atoi]: [ParseInt] at the width of [int]. *)
Definition Atoi (s : string) : option Z := ParseInt s 64.

Lemma parse_digits_nonneg s acc n :
  0 <= acc → parse_digits acc s = Some n → 0 <= n.
Proof.
  revert acc. induction s as [|a s IH]; simpl; intros acc Ha H; [by simplify_eq|].
  unfold digit_val in H. case_decide; simplify_eq/=. eapply IH; [|done]. lia.
Qed.

Lemma ParseUint_range s bits n : ParseUint s bits = Some n → 0 <= n < 2 ^ bits.
Proof.
  unfold ParseUint. destruct s as [|a s]; [done|]. intros H.
  destruct (parse_digits 0 _) as [m|] eqn:E; [|done]. case_decide; simplify_eq.
  split; [|done]. by apply parse_digits_nonneg in E.
Qed.

Lemma ParseInt_range s bits n :
  0 < bits → ParseInt s bits = Some n → - 2 ^ (bits - 1) <= n < 2 ^ (bits - 1).
Proof.
  unfold ParseInt. intros Hb H.
  assert (∀ r un, ParseUint r 64 = Some un → 0 <= un) as Hpos.
  { intros r un Hr. apply ParseUint_range in Hr. lia. }
  pose proof (Z.pow_pos_nonneg 2 (bits - 1)).
  repeat case_match; simplify_eq; repeat match goal with Hr : ParseUint _ _ = Some _ |- _ => apply Hpos in Hr end; lia.
Qed.

Lemma Atoi_range s n : Atoi s = Some n → in_int64 n.
Proof. intros ?%ParseInt_range; [|done]. unfold in_int64, min_int64, max_int64. lia. Qed.

(** ** time

    A [time.Time] is its instant in nanoseconds since the Unix epoch. *)
Abbreviation time := Z (only parsing).
Definition Millisecond : Z := 1000000.
Definition Second : Z := 1000000000.
Definition Minute : Z := 60 * Second.

(** The zero [time.Time], 0001-01-01T00:00:00Z. *)
Definition zero_time : time := -62135596800 * Second.

(** [t.Sub(u)]: the difference, saturated to the range of [Duration]. *)
Definition time_Sub (t u : time) : Z := Z.max min_int64 (Z.min max_int64 (t - u)).

Lemma time_Sub_ge t u d : min_int64 < d <= max_int64 → time_Sub t u >= d ↔ t - u >= d.
Proof. unfold time_Sub, min_int64, max_int64. lia. Qed.

Lemma time_Sub_gt t u d : min_int64 <= d < max_int64 → time_Sub t u > d ↔ t - u > d.
Proof. unfold time_Sub, min_int64, max_int64. lia. Qed.
