(* ===== verification/GoFloat.v ===== *)
(** * strconv.ParseFloat at 64 bits

    The syntax of Go's decimal and hexadecimal floating-point texts ([readFloat],
    [special], [underscoreOK]) and their value, rounded to nearest even by the
    operations of the Standard Library's [SpecFloat]. *)

From S2P Require Import Prelude GoStd.
Open Scope Z_scope.
Open Scope string_scope.
Open Scope list_scope.

(** ** Values *)

(** The float64 nearest to [m * 10^e], with the given sign. *)
Definition float_of_decimal (neg : bool) (m e : Z) : float64 :=
  match m with
  | Zpos p =>
      if decide (0 <= e) then binary_round 53 1024 neg (Z.to_pos (m * 10 ^ e)) 0
      else let '(q, e', l) := SFdiv_core_binary 53 1024 m 0 (10 ^ (- e)) 0 in
           binary_round_aux 53 1024 neg q e' l
  | _ => S754_zero neg
  end.

(** The float64 nearest to [m * 2^e]. *)
Definition float_of_binary (neg : bool) (m e : Z) : float64 :=
  match m with
  | Zpos p => binary_round 53 1024 neg p e
  | _ => S754_zero neg
  end.

(** ErrRange: the value is too large. *)
Definition in_range (x : float64) : option float64 :=
  match x with S754_infinity _ => None | _ => Some x end.

(** ** Syntax *)

Definition lower (a : ascii) : ascii :=
  let n := nat_of_ascii a in
  if decide (65 <= n <= 90)%nat then ascii_of_nat (n + 32) else a.

Fixpoint ToLower (s : string) : string :=
  match s with EmptyString => "" | String a s' => String (lower a) (ToLower s') end.

Definition hex_digit (a : ascii) : option Z :=
  match digit_val a with
  | Some d => Some d
  | None =>
      let n := Z.of_nat (nat_of_ascii (lower a)) in
      if decide (97 <= n <= 102) then Some (n - 87) else None
  end.

Definition base_digit (hex : bool) (a : ascii) : option Z := if hex then hex_digit a else digit_val a.

(** The digits of a mantissa: its value, whether a digit was seen, the number of
    digits after the point, and the text that follows. *)
Fixpoint mantissa (hex : bool) (m : Z) (saw : bool) (frac : option Z) (s : string)
    : Z * bool * Z * string :=
  match s with
  | EmptyString => (m, saw, default 0 frac, "")
  | String a s' =>
      if decide (a = "_"%char) then mantissa hex m saw frac s'
      else if decide (a = "."%char) then
        match frac with
        | Some f => (m, saw, f, s)
        | None => mantissa hex m saw (Some 0) s'
        end
      else match base_digit hex a with
           | Some d => mantissa hex ((if hex then 16 else 10) * m + d) true ((λ f, f + 1) <$> frac) s'
           | None => (m, saw, default 0 frac, s)
           end
  end.

(** The digits of an exponent; it stops growing at 10000. *)
Fixpoint exponent_digits (e : Z) (s : string) : Z * string :=
  match s with
  | EmptyString => (e, "")
  | String a s' =>
      if decide (a = "_"%char) then exponent_digits e s'
      else match digit_val a with
           | Some d => exponent_digits (if decide (e < 10000) then 10 * e + d else e) s'
           | None => (e, s)
           end
  end.

Definition starts_with_digit (s : string) : bool :=
  match s with String a _ => match digit_val a with Some _ => true | None => false end | _ => false end.

(** The optional exponent after a mantissa; it must be followed by nothing. *)
Definition exponent (hex : bool) (s : string) : option Z :=
  match s with
  | EmptyString => if hex then None else Some 0
  | String a s' =>
      if decide (lower a = if hex then "p"%char else "e"%char) then
        let '(sign, s') := match s' with
                           | String "+" t => (1, t)
                           | String "-" t => (-1, t)
                           | _ => (1, s')
                           end in
        if starts_with_digit s' then
          let '(e, rest) := exponent_digits 0 s' in
          if decide (rest = "") then Some (sign * e) else None
        else None
      else None
  end.

(** [underscoreOK]: underscores only between digits, or after a base prefix.  [saw] is
    the kind of the last character: a digit, an underscore or neither. *)
Inductive last_seen := SawDigit | SawUnderscore | SawOther.

Fixpoint underscores_ok (hex : bool) (saw : last_seen) (s : string) : bool :=
  match s with
  | EmptyString => match saw with SawUnderscore => false | _ => true end
  | String a s' =>
      match base_digit hex a with
      | Some _ => underscores_ok hex SawDigit s'
      | None =>
          if decide (a = "_"%char) then
            match saw with SawDigit => underscores_ok hex SawUnderscore s' | _ => false end
          else match saw with SawUnderscore => false | _ => underscores_ok hex SawOther s' end
      end
  end.

Definition underscoreOK (s : string) : bool :=
  match s with
  | String "0" (String b s') =>
      if decide (lower b = "x"%char) then underscores_ok true SawDigit s'
      else if decide (lower b = "b"%char ∨ lower b = "o"%char) then underscores_ok false SawDigit s'
      else underscores_ok false SawOther s
  | _ => underscores_ok false SawOther s
  end.

(** The prefix of a hexadecimal text. *)
Definition hex_prefix (s : string) : bool * string :=
  match s with
  | String "0" (String b (String c t)) => if decide (lower b = "x"%char) then (true, String c t) else (false, s)
  | _ => (false, s)
  end.

(** A text after its sign. *)
Definition unsigned_float (neg : bool) (s : string) : option float64 :=
  let '(hex, digits) := hex_prefix s in
  let '(m, saw, frac, rest) := mantissa hex 0 false None digits in
  if negb saw then None
  else match exponent hex rest with
       | None => None
       | Some e =>
           if has_char "_" s && negb (underscoreOK s) then None
           else in_range (if hex then float_of_binary neg m (e - 4 * frac)
                          else float_of_decimal neg m (e - frac))
       end.

(** [special] and [readFloat]. *)
Definition signed_float (neg : bool) (s : string) : option float64 :=
  if decide (ToLower s = "inf" ∨ ToLower s = "infinity") then Some (S754_infinity neg)
  else unsigned_float neg s.

Definition strconv_ParseFloat (s : string) : option float64 :=
  match s with
  | String "+" t => signed_float false t
  | String "-" t => signed_float true t
  | _ => if decide (ToLower s = "nan") then Some S754_nan else signed_float false s
  end.

(** ** Examples *)

Example parse_24_8 : strconv_ParseFloat "24.8" = Some (S754_finite false 6980579422424269 (-48)).
Proof. vm_compute. reflexivity. Qed.
Example parse_max : strconv_ParseFloat "1.7976931348623157e308" =
  Some (S754_finite false 9007199254740991 971).
Proof. vm_compute. reflexivity. Qed.
Example parse_min : strconv_ParseFloat "-5e-324" = Some (S754_finite true 1 (-1074)).
Proof. vm_compute. reflexivity. Qed.
Example parse_float_forms :
  strconv_ParseFloat <$> ["1e309"; "1e-400"; "0x1p-2"; "1_0.5_0"; "1__0"; "Inf"; ".5"; "5."; "."; "1e"; "0x1"; "+_1"] =
  [None; Some (S754_zero false); Some (S754_finite false 4503599627370496 (-54));
   Some (S754_finite false 5910974510923776 (-49)); None; Some (S754_infinity false);
   Some (S754_finite false 4503599627370496 (-53)); Some (S754_finite false 5629499534213120 (-50));
   None; None; None; None].
Proof. vm_compute. reflexivity. Qed.

(** ** Results are numbers *)

(** Neither NaN nor infinite. *)
Definition finite (x : float64) : bool :=
  match x with S754_zero _ | S754_finite _ _ _ => true | _ => false end.

Lemma shr_1_nonneg mrs : 0 <= shr_m mrs → 0 <= shr_m (shr_1 mrs).
Proof. destruct mrs as [[|[]|[]] r s]; simpl; lia. Qed.

Lemma shr_nonneg mrs e n : 0 <= shr_m mrs → 0 <= shr_m (shr mrs e n).1.
Proof.
  intros Hm. destruct n as [|p|p]; simpl; try done. revert mrs Hm.
  induction p as [p IH|p IH|]; intros mrs Hm; simpl; auto using shr_1_nonneg.
Qed.

Lemma round_aux_not_nan neg m e l : 0 <= m → binary_round_aux 53 1024 neg m e l ≠ S754_nan.
Proof.
  intros Hm. unfold binary_round_aux, shr_fexp.
  pose proof (shr_nonneg (shr_record_of_loc m l) e (fexp 53 1024 (Zdigits2 m + e) - e)) as H1.
  destruct (shr _ _ _) as [mrs' e']. simpl in H1.
  assert (0 <= shr_m mrs') as Hm' by (apply H1; by destruct l as [|[]]). clear H1.
  assert (0 <= round_nearest_even (shr_m mrs') (loc_of_shr_record mrs')) as Hr.
  { unfold round_nearest_even. repeat case_match; lia. }
  generalize dependent (round_nearest_even (shr_m mrs') (loc_of_shr_record mrs')). intros mr Hr.
  pose proof (shr_nonneg (shr_record_of_loc mr loc_Exact) e' (fexp 53 1024 (Zdigits2 mr + e') - e') Hr) as H2.
  destruct (shr _ _ _) as [mrs'' e'']. simpl in H2. by repeat case_match.
Qed.

Lemma float_of_decimal_not_nan neg m e : float_of_decimal neg m e ≠ S754_nan.
Proof.
  unfold float_of_decimal. destruct m as [|p|p]; try done. case_decide.
  - unfold binary_round. destruct (shl_align _ _ _). by apply round_aux_not_nan.
  - unfold SFdiv_core_binary. cbv zeta. set (m' := match _ with Zpos _ => _ | _ => _ end).
    assert (0 <= m') by (subst m'; case_match; [done|apply Z.shiftl_nonneg; done|done]).
    pose proof (Z_div_mod m' (10 ^ (- e))) as Hdm. assert (0 < 10 ^ (- e)) as Hpos by (apply Z.pow_pos_nonneg; lia).
    destruct (Z.div_eucl m' _) as [q r]. destruct (Hdm ltac:(lia)) as [E Hr].
    apply round_aux_not_nan. nia.
Qed.

Lemma float_of_binary_not_nan neg m e : float_of_binary neg m e ≠ S754_nan.
Proof.
  unfold float_of_binary, binary_round. destruct m as [|p|p]; try done.
  destruct (shl_align _ _ _). by apply round_aux_not_nan.
Qed.

(** Text that spells a number denotes a finite one. *)
Lemma unsigned_float_finite neg s x : unsigned_float neg s = Some x → finite x = true.
Proof.
  unfold unsigned_float. destruct (hex_prefix s) as [hex digits].
  destruct (mantissa hex 0 false None digits) as [[[m saw] frac] rest].
  destruct saw; [|done]. cbn [negb]. destruct (exponent hex rest) as [e|]; [|done].
  case_match; [done|]. destruct hex.
  - pose proof (float_of_binary_not_nan neg m (e - 4 * frac)).
    destruct (float_of_binary _ _ _); try done; by intros [= <-].
  - pose proof (float_of_decimal_not_nan neg m (e - frac)).
    destruct (float_of_decimal _ _ _); try done; by intros [= <-].
Qed.
