(* ===== verification/GoTime.v ===== *)
(** * time.Parse(time.RFC3339, s)

    The parser of package [time] for the layout "2006-01-02T15:04:05Z07:00", which also
    serves [Time.UnmarshalJSON] (its stricter checks are switched off), with the
    calendar it needs; and [toISOString], the form the publishers use. *)

From S2P Require Import Prelude GoStd GoFloat.
Open Scope Z_scope.
Open Scope string_scope.
Open Scope list_scope.

(** ** The calendar *)

Definition isLeap (year : Z) : bool :=
  bool_decide (year mod 4 = 0 ∧ (year mod 100 ≠ 0 ∨ year mod 400 = 0)).

Definition daysIn (month year : Z) : Z :=
  if decide (month = 2) then if isLeap year then 29 else 28
  else if decide (month = 4 ∨ month = 6 ∨ month = 9 ∨ month = 11) then 30 else 31.

(** Days from the first of January of year 0 to that of [year]. *)
Definition days_before_year (year : Z) : Z :=
  365 * year + (year + 3) / 4 - (year + 99) / 100 + (year + 399) / 400.

(** Days from the first of January to the first of [month]. *)
Definition days_before_month (month year : Z) : Z :=
  foldr (λ m n, daysIn (Z.of_nat m) year + n) 0 (seq 1 (Z.to_nat (month - 1))).

(** The instant of a date and time of day in UTC, in nanoseconds. *)
Definition Date (year month day hour min sec nsec : Z) : time :=
  let days := days_before_year year + days_before_month month year + (day - 1) - days_before_year 1970 in
  (((days * 24 + hour) * 60 + min) * 60 + sec) * Second + nsec.

(** ** The parser *)

(** [getnum]: two digits, or one if [fixed] is off and no second follows. *)
Definition getnum (fixed : bool) (s : string) : option (Z * string) :=
  match s with
  | String a s1 =>
      d ← digit_val a;
      match s1 with
      | String b s2 =>
          match digit_val b with
          | Some d2 => Some (10 * d + d2, s2)
          | None => if fixed then None else Some (d, s1)
          end
      | EmptyString => if fixed then None else Some (d, s1)
      end
  | EmptyString => None
  end.

Definition year4 (s : string) : option (Z * string) :=
  '(y1, s1) ← getnum true s; '(y2, s2) ← getnum true s1; Some (100 * y1 + y2, s2).

Definition lit (c : ascii) (s : string) : option string :=
  match s with String a s' => if decide (a = c) then Some s' else None | EmptyString => None end.

(** The digits of a fraction: the first nine count. *)
Fixpoint fraction (left : nat) (ns : Z) (s : string) : Z * string :=
  match s with
  | String a s' =>
      match digit_val a, left with
      | Some d, S left' => fraction left' (10 * ns + d) s'
      | Some _, O => fraction O ns s'
      | None, _ => (ns * 10 ^ Z.of_nat left, s)
      end
  | EmptyString => (ns * 10 ^ Z.of_nat left, s)
  end.

(** A fractional second, after a point or a comma; taken if a digit follows. *)
Definition optional_fraction (s : string) : Z * string :=
  match s with
  | String a (String b s') =>
      match digit_val b with
      | Some _ => if decide (a = "."%char ∨ a = ","%char) then fraction 9 0 (String b s') else (0, s)
      | None => (0, s)
      end
  | _ => (0, s)
  end.

(** "Z", or an offset of the form +hh:mm, in seconds; nothing may follow. *)
Definition zone (s : string) : option Z :=
  match s with
  | String "Z" s' => if decide (s' = "") then Some 0 else None
  | String sign s1 =>
      '(hr, s2) ← getnum true s1; s3 ← lit ":" s2; '(mm, s4) ← getnum true s3;
      if decide (hr > 24 ∨ mm > 60 ∨ s4 ≠ "") then None
      else if decide (sign = "+"%char) then Some ((hr * 60 + mm) * 60)
      else if decide (sign = "-"%char) then Some (- ((hr * 60 + mm) * 60))
      else None
  | EmptyString => None
  end.

Definition Parse_RFC3339 (s : string) : option time :=
  '(year, s) ← year4 s; s ← lit "-" s;
  '(month, s) ← getnum true s;
  if decide (month <= 0 ∨ 12 < month) then None else
  s ← lit "-" s; '(day, s) ← getnum true s; s ← lit "T" s;
  '(hour, s) ← getnum false s;
  if decide (24 <= hour) then None else
  s ← lit ":" s; '(min, s) ← getnum true s;
  if decide (60 <= min) then None else
  s ← lit ":" s; '(sec, s) ← getnum true s;
  if decide (60 <= sec) then None else
  let '(nsec, s) := optional_fraction s in
  offset ← zone s;
  if decide (day < 1 ∨ day > daysIn month year) then None
  else Some (Date year month day hour min sec nsec - offset * Second).

(** ** toISOString *)

Definition digit_char (d : Z) : ascii := ascii_of_nat (Z.to_nat (48 + d)).
Definition pad2 (n : Z) : string := String (digit_char (n / 10)) (String (digit_char (n mod 10)) "").
Definition pad3 (n : Z) : string := String (digit_char (n / 100)) (pad2 (n mod 100)).
Definition pad4 (n : Z) : string := pad2 (n / 100) +:+ pad2 (n mod 100).

(** A date and time of day in UTC, to the millisecond. *)
Record civil := mkCivil {
  c_year : Z; c_month : Z; c_day : Z; c_hour : Z; c_min : Z; c_sec : Z; c_msec : Z;
}.

Definition valid_civil (c : civil) : bool :=
  bool_decide (0 <= c_year c <= 9999 ∧ 1 <= c_month c <= 12 ∧ 1 <= c_day c <= daysIn (c_month c) (c_year c) ∧
    0 <= c_hour c < 24 ∧ 0 <= c_min c < 60 ∧ 0 <= c_sec c < 60 ∧ 0 <= c_msec c < 1000).

Definition toISOString (c : civil) : string :=
  pad4 (c_year c) +:+ "-" +:+ pad2 (c_month c) +:+ "-" +:+ pad2 (c_day c) +:+ "T" +:+ pad2 (c_hour c) +:+ ":" +:+
  pad2 (c_min c) +:+ ":" +:+ pad2 (c_sec c) +:+ "." +:+ pad3 (c_msec c) +:+ "Z".

Definition instant (c : civil) : time :=
  Date (c_year c) (c_month c) (c_day c) (c_hour c) (c_min c) (c_sec c) (c_msec c * Millisecond).

(** ** Round trip *)

Lemma digit_val_char d : 0 <= d < 10 → digit_val (digit_char d) = Some d.
Proof.
  intros Hd. assert (d ∈ [0; 1; 2; 3; 4; 5; 6; 7; 8; 9]) as Hin
    by (rewrite !elem_of_cons; lia). rewrite !elem_of_cons in Hin.
  destruct_or! Hin; subst; try done. by apply not_elem_of_nil in Hin.
Qed.

Lemma getnum_pad2 fixed n s : 0 <= n < 100 → getnum fixed (pad2 n +:+ s) = Some (n, s).
Proof.
  intros Hn.
  change (pad2 n +:+ s) with (String (digit_char (n / 10)) (String (digit_char (n mod 10)) s)). unfold getnum.
  rewrite (digit_val_char (n / 10)) by (split; [apply Z.div_pos; lia|apply Z.div_lt_upper_bound; lia]).
  cbn [mbind option_bind]. rewrite (digit_val_char (n mod 10)) by (apply Z.mod_pos_bound; lia).
  by rewrite <- Z.div_mod.
Qed.

Lemma year4_pad4 n s : 0 <= n <= 9999 → year4 (pad4 n +:+ s) = Some (n, s).
Proof.
  intros Hn. unfold year4, pad4. rewrite append_assoc.
  rewrite getnum_pad2 by (split; [apply Z.div_pos; lia|apply Z.div_lt_upper_bound; lia]).
  cbn [mbind option_bind]. rewrite getnum_pad2 by (apply Z.mod_pos_bound; lia).
  cbn [mbind option_bind]. by rewrite <- Z.div_mod.
Qed.

Lemma fraction_pad3 n s :
  0 <= n < 1000 → starts_with_digit s = false →
  optional_fraction (String "." (pad3 n +:+ s)) = (n * Millisecond, s).
Proof.
  intros Hn Hs. unfold pad3, pad2.
  assert (0 <= n / 100 < 10 ∧ 0 <= n mod 100 / 10 < 10 ∧ 0 <= (n mod 100) mod 10 < 10) as (H1 & H2 & H3).
  { pose proof (Z.mod_pos_bound n 100). pose proof (Z.mod_pos_bound (n mod 100) 10).
    split_and!; try lia; try (apply Z.div_pos; lia); apply Z.div_lt_upper_bound; lia. }
  change (optional_fraction (String "." _)) with
    (match digit_val (digit_char (n / 100)) with
     | Some _ => fraction 9 0 (String (digit_char (n / 100)) (String (digit_char (n mod 100 / 10))
                   (String (digit_char ((n mod 100) mod 10)) s)))
     | None => (0, String "." (pad3 n +:+ s))
     end).
  rewrite digit_val_char by done. cbn [fraction]. rewrite !digit_val_char by done. cbn [fraction].
  assert (10 * (10 * (10 * 0 + n / 100) + n mod 100 / 10) + (n mod 100) mod 10 = n) as E.
  { pose proof (Z.div_mod n 100). pose proof (Z.div_mod (n mod 100) 10). lia. }
  rewrite E. destruct s as [|a s]; cbn [fraction]; [done|]. unfold starts_with_digit in Hs.
  by destruct (digit_val a).
Qed.

Lemma lit_head c s : lit c (String c "" +:+ s) = Some s.
Proof. change (String c "" +:+ s) with (String c s). unfold lit. by rewrite decide_True. Qed.

(** A time printed by [toISOString] is read back as the instant it denotes. *)
Lemma Parse_toISOString c : valid_civil c = true → Parse_RFC3339 (toISOString c) = Some (instant c).
Proof.
  unfold valid_civil. rewrite bool_decide_eq_true. intros (Hy & Hm & Hd & Hh & Hmi & Hs & Hms).
  assert (daysIn (c_month c) (c_year c) <= 31) by (unfold daysIn; repeat case_match; lia).
  unfold Parse_RFC3339, toISOString. rewrite year4_pad4 by done. cbn [mbind option_bind].
  repeat (first [rewrite lit_head | rewrite getnum_pad2 by lia | rewrite decide_False by lia];
    cbn [mbind option_bind]).
  change ("." +:+ (pad3 (c_msec c) +:+ "Z")) with (String "." (pad3 (c_msec c) +:+ "Z")).
  rewrite fraction_pad3 by done. cbn [zone mbind option_bind]. rewrite decide_True by done.
  cbn [mbind option_bind]. rewrite decide_False by lia. f_equal. unfold instant. lia.
Qed.

Example parse_time_forms :
  Parse_RFC3339 <$> ["2026-08-08T12:00:00.000Z"; "1970-01-01T1:00:00,5+01:00"; "2024-02-29T23:59:59Z";
    "2023-02-29T00:00:00Z"; "1970-01-01T00:00:60Z"; "1970-01-01T00:00:00"; "1970-01-01 00:00:00Z"; "0001-01-01T00:00:00Z"] =
  [Some (1786190400 * Second); Some 500000000; Some (1709251199 * Second); None; None; None; None; Some zero_time].
Proof. vm_compute. reflexivity. Qed.
