(* ===== verification/Alerts.v ===== *)
(** * The alert engine: [ingestion/alerts.go], pure part

    [EvaluateRules] and the debounce state it threads, translated loop for
    loop, and its relation to the decision table and the debounce rule of
    [docs/alert-engine.md].  The SQL side of [alerts.go] is in [Store]. *)

From S2P Require Import Prelude GoStd.
Open Scope Z_scope.
Open Scope string_scope.
Open Scope list_scope.

(** ** Data *)

Record Rule := mkRule {
  rule_ID : string;
  rule_Metric : string;
  rule_Operator : string;
  rule_Threshold : float64;
  rule_Severity : string;
}.

Inductive Decision := NoAction | CreateAlert | AutoResolve.

Record RuleDecision := mkRuleDecision {
  rd_Rule : Rule;
  rd_Decision : Decision;
  rd_Value : float64;
}.

Record BreachState := mkBreachState {
  Count : Z;
  Breaching : bool;
}.

#[global] Instance Rule_eq_dec : EqDecision Rule.
Proof. solve_decision. Defined.
#[global] Instance Decision_eq_dec : EqDecision Decision.
Proof. solve_decision. Defined.
#[global] Instance RuleDecision_eq_dec : EqDecision RuleDecision.
Proof. solve_decision. Defined.
#[global] Instance BreachState_eq_dec : EqDecision BreachState.
Proof. solve_decision. Defined.

(** The zero value a missing key of [streaks] reads as. *)
Definition zero_BreachState : BreachState := mkBreachState 0 false.

(** ** Operations *)

Definition compareThreshold (value : float64) (operator : string) (threshold : float64) : bool :=
  if decide (operator = "gt") then float_lt threshold value
  else if decide (operator = "gte") then float_le threshold value
  else if decide (operator = "lt") then float_lt value threshold
  else if decide (operator = "lte") then float_le value threshold
  else false.

(** The update of one rule's streak. *)
Definition next_state (state : BreachState) (triggered : bool) : BreachState :=
  if bool_decide (Breaching state = triggered)
  then mkBreachState (wrap64 (Count state + 1)) (Breaching state)
  else mkBreachState 1 triggered.

(** The [switch] of the loop body: what is appended to [decisions]. *)
Definition decide_rule (rule : Rule) (value : float64) (triggered active : bool)
    (state : BreachState) (debounceN : Z) : list RuleDecision :=
  if triggered && negb active && bool_decide (Count state >= debounceN)
  then [mkRuleDecision rule CreateAlert value]
  else if negb triggered && active && bool_decide (Count state >= debounceN)
  then [mkRuleDecision rule AutoResolve value]
  else [].

(** [EvaluateRules]: the loop over [rules], with [decisions] accumulated and
    [streaks] mutated in place (returned). *)
Fixpoint EvaluateRules (rules : list Rule) (readings : gmap string float64)
    (activeRuleIDs : gmap string bool) (streaks : gmap string BreachState)
    (debounceN : Z) (decisions : list RuleDecision)
    : list RuleDecision * gmap string BreachState :=
  match rules with
  | [] => (decisions, streaks)
  | rule :: rules' =>
      match readings !! rule_Metric rule with
      | None => EvaluateRules rules' readings activeRuleIDs streaks debounceN decisions
      | Some value =>
          let triggered := compareThreshold value (rule_Operator rule) (rule_Threshold rule) in
          let active := map_get false activeRuleIDs (rule_ID rule) in
          let state := next_state (map_get zero_BreachState streaks (rule_ID rule)) triggered in
          EvaluateRules rules' readings activeRuleIDs (<[rule_ID rule := state]> streaks) debounceN
            (decisions ++ decide_rule rule value triggered active state debounceN)
      end
  end.

(** [BreachTracker.Evaluate], the critical section around [EvaluateRules]: the
    tracker's map before and after. *)
Definition NewBreachTracker : gmap string BreachState := ∅.

Definition Evaluate (t : gmap string BreachState) (rules : list Rule)
    (readings : gmap string float64) (activeRuleIDs : gmap string bool) (debounceN : Z)
    : list RuleDecision * gmap string BreachState :=
  EvaluateRules rules readings activeRuleIDs t debounceN [].

(** ** Specification: the decision table of docs/alert-engine.md *)

(** One reading of one message: the rules loaded for the device, the message's
    readings and the rules with an active alert. *)
Record Eval := mkEval {
  ev_rules : list Rule;
  ev_readings : gmap string float64;
  ev_active : gmap string bool;
}.

Definition decision_table (met active reached : bool) : Decision :=
  match met, active, reached with
  | true, false, true => CreateAlert
  | false, true, true => AutoResolve
  | _, _, _ => NoAction
  end.

(** Whether rule [id] is breached in [m]; [None] when the message says nothing
    about it (the rule is not loaded or its metric is absent). *)
Definition observed (id : string) (m : Eval) : option bool :=
  r ← list_find (λ r, rule_ID r = id) (ev_rules m);
  v ← ev_readings m !! rule_Metric r.2;
  Some (compareThreshold v (rule_Operator r.2) (rule_Threshold r.2)).

(** The readings rule [id] has seen, oldest first. *)
Definition history (id : string) (msgs : list Eval) : list bool := omap (observed id) msgs.

(** The streaks after a sequence of messages. *)
Definition tracker_after (debounceN : Z) (t : gmap string BreachState) (msgs : list Eval)
    : gmap string BreachState :=
  foldl (λ t m, (Evaluate t (ev_rules m) (ev_readings m) (ev_active m) debounceN).2) t msgs.

Definition Eval_ok (m : Eval) : Prop := NoDup (rule_ID <$> ev_rules m).

#[global] Instance Eval_ok_dec m : stdpp.base.Decision (Eval_ok m).
Proof. unfold Eval_ok. apply _. Defined.

(** The decision the table prescribes for one rule of a message, given its
    streak before the message. *)
Definition table_decision (m : Eval) (t : gmap string BreachState) (debounceN : Z) (r : Rule)
    : option RuleDecision :=
  v ← ev_readings m !! rule_Metric r;
  let met := compareThreshold v (rule_Operator r) (rule_Threshold r) in
  let streak := next_state (map_get zero_BreachState t (rule_ID r)) met in
  match decision_table met (map_get false (ev_active m) (rule_ID r))
          (bool_decide (debounceN <= Count streak)) with
  | NoAction => None
  | d => Some (mkRuleDecision r d v)
  end.

(** Length of the longest constant-[b] prefix, and suffix, of a history. *)
Fixpoint lead (b : bool) (l : list bool) : nat :=
  match l with
  | x :: l' => if bool_decide (x = b) then S (lead b l') else O
  | [] => O
  end.
Definition trail (b : bool) (h : list bool) : nat := lead b (reverse h).

(** A tracker whose counters are far from overflow for [k] more readings. *)
Definition tracker_ok (t : gmap string BreachState) (k : Z) : Prop :=
  ∀ id, 0 <= Count (map_get zero_BreachState t id) ∧
        Count (map_get zero_BreachState t id) + k < max_int64.

(** The decision a breach direction calls for. *)
Definition decision_for (b : bool) : Decision := if b then CreateAlert else AutoResolve.

(** ** The loop against the table *)

Lemma decide_rule_table rule value met active st N :
  decide_rule rule value met active st N =
  match decision_table met active (bool_decide (N <= Count st)) with
  | NoAction => []
  | d => [mkRuleDecision rule d value]
  end.
Proof.
  unfold decide_rule, decision_table.
  replace (bool_decide (Count st >= N)) with (bool_decide (N <= Count st))
    by (apply bool_decide_ext; lia).
  by destruct met, active, (bool_decide (N <= Count st)).
Qed.

Lemma EvaluateRules_acc rules rd act t N ds :
  EvaluateRules rules rd act t N ds =
  (ds ++ (EvaluateRules rules rd act t N []).1, (EvaluateRules rules rd act t N []).2).
Proof.
  revert t ds. induction rules as [|r rules IH]; intros t ds; simpl.
  - by rewrite app_nil_r.
  - case_match; [|done]. rewrite (IH _ (ds ++ _)), (IH _ (decide_rule _ _ _ _ _ _)). simpl. by rewrite app_assoc.
Qed.

(** A rule's slot is only read and written by the rule itself. *)
Lemma EvaluateRules_frame rules rd act t N ds id :
  id ∉ rule_ID <$> rules → (EvaluateRules rules rd act t N ds).2 !! id = t !! id.
Proof.
  revert t ds. induction rules as [|r rules IH]; intros t ds Hid; simpl; [done|].
  rewrite fmap_cons, not_elem_of_cons in Hid. destruct Hid as [Hne Hid].
  case_match; rewrite IH; try done. by rewrite lookup_insert_ne.
Qed.

Lemma EvaluateRules_decisions rules rd act t N :
  NoDup (rule_ID <$> rules) →
  (EvaluateRules rules rd act t N []).1 = omap (table_decision (mkEval rules rd act) t N) rules.
Proof.
  intros Hnd.
  assert (∀ rs' (t' : gmap string BreachState),
    NoDup (rule_ID <$> rs') → (∀ r, r ∈ rs' → t' !! rule_ID r = t !! rule_ID r) →
    (EvaluateRules rs' rd act t' N []).1 = omap (table_decision (mkEval rules rd act) t N) rs')
    as Hgen; [|by apply Hgen].
  clear Hnd. induction rs' as [|r rs' IH]; intros t' Hnd Hsame; simpl; [done|].
  rewrite fmap_cons in Hnd. apply NoDup_cons in Hnd as [Hr Hnd].
  assert (map_get zero_BreachState t' (rule_ID r) = map_get zero_BreachState t (rule_ID r)) as Hget.
  { unfold map_get. by rewrite Hsame by left. }
  unfold table_decision at 1. simpl. case_match eqn:Hv; simpl.
  - rewrite EvaluateRules_acc. simpl. rewrite Hget, decide_rule_table. rewrite IH; [|done|].
    + by destruct (decision_table _ _ _).
    + intros r' Hr'. rewrite lookup_insert_ne; [by apply Hsame; right|].
      intros Heq. apply Hr. rewrite Heq. by apply list_elem_of_fmap_2.
  - apply IH; [done|]. intros r' Hr'. apply Hsame. by right.
Qed.

Lemma EvaluateRules_streaks rules rd act t N id :
  NoDup (rule_ID <$> rules) →
  (EvaluateRules rules rd act t N []).2 !! id =
  match observed id (mkEval rules rd act) with
  | Some b => Some (next_state (map_get zero_BreachState t id) b)
  | None => t !! id
  end.
Proof.
  revert t. induction rules as [|r rules IH]; intros t Hnd; simpl; [done|].
  rewrite fmap_cons in Hnd. apply NoDup_cons in Hnd as [Hr Hnd].
  unfold observed in *. simpl in *. destruct (decide (rule_ID r = id)) as [<-|Hne].
  - simpl. destruct (rd !! rule_Metric r) as [v|]; simpl.
    + rewrite EvaluateRules_frame by done. by rewrite lookup_insert_eq.
    + by rewrite EvaluateRules_frame.
  - destruct (rd !! rule_Metric r) as [v|] eqn:Hv.
    + rewrite EvaluateRules_acc. simpl. rewrite IH by done.
      rewrite map_get_insert_ne, lookup_insert_ne by done.
      by destruct (list_find _ rules) as [[]|].
    + rewrite IH by done. by destruct (list_find _ rules) as [[]|].
Qed.

(** ** Streaks as trailing runs *)

Lemma trail_snoc b h x :
  trail b (h ++ [x]) = if bool_decide (x = b) then S (trail b h) else O.
Proof. unfold trail. by rewrite reverse_snoc. Qed.

Lemma lead_le b l : (lead b l <= length l)%nat.
Proof. induction l as [|x l IH]; simpl; [done|]. case_bool_decide; lia. Qed.

Lemma trail_le b h : (trail b h <= length h)%nat.
Proof. unfold trail. rewrite <-(length_reverse h). apply lead_le. Qed.

Lemma lead_ge b l n : (n <= lead b l)%nat ↔ ∃ post, l = replicate n b ++ post.
Proof.
  revert l. induction n as [|n IH]; intros l; simpl.
  - split; [by exists l | lia].
  - destruct l as [|x l]; simpl.
    + split; [lia | by intros [? ?]].
    + case_bool_decide as Hx; subst.
      * rewrite <-Nat.succ_le_mono, IH.
        split; intros [post Hp]; exists post; [by rewrite Hp | by simplify_eq].
      * split; [lia | intros [? ?]; by simplify_eq].
Qed.

Lemma trail_ge b h n : (n <= trail b h)%nat ↔ ∃ pre, h = pre ++ replicate n b.
Proof.
  unfold trail. rewrite lead_ge. split.
  - intros [post Hp]. exists (reverse post). apply (f_equal reverse) in Hp.
    by rewrite reverse_involutive, reverse_app, reverse_replicate in Hp.
  - intros [pre ->]. exists (reverse pre). by rewrite reverse_app, reverse_replicate.
Qed.

(** A run of [c]s does not extend over another reading. *)
Lemma trail_break c b h1 h2 : b ≠ c → (trail c (h1 ++ b :: h2) <= length h2)%nat.
Proof.
  intros Hne. induction h2 as [|x h2 IH] using rev_ind.
  - rewrite trail_snoc, bool_decide_eq_false_2 by done. lia.
  - rewrite app_comm_cons, app_assoc, trail_snoc, length_app. simpl. case_bool_decide; lia.
Qed.

Lemma next_state_same st b :
  Breaching st = b → next_state st b = mkBreachState (wrap64 (Count st + 1)) b.
Proof. intros <-. unfold next_state. by rewrite bool_decide_eq_true_2. Qed.

Lemma next_state_flip st b : Breaching st ≠ b → next_state st b = mkBreachState 1 b.
Proof. intros ?. unfold next_state. by rewrite bool_decide_eq_false_2. Qed.

Lemma count_in_range c n : 0 <= c → c + n < max_int64 → 0 <= n → in_int64 (c + n + 1).
Proof. unfold in_int64, min_int64, max_int64. lia. Qed.

(** What a streak started at [st] counts after the history [h ++ [b]]: the
    trailing run, extended by the initial count when the run reaches back to
    it. *)
Lemma foldl_next_state st h b :
  0 <= Count st → Count st + Z.of_nat (length h) < max_int64 →
  Breaching (foldl next_state st (h ++ [b])) = b ∧
  Count (foldl next_state st (h ++ [b])) =
    Z.of_nat (trail b (h ++ [b])) +
    (if bool_decide (trail b (h ++ [b]) = length (h ++ [b]) ∧ Breaching st = b)
     then Count st else 0).
Proof.
  intros H0. revert b. induction h as [|c h IH] using rev_ind; intros b Hmax.
  - change (trail b ([] ++ [b])) with (trail b [b]).
    replace (trail b [b]) with 1%nat by (by destruct b). simpl in *.
    destruct (decide (Breaching st = b)) as [Hb|Hb].
    + rewrite next_state_same, bool_decide_eq_true_2 by done. simpl.
      split; [done|]. rewrite wrap64_id; [lia|].
      rewrite <-(Z.add_0_r (Count st)). by apply count_in_range; lia.
    + rewrite next_state_flip, bool_decide_eq_false_2 by naive_solver. done.
  - rewrite length_app in Hmax. simpl in Hmax.
    destruct (IH c) as [Hbr Hct]; [lia|].
    pose proof (trail_le c (h ++ [c])) as Hle. rewrite length_app in Hct, Hle. simpl in Hct, Hle.
    rewrite foldl_snoc, (trail_snoc b (h ++ [c])), !length_app. simpl.
    rewrite (bool_decide_eq_true_2 (b = b)) by done.
    destruct (decide (c = b)) as [->|Hne].
    + rewrite next_state_same by done. simpl. split; [done|]. rewrite wrap64_id; rewrite Hct.
      * replace (bool_decide (S (trail b (h ++ [b])) = length h + 1 + 1 ∧ Breaching st = b)%nat)
          with (bool_decide (trail b (h ++ [b]) = length h + 1 ∧ Breaching st = b)%nat)
          by (apply bool_decide_ext; split; intros [??]; (split; [lia | done])).
        lia.
      * unfold in_int64, min_int64. unfold max_int64 in *. case_bool_decide; lia.
    + rewrite next_state_flip by congruence. split; [done|]. simpl.
      rewrite trail_snoc, (bool_decide_eq_false_2 (c = b)) by done.
      rewrite bool_decide_eq_false_2 by lia. done.
Qed.

(** ** Evaluations over a message history *)

Lemma observed_rule m r :
  Eval_ok m → r ∈ ev_rules m →
  observed (rule_ID r) m =
    (λ v, compareThreshold v (rule_Operator r) (rule_Threshold r)) <$> ev_readings m !! rule_Metric r.
Proof.
  unfold Eval_ok, observed. destruct m as [rs rd act]. simpl. intros Hnd Hr.
  destruct (list_find (λ r', rule_ID r' = rule_ID r) rs) as [[i r']|] eqn:E.
  - apply list_find_Some in E as (Hi & Hid & _). simpl.
    assert (r' = r) as ->; [|by destruct (rd !! _)].
    apply list_elem_of_lookup in Hr as [j Hj].
    assert (i = j) as ->; [|by simplify_eq].
    eapply (NoDup_lookup _ i j (rule_ID r) Hnd); rewrite list_lookup_fmap;
      [by rewrite Hi; simpl; rewrite Hid | by rewrite Hj].
  - apply list_find_None in E. rewrite Forall_forall in E. by destruct (E r Hr).
Qed.

(** Every slot of the tracker is the fold of its own rule's history. *)
Lemma tracker_after_get N t msgs id :
  Forall Eval_ok msgs →
  map_get zero_BreachState (tracker_after N t msgs) id =
  foldl next_state (map_get zero_BreachState t id) (history id msgs).
Proof.
  intros HF. revert t. induction HF as [|m msgs Hm HF IH]; intros t; [done|].
  unfold tracker_after, history in *. simpl. rewrite IH. unfold Evaluate, map_get at 1.
  rewrite EvaluateRules_streaks by done. destruct m as [rs rd act]. simpl.
  by destruct (observed id _).
Qed.

Lemma history_app id ms1 ms2 : history id (ms1 ++ ms2) = history id ms1 ++ history id ms2.
Proof. unfold history. apply omap_app. Qed.

Lemma history_single id m b : observed id m = Some b → history id [m] = [b].
Proof. unfold history. simpl. by intros ->. Qed.

Lemma length_history_le id ms : (length (history id ms) <= length ms)%nat.
Proof.
  induction ms as [|m ms IH]; [done|]. change (m :: ms) with ([m] ++ ms).
  rewrite history_app, !length_app. unfold history at 1. simpl.
  destruct (observed id m); simpl; lia.
Qed.

Lemma tracker_ok_new k : k < max_int64 → tracker_ok NewBreachTracker k.
Proof. intros ? id. unfold map_get, NewBreachTracker. rewrite lookup_empty. simpl. lia. Qed.

(** The streak a message leaves for a rule it observes. *)
Lemma streak_after N t msgs m id b :
  tracker_ok t (Z.of_nat (length msgs)) → Forall Eval_ok msgs → observed id m = Some b →
  Count (next_state (map_get zero_BreachState (tracker_after N t msgs) id) b) =
    Z.of_nat (trail b (history id (msgs ++ [m]))) +
    (if bool_decide (trail b (history id (msgs ++ [m])) = length (history id (msgs ++ [m])) ∧
                     Breaching (map_get zero_BreachState t id) = b)
     then Count (map_get zero_BreachState t id) else 0).
Proof.
  intros Hok HF Hb. destruct (Hok id) as [H0 H1]. pose proof (length_history_le id msgs).
  rewrite tracker_after_get by done. rewrite history_app, (history_single id m b) by done.
  rewrite <-(foldl_snoc next_state). by apply foldl_next_state; [|lia].
Qed.

Lemma streak_after_new N msgs m id b :
  Z.of_nat (length msgs) < max_int64 → Forall Eval_ok msgs → observed id m = Some b →
  Count (next_state (map_get zero_BreachState (tracker_after N NewBreachTracker msgs) id) b) =
    Z.of_nat (trail b (history id (msgs ++ [m]))).
Proof.
  intros Hlen HF Hb. rewrite (streak_after N NewBreachTracker msgs m) by (auto using tracker_ok_new).
  unfold map_get, NewBreachTracker. rewrite lookup_empty. simpl. case_match; lia.
Qed.

Lemma elem_of_Evaluate m t N d :
  Eval_ok m →
  d ∈ (Evaluate t (ev_rules m) (ev_readings m) (ev_active m) N).1 ↔
  ∃ r, r ∈ ev_rules m ∧ table_decision m t N r = Some d.
Proof.
  intros Hok. unfold Evaluate. rewrite EvaluateRules_decisions by done.
  rewrite list_elem_of_omap. by destruct m.
Qed.

Lemma table_decision_Some m t N r d :
  table_decision m t N r = Some d ↔
  ∃ v b, ev_readings m !! rule_Metric r = Some v ∧
    b = compareThreshold v (rule_Operator r) (rule_Threshold r) ∧
    d = mkRuleDecision r (decision_for b) v ∧
    map_get false (ev_active m) (rule_ID r) = negb b ∧
    N <= Count (next_state (map_get zero_BreachState t (rule_ID r)) b).
Proof.
  unfold table_decision. destruct (ev_readings m !! rule_Metric r) as [v|]; simpl; [|naive_solver].
  remember (compareThreshold v _ _) as b eqn:Hb. unfold decision_table. split.
  - intros H. exists v, b.
    destruct b, (map_get false _ _); simplify_eq; case_bool_decide; naive_solver.
  - intros (v' & b' & [= <-] & Hb' & -> & Hact & Hc). rewrite <-Hb in Hb'. subst b'.
    rewrite Hact, bool_decide_eq_true_2 by done. by destruct b.
Qed.

(** The same, for one given rule of a message. *)
Lemma elem_of_Evaluate_rule m t N r v b :
  Eval_ok m → r ∈ ev_rules m → ev_readings m !! rule_Metric r = Some v →
  mkRuleDecision r (decision_for b) v ∈
    (Evaluate t (ev_rules m) (ev_readings m) (ev_active m) N).1 ↔
  observed (rule_ID r) m = Some b ∧
  map_get false (ev_active m) (rule_ID r) = negb b ∧
  N <= Count (next_state (map_get zero_BreachState t (rule_ID r)) b).
Proof.
  intros Hok Hr Hv. rewrite elem_of_Evaluate by done.
  rewrite (observed_rule m r) by done. rewrite Hv. simpl. split.
  - intros (r' & Hr' & (v' & b' & Hv' & Hb' & Hd & Hact & Hc)%table_decision_Some).
    assert (b' = b) as ->; [by destruct b, b'; simplify_eq|]. simplify_eq. eauto.
  - intros ([= Hb] & Hact & Hc). exists r. split; [done|].
    apply table_decision_Some. by exists v, b.
Qed.

(** What a decision says about the message that caused it. *)
Lemma decision_observed m t N r b v :
  Eval_ok m →
  mkRuleDecision r (decision_for b) v ∈
    (Evaluate t (ev_rules m) (ev_readings m) (ev_active m) N).1 →
  observed (rule_ID r) m = Some b ∧
  N <= Count (next_state (map_get zero_BreachState t (rule_ID r)) b).
Proof.
  intros Hok (r' & Hr & (v' & b' & Hv & Hb & [= <- Hd <-] & _ & Hc)%table_decision_Some)%elem_of_Evaluate;
    [|done].
  assert (b' = b) as -> by (by destruct b, b').
  split; [|done]. rewrite observed_rule, Hv by done. simpl. by rewrite Hb.
Qed.

(** Whether the streak of rule [id] has reached the window after a message that
    reads [b] for it. *)
Lemma reached_fresh_vs_old (n : nat) t msgs m id b :
  tracker_ok t (Z.of_nat (length msgs)) → Forall Eval_ok msgs → observed id m = Some b →
  let reached t0 := Z.of_nat n <= Count (next_state
    (map_get zero_BreachState (tracker_after (Z.of_nat n) t0 msgs) id) b) in
  (reached NewBreachTracker → reached t) ∧
  ((n <= length (history id (msgs ++ [m])))%nat → reached t → reached NewBreachTracker).
Proof.
  intros Hok HF Hb reached. unfold reached. destruct (Hok id) as [H0 H1].
  rewrite (streak_after_new _ _ m) by (done || lia).
  rewrite (streak_after _ t msgs m) by done.
  split; intros; case_bool_decide; lia.
Qed.

Lemma table_decision_mono m t1 t2 N r :
  Eval_ok m → r ∈ ev_rules m →
  (∀ b, observed (rule_ID r) m = Some b →
    N <= Count (next_state (map_get zero_BreachState t1 (rule_ID r)) b) →
    N <= Count (next_state (map_get zero_BreachState t2 (rule_ID r)) b)) →
  ∀ d, table_decision m t1 N r = Some d → table_decision m t2 N r = Some d.
Proof.
  intros Hok Hr Hmono d (v & b & Hv & Hb & Hd & Hact & Hc)%table_decision_Some.
  apply table_decision_Some. exists v, b. repeat split; try done. apply Hmono; [|done].
  rewrite observed_rule, Hv by done. simpl. by rewrite Hb.
Qed.

(** ** Properties *)

(** C11: With distinct rule ids, one call of [EvaluateRules] returns exactly, in
    rule order, the decisions of the decision table of docs/alert-engine.md
    (condition met / alert active / streak reached [debounceN]), and leaves in
    the tracker one step of the streak of every observed rule and every other
    slot untouched. *)
Theorem EvaluateRules_decision_table rules readings active t N :
  NoDup (rule_ID <$> rules) →
  let m := mkEval rules readings active in
  (EvaluateRules rules readings active t N []).1 = omap (table_decision m t N) rules ∧
  ∀ id, (EvaluateRules rules readings active t N []).2 !! id =
    match observed id m with
    | Some b => Some (next_state (map_get zero_BreachState t id) b)
    | None => t !! id
    end.
Proof.
  intros Hnd m. split; [by apply EvaluateRules_decisions|].
  intros id. by apply EvaluateRules_streaks.
Qed.

Definition wit_rule (id sev : string) (thr : Z) : Rule :=
  mkRule id "temperature_c" "gt" (float_of_Z thr) sev.
Definition wit_rules : list Rule := [wit_rule "warn" "warning" 28; wit_rule "crit" "critical" 32].
Definition wit_eval (temp : Z) (active : gmap string bool) : Eval :=
  mkEval wit_rules {["temperature_c" := float_of_Z temp]} active.

Lemma EvaluateRules_decision_table_witness :
  NoDup (rule_ID <$> wit_rules) ∧
  (EvaluateRules wit_rules {["temperature_c" := float_of_Z 30]} {["crit" := true]} ∅ 1 []).1 =
    [mkRuleDecision (wit_rule "warn" "warning" 28) CreateAlert (float_of_Z 30);
     mkRuleDecision (wit_rule "crit" "critical" 32) AutoResolve (float_of_Z 30)].
Proof.
  assert (NoDup (rule_ID <$> wit_rules)) as Hnd by (vm_compute; repeat constructor; set_solver).
  split; [exact Hnd|].
  rewrite (proj1 (EvaluateRules_decision_table wit_rules {["temperature_c" := float_of_Z 30]}
    {["crit" := true]} ∅ 1 Hnd)). vm_compute. reflexivity.
Defined.

(** C10: Debounce.  After any sequence of messages on a fresh tracker (rule sets,
    thresholds and active sets may change from message to message), the next
    evaluation creates an alert for a rule ([b = true]) or auto-resolves it
    ([b = false]) if and only if the rule has no active alert (resp. has one)
    and its last [n] readings were all breaching (resp. all non-breaching). *)
Theorem decision_iff_n_consecutive_readings (n : nat) msgs m r v b :
  (1 <= n)%nat → Z.of_nat (length msgs) < max_int64 →
  Forall Eval_ok (msgs ++ [m]) → r ∈ ev_rules m → ev_readings m !! rule_Metric r = Some v →
  mkRuleDecision r (decision_for b) v ∈
    (Evaluate (tracker_after (Z.of_nat n) NewBreachTracker msgs)
       (ev_rules m) (ev_readings m) (ev_active m) (Z.of_nat n)).1 ↔
  map_get false (ev_active m) (rule_ID r) = negb b ∧
  ∃ pre, history (rule_ID r) (msgs ++ [m]) = pre ++ replicate n b.
Proof.
  intros Hn Hlen [HF [Hm _]%Forall_cons]%Forall_app Hr Hv.
  rewrite elem_of_Evaluate_rule by done. rewrite <-trail_ge.
  pose proof (observed_rule m r Hm Hr) as Hobs. rewrite Hv in Hobs. simpl in Hobs.
  set (b' := compareThreshold _ _ _) in Hobs.
  destruct (decide (b' = b)) as [Hb|Hb].
  - subst b. rewrite (streak_after_new _ _ m) by done. intuition lia.
  - rewrite history_app, (history_single _ m b') by done. rewrite trail_snoc.
    rewrite bool_decide_eq_false_2 by done. split.
    + intros (Hb2 & _). congruence.
    + intros (_ & Hc). lia.
Qed.

Lemma decision_iff_n_consecutive_readings_witness :
  mkRuleDecision (wit_rule "warn" "warning" 28) CreateAlert (float_of_Z 33) ∈
    (Evaluate (tracker_after 3 NewBreachTracker [wit_eval 33 ∅; wit_eval 33 ∅])
       wit_rules {["temperature_c" := float_of_Z 33]} ∅ 3).1.
Proof.
  apply (decision_iff_n_consecutive_readings 3 [wit_eval 33 ∅; wit_eval 33 ∅] (wit_eval 33 ∅)
           (wit_rule "warn" "warning" 28) (float_of_Z 33) true).
  - lia.
  - vm_compute. reflexivity.
  - vm_compute. repeat constructor; set_solver.
  - left.
  - vm_compute. reflexivity.
  - split; [vm_compute; reflexivity|]. exists []. vm_compute. reflexivity.
Defined.

(** C12: No flapping.  Between a create and a later auto-resolve of the same rule
    (or the reverse) the rule has seen at least [n] further readings: opposite
    decisions of one rule are never closer than the debounce window, whatever
    the values do and however the rule was edited in between. *)
Theorem opposite_decisions_n_apart (n : nat) msgs1 m1 msgs2 m2 r1 r2 v1 v2 b :
  Z.of_nat (length (msgs1 ++ m1 :: msgs2)) < max_int64 →
  Forall Eval_ok (msgs1 ++ m1 :: msgs2 ++ [m2]) → rule_ID r1 = rule_ID r2 →
  mkRuleDecision r1 (decision_for b) v1 ∈
    (Evaluate (tracker_after (Z.of_nat n) NewBreachTracker msgs1)
       (ev_rules m1) (ev_readings m1) (ev_active m1) (Z.of_nat n)).1 →
  mkRuleDecision r2 (decision_for (negb b)) v2 ∈
    (Evaluate (tracker_after (Z.of_nat n) NewBreachTracker (msgs1 ++ m1 :: msgs2))
       (ev_rules m2) (ev_readings m2) (ev_active m2) (Z.of_nat n)).1 →
  (n <= length (history (rule_ID r1) (msgs2 ++ [m2])))%nat.
Proof.
  intros Hlen [HF1 [Hm1 [HF2 [Hm2 _]%Forall_cons]%Forall_app]%Forall_cons]%Forall_app Hid Hd1 Hd2.
  apply decision_observed in Hd1 as [Ho1 _]; [|done].
  apply decision_observed in Hd2 as [Ho2 Hc]; [|done]. rewrite <-Hid in Ho2, Hc.
  rewrite (streak_after_new _ _ m2) in Hc; [|done|by apply Forall_app; split; [|constructor]|done].
  apply Nat2Z.inj_le in Hc. rewrite <-app_assoc, history_app in Hc. simpl in Hc.
  unfold history in Hc at 2. simpl in Hc. rewrite Ho1 in Hc.
  etransitivity; [exact Hc|]. apply trail_break. by destruct b.
Qed.

Lemma opposite_decisions_n_apart_witness :
  (2 <= length (history "crit" ([wit_eval 20 {["crit" := true]}] ++ [wit_eval 20 {["crit" := true]}])))%nat.
Proof.
  apply (opposite_decisions_n_apart 2 [wit_eval 33 ∅] (wit_eval 33 ∅)
    [wit_eval 20 {["crit" := true]}] (wit_eval 20 {["crit" := true]})
    (wit_rule "crit" "critical" 32) (wit_rule "crit" "critical" 32)
    (float_of_Z 33) (float_of_Z 20) true).
  - vm_compute. reflexivity.
  - vm_compute. repeat constructor; set_solver.
  - reflexivity.
  - right. left.
  - left.
Defined.

(** C13: Restart.  Losing the in-memory streaks (a fresh tracker instead of any
    tracker [t]) never causes a decision the old tracker would not have taken,
    and causes the same decisions once every rule the message observes has been
    observed [n] times since: at most [n - 1] readings of delay. *)
Theorem restart_only_delays (n : nat) t msgs m :
  tracker_ok t (Z.of_nat (length msgs)) → Forall Eval_ok (msgs ++ [m]) →
  let decisions t0 :=
    (Evaluate (tracker_after (Z.of_nat n) t0 msgs)
       (ev_rules m) (ev_readings m) (ev_active m) (Z.of_nat n)).1 in
  (∀ d, d ∈ decisions NewBreachTracker → d ∈ decisions t) ∧
  ((∀ id b, observed id m = Some b → (n <= length (history id (msgs ++ [m])))%nat) →
   decisions NewBreachTracker = decisions t).
Proof.
  intros Hok [HF [Hm _]%Forall_cons]%Forall_app decisions. unfold decisions. split.
  - intros d. rewrite !elem_of_Evaluate by done. intros (r & Hr & Hd). exists r. split; [done|].
    eapply table_decision_mono; [done..| |exact Hd].
    intros b Hb. by apply (reached_fresh_vs_old n t msgs m).
  - intros Hlong. unfold Evaluate. rewrite !EvaluateRules_decisions by done.
    apply list_omap_ext, Forall_Forall2_diag, Forall_forall. intros r Hr.
    apply option_eq. intros d. destruct m as [rs rd ac]. simpl in *.
    split; apply table_decision_mono; try done;
      intros b Hb; apply (reached_fresh_vs_old n t msgs (mkEval rs rd ac)); eauto.
Qed.

Lemma restart_only_delays_witness :
  (Evaluate (tracker_after 2 NewBreachTracker [wit_eval 33 ∅]) wit_rules
     {["temperature_c" := float_of_Z 33]} ∅ 2).1 =
  (Evaluate (tracker_after 2 {["warn" := mkBreachState 7 true]} [wit_eval 33 ∅]) wit_rules
     {["temperature_c" := float_of_Z 33]} ∅ 2).1.
Proof.
  apply (restart_only_delays 2 {["warn" := mkBreachState 7 true]} [wit_eval 33 ∅] (wit_eval 33 ∅)).
  - intros id. unfold map_get. destruct (decide (id = "warn")) as [->|].
    + vm_compute. split; [intros [=] | reflexivity].
    + rewrite lookup_singleton_ne by done. vm_compute. split; [intros [=] | reflexivity].
  - vm_compute. repeat constructor; set_solver.
  - intros id b Hb. rewrite history_app, (history_single id (wit_eval 33 ∅) b) by exact Hb.
    simpl. lia.
Defined.

(** [debounceN = 1] reproduces the engine without debounce: on any tracker
    far from overflow every observed rule acts on the very first reading,
    create when breached and inactive, auto-resolve when clear and active. *)
Theorem debounce_one_is_naive t rules readings active :
  NoDup (rule_ID <$> rules) → tracker_ok t 1 →
  (EvaluateRules rules readings active t 1 []).1 =
  omap (λ r, v ← readings !! rule_Metric r;
          match decision_table (compareThreshold v (rule_Operator r) (rule_Threshold r))
                  (map_get false active (rule_ID r)) true with
          | NoAction => None
          | d => Some (mkRuleDecision r d v)
          end) rules.
Proof.
  intros Hnd Hok. rewrite EvaluateRules_decisions by done.
  apply list_omap_ext, Forall_Forall2_diag, Forall_forall. intros r _.
  unfold table_decision. simpl. destruct (readings !! _) as [v|]; [simpl|done].
  set (b := compareThreshold _ _ _). rewrite bool_decide_eq_true_2; [done|].
  destruct (Hok (rule_ID r)) as [H0 H1]. destruct (decide (Breaching (map_get zero_BreachState t (rule_ID r)) = b)).
  - rewrite next_state_same by done. simpl. rewrite wrap64_id; [lia|].
    rewrite <-(Z.add_0_r (Count _)). apply count_in_range; lia.
  - rewrite next_state_flip by done. simpl. lia.
Qed.

Lemma debounce_one_is_naive_witness :
  (EvaluateRules wit_rules {["temperature_c" := float_of_Z 30]} {["crit" := true]} NewBreachTracker 1 []).1 =
    [mkRuleDecision (wit_rule "warn" "warning" 28) CreateAlert (float_of_Z 30);
     mkRuleDecision (wit_rule "crit" "critical" 32) AutoResolve (float_of_Z 30)].
Proof.
  rewrite debounce_one_is_naive.
  - vm_compute. reflexivity.
  - vm_compute. repeat constructor; set_solver.
  - apply tracker_ok_new. vm_compute. reflexivity.
Defined.
