(* ===== verification/Pg.v ===== *)
(** * The relational store both services share

    The tables of [infra/postgres/init.sql] as finite maps keyed by primary
    key, and one definition per SQL statement of [ingestion/] and [api/] that
    writes them, with the schema's CHECK and FOREIGN KEY constraints and the
    SQLSTATE a violation raises.  Connection failures, clocks and random ids
    are supplied by [World]. *)

From S2P Require Import Prelude GoStd.
Open Scope Z_scope.
Open Scope string_scope.
Open Scope list_scope.

(** ** What is used of PostgreSQL beyond the statements themselves *)

(** [uuid_in] is the input function of type [uuid] (text to canonical text, [None]
    for error 22P02), [text_in] whether the server takes the bytes of a [text]
    parameter (valid UTF-8 without NUL; otherwise error 22021, before the statement
    is run) and [text_le] the collation order of [ORDER BY]. *)
Class PgLib := {
  uuid_in : string → option string;
  uuid_in_canonical : ∀ s u, uuid_in s = Some u → uuid_in u = Some u;
  text_in : string → bool;
  text_le : string → string → bool;
  text_le_total : ∀ a b, text_le a b = true ∨ text_le b a = true;
  text_le_trans : ∀ a b c, text_le a b = true → text_le b c = true → text_le a c = true;
}.

(** NUMERIC has no negative zero; a [float64] parameter is otherwise sent as its
    shortest decimal and read back unchanged. *)
Definition pg_numeric (x : float64) : float64 :=
  match x with S754_zero _ => S754_zero false | _ => x end.

(** TIMESTAMPTZ keeps microseconds. *)
Definition pg_timestamptz (t : time) : time := t / 1000 * 1000.

(** ** Schema *)

Record SiteRow := mkSiteRow {
  s_name : string;
  s_type : string;
  s_location : option string;
}.

Record DeviceRow := mkDeviceRow {
  d_site_id : string;
  d_name : string;
  d_type : string;
  d_last_seen_at : option time;
}.

Record AlertRuleRow := mkAlertRuleRow {
  ar_device_id : string;
  ar_metric : string;
  ar_operator : string;
  ar_threshold : float64;
  ar_severity : string;
  ar_enabled : bool;
}.

Record UserRow := mkUserRow {
  u_email : string;
  u_name : string;
  u_role : string;
}.

(** alerts.status, TEXT restricted by CHECK to three values. *)
Inductive Status := open | acknowledged | resolved.

Definition status_text (s : Status) : string :=
  match s with
  | open => "open"
  | acknowledged => "acknowledged"
  | resolved => "resolved"
  end.

Record AlertRow := mkAlertRow {
  al_alert_rule_id : string;
  al_device_id : string;
  al_triggered_value : float64;
  al_severity : string;
  al_status : Status;
  al_triggered_at : time;
  al_acknowledged_at : option time;
  al_acknowledged_by : option string;
  al_resolved_at : option time;
  al_resolved_by : option string;
}.

Record Pg := mkPg {
  sites : gmap string SiteRow;
  devices : gmap string DeviceRow;
  alert_rules : gmap string AlertRuleRow;
  users : gmap string UserRow;
  alerts : gmap string AlertRow;
}.

#[global] Instance Status_eq_dec : EqDecision Status.
Proof. solve_decision. Defined.
#[global] Instance AlertRow_eq_dec : EqDecision AlertRow.
Proof. solve_decision. Defined.
#[global] Instance AlertRuleRow_eq_dec : EqDecision AlertRuleRow.
Proof. solve_decision. Defined.

Definition set_devices (f : gmap string DeviceRow → gmap string DeviceRow) (db : Pg) : Pg :=
  mkPg (sites db) (f (devices db)) (alert_rules db) (users db) (alerts db).
Definition set_alert_rules (f : gmap string AlertRuleRow → gmap string AlertRuleRow) (db : Pg) : Pg :=
  mkPg (sites db) (devices db) (f (alert_rules db)) (users db) (alerts db).
Definition set_alerts (f : gmap string AlertRow → gmap string AlertRow) (db : Pg) : Pg :=
  mkPg (sites db) (devices db) (alert_rules db) (users db) (f (alerts db)).

(** CHECK constraints. *)
Definition severity_check (s : string) : bool := bool_decide (s ∈ ["warning"; "critical"]).
Definition operator_check (s : string) : bool := bool_decide (s ∈ ["gt"; "gte"; "lt"; "lte"]).
Definition site_type_check (s : string) : bool := bool_decide (s ∈ ["data_center"; "building"; "factory"]).
Definition device_type_check (s : string) : bool :=
  bool_decide (s ∈ ["smart_meter"; "temp_sensor"; "humidity_sensor"; "ups"; "hvac"]).
Definition role_check (s : string) : bool := bool_decide (s ∈ ["admin"; "operator"; "viewer"]).

(** [status IN ('open', 'acknowledged')]. *)
Definition is_active (a : AlertRow) : bool :=
  bool_decide (al_status a = open ∨ al_status a = acknowledged).

Definition invalid_text_representation : string := "22P02".
Definition character_not_in_repertoire : string := "22021".
Definition unique_violation : string := "23505".
Definition foreign_key_violation : string := "23503".
Definition check_violation : string := "23514".

(** A statement: its result or error, and the tables after it. *)
Abbreviation stmt A := (Pg → result A * Pg) (only parsing).

(** ** The SET clauses of the three alert updates *)

(** status = 'resolved', resolved_at = $1 *)
Definition auto_resolve_row (at_ : time) (a : AlertRow) : AlertRow :=
  mkAlertRow (al_alert_rule_id a) (al_device_id a) (al_triggered_value a) (al_severity a) resolved
    (al_triggered_at a) (al_acknowledged_at a) (al_acknowledged_by a)
    (Some (pg_timestamptz at_)) (al_resolved_by a).

(** SET status = 'acknowledged', acknowledged_at = now(), acknowledged_by = $2 *)
Definition ack_row (now : time) (uid : string) (a : AlertRow) : AlertRow :=
  mkAlertRow (al_alert_rule_id a) (al_device_id a) (al_triggered_value a) (al_severity a) acknowledged
    (al_triggered_at a) (Some (pg_timestamptz now)) (Some uid) (al_resolved_at a) (al_resolved_by a).

(** SET status = 'resolved', resolved_at = now(), resolved_by = $2 *)
Definition resolve_row (now : time) (uid : string) (a : AlertRow) : AlertRow :=
  mkAlertRow (al_alert_rule_id a) (al_device_id a) (al_triggered_value a) (al_severity a) resolved
    (al_triggered_at a) (al_acknowledged_at a) (al_acknowledged_by a)
    (Some (pg_timestamptz now)) (Some uid).

(** ** Invariants *)

(** The timestamps and users of an alert agree with its status. *)
Definition lifecycle_ok (a : AlertRow) : Prop :=
  match al_status a with
  | open => al_acknowledged_at a = None ∧ al_acknowledged_by a = None ∧
            al_resolved_at a = None ∧ al_resolved_by a = None
  | acknowledged => is_Some (al_acknowledged_at a) ∧ is_Some (al_acknowledged_by a) ∧
                    al_resolved_at a = None ∧ al_resolved_by a = None
  | resolved => is_Some (al_resolved_at a) ∧
                (is_Some (al_acknowledged_at a) ↔ is_Some (al_acknowledged_by a))
  end.

(** The declared constraints of the schema, and [lifecycle_ok]. *)
Record Pg_ok (db : Pg) : Prop := {
  ok_site : ∀ id s, sites db !! id = Some s → site_type_check (s_type s) = true;
  ok_device_type : ∀ id d, devices db !! id = Some d → device_type_check (d_type d) = true;
  ok_user : ∀ id u, users db !! id = Some u → role_check (u_role u) = true;
  ok_email : ∀ i j u v, users db !! i = Some u → users db !! j = Some v → u_email u = u_email v → i = j;
  ok_device : ∀ id d, devices db !! id = Some d → is_Some (sites db !! d_site_id d);
  ok_rule : ∀ id r, alert_rules db !! id = Some r →
    is_Some (devices db !! ar_device_id r) ∧
    operator_check (ar_operator r) = true ∧ severity_check (ar_severity r) = true;
  ok_alert : ∀ id a, alerts db !! id = Some a →
    is_Some (alert_rules db !! al_alert_rule_id a) ∧ is_Some (devices db !! al_device_id a) ∧
    severity_check (al_severity a) = true ∧
    (∀ u, al_acknowledged_by a = Some u → is_Some (users db !! u)) ∧
    (∀ u, al_resolved_by a = Some u → is_Some (users db !! u));
  ok_lifecycle : ∀ id a, alerts db !! id = Some a → lifecycle_ok a;
}.

(** The invariant docs/alert-engine.md claims for the engine: at most one active
    alert per rule. *)
Definition at_most_one_active (db : Pg) : Prop :=
  ∀ i j a b, alerts db !! i = Some a → alerts db !! j = Some b →
    is_active a = true → is_active b = true →
    al_alert_rule_id a = al_alert_rule_id b → i = j.

(** Alerts [i] and [j] violate it. *)
Definition duplicateb (db : Pg) (i j : string) : bool :=
  match alerts db !! i, alerts db !! j with
  | Some a, Some b =>
      is_active a && is_active b && bool_decide (al_alert_rule_id a = al_alert_rule_id b) &&
      negb (bool_decide (i = j))
  | _, _ => false
  end.

(** Rule [rid] has an active alert. *)
Definition rule_active (db : Pg) (rid : string) : Prop :=
  ∃ i a, alerts db !! i = Some a ∧ al_alert_rule_id a = rid ∧ is_active a = true.

(** Every alert names the device of its rule. *)
Definition device_coherent (db : Pg) : Prop :=
  ∀ i a r, alerts db !! i = Some a → alert_rules db !! al_alert_rule_id a = Some r →
    ar_device_id r = al_device_id a.

(** ** The alert life cycle

    What one statement may do to an existing alert. *)
Inductive alert_step : AlertRow → AlertRow → Prop :=
| step_acknowledge a now uid :
    al_status a = open → alert_step a (ack_row now uid a)
| step_resolve a now uid :
    is_active a = true → alert_step a (resolve_row now uid a)
| step_auto_resolve a at_ :
    is_active a = true → alert_step a (auto_resolve_row at_ a).

(** Alerts are never deleted and only move along the life cycle. *)
Definition alerts_evolve (db db' : Pg) : Prop :=
  ∀ id a, alerts db !! id = Some a →
    ∃ a', alerts db' !! id = Some a' ∧ rtc alert_step a a'.

(** A rule never changes device. *)
Definition rules_keep_device (db db' : Pg) : Prop :=
  ∀ id r r', alert_rules db !! id = Some r → alert_rules db' !! id = Some r' →
    ar_device_id r' = ar_device_id r.

(** What every statement guarantees, whatever its arguments. *)
Definition stmt_guarantee (db db' : Pg) : Prop :=
  Pg_ok db' ∧ alerts_evolve db db' ∧ rules_keep_device db db'.

Section Statements.
Context `{!PgLib}.

Definition fail {A} (code : string) : stmt A := λ db, (Err (PgError code), db).

(** ** ingestion/alerts.go *)

(** SELECT id, metric, operator, threshold, severity FROM alert_rules
    WHERE device_id = $1 AND enabled = true *)
Definition select_enabled_rules (deviceID : string) (db : Pg) : result (list (string * AlertRuleRow)) :=
  match uuid_in deviceID with
  | Some did =>
      Ok (filter (λ p, ar_device_id p.2 = did ∧ ar_enabled p.2 = true) (map_to_list (alert_rules db)))
  | None => Err (PgError invalid_text_representation)
  end.

(** SELECT alert_rule_id FROM alerts
    WHERE device_id = $1 AND status IN ('open', 'acknowledged') *)
Definition select_active_rule_ids (deviceID : string) (db : Pg) : result (list string) :=
  match uuid_in deviceID with
  | Some did =>
      Ok (al_alert_rule_id ∘ snd <$>
          filter (λ p, al_device_id p.2 = did ∧ is_active p.2 = true) (map_to_list (alerts db)))
  | None => Err (PgError invalid_text_representation)
  end.

(** INSERT INTO alerts (alert_rule_id, device_id, triggered_value, severity,
    status, triggered_at) VALUES ($1, $2, $3, $4, 'open', $5); [newid] is the
    column default [gen_random_uuid()].  (The severity is one the server itself
    delivered, so its encoding is not in question.) *)
Definition insert_alert (newid ruleID deviceID : string) (value : float64) (severity : string)
    (at_ : time) : stmt unit := λ db,
  match uuid_in ruleID, uuid_in deviceID with
  | Some rid, Some did =>
      if negb (severity_check severity) then fail check_violation db
      else if decide (is_Some (alerts db !! newid)) then fail unique_violation db
      else if decide (alert_rules db !! rid = None ∨ devices db !! did = None)
      then fail foreign_key_violation db
      else (Ok tt, set_alerts <[newid := mkAlertRow rid did (pg_numeric value) severity open
                                  (pg_timestamptz at_) None None None None]> db)
  | _, _ => fail invalid_text_representation db
  end.

(** UPDATE alerts SET status = 'resolved', resolved_at = $1
    WHERE alert_rule_id = $2 AND status IN ('open', 'acknowledged') *)
Definition auto_resolve_alerts (at_ : time) (ruleID : string) : stmt unit := λ db,
  match uuid_in ruleID with
  | Some rid =>
      (Ok tt, set_alerts (fmap (λ a,
         if bool_decide (al_alert_rule_id a = rid) && is_active a
         then auto_resolve_row at_ a else a)) db)
  | None => fail invalid_text_representation db
  end.

(** ** ingestion/store.go *)

(** UPDATE devices SET last_seen_at = $1 WHERE id = $2 *)
Definition update_last_seen (at_ : time) (deviceID : string) : stmt unit := λ db,
  match uuid_in deviceID with
  | Some did =>
      (Ok tt, set_devices (alter (λ d,
         mkDeviceRow (d_site_id d) (d_name d) (d_type d) (Some (pg_timestamptz at_))) did) db)
  | None => fail invalid_text_representation db
  end.

(** ** api/alerts.go *)

(** UPDATE alerts SET ... WHERE id = $1 AND status IN (from) RETURNING ...: the
    shape shared by the acknowledge and the resolve statement.  The user
    reference is only checked for a row that is updated. *)
Definition transition_stmt (from : list Status) (upd : time → string → AlertRow → AlertRow)
    (now : time) (id userID : string) : stmt (string * AlertRow) := λ db,
  match uuid_in id, uuid_in userID with
  | Some aid, Some uid =>
      match alerts db !! aid with
      | Some a =>
          if decide (al_status a ∈ from)
          then if decide (users db !! uid = None) then fail foreign_key_violation db
               else (Ok (aid, upd now uid a), set_alerts <[aid := upd now uid a]> db)
          else (Err ErrNoRows, db)
      | None => (Err ErrNoRows, db)
      end
  | _, _ => fail invalid_text_representation db
  end.

(** SELECT true FROM alerts WHERE id = $1 *)
Definition alert_exists (id : string) (db : Pg) : result bool :=
  match uuid_in id with
  | Some aid => if decide (is_Some (alerts db !! aid)) then Ok true else Err ErrNoRows
  | None => Err (PgError invalid_text_representation)
  end.

(** ** api/alert_rules.go *)

(** INSERT INTO alert_rules (...) VALUES ($1, ..., $6) RETURNING ... *)
Definition insert_rule (newid deviceID metric operator : string) (threshold : float64)
    (severity : string) (enabled : bool) : stmt (string * AlertRuleRow) := λ db,
  match uuid_in deviceID with
  | Some did =>
      if negb (forallb text_in [metric; operator; severity]) then fail character_not_in_repertoire db
      else if negb (operator_check operator && severity_check severity) then fail check_violation db
      else if decide (is_Some (alert_rules db !! newid)) then fail unique_violation db
      else if decide (devices db !! did = None) then fail foreign_key_violation db
      else let row := mkAlertRuleRow did metric operator (pg_numeric threshold) severity enabled in
           (Ok (newid, row), set_alert_rules <[newid := row]> db)
  | None => fail invalid_text_representation db
  end.

(** UPDATE alert_rules SET metric = $2, ..., enabled = $6 WHERE id = $1
    RETURNING ... *)
Definition update_rule (id metric operator : string) (threshold : float64)
    (severity : string) (enabled : bool) : stmt (string * AlertRuleRow) := λ db,
  match uuid_in id with
  | Some rid =>
      if negb (forallb text_in [metric; operator; severity]) then fail character_not_in_repertoire db
      else
      match alert_rules db !! rid with
      | Some r =>
          if negb (operator_check operator && severity_check severity) then fail check_violation db
          else let row := mkAlertRuleRow (ar_device_id r) metric operator (pg_numeric threshold)
                            severity enabled in
               (Ok (rid, row), set_alert_rules <[rid := row]> db)
      | None => (Err ErrNoRows, db)
      end
  | None => fail invalid_text_representation db
  end.

(** DELETE FROM alert_rules WHERE id = $1: rows affected; ON DELETE RESTRICT
    from alerts. *)
Definition delete_rule (id : string) : stmt Z := λ db,
  match uuid_in id with
  | Some rid =>
      match alert_rules db !! rid with
      | Some _ =>
          if decide (map_Exists (λ _ a, al_alert_rule_id a = rid) (alerts db))
          then fail foreign_key_violation db
          else (Ok 1, set_alert_rules (delete rid) db)
      | None => (Ok 0, db)
      end
  | None => fail invalid_text_representation db
  end.

End Statements.

(** ** The guarantee of each statement *)

Section Guarantees.
Context `{!PgLib}.

Lemma alerts_evolve_refl db : alerts_evolve db db.
Proof. intros id a Ha. exists a. split; [done|constructor]. Qed.

Lemma alerts_evolve_trans db1 db2 db3 :
  alerts_evolve db1 db2 → alerts_evolve db2 db3 → alerts_evolve db1 db3.
Proof.
  intros H12 H23 id a Ha. destruct (H12 id a Ha) as (a2 & Ha2 & Hs2).
  destruct (H23 id a2 Ha2) as (a3 & Ha3 & Hs3). exists a3. split; [done|]. by transitivity a2.
Qed.

(** A statement that leaves the alerts alone. *)
Lemma alerts_evolve_same db db' : alerts db' = alerts db → alerts_evolve db db'.
Proof. intros Heq id a Ha. exists a. rewrite Heq. split; [done|constructor]. Qed.

Lemma rules_keep_device_same db db' :
  alert_rules db' = alert_rules db → rules_keep_device db db'.
Proof. intros Heq id r r' Hr Hr'. rewrite Heq in Hr'. by simplify_eq. Qed.

Lemma stmt_guarantee_refl db : Pg_ok db → stmt_guarantee db db.
Proof. split; [done|]. split; [apply alerts_evolve_refl | by apply rules_keep_device_same]. Qed.

(** Updating or adding one alert. *)
Lemma set_alert_guarantee db id a' :
  Pg_ok db →
  is_Some (alert_rules db !! al_alert_rule_id a') → is_Some (devices db !! al_device_id a') →
  severity_check (al_severity a') = true →
  (∀ u, al_acknowledged_by a' = Some u → is_Some (users db !! u)) →
  (∀ u, al_resolved_by a' = Some u → is_Some (users db !! u)) →
  lifecycle_ok a' → (∀ a, alerts db !! id = Some a → alert_step a a') →
  stmt_guarantee db (set_alerts <[id := a']> db).
Proof.
  intros Hok Hr Hd Hs Hu1 Hu2 Hl Hstep. split; [|split; [|by apply rules_keep_device_same]].
  - destruct Hok as [HS HT HU HE H1 H2 H3 H4]. split; simpl; [done..| |];
      intros i b; rewrite lookup_insert; case_decide; intros; simplify_eq; eauto.
  - intros i a Ha. simpl. destruct (decide (i = id)) as [->|Hne].
    + exists a'. rewrite lookup_insert_eq. split; [done|]. apply rtc_once. auto.
    + exists a. rewrite lookup_insert_ne by done. split; [done|constructor].
Qed.

(** Updating or adding one rule. *)
Lemma set_rule_guarantee db id r' :
  Pg_ok db → is_Some (devices db !! ar_device_id r') →
  operator_check (ar_operator r') = true → severity_check (ar_severity r') = true →
  (∀ r, alert_rules db !! id = Some r → ar_device_id r' = ar_device_id r) →
  stmt_guarantee db (set_alert_rules <[id := r']> db).
Proof.
  intros Hok Hd Ho Hs Hdev. split; [|split; [by apply alerts_evolve_same|]].
  - destruct Hok as [HS HT HU HE H1 H2 H3 H4]. split; simpl; [done..| | |done].
    + intros i b. rewrite lookup_insert. case_decide; intros; simplify_eq; eauto.
    + intros i a Ha. destruct (H3 i a Ha) as (? & ?). split; [|done].
      rewrite lookup_insert. case_decide; [by eexists|done].
  - intros i r1 r2 Hr1. simpl. rewrite lookup_insert. case_decide; intros; simplify_eq; auto.
Qed.

Lemma insert_alert_guarantee newid rid did v sev at_ db :
  Pg_ok db → stmt_guarantee db (insert_alert newid rid did v sev at_ db).2.
Proof.
  intros Hok. unfold insert_alert, fail.
  destruct (uuid_in rid) as [rid'|], (uuid_in did) as [did'|]; simpl; try by apply stmt_guarantee_refl.
  destruct (severity_check sev) eqn:Hsev; simpl; [|by apply stmt_guarantee_refl].
  case_decide as Hnew; [by apply stmt_guarantee_refl|].
  case_decide as Hfk; [by apply stmt_guarantee_refl|]. simpl.
  apply set_alert_guarantee; simpl; try done.
  - destruct (alert_rules db !! rid'); naive_solver.
  - destruct (devices db !! did'); naive_solver.
  - intros a Ha. destruct Hnew. by exists a.
Qed.

Lemma is_active_lifecycle a : lifecycle_ok a → is_active a = true →
  al_resolved_at a = None ∧ al_resolved_by a = None ∧
  (is_Some (al_acknowledged_at a) ↔ is_Some (al_acknowledged_by a)).
Proof.
  unfold lifecycle_ok, is_active. intros Hl Ha%bool_decide_eq_true.
  destruct Ha as [Ha|Ha]; rewrite Ha in Hl.
  - destruct Hl as (-> & -> & -> & ->). by split_and!.
  - destruct Hl as (? & ? & -> & ->). by split_and!.
Qed.

Lemma auto_resolve_alerts_guarantee at_ rid db :
  Pg_ok db → stmt_guarantee db (auto_resolve_alerts at_ rid db).2.
Proof.
  intros Hok. unfold auto_resolve_alerts, fail.
  destruct (uuid_in rid) as [rid'|]; simpl; [|by apply stmt_guarantee_refl].
  split; [|split; [|by apply rules_keep_device_same]].
  - destruct Hok as [HS HT HU HE H1 H2 H3 H4]. split; simpl; [done..| |]; intros i b;
      rewrite lookup_fmap; intros (a & <- & Ha)%fmap_Some_1_eq; case_match eqn:E; eauto.
    + by apply (H3 i a).
    + apply andb_true_iff in E as [_ E]. apply is_active_lifecycle in E as (_ & _ & E); [|eauto].
      unfold lifecycle_ok. simpl. split; [by eexists|done].
  - intros i a Ha. simpl. rewrite lookup_fmap, Ha. simpl. eexists. split; [done|].
    case_match eqn:E; [|constructor]. apply andb_true_iff in E as [_ E].
    apply rtc_once. by constructor.
Qed.

Lemma update_last_seen_guarantee at_ did db :
  Pg_ok db → stmt_guarantee db (update_last_seen at_ did db).2.
Proof.
  intros Hok. unfold update_last_seen, fail.
  destruct (uuid_in did) as [did'|]; simpl; [|by apply stmt_guarantee_refl].
  assert (∀ k f (m : gmap string DeviceRow), is_Some (m !! k) → is_Some (alter f did' m !! k)) as Halt.
  { intros k f m [d Hd]. rewrite lookup_alter. case_decide; subst; rewrite Hd; by eexists. }
  split; [|split; [by apply alerts_evolve_same | by apply rules_keep_device_same]].
  destruct Hok as [HS HT HU HE H1 H2 H3 H4]. split; simpl; [done| |done|done| | | |done].
  - intros i d. rewrite lookup_alter. case_decide; [|by eauto].
    intros (d0 & <- & Hd0)%fmap_Some_1_eq. simpl. eauto.
  - intros i d. rewrite lookup_alter. case_decide; [|by eauto].
    intros (d0 & <- & Hd0)%fmap_Some_1_eq. simpl. eauto.
  - intros i r Hr. destruct (H2 i r Hr) as (? & ? & ?). auto.
  - intros i a Ha. destruct (H3 i a Ha) as (? & ? & ? & ? & ?). split_and!; auto.
Qed.

(** A transition statement with a sound SET clause. *)
Lemma transition_stmt_guarantee from upd now id uid db :
  (∀ a u, al_status a ∈ from → alert_step a (upd now u a)) →
  (∀ a u, al_status a ∈ from → lifecycle_ok a → lifecycle_ok (upd now u a)) →
  (∀ a u u', al_acknowledged_by (upd now u a) = Some u' →
     u' = u ∨ al_acknowledged_by a = Some u') →
  (∀ a u u', al_resolved_by (upd now u a) = Some u' → u' = u ∨ al_resolved_by a = Some u') →
  (∀ a u, al_alert_rule_id (upd now u a) = al_alert_rule_id a ∧
          al_device_id (upd now u a) = al_device_id a ∧ al_severity (upd now u a) = al_severity a) →
  Pg_ok db → stmt_guarantee db (transition_stmt from upd now id uid db).2.
Proof.
  intros Hstep Hlife Hack Hres Hsame Hok. unfold transition_stmt, fail.
  destruct (uuid_in id) as [aid|], (uuid_in uid) as [u|]; simpl; try by apply stmt_guarantee_refl.
  destruct (alerts db !! aid) as [a|] eqn:Ha; simpl; [|by apply stmt_guarantee_refl].
  case_decide as Hfrom; [|by apply stmt_guarantee_refl].
  case_decide as Hu; [by apply stmt_guarantee_refl|]. simpl.
  destruct (ok_alert db Hok aid a Ha) as (H1 & H2 & H3 & H4 & H5).
  destruct (Hsame a u) as (E1 & E2 & E3).
  apply set_alert_guarantee; rewrite ?E1, ?E2, ?E3; try done.
  - intros u' [->|?]%Hack; [|by auto]. by apply not_eq_None_Some.
  - intros u' [->|?]%Hres; [|by auto]. by apply not_eq_None_Some.
  - apply Hlife; [done|]. by eapply ok_lifecycle.
  - intros b Hb. simplify_eq. auto.
Qed.

Lemma acknowledge_guarantee now id uid db :
  Pg_ok db → stmt_guarantee db (transition_stmt [open] ack_row now id uid db).2.
Proof.
  apply transition_stmt_guarantee; simpl; try naive_solver.
  - intros a u ?%list_elem_of_singleton. by constructor.
  - intros a u Hs%list_elem_of_singleton. unfold lifecycle_ok. rewrite Hs. simpl.
    intros (_ & _ & -> & ->). split_and!; try done; by eexists.
Qed.

Lemma resolve_guarantee now id uid db :
  Pg_ok db → stmt_guarantee db (transition_stmt [open; acknowledged] resolve_row now id uid db).2.
Proof.
  assert (∀ a, al_status a ∈ [open; acknowledged] → is_active a = true) as Hact.
  { intros a Ha. unfold is_active. apply bool_decide_eq_true. set_solver. }
  apply transition_stmt_guarantee; simpl; try naive_solver.
  - intros a u Ha%Hact. by constructor.
  - intros a u Ha%Hact Hl. destruct (is_active_lifecycle a Hl Ha) as (_ & _ & ?).
    unfold lifecycle_ok. simpl. split; [by eexists|done].
Qed.

Lemma insert_rule_guarantee newid did m o t sev en db :
  Pg_ok db → stmt_guarantee db (insert_rule newid did m o t sev en db).2.
Proof.
  intros Hok. unfold insert_rule, fail.
  destruct (uuid_in did) as [did'|]; simpl; [|by apply stmt_guarantee_refl].
  case_match; simpl; [by apply stmt_guarantee_refl|].
  destruct (operator_check o && severity_check sev) eqn:Hc; simpl; [|by apply stmt_guarantee_refl].
  apply andb_true_iff in Hc as [Ho Hs].
  case_decide as Hnew; [by apply stmt_guarantee_refl|].
  case_decide as Hfk; [by apply stmt_guarantee_refl|]. simpl.
  apply set_rule_guarantee; simpl; try done.
  - by apply not_eq_None_Some.
  - intros r Hr. destruct Hnew. by exists r.
Qed.

Lemma update_rule_guarantee id m o t sev en db :
  Pg_ok db → stmt_guarantee db (update_rule id m o t sev en db).2.
Proof.
  intros Hok. unfold update_rule, fail.
  destruct (uuid_in id) as [rid|]; simpl; [|by apply stmt_guarantee_refl].
  case_match; simpl; [by apply stmt_guarantee_refl|].
  destruct (alert_rules db !! rid) as [r|] eqn:Hr; simpl; [|by apply stmt_guarantee_refl].
  destruct (operator_check o && severity_check sev) eqn:Hc; simpl; [|by apply stmt_guarantee_refl].
  apply andb_true_iff in Hc as [Ho Hs].
  apply set_rule_guarantee; simpl; try done.
  - by apply (ok_rule db Hok rid r).
  - intros r' Hr'. by simplify_eq.
Qed.

Lemma delete_rule_guarantee id db :
  Pg_ok db → stmt_guarantee db (delete_rule id db).2.
Proof.
  intros Hok. unfold delete_rule, fail.
  destruct (uuid_in id) as [rid|]; simpl; [|by apply stmt_guarantee_refl].
  destruct (alert_rules db !! rid) as [r|] eqn:Hr; simpl; [|by apply stmt_guarantee_refl].
  case_decide as Href; simpl; [by apply stmt_guarantee_refl|].
  split; [|split; [by apply alerts_evolve_same|]].
  - destruct Hok as [HS HT HU HE H1 H2 H3 H4]. split; simpl; [done..| | |done].
    + intros i r' [_ ?]%lookup_delete_Some. eauto.
    + intros i a Ha. destruct (H3 i a Ha) as (? & ?). split; [|done].
      rewrite lookup_delete_ne; [done|]. intros ->. apply Href. by exists i, a.
  - intros i r1 r2 Hr1. simpl. intros [_ Hr2]%lookup_delete_Some. by simplify_eq.
Qed.

(** The statements of the API leave the devices alone. *)
Lemma transition_devices from upd now id uid db :
  devices (transition_stmt from upd now id uid db).2 = devices db.
Proof. unfold transition_stmt, fail. by repeat case_match. Qed.
Lemma insert_rule_devices newid did m o t sev en db :
  devices (insert_rule newid did m o t sev en db).2 = devices db.
Proof. unfold insert_rule, fail. by repeat case_match. Qed.
Lemma update_rule_devices id m o t sev en db : devices (update_rule id m o t sev en db).2 = devices db.
Proof. unfold update_rule, fail. by repeat case_match. Qed.
Lemma delete_rule_devices id db : devices (delete_rule id db).2 = devices db.
Proof. unfold delete_rule, fail. by repeat case_match. Qed.

(** ** The active alerts after a statement *)

Lemma insert_alert_Ok newid rid did rid' did' v sev at_ db :
  uuid_in rid = Some rid' → uuid_in did = Some did' → severity_check sev = true →
  alerts db !! newid = None → is_Some (alert_rules db !! rid') → is_Some (devices db !! did') →
  insert_alert newid rid did v sev at_ db =
    (Ok tt, set_alerts <[newid := mkAlertRow rid' did' (pg_numeric v) sev open
                                    (pg_timestamptz at_) None None None None]> db).
Proof.
  intros Hr Hd Hs Hn [r Hr'] [d Hd']. unfold insert_alert. rewrite Hr, Hd, Hs. simpl.
  rewrite Hn, decide_False by (by intros []). rewrite decide_False; [done|].
  rewrite Hr', Hd'. naive_solver.
Qed.

(** Adding one open alert. *)
Lemma rule_active_insert db newid a x :
  alerts db !! newid = None → al_status a = open →
  rule_active (set_alerts <[newid := a]> db) x ↔ x = al_alert_rule_id a ∨ rule_active db x.
Proof.
  intros Hn Ho. unfold rule_active. simpl. split.
  - intros (i & b & Hb & <- & Hact). rewrite lookup_insert in Hb. case_decide; simplify_eq; eauto 6.
  - intros [->|(i & b & Hb & <- & Hact)].
    + exists newid, a. rewrite lookup_insert_eq. split_and!; [done..|].
      unfold is_active. by rewrite Ho.
    + exists i, b. rewrite lookup_insert_ne by (intros <-; congruence). done.
Qed.

Lemma at_most_one_insert db newid a :
  alerts db !! newid = None → at_most_one_active db → ¬ rule_active db (al_alert_rule_id a) →
  at_most_one_active (set_alerts <[newid := a]> db).
Proof.
  intros Hn Hone Hna i j b c. simpl. rewrite !lookup_insert.
  do 2 case_decide; intros; simplify_eq; try done; [..|by eapply Hone]; destruct Hna;
    [exists j, c | exists i, b]; done.
Qed.

(** Resolving the active alerts of one rule. *)
Definition resolve_rule_alerts (at_ : time) (rid : string) (db : Pg) : Pg :=
  set_alerts (fmap (λ a, if bool_decide (al_alert_rule_id a = rid) && is_active a
                         then auto_resolve_row at_ a else a)) db.

Lemma resolve_rule_alerts_lookup at_ rid db i a' :
  alerts (resolve_rule_alerts at_ rid db) !! i = Some a' → is_active a' = true →
  alerts db !! i = Some a' ∧ al_alert_rule_id a' ≠ rid.
Proof.
  simpl. rewrite lookup_fmap. intros (a & <- & Ha)%fmap_Some_1_eq. case_match eqn:E; [done|].
  intros Hact. split; [done|]. intros Hr. rewrite Hact, andb_true_r, bool_decide_eq_false in E. done.
Qed.

Lemma rule_active_resolve at_ rid db x :
  rule_active (resolve_rule_alerts at_ rid db) x ↔ x ≠ rid ∧ rule_active db x.
Proof.
  split.
  - intros (i & a & Ha & <- & Hact). destruct (resolve_rule_alerts_lookup _ _ _ _ _ Ha Hact) as [? ?].
    split; [done|]. by exists i, a.
  - intros [Hne (i & a & Ha & <- & Hact)]. exists i, a. simpl. rewrite lookup_fmap, Ha. simpl.
    by rewrite bool_decide_eq_false_2 by done.
Qed.

Lemma at_most_one_resolve at_ rid db :
  at_most_one_active db → at_most_one_active (resolve_rule_alerts at_ rid db).
Proof.
  intros Hone i j a b Ha Hb Hact Hbct.
  destruct (resolve_rule_alerts_lookup _ _ _ _ _ Ha Hact) as [? _].
  destruct (resolve_rule_alerts_lookup _ _ _ _ _ Hb Hbct) as [? _]. by eapply Hone.
Qed.

Lemma duplicateb_sound db i j : duplicateb db i j = true → ¬ at_most_one_active db.
Proof.
  unfold duplicateb. intros Hd Hone.
  destruct (alerts db !! i) as [a|] eqn:Ha, (alerts db !! j) as [b|] eqn:Hb; try done.
  rewrite !andb_true_iff, negb_true_iff, bool_decide_eq_false, bool_decide_eq_true in Hd.
  destruct Hd as [[[Hact Hbct] Heq] Hne]. apply Hne. by eapply Hone.
Qed.

(** ** The life cycle is one-way *)

Lemma alert_step_immutable a a' :
  alert_step a a' →
  al_alert_rule_id a' = al_alert_rule_id a ∧ al_device_id a' = al_device_id a ∧
  al_triggered_value a' = al_triggered_value a ∧ al_severity a' = al_severity a ∧
  al_triggered_at a' = al_triggered_at a.
Proof. by destruct 1. Qed.

Lemma alert_steps_immutable a a' :
  rtc alert_step a a' →
  al_alert_rule_id a' = al_alert_rule_id a ∧ al_device_id a' = al_device_id a ∧
  al_triggered_value a' = al_triggered_value a ∧ al_severity a' = al_severity a ∧
  al_triggered_at a' = al_triggered_at a.
Proof.
  induction 1 as [|a b c Hab _ (E1 & E2 & E3 & E4 & E5)]; [done|].
  destruct (alert_step_immutable a b Hab) as (F1 & F2 & F3 & F4 & F5).
  split_and!; congruence.
Qed.

(** A resolved alert takes no further step. *)
Lemma resolved_terminal a a' : al_status a = resolved → rtc alert_step a a' → a' = a.
Proof.
  intros Hr Hs. destruct Hs as [|a b c Hab]; [done|].
  destruct Hab as [a now uid Ho|a now uid Ho|a at_ Ho]; unfold is_active in *;
    try apply bool_decide_eq_true in Ho; rewrite Hr in Ho; naive_solver.
Qed.

End Guarantees.
