(* ===== verification/World.v ===== *)
(** * The state the code runs against, and its atomic actions

    [World] gathers everything a worker or a handler can touch: the two
    databases, the in-memory state of the ingestion process, the counters and
    the log.  What the outside decides (clock readings, connection failures,
    generated ids, the order of rows without ORDER BY, random bytes) is an
    oracle [Env], consulted at the current tick; every action advances the tick,
    so a theorem for all [Env] holds for every behaviour of the outside. *)

From S2P Require Import Prelude GoStd Alerts Pg.
Open Scope Z_scope.
Open Scope string_scope.
Open Scope list_scope.

(** ** The environment *)

(** A write statement succeeds, fails before it takes effect, or takes effect
    and fails on the way back (connection lost, context cancelled). *)
Inductive ExecFault := ExecOk | FailBefore | FailAfter.

#[global] Instance ExecFault_eq_dec : EqDecision ExecFault.
Proof. solve_decision. Defined.

(** A row query succeeds, fails at [Query], fails after delivering [k] rows (the
    error is then only visible through [rows.Err()]), or [Scan] fails on row
    [k]. *)
Inductive QueryFault := QueryOk | QueryFails | RowsFail (k : nat) | ScanFails (k : nat).

#[global] Instance QueryFault_eq_dec : EqDecision QueryFault.
Proof. solve_decision. Defined.

Class Env := {
  now_at : nat → time;
  exec_fault : nat → ExecFault;
  query_fault : nat → QueryFault;
  gen_random_uuid : nat → string;
  row_order : nat → ∀ A, list A → list A;
  row_order_perm : ∀ n A (l : list A), row_order n A l ≡ₚ l;
  rand_Read : nat → option (list ascii);   (* crypto/rand.Read of 8 bytes *)
  rand_Read_length : ∀ n buf, rand_Read n = Some buf → length buf = 8%nat;
}.

(** ** State *)

(** A document of the MongoDB collection [telemetry_raw]. *)
Record TelemetryDoc := mkTelemetryDoc {
  t_device_id : string;
  t_site_id : string;
  t_device_type : string;
  t_readings : gmap string float64;
  t_ts : time;
  t_received_at : time;
}.

(** BSON datetimes keep milliseconds. *)
Definition bson_datetime (t : time) : time := t / 1000000 * 1000000.

Record LogLine := mkLogLine {
  l_level : string;
  l_correlation_id : option string;
  l_msg : string;
}.

(** One [visitor] of the API's rate limiter: the [*rate.Limiter] it points to, and
    when it was last seen. *)
Record visitor := mkVisitor {
  v_limiter : nat;
  v_lastSeen : time;
}.

(** The mutable state of [ipRateLimiter], and the limiters it has allocated: a
    limiter is known by the times of the [Allow] calls made on it. *)
Record LimiterState := mkLimiterState {
  visitors : gmap string visitor;
  limiters : list (list time);
}.

Record World := mkWorld {
  w_pg : Pg;
  w_telemetry : list TelemetryDoc;
  w_streaks : gmap string BreachState;       (* BreachTracker.streaks *)
  w_lastSeenSent : gmap string time;         (* Store.lastSeenSent *)
  w_messagesReceived : Z;
  w_messagesDropped : Z;
  w_alertDecisions : gmap string Z;          (* alertDecisionsTotal, by action *)
  w_httpRequests : gmap (string * string * string) Z;  (* httpRequestsTotal *)
  w_log : list LogLine;
  w_sleeps : list Z;                         (* time.Sleep calls, in order *)
  w_limiter : LimiterState;
  w_tick : nat;
}.

Definition set_pg (db : Pg) (w : World) : World :=
  mkWorld db (w_telemetry w) (w_streaks w) (w_lastSeenSent w) (w_messagesReceived w)
    (w_messagesDropped w) (w_alertDecisions w) (w_httpRequests w) (w_log w) (w_sleeps w) (w_limiter w) (w_tick w).
Definition set_telemetry (l : list TelemetryDoc) (w : World) : World :=
  mkWorld (w_pg w) l (w_streaks w) (w_lastSeenSent w) (w_messagesReceived w)
    (w_messagesDropped w) (w_alertDecisions w) (w_httpRequests w) (w_log w) (w_sleeps w) (w_limiter w) (w_tick w).
Definition set_streaks (t : gmap string BreachState) (w : World) : World :=
  mkWorld (w_pg w) (w_telemetry w) t (w_lastSeenSent w) (w_messagesReceived w)
    (w_messagesDropped w) (w_alertDecisions w) (w_httpRequests w) (w_log w) (w_sleeps w) (w_limiter w) (w_tick w).
Definition set_lastSeenSent (m : gmap string time) (w : World) : World :=
  mkWorld (w_pg w) (w_telemetry w) (w_streaks w) m (w_messagesReceived w)
    (w_messagesDropped w) (w_alertDecisions w) (w_httpRequests w) (w_log w) (w_sleeps w) (w_limiter w) (w_tick w).
Definition set_received (n : Z) (w : World) : World :=
  mkWorld (w_pg w) (w_telemetry w) (w_streaks w) (w_lastSeenSent w) n
    (w_messagesDropped w) (w_alertDecisions w) (w_httpRequests w) (w_log w) (w_sleeps w) (w_limiter w) (w_tick w).
Definition set_dropped (n : Z) (w : World) : World :=
  mkWorld (w_pg w) (w_telemetry w) (w_streaks w) (w_lastSeenSent w) (w_messagesReceived w)
    n (w_alertDecisions w) (w_httpRequests w) (w_log w) (w_sleeps w) (w_limiter w) (w_tick w).
Definition set_alertDecisions (m : gmap string Z) (w : World) : World :=
  mkWorld (w_pg w) (w_telemetry w) (w_streaks w) (w_lastSeenSent w) (w_messagesReceived w)
    (w_messagesDropped w) m (w_httpRequests w) (w_log w) (w_sleeps w) (w_limiter w) (w_tick w).
Definition set_httpRequests (m : gmap (string * string * string) Z) (w : World) : World :=
  mkWorld (w_pg w) (w_telemetry w) (w_streaks w) (w_lastSeenSent w) (w_messagesReceived w)
    (w_messagesDropped w) (w_alertDecisions w) m (w_log w) (w_sleeps w) (w_limiter w) (w_tick w).
Definition set_log (l : list LogLine) (w : World) : World :=
  mkWorld (w_pg w) (w_telemetry w) (w_streaks w) (w_lastSeenSent w) (w_messagesReceived w)
    (w_messagesDropped w) (w_alertDecisions w) (w_httpRequests w) l (w_sleeps w) (w_limiter w) (w_tick w).
Definition set_sleeps (l : list Z) (w : World) : World :=
  mkWorld (w_pg w) (w_telemetry w) (w_streaks w) (w_lastSeenSent w) (w_messagesReceived w)
    (w_messagesDropped w) (w_alertDecisions w) (w_httpRequests w) (w_log w) l (w_limiter w) (w_tick w).
Definition set_limiter (l : LimiterState) (w : World) : World :=
  mkWorld (w_pg w) (w_telemetry w) (w_streaks w) (w_lastSeenSent w) (w_messagesReceived w)
    (w_messagesDropped w) (w_alertDecisions w) (w_httpRequests w) (w_log w) (w_sleeps w) l (w_tick w).
Definition tick (w : World) : World :=
  mkWorld (w_pg w) (w_telemetry w) (w_streaks w) (w_lastSeenSent w) (w_messagesReceived w)
    (w_messagesDropped w) (w_alertDecisions w) (w_httpRequests w) (w_log w) (w_sleeps w) (w_limiter w) (S (w_tick w)).

(** ** What any single action may do

    The guarantee of every worker and every request: the tables move by a
    statement's guarantee, telemetry and the log only grow, counters do not go
    back, a device's last-seen mark only advances by a full window, and the drop
    counter is left to the MQTT callback. *)
Definition lastSeenDebounce : Z := 60 * Second.

Record world_step (w w' : World) : Prop := {
  ws_pg : Pg_ok (w_pg w) → stmt_guarantee (w_pg w) (w_pg w');
  ws_telemetry : w_telemetry w `prefix_of` w_telemetry w';
  ws_log : w_log w `prefix_of` w_log w';
  ws_tick : (w_tick w <= w_tick w')%nat;
  ws_received : w_messagesReceived w <= w_messagesReceived w';
  ws_dropped : w_messagesDropped w' = w_messagesDropped w;
  ws_lastSeen : ∀ d t, w_lastSeenSent w !! d = Some t →
    ∃ t', w_lastSeenSent w' !! d = Some t' ∧ (t' = t ∨ t' - t >= lastSeenDebounce);
}.

(** A write statement with a guarantee, for every generated id and server time. *)
Definition stmt_ok {A} (st : string → time → stmt A) : Prop :=
  ∀ id now db, Pg_ok db → stmt_guarantee db (st id now db).2.

(** ** Actions *)

Section Actions.
Context `{!PgLib, !Env}.

(** [time.Now()] *)
Definition time_Now : prog World time := act (λ w, (now_at (w_tick w), tick w)).

(** The effect of one write statement under a fault. *)
Definition exec_outcome {A} (f : ExecFault) (st : stmt A) (db : Pg) : result A * Pg :=
  match f with
  | ExecOk => st db
  | FailBefore => (Err NetError, db)
  | FailAfter => (Err NetError, (st db).2)
  end.

(** [pool.Exec] and [pool.QueryRow(...).Scan] of one write statement; the
    statement may use the server's random ids and clock. *)
Definition pg_exec {A} (st : string → time → stmt A) : prog World (result A) :=
  act (λ w,
    let n := w_tick w in
    let '(r, db) := exec_outcome (exec_fault n) (st (gen_random_uuid n) (now_at n)) (w_pg w) in
    (r, tick (set_pg db w))).

(** How the iteration over a result set ends. *)
Inductive rows_end := RowsDone | RowsErr | RowScanErr.

(** The rows a query delivers before the iteration ends. *)
Definition query_outcome {A} (f : QueryFault) (rows : list A) : result (list A * rows_end) :=
  match f with
  | QueryOk => Ok (rows, RowsDone)
  | QueryFails => Err NetError
  | RowsFail k => Ok (take k rows, RowsErr)
  | ScanFails k => if decide (k < length rows)%nat then Ok (take k rows, RowScanErr)
                   else Ok (rows, RowsDone)
  end.

(** [pool.Query] and the row loop: the rows in the server's order. *)
Definition pg_query {A} (sel : Pg → result (list A)) : prog World (result (list A * rows_end)) :=
  act (λ w,
    let n := w_tick w in
    (match sel (w_pg w) with
     | Ok rows => query_outcome (query_fault n) (row_order n A rows)
     | Err e => match query_fault n with QueryFails => Err NetError | _ => Err e end
     end, tick w)).

(** The same for a statement with ORDER BY, LIMIT or OFFSET: [sel] gets the order in
    which the server happens to visit rows and returns the rows in their final
    order. *)
Definition pg_query_ordered {A} (sel : (∀ X, list X → list X) → Pg → result (list A))
    : prog World (result (list A * rows_end)) :=
  act (λ w,
    let n := w_tick w in
    (match sel (row_order n) (w_pg w) with
     | Ok rows => query_outcome (query_fault n) rows
     | Err e => match query_fault n with QueryFails => Err NetError | _ => Err e end
     end, tick w)).

(** [coll.Find(...)] and the cursor loop: documents in an order [sel] makes of the
    collection's arbitrary one. *)
Definition mongo_find {A} (sel : (∀ X, list X → list X) → list TelemetryDoc → list A)
    : prog World (result (list A * rows_end)) :=
  act (λ w,
    let n := w_tick w in
    (query_outcome (query_fault n) (sel (row_order n) (w_telemetry w)), tick w)).

(** [pool.QueryRow(...).Scan] of a single-row SELECT. *)
Definition pg_query_row {A} (sel : Pg → result A) : prog World (result A) :=
  act (λ w,
    (match query_fault (w_tick w) with
     | QueryOk => sel (w_pg w)
     | ScanFails _ => match sel (w_pg w) with Ok _ => Err ScanError | Err e => Err e end
     | _ => Err NetError
     end, tick w)).

(** [coll.InsertOne] *)
Definition mongo_insert_one (doc : TelemetryDoc) : prog World (result unit) :=
  act (λ w,
    let w' := tick w in
    match exec_fault (w_tick w) with
    | ExecOk => (Ok tt, set_telemetry (w_telemetry w ++ [doc]) w')
    | FailBefore => (Err NetError, w')
    | FailAfter => (Err NetError, set_telemetry (w_telemetry w ++ [doc]) w')
    end).

Definition log_line (level : string) (cid : option string) (msg : string) : prog World unit :=
  act (λ w, (tt, set_log (w_log w ++ [mkLogLine level cid msg]) w)).

(** [time.Sleep] *)
Definition time_Sleep (d : Z) : prog World unit :=
  act (λ w, (tt, tick (set_sleeps (w_sleeps w ++ [d]) w))).

End Actions.

(** ** Running single actions *)

Section RunActions.
Context `{!PgLib, !Env}.

Lemma run_pg_exec {A} (st : string → time → stmt A) w :
  exec_fault (w_tick w) = ExecOk →
  run (pg_exec st) w =
    ((st (gen_random_uuid (w_tick w)) (now_at (w_tick w)) (w_pg w)).1,
     tick (set_pg (st (gen_random_uuid (w_tick w)) (now_at (w_tick w)) (w_pg w)).2 w)).
Proof. intros E. unfold pg_exec. rewrite run_act, E. simpl. by destruct (st _ _ _). Qed.

Lemma run_pg_exec_any {A} (st : string → time → stmt A) w :
  run (pg_exec st) w =
    let '(r, db) := exec_outcome (exec_fault (w_tick w)) (st (gen_random_uuid (w_tick w)) (now_at (w_tick w))) (w_pg w) in
    (r, tick (set_pg db w)).
Proof. unfold pg_exec. by rewrite run_act. Qed.

Lemma run_pg_query_row {A} (sel : Pg → result A) w :
  query_fault (w_tick w) = QueryOk → run (pg_query_row sel) w = (sel (w_pg w), tick w).
Proof. intros E. unfold pg_query_row. by rewrite run_act, E. Qed.

End RunActions.

(** ** The guarantee of the primitive actions *)

(** A world that differs in nothing the guarantee constrains. *)
Lemma world_step_quiet w w' :
  w_pg w' = w_pg w → w_telemetry w' = w_telemetry w → w_log w `prefix_of` w_log w' →
  (w_tick w <= w_tick w')%nat → w_messagesReceived w <= w_messagesReceived w' →
  w_messagesDropped w' = w_messagesDropped w → w_lastSeenSent w' = w_lastSeenSent w →
  world_step w w'.
Proof.
  intros E1 E2 ? ? ? ? E3. split; rewrite ?E1, ?E2, ?E3; try done; eauto.
  apply stmt_guarantee_refl.
Qed.

Section Guarantee.
Context `{!PgLib, !Env}.

Ltac quiet := apply world_step_quiet; simpl; solve [done | lia | by eexists].

Lemma each_step_time_Now : each_step world_step time_Now.
Proof. apply each_step_act. intros w. quiet. Qed.

Lemma each_step_pg_exec {A} (st : string → time → stmt A) :
  stmt_ok st → each_step world_step (pg_exec st).
Proof.
  intros Hst. apply each_step_act. intros w.
  specialize (Hst (gen_random_uuid (w_tick w)) (now_at (w_tick w)) (w_pg w)).
  unfold exec_outcome. destruct (exec_fault (w_tick w)); simpl.
  - destruct (st _ _ _) as [r db]. split; simpl; eauto; lia.
  - quiet.
  - split; simpl; eauto; lia.
Qed.

Lemma each_step_pg_query {A} (sel : Pg → result (list A)) : each_step world_step (pg_query sel).
Proof. apply each_step_act. intros w. quiet. Qed.

Lemma each_step_pg_query_ordered {A} (sel : (∀ X, list X → list X) → Pg → result (list A)) :
  each_step world_step (pg_query_ordered sel).
Proof. apply each_step_act. intros w. quiet. Qed.

Lemma each_step_mongo_find {A} (sel : (∀ X, list X → list X) → list TelemetryDoc → list A) :
  each_step world_step (mongo_find sel).
Proof. apply each_step_act. intros w. quiet. Qed.

Lemma each_step_pg_query_row {A} (sel : Pg → result A) : each_step world_step (pg_query_row sel).
Proof. apply each_step_act. intros w. quiet. Qed.

Lemma each_step_mongo_insert_one doc : each_step world_step (mongo_insert_one doc).
Proof.
  apply each_step_act. intros w. destruct (exec_fault (w_tick w)); [|quiet|];
    split; simpl; eauto using stmt_guarantee_refl; try lia; by eexists.
Qed.

Lemma each_step_log_line l c m : each_step world_step (log_line l c m).
Proof. apply each_step_act. intros w. quiet. Qed.

Lemma each_step_time_Sleep d : each_step world_step (time_Sleep d).
Proof. apply each_step_act. intros w. quiet. Qed.

End Guarantee.

Ltac quiet_step :=
  apply each_step_act; intros; simpl; apply world_step_quiet; simpl;
  solve [done | lia | by eexists].

#[export] Hint Resolve each_step_time_Now each_step_pg_exec each_step_pg_query
  each_step_pg_query_ordered each_step_mongo_find each_step_pg_query_row each_step_mongo_insert_one each_step_log_line each_step_time_Sleep
  : sitewatch.
