(* ===== verification/Contract.v ===== *)
(** * The MQTT contract: [ingestion/contract.go]

    Topics ([parseTopic], against the builder of the simulator) and payloads
    ([parseTelemetryMessage], with the way [encoding/json] fills the struct),
    and the request bodies of the API, which are decoded the same way. *)

From S2P Require Import Prelude GoStd.
Open Scope Z_scope.
Open Scope string_scope.
Open Scope list_scope.
Open Scope go_scope.

(** ** encoding/json *)

(** A JSON value as scanned: a number keeps its literal and a string its source
    text between the quotes next to its decoded value. *)
#[warnings="-register-all"] Inductive json :=
| JNull
| JBool (b : bool)
| JNum (lit : string)
| JStr (raw val : string)
| JArr (l : list json)
| JObj (l : list (string * json)).

(** Text-level library functions, used through their results only: the scanner of
    [encoding/json] (one value and the text after it), [strconv.ParseFloat] at 64 bits,
    and the RFC 3339 parsers behind [Time.UnmarshalJSON] and [time.Parse].  [GoJson]
    has the concrete instance. *)
Class GoText := {
  json_scan : string → option (json * string);
  ParseFloat : string → option float64;
  time_UnmarshalText : string → option time;
  time_Parse_RFC3339 : string → option time;
}.

Definition is_json_space (a : ascii) : bool :=
  bool_decide (a ∈ [" "; "009"; "010"; "013"]%char).

Fixpoint all_json_space (s : string) : bool :=
  match s with
  | EmptyString => true
  | String a s' => is_json_space a && all_json_space s'
  end.

(** Case folding of object keys: ASCII letters, and the two non-ASCII runes
    that fold to an ASCII letter (U+017F to S, U+212A to K). *)
Definition upper (a : ascii) : ascii :=
  let n := nat_of_ascii a in
  if decide (97 <= n <= 122)%nat then ascii_of_nat (n - 32) else a.

Fixpoint foldName (s : string) : string :=
  match s with
  | EmptyString => ""
  | String a s1 =>
      match s1 with
      | String b s2 =>
          if decide (a = "197"%char ∧ b = "191"%char) then String "S" (foldName s2)
          else match s2 with
               | String c s3 =>
                   if decide (a = "226"%char ∧ b = "132"%char ∧ c = "170"%char)
                   then String "K" (foldName s3)
                   else String (upper a) (foldName s1)
               | EmptyString => String (upper a) (foldName s1)
               end
      | EmptyString => String (upper a) ""
      end
  end.

Definition key_is (key name : string) : bool := bool_decide (foldName key = foldName name).

Arguments key_is : simpl never.

(** Decides the comparisons of literal keys. *)
Ltac key_simpl :=
  repeat match goal with
  | |- context [key_is ?a ?b] =>
      let r := eval vm_compute in (key_is a b) in
      change (key_is a b) with r; cbv iota
  end.

Section Json.
Context `{!GoText}.

(** [json.Unmarshal]: one value and nothing but white space after it. *)
Definition json_Unmarshal (raw : string) : result json :=
  match json_scan raw with
  | Some (v, rest) => if all_json_space rest then Ok v else Err SyntaxError
  | None => Err SyntaxError
  end.

(** [json.NewDecoder(r).Decode]: the first value; the rest is not read. *)
Definition json_Decode (raw : string) : result json :=
  match json_scan raw with
  | Some (v, _) => Ok v
  | None => Err SyntaxError
  end.

(** A value stored into a field of the given type; null leaves the field as it
    is, except for pointers and maps, which it sets to nil. *)
Definition decode_string (old : string) (v : json) : result string :=
  match v with
  | JStr _ s => Ok s
  | JNull => Ok old
  | _ => Err SyntaxError
  end.

Definition decode_float (old : float64) (v : json) : result float64 :=
  match v with
  | JNum lit => match ParseFloat lit with Some x => Ok x | None => Err SyntaxError end
  | JNull => Ok old
  | _ => Err SyntaxError
  end.

Definition decode_bool_ptr (v : json) : result (option bool) :=
  match v with
  | JBool b => Ok (Some b)
  | JNull => Ok None
  | _ => Err SyntaxError
  end.

Definition decode_time (old : time) (v : json) : result time :=
  match v with
  | JStr raw _ => match time_UnmarshalText raw with Some t => Ok t | None => Err SyntaxError end
  | JNull => Ok old
  | _ => Err SyntaxError
  end.

(** map[string]float64: every member is decoded into a fresh zero element. *)
Fixpoint decode_members (m : gmap string float64) (l : list (string * json)) : result (gmap string float64) :=
  match l with
  | [] => Ok m
  | (k, v) :: l' =>
      x <-! decode_float (S754_zero false) v;
      decode_members (<[k := x]> m) l'
  end.

Definition decode_float_map (old : gmap string float64) (v : json) : result (gmap string float64) :=
  match v with
  | JObj l => decode_members old l
  | JNull => Ok ∅
  | _ => Err SyntaxError
  end.

(** A struct: its members in order, unknown keys ignored; null changes
    nothing. *)
Fixpoint decode_struct {A} (field : A → string → json → result A) (old : A)
    (l : list (string * json)) : result A :=
  match l with
  | [] => Ok old
  | (k, v) :: l' => x <-! field old k v; decode_struct field x l'
  end.

Definition decode_into {A} (field : A → string → json → result A) (zero : A) (v : json) : result A :=
  match v with
  | JObj l => decode_struct field zero l
  | JNull => Ok zero
  | _ => Err SyntaxError
  end.

End Json.

(** ** TelemetryMessage *)

Record TelemetryMessage := mkTelemetryMessage {
  DeviceID : string;
  SiteID : string;
  DeviceType : string;
  Readings : gmap string float64;
  Ts : time;
}.

Definition zero_TelemetryMessage : TelemetryMessage := mkTelemetryMessage "" "" "" ∅ zero_time.

Section Telemetry.
Context `{!GoText}.

Definition TelemetryMessage_field (msg : TelemetryMessage) (key : string) (v : json)
    : result TelemetryMessage :=
  let '(mkTelemetryMessage d s t r ts) := msg in
  if key_is key "device_id" then d' <-! decode_string d v; Ok (mkTelemetryMessage d' s t r ts)
  else if key_is key "site_id" then s' <-! decode_string s v; Ok (mkTelemetryMessage d s' t r ts)
  else if key_is key "device_type" then t' <-! decode_string t v; Ok (mkTelemetryMessage d s t' r ts)
  else if key_is key "readings" then r' <-! decode_float_map r v; Ok (mkTelemetryMessage d s t r' ts)
  else if key_is key "ts" then ts' <-! decode_time ts v; Ok (mkTelemetryMessage d s t r ts')
  else Ok msg.

Definition json_Unmarshal_TelemetryMessage (raw : string) : result TelemetryMessage :=
  v <-! json_Unmarshal raw; decode_into TelemetryMessage_field zero_TelemetryMessage v.

Definition parseTelemetryMessage (raw : string) : result TelemetryMessage :=
  match json_Unmarshal_TelemetryMessage raw with
  | Err e => Err (Wrapf "invalid json" e)
  | Ok msg =>
      if decide (DeviceID msg = "" ∨ SiteID msg = "" ∨ DeviceType msg = "")
      then Err (Errorf "missing required field(s)")
      else if decide (size (Readings msg) = O)
      then Err (Errorf "readings must not be empty")
      else Ok msg
  end.

End Telemetry.

(** ** Topics *)

Definition slash : ascii := "/"%char.

Definition parseTopic (topic : string) : result (string * string) :=
  match Split topic slash with
  | [p0; p1; p2; p3] =>
      if decide (p0 ≠ "sitewatch" ∨ p3 ≠ "telemetry")
      then Err (Errorf "topic does not match sitewatch/<site_id>/<device_id>/telemetry")
      else Ok (p1, p2)
  | _ => Err (Errorf "topic does not match sitewatch/<site_id>/<device_id>/telemetry")
  end.

(** [telemetryTopic] of simulator/src/mqtt-topic.ts. *)
Definition telemetryTopic (siteId deviceId : string) : string :=
  "sitewatch/" +:+ siteId +:+ "/" +:+ deviceId +:+ "/telemetry".

(** ** Properties *)

Lemma telemetryTopic_Join s d :
  telemetryTopic s d = Join ["sitewatch"; s; d; "telemetry"] slash.
Proof. reflexivity. Qed.

Lemma parseTopic_telemetryTopic s d :
  has_char slash s = false → has_char slash d = false → parseTopic (telemetryTopic s d) = Ok (s, d).
Proof.
  intros Hs Hd. unfold parseTopic. rewrite telemetryTopic_Join, Split_Join by (by repeat constructor).
  by rewrite decide_False by naive_solver.
Qed.

(** [parseTopic] accepts exactly the topics the simulator's
    [telemetryTopic] builds from two slash-free ids, and returns those ids. *)
Theorem parseTopic_iff topic s d :
  parseTopic topic = Ok (s, d) ↔
  topic = telemetryTopic s d ∧ has_char slash s = false ∧ has_char slash d = false.
Proof.
  unfold parseTopic. split.
  - intros H. pose proof (Split_no_sep topic slash) as HF. pose proof (Join_Split topic slash) as HJ.
    destruct (Split topic slash) as [|p0 [|p1 [|p2 [|p3 [|]]]]]; try done.
    case_decide as Hc; [done|]. simplify_eq. rewrite telemetryTopic_Join.
    assert (p0 = "sitewatch" ∧ p3 = "telemetry") as [-> ->].
    { split; apply dec_stable; naive_solver. }
    rewrite !Forall_cons in HF. naive_solver.
  - intros (-> & Hs & Hd). by apply parseTopic_telemetryTopic.
Qed.

(** A message [parseTelemetryMessage] accepts carries non-empty ids and device
    type and at least one reading; on the way it reports exactly one of three
    errors (JSON, missing field, empty readings). *)
Theorem parseTelemetryMessage_spec `{!GoText} raw :
  match parseTelemetryMessage raw with
  | Ok msg => json_Unmarshal_TelemetryMessage raw = Ok msg ∧
      DeviceID msg ≠ "" ∧ SiteID msg ≠ "" ∧ DeviceType msg ≠ "" ∧ Readings msg ≠ ∅
  | Err e => (∃ e', json_Unmarshal_TelemetryMessage raw = Err e' ∧ e = Wrapf "invalid json" e') ∨
      ∃ msg, json_Unmarshal_TelemetryMessage raw = Ok msg ∧
        ((e = Errorf "missing required field(s)" ∧
          (DeviceID msg = "" ∨ SiteID msg = "" ∨ DeviceType msg = "")) ∨
         (e = Errorf "readings must not be empty" ∧ Readings msg = ∅))
  end.
Proof.
  unfold parseTelemetryMessage. destruct (json_Unmarshal_TelemetryMessage raw) as [msg|e]; [|eauto].
  case_decide as Hf; [right; exists msg; auto|].
  case_decide as Hr; [apply map_size_empty_inv in Hr; right; exists msg; auto|].
  split_and!; try done; try naive_solver. intros E. apply Hr. by rewrite E.
Qed.

(** A reading sent as JSON null is not rejected: it is stored as the number 0
    under its metric, so the alert engine evaluates it as a zero reading (the
    contract only knows numeric values). *)
Theorem null_reading_becomes_zero `{!GoText} raw dev site ty metric ts :
  dev ≠ "" → site ≠ "" → ty ≠ "" →
  json_scan raw = Some
    (JObj [("device_id", JStr dev dev); ("site_id", JStr site site);
           ("device_type", JStr ty ty); ("readings", JObj [(metric, JNull)]);
           ("ts", JStr ts ts)], "") →
  ∀ t, time_UnmarshalText ts = Some t →
  parseTelemetryMessage raw =
    Ok (mkTelemetryMessage dev site ty {[metric := S754_zero false]} t).
Proof.
  intros Hd Hs Ht Hscan t Hts.
  unfold parseTelemetryMessage, json_Unmarshal_TelemetryMessage, json_Unmarshal.
  rewrite Hscan.
  repeat progress (cbn [all_json_space decode_into decode_struct TelemetryMessage_field
    zero_TelemetryMessage decode_string decode_float_map decode_members decode_float decode_time];
    rewrite ?Hts; key_simpl).
  cbn [DeviceID SiteID DeviceType Readings].
  rewrite decide_False by naive_solver. rewrite decide_False; [done|].
  change (<[metric:=S754_zero false]> (∅ : gmap string float64)) with
    ({[metric := S754_zero false]} : gmap string float64).
  by rewrite map_size_singleton.
Qed.

(** A scanner for one device's payloads, written as the bare literal of its
    temperature reading ("null" for JSON null). *)
Definition wit_site : string := "11111111-1111-1111-1111-111111111111".
Definition wit_device : string := "a1111111-0000-0000-0000-000000000002".
Definition wit_payload (lit : string) : json :=
  JObj [("device_id", JStr wit_device wit_device); ("site_id", JStr wit_site wit_site);
        ("device_type", JStr "temp_sensor" "temp_sensor");
        ("readings", JObj [("temperature_c", if bool_decide (lit = "null") then JNull else JNum lit)]);
        ("ts", JStr "t0" "t0")].
Definition wit_GoText : GoText := {|
  json_scan lit := Some (wit_payload lit, "");
  ParseFloat lit := float_of_Z <$> Atoi lit;
  time_UnmarshalText _ := Some 0;
  time_Parse_RFC3339 _ := Some 0;
|}.

Lemma null_reading_becomes_zero_witness :
  @parseTelemetryMessage wit_GoText "null" =
  Ok (mkTelemetryMessage wit_device wit_site "temp_sensor" {["temperature_c" := S754_zero false]} 0).
Proof.
  apply (@null_reading_becomes_zero wit_GoText "null" wit_device wit_site "temp_sensor" "temperature_c" "t0").
  - discriminate.
  - discriminate.
  - discriminate.
  - reflexivity.
  - reflexivity.
Defined.
