(* ===== verification/GoJson.v ===== *)
(** * The scanner of encoding/json

    [json_value] reads one JSON value and returns the text after it, accepting what the
    state machine of [encoding/json] accepts (with its limit of 10000 nested values);
    strings are unquoted the way [unquote] does it, with U+FFFD for anything that is not
    UTF-8 and for lone surrogates. *)

From S2P Require Import Prelude GoStd GoFloat GoTime Contract.
Open Scope Z_scope.
Open Scope string_scope.
Open Scope list_scope.

Fixpoint skip_space (s : string) : string :=
  match s with
  | String a s' => if is_json_space a then skip_space s' else s
  | EmptyString => ""
  end.

(** ** Strings *)

Definition dq : ascii := "034".
Definition bslash : ascii := "092".

Definition is_hexdigit (a : ascii) : bool := match hex_digit a with Some _ => true | None => false end.

(** The text up to the closing quote, and what follows it. *)
Fixpoint scan_string (s : string) : option (string * string) :=
  match s with
  | EmptyString => None
  | String a s1 =>
      if decide (a = dq) then Some ("", s1)
      else if decide (a = bslash) then
        match s1 with
        | String e s2 =>
            if decide (e ∈ [dq; bslash; "/"; "b"; "f"; "n"; "r"; "t"]%char) then
              '(raw, rest) ← scan_string s2; Some (String a (String e raw), rest)
            else if decide (e = "u"%char) then
              match s2 with
              | String h1 (String h2 (String h3 (String h4 s3))) =>
                  if is_hexdigit h1 && is_hexdigit h2 && is_hexdigit h3 && is_hexdigit h4 then
                    '(raw, rest) ← scan_string s3;
                    Some (String a (String e (String h1 (String h2 (String h3 (String h4 raw))))), rest)
                  else None
              | _ => None
              end
            else None
        | EmptyString => None
        end
      else if decide (nat_of_ascii a < 32)%nat then None
      else '(raw, rest) ← scan_string s1; Some (String a raw, rest)
  end.

(** UTF-8 *)
Definition byte_at (n : Z) : ascii := ascii_of_nat (Z.to_nat n).

Definition EncodeRune (r : Z) : string :=
  if decide (r < 128) then String (byte_at r) ""
  else if decide (r < 2048) then String (byte_at (192 + r / 64)) (String (byte_at (128 + r mod 64)) "")
  else if decide (r < 65536) then
    String (byte_at (224 + r / 4096)) (String (byte_at (128 + r / 64 mod 64)) (String (byte_at (128 + r mod 64)) ""))
  else
    String (byte_at (240 + r / 262144)) (String (byte_at (128 + r / 4096 mod 64))
      (String (byte_at (128 + r / 64 mod 64)) (String (byte_at (128 + r mod 64)) ""))).

Definition RuneError : string := EncodeRune 65533.

(** The number of bytes of the valid encoding a text starts with, 0 for none. *)
Definition between (lo hi : nat) (a : ascii) : bool := bool_decide (lo <= nat_of_ascii a <= hi)%nat.

Definition rune_size (s : string) : nat :=
  match s with
  | String a (String b s') =>
      if between 194 223 a && between 128 191 b then 2
      else match s' with
           | String c s'' =>
               if ((between 224 224 a && between 160 191 b) || (between 225 236 a && between 128 191 b) ||
                   (between 237 237 a && between 128 159 b) || (between 238 239 a && between 128 191 b)) &&
                  between 128 191 c then 3
               else match s'' with
                    | String d _ =>
                        if ((between 240 240 a && between 144 191 b) || (between 241 243 a && between 128 191 b) ||
                            (between 244 244 a && between 128 143 b)) &&
                           between 128 191 c && between 128 191 d then 4 else 0
                    | EmptyString => 0
                    end
           | EmptyString => 0
           end
  | _ => 0
  end.

Definition hex4 (h1 h2 h3 h4 : ascii) : Z :=
  let d a := default 0 (hex_digit a) in ((d h1 * 16 + d h2) * 16 + d h3) * 16 + d h4.

(** The rune a surrogate pair stands for. *)
Definition surrogate_pair (r1 r2 : Z) : option Z :=
  if decide (55296 <= r1 < 56320 ∧ 56320 <= r2 < 57344)
  then Some ((r1 - 55296) * 1024 + (r2 - 56320) + 65536) else None.

Definition is_surrogate (r : Z) : bool := bool_decide (55296 <= r < 57344).

Definition escape_char (e : ascii) : ascii :=
  if decide (e = "b"%char) then "008"
  else if decide (e = "f"%char) then "012"
  else if decide (e = "n"%char) then "010"
  else if decide (e = "r"%char) then "013"
  else if decide (e = "t"%char) then "009"
  else e.

(** [unquote] of a scanned string; [fuel] bounds the number of its runes. *)
Fixpoint unquote_aux (fuel : nat) (s : string) : string :=
  match fuel, s with
  | O, _ | _, EmptyString => ""
  | S fuel', String a s1 =>
      if decide (a = bslash) then
        match s1 with
        | String "u" (String h1 (String h2 (String h3 (String h4 s2)))) =>
            let r1 := hex4 h1 h2 h3 h4 in
            if is_surrogate r1 then
              match s2 with
              | String b (String "u" (String g1 (String g2 (String g3 (String g4 s3))))) =>
                  match decide (b = bslash), surrogate_pair r1 (hex4 g1 g2 g3 g4) with
                  | left _, Some r => EncodeRune r +:+ unquote_aux fuel' s3
                  | _, _ => RuneError +:+ unquote_aux fuel' s2
                  end
              | _ => RuneError +:+ unquote_aux fuel' s2
              end
            else EncodeRune r1 +:+ unquote_aux fuel' s2
        | String e s2 => String (escape_char e) (unquote_aux fuel' s2)
        | EmptyString => ""
        end
      else if decide (nat_of_ascii a < 128)%nat then String a (unquote_aux fuel' s1)
      else match rune_size s, s1 with
           | 2%nat, String b s2 => String a (String b (unquote_aux fuel' s2))
           | 3%nat, String b (String c s2) => String a (String b (String c (unquote_aux fuel' s2)))
           | 4%nat, String b (String c (String d s2)) =>
               String a (String b (String c (String d (unquote_aux fuel' s2))))
           | _, _ => RuneError +:+ unquote_aux fuel' s1
           end
  end.

Definition unquote (s : string) : string := unquote_aux (String.length s) s.

(** ** Numbers *)

(** A run of digits. *)
Fixpoint digits (s : string) : string * string :=
  match s with
  | String a s' =>
      match digit_val a with
      | Some _ => let '(ds, rest) := digits s' in (String a ds, rest)
      | None => ("", s)
      end
  | EmptyString => ("", "")
  end.

Definition digits1 (s : string) : option (string * string) :=
  let '(ds, rest) := digits s in if decide (ds = "") then None else Some (ds, rest).

Definition integer_part (s : string) : option (string * string) :=
  match lit "0" s with
  | Some s' => Some ("0", s')
  | None => digits1 s
  end.

Definition fraction_part (s : string) : option (string * string) :=
  match lit "." s with
  | Some s' => '(ds, rest) ← digits1 s'; Some (String "." ds, rest)
  | None => Some ("", s)
  end.

Definition exponent_part (s : string) : option (string * string) :=
  match s with
  | String a s' =>
      if decide (a = "e"%char ∨ a = "E"%char) then
        let '(sign, s'') := match lit "+" s', lit "-" s' with
                            | Some t, _ => ("+", t)
                            | None, Some t => ("-", t)
                            | None, None => ("", s')
                            end in
        '(ds, rest) ← digits1 s''; Some (String a (sign +:+ ds), rest)
      else Some ("", s)
  | EmptyString => Some ("", s)
  end.

Definition scan_number (s : string) : option (string * string) :=
  let '(sign, s) := match lit "-" s with Some t => ("-", t) | None => ("", s) end in
  '(i, s) ← integer_part s; '(f, s) ← fraction_part s; '(e, s) ← exponent_part s;
  Some (sign +:+ i +:+ f +:+ e, s).

(** ** Values *)

Fixpoint strip (p s : string) : option string :=
  match p, s with
  | EmptyString, _ => Some s
  | String a p', String b s' => if decide (a = b) then strip p' s' else None
  | _, _ => None
  end.

Definition maxNestingDepth : nat := 10000.

(** One value, the elements of an array after "[", the members of an object after "{".
    [fuel] bounds the number of characters read; [depth] is what is left of the nesting
    limit. *)
Fixpoint json_value (fuel depth : nat) (s : string) : option (json * string) :=
  match fuel with
  | O => None
  | S fuel' =>
      match s with
      | EmptyString => None
      | String a s' =>
          if decide (a = dq) then '(raw, rest) ← scan_string s'; Some (JStr raw (unquote raw), rest)
          else if decide (a = "{"%char) then
            match depth with
            | O => None
            | S depth' =>
                match lit "}" (skip_space s') with
                | Some rest => Some (JObj [], rest)
                | None => '(l, rest) ← json_members fuel' depth' (skip_space s'); Some (JObj l, rest)
                end
            end
          else if decide (a = "["%char) then
            match depth with
            | O => None
            | S depth' =>
                match lit "]" (skip_space s') with
                | Some rest => Some (JArr [], rest)
                | None => '(l, rest) ← json_elements fuel' depth' (skip_space s'); Some (JArr l, rest)
                end
            end
          else if decide (a = "t"%char) then rest ← strip "true" s; Some (JBool true, rest)
          else if decide (a = "f"%char) then rest ← strip "false" s; Some (JBool false, rest)
          else if decide (a = "n"%char) then rest ← strip "null" s; Some (JNull, rest)
          else '(n, rest) ← scan_number s; Some (JNum n, rest)
      end
  end
with json_elements (fuel depth : nat) (s : string) : option (list json * string) :=
  match fuel with
  | O => None
  | S fuel' =>
      '(v, s) ← json_value fuel' depth s;
      match lit "]" (skip_space s) with
      | Some rest => Some ([v], rest)
      | None =>
          s ← lit "," (skip_space s);
          '(l, rest) ← json_elements fuel' depth (skip_space s); Some (v :: l, rest)
      end
  end
with json_members (fuel depth : nat) (s : string) : option (list (string * json) * string) :=
  match fuel with
  | O => None
  | S fuel' =>
      s ← lit dq s; '(raw, s) ← scan_string s; s ← lit ":" (skip_space s);
      '(v, s) ← json_value fuel' depth (skip_space s);
      match lit "}" (skip_space s) with
      | Some rest => Some ([(unquote raw, v)], rest)
      | None =>
          s ← lit "," (skip_space s);
          '(l, rest) ← json_members fuel' depth (skip_space s); Some ((unquote raw, v) :: l, rest)
      end
  end.

(** The scanner: white space, one value, and the text after it. *)
Definition scan_json (s : string) : option (json * string) :=
  json_value (S (2 * String.length s)) maxNestingDepth (skip_space s).

(** The text-level functions of the standard library, as one interface. *)
Definition go_text : GoText := {|
  json_scan := scan_json;
  ParseFloat := strconv_ParseFloat;
  time_UnmarshalText := Parse_RFC3339;
  time_Parse_RFC3339 := Parse_RFC3339;
|}.

(** ** The fuel suffices *)

Abbreviation len := String.length.

Lemma len_app x y : len (x +:+ y) = (len x + len y)%nat.
Proof. induction x as [|a x IH]; [done|].
  change (S (len (x +:+ y)) = S (len x + len y)). by rewrite IH.
Qed.

Lemma skip_space_len s : (len (skip_space s) <= len s)%nat.
Proof. induction s as [|a s IH]; simpl; [done|]. case_match; simpl; lia. Qed.

Lemma lit_len c s rest : lit c s = Some rest → len s = S (len rest).
Proof. destruct s as [|a s]; simpl; [done|]. case_decide; naive_solver. Qed.

Lemma strip_len p s rest : strip p s = Some rest → len s = (len p + len rest)%nat.
Proof.
  revert s. induction p as [|a p IH]; intros s; simpl; [by intros [= ->]|].
  destruct s as [|b s]; [done|]. case_decide; [|done]. intros Hs%IH. simpl. lia.
Qed.

(** Goes through the binds of a successful scan. *)
Ltac scanned :=
  repeat match goal with
  | H : (_ ≫= _) = Some _ |- _ => apply bind_Some in H as ([? ?] & ? & H) || apply bind_Some in H as (? & ? & H)
  | H : Some _ = Some _ |- _ => injection H as ?; subst
  end.

Lemma scan_string_len s raw rest : scan_string s = Some (raw, rest) → (len rest < len s)%nat.
Proof.
  remember (len s) as n eqn:En. revert s raw rest En.
  induction (lt_wf n) as [n _ IH]. intros s raw rest ->.
  destruct s as [|a s1]; [done|]. cbn [scan_string].
  repeat (case_match; try done); intros Hs; scanned; simpl in *; try lia.
  all: match goal with Hs : scan_string _ = Some _ |- _ => eapply IH in Hs; [| |reflexivity]; simpl; lia end.
Qed.

Lemma digits_len s ds rest : digits s = (ds, rest) → len s = (len ds + len rest)%nat.
Proof.
  revert ds rest. induction s as [|a s IH]; simpl; intros ds rest; [by intros [= <- <-]|].
  case_match; [|by intros [= <- <-]]. destruct (digits s) as [ds' rest'] eqn:E. intros [= <- <-].
  rewrite (IH _ _ eq_refl). simpl. lia.
Qed.

Lemma digits1_len s ds rest : digits1 s = Some (ds, rest) → (len rest < len s)%nat.
Proof.
  unfold digits1. destruct (digits s) as [ds' rest'] eqn:E. apply digits_len in E.
  case_decide; [done|].
  intros [= -> ->]. destruct ds; [done|]. simpl in *. lia.
Qed.

Lemma scan_number_len s n rest : scan_number s = Some (n, rest) → (len rest < len s)%nat.
Proof.
  assert (∀ s i t, integer_part s = Some (i, t) → (len t < len s)%nat) as Hi.
  { intros t i u. unfold integer_part. destruct (lit "0" t) as [t'|] eqn:E; [|apply digits1_len].
    apply lit_len in E. intros [= <- <-]. lia. }
  assert (∀ s i t, fraction_part s = Some (i, t) → (len t <= len s)%nat) as Hf.
  { intros t i u. unfold fraction_part. destruct (lit "." t) as [t'|] eqn:E; [|by intros [= <- <-]].
    apply lit_len in E. intros Hs. scanned. match goal with H : digits1 _ = _ |- _ => apply digits1_len in H end. lia. }
  assert (∀ s i t, exponent_part s = Some (i, t) → (len t <= len s)%nat) as He.
  { intros t i u. unfold exponent_part. destruct t as [|a t]; [by intros [= <- <-]|].
    case_decide; [|by intros [= <- <-]].
    destruct (match lit "+" t with Some _ => _ | _ => _ end) as [sign t'] eqn:E.
    assert (len t' <= len t)%nat
      by (destruct (lit "+" t) eqn:E1, (lit "-" t) eqn:E2; simplify_eq;
          try apply lit_len in E1; try apply lit_len in E2; lia).
    intros Hs. scanned. match goal with H : digits1 _ = _ |- _ => apply digits1_len in H end. simpl. lia. }
  unfold scan_number. destruct (match lit "-" s with Some _ => _ | _ => _ end) as [sign t] eqn:E.
  assert (len t <= len s)%nat
    by (destruct (lit "-" s) eqn:E1; simplify_eq; [apply lit_len in E1|]; lia).
  intros Hs. scanned. repeat match goal with
  | H : integer_part _ = _ |- _ => apply Hi in H
  | H : fraction_part _ = _ |- _ => apply Hf in H
  | H : exponent_part _ = _ |- _ => apply He in H
  end. lia.
Qed.

(** Records what a successful scan of a part leaves. *)
Ltac lengths :=
  repeat match goal with
  | H : scan_string _ = Some _ |- _ => apply scan_string_len in H
  | H : scan_number _ = Some _ |- _ => apply scan_number_len in H
  | H : lit _ _ = Some _ |- _ => apply lit_len in H
  | H : strip _ _ = Some _ |- _ => apply strip_len in H
  end;
  repeat match goal with
  | _ : context [len (skip_space ?s)] |- _ =>
      lazymatch goal with
      | _ : (len (skip_space s) <= len s)%nat |- _ => fail
      | _ => pose proof (skip_space_len s)
      end
  end.

Ltac consumed IHv IHe IHm :=
  repeat match goal with
  | H : json_value _ _ _ = Some _ |- _ => apply IHv in H
  | H : json_elements _ _ _ = Some _ |- _ => apply IHe in H
  | H : json_members _ _ _ = Some _ |- _ => apply IHm in H
  end; lengths; simpl in *; lia.

(** Every part of a value that is read is consumed. *)
Lemma json_len fuel :
  (∀ d s v rest, json_value fuel d s = Some (v, rest) → (len rest < len s)%nat) ∧
  (∀ d s l rest, json_elements fuel d s = Some (l, rest) → (len rest < len s)%nat) ∧
  (∀ d s l rest, json_members fuel d s = Some (l, rest) → (len rest < len s)%nat).
Proof.
  induction fuel as [|fuel (IHv & IHe & IHm)]; [done|].
  split_and!; intros d s v rest; [destruct s as [|a s]; [done|]|..];
    cbn [json_value json_elements json_members]; intros Hs.
  - repeat case_decide; repeat (case_match; try done); scanned; consumed IHv IHe IHm.
  - scanned. case_match; scanned; consumed IHv IHe IHm.
  - scanned. case_match; scanned; consumed IHv IHe IHm.
Qed.

(** With fuel for two steps per character, more fuel changes nothing. *)
Lemma json_fuel fuel :
  (∀ fuel' d s, (2 * len s + 1 <= fuel <= fuel')%nat → json_value fuel' d s = json_value fuel d s) ∧
  (∀ fuel' d s, (2 * len s + 2 <= fuel <= fuel')%nat → json_elements fuel' d s = json_elements fuel d s) ∧
  (∀ fuel' d s, (2 * len s + 2 <= fuel <= fuel')%nat → json_members fuel' d s = json_members fuel d s).
Proof.
  induction fuel as [|fuel (IHv & IHe & IHm)]; [split_and!; intros; lia|].
  split_and!; intros [|fuel'] d s Hf; try lia; cbn [json_value json_elements json_members].
  - destruct s as [|a s]; [done|]. pose proof (skip_space_len s). simpl in Hf.
    repeat (case_decide; [try done|]); try done; destruct d as [|d]; try done; case_match; try done.
    + rewrite IHm by lia. done.
    + rewrite IHe by lia. done.
  - rewrite IHv by lia. destruct (json_value fuel d s) as [[v t]|] eqn:E; [|done]. cbn [mbind option_bind].
    apply json_len in E. case_match; [done|].
    destruct (lit "," (skip_space t)) as [u|] eqn:Eu; [|done]. cbn [mbind option_bind].
    apply lit_len in Eu. pose proof (skip_space_len t). pose proof (skip_space_len u). by rewrite IHe by lia.
  - destruct (lit dq s) as [s1|] eqn:E1; [|done]. cbn [mbind option_bind]. apply lit_len in E1.
    destruct (scan_string s1) as [[raw s2]|] eqn:E2; [|done]. cbn [mbind option_bind]. apply scan_string_len in E2.
    destruct (lit ":" (skip_space s2)) as [s3|] eqn:E3; [|done]. cbn [mbind option_bind]. apply lit_len in E3.
    pose proof (skip_space_len s2). pose proof (skip_space_len s3). rewrite IHv by lia.
    destruct (json_value fuel d _) as [[v t]|] eqn:E; [|done]. cbn [mbind option_bind].
    apply json_len in E. case_match; [done|].
    destruct (lit "," (skip_space t)) as [u|] eqn:Eu; [|done]. cbn [mbind option_bind].
    apply lit_len in Eu. pose proof (skip_space_len t). pose proof (skip_space_len u). by rewrite IHm by lia.
Qed.

(** The scanner never stops for lack of fuel: any larger amount gives the same answer. *)
Theorem scan_json_total s fuel :
  (2 * len s < fuel)%nat → json_value fuel maxNestingDepth (skip_space s) = scan_json s.
Proof.
  intros Hf. pose proof (skip_space_len s). unfold scan_json. apply json_fuel. lia.
Qed.

(** ** Examples, written with single quotes *)

Fixpoint requote (s : string) : string :=
  match s with
  | EmptyString => ""
  | String a s' => String (if decide (a = "'"%char) then dq else a) (requote s')
  end.

Example scan_nested :
  scan_json (requote " { 'a' : [ 1 , -0.5e+3 , true ] , 'b' : null } tail") =
  Some (JObj [("a", JArr [JNum "1"; JNum "-0.5e+3"; JBool true]); ("b", JNull)], " tail").
Proof. vm_compute. reflexivity. Qed.

Example scan_refused :
  (λ s, match scan_json (requote s) with Some _ => true | None => false end) <$>
    ["[01]"; "1."; "-"; "1e"; "{'a':1,}"; "[1,]"; "{'a' 1}"; "'\x'"; "'\u12g4'"; "nul"; ""; "'abc"; "[1 2]"; "+1"; ".5"] =
  replicate 15 false.
Proof. vm_compute. reflexivity. Qed.

(** Escapes, a surrogate pair (U+1F600), a lone surrogate and a byte that is not UTF-8. *)
Example scan_escapes :
  (λ s, match scan_json (requote s) with Some (JStr _ v, _) => v | _ => "" end) <$>
    ["'a\n\u0041\/'"; "'\ud83d\ude00'"; "'\ud800x'"; requote "'" +:+ String "255" (requote "'")] =
  [String "a" (String "010" "A/"); EncodeRune 128512; RuneError +:+ "x"; RuneError].
Proof. vm_compute. reflexivity. Qed.
