(* ===== verification/Fixtures.v ===== *)
(** * Concrete instances used by the witnesses

    The seed rows of [infra/postgres/init.sql], a PostgreSQL whose uuid input
    accepts every non-empty text as canonical and any text, and quiet environments. *)

From S2P Require Import Prelude GoStd Alerts Pg World Contract.
From stdpp Require Import pretty.
Open Scope Z_scope.
Open Scope string_scope.
Open Scope list_scope.

Definition fx_PgLib : PgLib.
Proof.
  refine {| uuid_in s := if decide (s = "") then None else Some s; text_in _ := true; text_le _ _ := true |}.
  - intros s u H. case_decide; simplify_eq. by rewrite decide_False.
  - auto.
  - auto.
Defined.

(** The seed data; the ids of the rules are generated by the server. *)
Definition bangkok : string := "11111111-1111-1111-1111-111111111111".
Definition rayong : string := "22222222-2222-2222-2222-222222222222".
Definition smart_meter_01 : string := "a1111111-0000-0000-0000-000000000001".
Definition temp_sensor_01 : string := "a1111111-0000-0000-0000-000000000002".
Definition operator_user : string := "33333333-0000-0000-0000-000000000001".

Definition init_sql : Pg := mkPg
  (list_to_map [(bangkok, mkSiteRow "Bangkok Data Center" "data_center" (Some "Bangkok, TH"));
                (rayong, mkSiteRow "Rayong Factory" "factory" (Some "Rayong, TH"))])
  (list_to_map
    [(smart_meter_01, mkDeviceRow bangkok "smart-meter-01" "smart_meter" None);
     (temp_sensor_01, mkDeviceRow bangkok "temp-sensor-01" "temp_sensor" None);
     ("a1111111-0000-0000-0000-000000000003", mkDeviceRow bangkok "humidity-sensor-01" "humidity_sensor" None);
     ("a1111111-0000-0000-0000-000000000004", mkDeviceRow bangkok "ups-01" "ups" None);
     ("a2222222-0000-0000-0000-000000000001", mkDeviceRow rayong "smart-meter-02" "smart_meter" None);
     ("a2222222-0000-0000-0000-000000000002", mkDeviceRow rayong "temp-sensor-02" "temp_sensor" None);
     ("a2222222-0000-0000-0000-000000000003", mkDeviceRow rayong "hvac-01" "hvac" None)])
  (list_to_map
    [("rule-warn", mkAlertRuleRow temp_sensor_01 "temperature_c" "gt" (float_of_Z 28) "warning" true);
     ("rule-crit", mkAlertRuleRow temp_sensor_01 "temperature_c" "gt" (float_of_Z 32) "critical" true);
     ("rule-power", mkAlertRuleRow smart_meter_01 "power_kw" "gt" (float_of_Z 50) "warning" true)])
  {[operator_user := mkUserRow "ops@sitewatch.local" "Site Operator" "operator"]}
  ∅.

(** A freshly started pair of services on the tables [db]. *)
Definition fresh_world (db : Pg) : World := mkWorld db [] ∅ ∅ 0 0 ∅ ∅ [] [] (mkLimiterState ∅ []) 0.

(** One second per tick; the given write and read faults. *)
Definition fx_Env (ef : nat → ExecFault) (qf : nat → QueryFault) : Env.
Proof.
  refine {| now_at n := Z.of_nat n * Second; exec_fault := ef; query_fault := qf;
            gen_random_uuid n := "alert-" +:+ pretty n;
            row_order _ _ l := l; rand_Read _ := None |}; done.
Defined.

Definition quiet_Env : Env := fx_Env (λ _, ExecOk) (λ _, QueryOk).

(** The invariant of the schema holds of the seed data. *)
Definition Pg_okb (db : Pg) : bool :=
  bool_decide (map_Forall (λ _ d, is_Some (sites db !! d_site_id d)) (devices db)) &&
  bool_decide (map_Forall (λ _ r, is_Some (devices db !! ar_device_id r) ∧
    operator_check (ar_operator r) = true ∧ severity_check (ar_severity r) = true) (alert_rules db)) &&
  bool_decide (alerts db = ∅) &&
  bool_decide (map_Forall (λ _ s, site_type_check (s_type s) = true) (sites db)) &&
  bool_decide (map_Forall (λ _ d, device_type_check (d_type d) = true) (devices db)) &&
  bool_decide (map_Forall (λ i u, role_check (u_role u) = true ∧
    map_Forall (λ j v, u_email u = u_email v → i = j) (users db)) (users db)).

Lemma Pg_okb_sound db : Pg_okb db = true → Pg_ok db.
Proof.
  unfold Pg_okb. rewrite !andb_true_iff, !bool_decide_eq_true.
  intros [[[[[H1 H2] H3] H4] H5] H6]. split; [apply H4|apply H5| | |apply H1|apply H2|..].
  - intros id u Hu. by destruct (H6 id u Hu).
  - intros i j u v Hu Hv. destruct (H6 i u Hu) as [_ Hj]. by apply Hj.
  - intros id a; by rewrite H3, lookup_empty.
  - intros id a; by rewrite H3, lookup_empty.
Qed.

Lemma init_sql_ok : Pg_ok init_sql.
Proof. apply Pg_okb_sound. vm_compute. reflexivity. Defined.


(** The seed data with one alert of the critical rule, acknowledged if [acked]. *)
Definition fx_alert (acked : bool) : AlertRow :=
  mkAlertRow "rule-crit" temp_sensor_01 (float_of_Z 33) "critical"
    (if acked then acknowledged else open) 0
    (if acked then Some 0 else None) (if acked then Some operator_user else None) None None.

Definition one_alert (acked : bool) : Pg := set_alerts <["alert-1" := fx_alert acked]> init_sql.

(** Every read fails, writes succeed. *)
Definition unreadable_Env : Env := fx_Env (λ _, ExecOk) (λ _, QueryFails).
