(* ===== verification/Shared.v ===== *)
(** * Package shared, and the configuration read from the environment

    [NewCorrelationID] (shared/correlation.go), the connection-pool sizes of
    shared/db.go, and [intFromEnv] of ingestion/main.go. *)

From S2P Require Import Prelude GoStd Alerts Pg World.
Open Scope Z_scope.
Open Scope string_scope.
Open Scope list_scope.

(** ** shared/correlation.go *)

Definition hexdigit (n : nat) : ascii :=
  if decide (n < 10)%nat then ascii_of_nat (48 + n) else ascii_of_nat (87 + n).

(** [hex.EncodeToString] *)
Fixpoint EncodeToString (buf : list ascii) : string :=
  match buf with
  | [] => ""
  | b :: buf' =>
      let n := nat_of_ascii b in
      String (hexdigit (n / 16)) (String (hexdigit (n mod 16)) (EncodeToString buf'))
  end.

Definition NewCorrelationID `{!Env} : prog World string :=
  act (λ w, (match rand_Read (w_tick w) with
             | Some buf => EncodeToString buf
             | None => "unavailable"
             end, tick w)).

(** ** Configuration *)

(** The process environment; [os.Getenv] of an unset variable is "". *)
Definition os_Getenv (env : gmap string string) (key : string) : string := map_get "" env key.

(** ingestion/main.go *)
Definition defaultWorkerCount : Z := 4.
Definition defaultQueueSize : Z := 256.
Definition defaultDebounceBreaches : Z := 3.

Definition intFromEnv (env : gmap string string) (key : string) (fallback : Z) : Z :=
  let raw := os_Getenv env key in
  if decide (raw = "") then fallback
  else match Atoi raw with
       | Some n => if decide (n <= 0) then fallback else n
       | None => fallback
       end.

(** shared/db.go: [cfg.MaxConns], an int32. *)
Definition wrap32 (z : Z) : Z := (z + 2 ^ 31) mod 2 ^ 32 - 2 ^ 31.

Definition defaultMaxConns : Z := 10.

Definition NewPostgresPool_MaxConns (env : gmap string string) : Z :=
  let raw := os_Getenv env "POSTGRES_MAX_CONNS" in
  if decide (raw ≠ "") then
    match ParseInt raw 32 with
    | Some n => if decide (n > 0) then wrap32 n else defaultMaxConns
    | None => defaultMaxConns
    end
  else defaultMaxConns.

(** shared/db.go: the driver's pool size, a uint64. *)
Definition defaultMongoMaxPoolSize : Z := 20.

Definition NewMongoClient_poolSize (env : gmap string string) : Z :=
  let raw := os_Getenv env "MONGO_MAX_POOL_SIZE" in
  if decide (raw ≠ "") then
    match ParseUint raw 32 with
    | Some n => if decide (n > 0) then n else defaultMongoMaxPoolSize
    | None => defaultMongoMaxPoolSize
    end
  else defaultMongoMaxPoolSize.

(** ** Properties *)

Definition is_hex (a : ascii) : bool :=
  let n := nat_of_ascii a in
  bool_decide ((48 <= n <= 57)%nat ∨ (97 <= n <= 102)%nat).

Lemma hexdigit_facts n :
  (n < 16)%nat →
  is_hex (hexdigit n) = true ∧ ∀ m, (m < 16)%nat → hexdigit n = hexdigit m → n = m.
Proof.
  intros Hn. split.
  - do 16 (destruct n as [|n]; [done|]). lia.
  - intros m Hm. do 16 (destruct n as [|n]; [do 16 (destruct m as [|m]; [done|]); lia|]). lia.
Qed.

Lemma nibbles_bounded a : (nat_of_ascii a / 16 < 16)%nat ∧ (nat_of_ascii a mod 16 < 16)%nat.
Proof.
  pose proof (nat_ascii_bounded a). split; [|by apply Nat.mod_upper_bound].
  apply Nat.Div0.div_lt_upper_bound. lia.
Qed.

Lemma byte_digits a b :
  hexdigit (nat_of_ascii a / 16) = hexdigit (nat_of_ascii b / 16) →
  hexdigit (nat_of_ascii a mod 16) = hexdigit (nat_of_ascii b mod 16) → a = b.
Proof.
  destruct (nibbles_bounded a) as [??], (nibbles_bounded b) as [??].
  intros E1%hexdigit_facts E2%hexdigit_facts; [|done..].
  rewrite <-(ascii_nat_embedding a), <-(ascii_nat_embedding b). f_equal.
  rewrite (Nat.div_mod_eq (nat_of_ascii a) 16), (Nat.div_mod_eq (nat_of_ascii b) 16). lia.
Qed.

Lemma EncodeToString_hex buf :
  string_forallb is_hex (EncodeToString buf) = true ∧
  String.length (EncodeToString buf) = (2 * length buf)%nat.
Proof.
  induction buf as [|b buf [IH1 IH2]]; [done|]. destruct (nibbles_bounded b) as [Hd Hm].
  cbn [EncodeToString string_forallb String.length length]. rewrite IH1, IH2.
  rewrite (proj1 (hexdigit_facts _ Hd)), (proj1 (hexdigit_facts _ Hm)).
  split; [done|lia].
Qed.

Lemma EncodeToString_inj buf1 buf2 :
  length buf1 = length buf2 → EncodeToString buf1 = EncodeToString buf2 → buf1 = buf2.
Proof.
  revert buf2. induction buf1 as [|a buf1 IH]; intros [|b buf2] Hlen H; try done.
  cbn [EncodeToString] in H. injection H as H1 H2 H3. f_equal.
  - by apply byte_digits.
  - apply IH; [simpl in Hlen; lia | done].
Qed.

(** A correlation id is sixteen lowercase hexadecimal characters, and different
    random bytes give different ids; only when the random source fails is it the
    fixed word "unavailable".  Making one changes nothing but the tick. *)
Theorem NewCorrelationID_spec `{!Env} w :
  (run NewCorrelationID w).2 = tick w ∧
  match rand_Read (w_tick w) with
  | Some buf =>
      let id := (run NewCorrelationID w).1 in
      String.length id = 16%nat ∧ string_forallb is_hex id = true ∧
      ∀ w' buf', rand_Read (w_tick w') = Some buf' →
        (run NewCorrelationID w').1 = id → buf' = buf
  | None => (run NewCorrelationID w).1 = "unavailable"
  end.
Proof.
  unfold NewCorrelationID. setoid_rewrite run_act. split; [done|]. simpl.
  destruct (rand_Read (w_tick w)) as [buf|] eqn:E; [|done]. simpl.
  destruct (EncodeToString_hex buf) as [H1 H2]. pose proof (rand_Read_length _ _ E) as Hl.
  split_and!; [rewrite H2; lia | done |]. intros w' buf' E'. simpl. rewrite E'.
  apply EncodeToString_inj. rewrite Hl. by apply (rand_Read_length (w_tick w')).
Qed.

Lemma intFromEnv_range env key fallback :
  0 < fallback <= max_int64 → 0 < intFromEnv env key fallback <= max_int64.
Proof.
  intros Hf. unfold intFromEnv. case_decide; [lia|]. destruct (Atoi _) as [n|] eqn:E; [|lia].
  apply Atoi_range in E. unfold in_int64 in E. case_decide; lia.
Qed.

(** Whatever the environment holds, the settings are usable: worker count,
    queue size and debounce window are positive [int]s, the Postgres pool size
    survives its conversion to int32, and the Mongo pool size fits 32 bits; a
    malformed, non-positive or out-of-range value means the default. *)
Theorem settings_in_range env key fallback :
  0 < fallback <= max_int64 →
  0 < intFromEnv env key fallback <= max_int64 ∧
  0 < NewPostgresPool_MaxConns env < 2 ^ 31 ∧
  (∀ n, ParseInt (os_Getenv env "POSTGRES_MAX_CONNS") 32 = Some n → n > 0 →
     NewPostgresPool_MaxConns env = n) ∧
  0 < NewMongoClient_poolSize env < 2 ^ 32.
Proof.
  intros Hf.
  assert (∀ n, ParseInt (os_Getenv env "POSTGRES_MAX_CONNS") 32 = Some n → n > 0 →
     0 < n < 2 ^ 31 ∧ wrap32 n = n) as Hcast.
  { intros n Hn%ParseInt_range Hpos; [|lia]. split; [lia|].
    unfold wrap32. rewrite Z.mod_small; lia. }
  pose proof (intFromEnv_range env key fallback Hf) as Hint.
  assert (0 < NewPostgresPool_MaxConns env < 2 ^ 31) as Hpg.
  { unfold NewPostgresPool_MaxConns, defaultMaxConns. case_decide; [|lia].
    destruct (ParseInt _ 32) as [n|] eqn:E; [|lia]. case_decide; [|lia].
    destruct (Hcast n) as [? ->]; auto. }
  split_and!; try apply Hint; try apply Hpg.
  - intros n Hn Hpos. unfold NewPostgresPool_MaxConns.
    rewrite decide_True, Hn, decide_True by (try done; intros E; by rewrite E in Hn).
    by apply Hcast.
  - unfold NewMongoClient_poolSize, defaultMongoMaxPoolSize. case_decide; [|lia].
    destruct (ParseUint _ 32) as [n|] eqn:E; [|lia]. apply ParseUint_range in E. case_decide; lia.
  - unfold NewMongoClient_poolSize, defaultMongoMaxPoolSize. case_decide; [|lia].
    destruct (ParseUint _ 32) as [n|] eqn:E; [|lia]. apply ParseUint_range in E. case_decide; lia.
Qed.

Lemma settings_in_range_witness :
  0 < intFromEnv {["INGESTION_QUEUE_SIZE" := "-5"]} "INGESTION_QUEUE_SIZE" defaultQueueSize <= max_int64.
Proof.
  apply (settings_in_range {["INGESTION_QUEUE_SIZE" := "-5"]} "INGESTION_QUEUE_SIZE" defaultQueueSize).
  vm_compute. split; [reflexivity | intros [=]].
Defined.
