(* ===== verification/Store.v ===== *)
(** * The ingestion store: [ingestion/store.go] and the SQL half of
      [ingestion/alerts.go]

    Each method is the sequence of its atomic actions.  [docs/rca/04] explains
    why the write of the decisions is retried. *)

From S2P Require Import Prelude GoStd Alerts Pg World Contract Fixtures Shared.
Open Scope Z_scope.
Open Scope string_scope.
Open Scope list_scope.
Open Scope go_scope.

(** The critical section of [MaybeUpdateLastSeen]. *)
Definition lastSeen_section (lastSeenSent : gmap string time) (deviceID : string) (at_ : time)
    : bool * gmap string time :=
  let due := match lastSeenSent !! deviceID with
             | None => true
             | Some last => bool_decide (time_Sub at_ last >= lastSeenDebounce)
             end in
  (due, if due then <[deviceID := at_]> lastSeenSent else lastSeenSent).

Definition rule_of_row (p : string * AlertRuleRow) : Rule :=
  mkRule p.1 (ar_metric p.2) (ar_operator p.2) (ar_threshold p.2) (ar_severity p.2).

(** [active[ruleID] = true] for every row. *)
Definition active_of_rows (ids : list string) : gmap string bool :=
  foldl (λ m id, <[id := true]> m) ∅ ids.

Definition maxAttempts : nat := 3.

Section Store.
Context `{!PgLib, !Env}.

Definition WriteTelemetry (msg : TelemetryMessage) : prog World (result unit) :=
  now <- time_Now ;;
  r <- mongo_insert_one (mkTelemetryDoc (DeviceID msg) (SiteID msg) (DeviceType msg) (Readings msg)
         (bson_datetime (Ts msg)) (bson_datetime now)) ;;
  match r with
  | Err e => Ret (Err (Wrapf "mongo insert telemetry_raw" e))
  | Ok _ => Ret (Ok tt)
  end.

Definition MaybeUpdateLastSeen (deviceID : string) (at_ : time) : prog World (result unit) :=
  due <- act (λ w, let '(due, m) := lastSeen_section (w_lastSeenSent w) deviceID at_ in
                   (due, tick (set_lastSeenSent m w))) ;;
  if negb due then Ret (Ok tt)
  else
    r <- pg_exec (λ _ _, update_last_seen at_ deviceID) ;;
    match r with
    | Err e => Ret (Err (Wrapf "update last_seen_at" e))
    | Ok _ => Ret (Ok tt)
    end.

Definition LoadEnabledRules (deviceID : string) : prog World (result (list Rule)) :=
  r <- pg_query (select_enabled_rules deviceID) ;;
  match r with
  | Err e => Ret (Err (Wrapf "query alert_rules" e))
  | Ok (rows, RowScanErr) => Ret (Err (Wrapf "scan alert_rules" ScanError))
  | Ok (rows, RowsErr) => Ret (Err NetError)
  | Ok (rows, RowsDone) => Ret (Ok (rule_of_row <$> rows))
  end.

Definition LoadActiveRuleIDs (deviceID : string) : prog World (result (gmap string bool)) :=
  r <- pg_query (select_active_rule_ids deviceID) ;;
  match r with
  | Err e => Ret (Err (Wrapf "query active alerts" e))
  | Ok (rows, RowScanErr) => Ret (Err (Wrapf "scan active alerts" ScanError))
  | Ok (rows, RowsErr) => Ret (Err NetError)
  | Ok (rows, RowsDone) => Ret (Ok (active_of_rows rows))
  end.

Fixpoint ApplyDecisions (deviceID : string) (decisions : list RuleDecision) (at_ : time)
    : prog World (result unit) :=
  match decisions with
  | [] => Ret (Ok tt)
  | d :: ds =>
      match rd_Decision d with
      | CreateAlert =>
          r <- pg_exec (λ newid _, insert_alert newid (rule_ID (rd_Rule d)) deviceID (rd_Value d)
                                     (rule_Severity (rd_Rule d)) at_) ;;
          match r with
          | Err e => Ret (Err (Wrapf ("insert alert for rule " +:+ rule_ID (rd_Rule d)) e))
          | Ok _ => ApplyDecisions deviceID ds at_
          end
      | AutoResolve =>
          r <- pg_exec (λ _ _, auto_resolve_alerts at_ (rule_ID (rd_Rule d))) ;;
          match r with
          | Err e => Ret (Err (Wrapf ("resolve alert for rule " +:+ rule_ID (rd_Rule d)) e))
          | Ok _ => ApplyDecisions deviceID ds at_
          end
      | NoAction => ApplyDecisions deviceID ds at_
      end
  end.

(** The retry loop with [left] attempts to go; [err] is the last failure. *)
Fixpoint retry_loop (left : nat) (backoff : Z) (err : error) (deviceID : string)
    (decisions : list RuleDecision) (at_ : time) : prog World (result unit) :=
  match left with
  | O => Ret (Err (Wrapf "apply decisions after 3 attempts" err))
  | S left' =>
      r <- ApplyDecisions deviceID decisions at_ ;;
      match r with
      | Ok _ => Ret (Ok tt)
      | Err e =>
          match left' with
          | O => retry_loop left' backoff e deviceID decisions at_
          | S _ => time_Sleep backoff ;; retry_loop left' (wrap64 (backoff * 2)) e deviceID decisions at_
          end
      end
  end.

Definition applyDecisionsWithRetry (deviceID : string) (decisions : list RuleDecision) (at_ : time)
    : prog World (result unit) :=
  retry_loop maxAttempts (100 * Millisecond) NetError deviceID decisions at_.

End Store.

(** ** The guarantee of the store's methods *)

Section StoreGuarantee.
Context `{!PgLib, !Env}.

Lemma each_step_WriteTelemetry msg : each_step world_step (WriteTelemetry msg).
Proof. unfold WriteTelemetry. solve_each_step. Qed.

(** The critical section moves a device's mark by at least one window. *)
Lemma lastSeen_section_advances m d at_ k t :
  m !! k = Some t →
  ∃ t', (lastSeen_section m d at_).2 !! k = Some t' ∧ (t' = t ∨ t' - t >= lastSeenDebounce).
Proof.
  intros Hk. unfold lastSeen_section. simpl. destruct (decide (d = k)) as [->|Hne].
  - rewrite Hk. case_bool_decide as Hd; [|by eauto]. rewrite lookup_insert_eq.
    eexists. split; [done|]. right. apply time_Sub_ge in Hd; [done|]. vm_compute. split; congruence.
  - exists t. case_match; [|by auto]. rewrite lookup_insert_ne by done. auto.
Qed.

Lemma each_step_MaybeUpdateLastSeen d at_ : each_step world_step (MaybeUpdateLastSeen d at_).
Proof.
  unfold MaybeUpdateLastSeen. apply each_step_bind.
  - apply each_step_act. intros w. pose proof (lastSeen_section_advances (w_lastSeenSent w) d at_) as Hadv.
    destruct (lastSeen_section _ _ _) as [due m]. simpl in *.
    split; simpl; eauto using stmt_guarantee_refl; lia.
  - intros due. case_match; [done|]. apply each_step_bind; [|solve_each_step].
    apply each_step_pg_exec. intros ? ? ? ?. by apply update_last_seen_guarantee.
Qed.

Lemma each_step_LoadEnabledRules d : each_step world_step (LoadEnabledRules d).
Proof. unfold LoadEnabledRules. solve_each_step. Qed.

Lemma each_step_LoadActiveRuleIDs d : each_step world_step (LoadActiveRuleIDs d).
Proof. unfold LoadActiveRuleIDs. solve_each_step. Qed.

Lemma each_step_ApplyDecisions d ds at_ : each_step world_step (ApplyDecisions d ds at_).
Proof.
  induction ds as [|x ds IH]; cbn [ApplyDecisions]; [done|].
  destruct (rd_Decision x); [done|..]; apply each_step_bind;
    try (intros r; case_match; [apply IH | done]);
    apply each_step_pg_exec; intros ? ? ? ?;
    [by apply insert_alert_guarantee | by apply auto_resolve_alerts_guarantee].
Qed.

Lemma each_step_applyDecisionsWithRetry d ds at_ :
  each_step world_step (applyDecisionsWithRetry d ds at_).
Proof.
  unfold applyDecisionsWithRetry. generalize (100 * Millisecond), NetError. generalize maxAttempts.
  induction n as [|n IH]; intros b e; cbn [retry_loop]; [done|].
  apply each_step_bind; [apply each_step_ApplyDecisions|]. intros [|e']; [done|].
  destruct n; [apply IH|]. apply each_step_bind; [apply each_step_time_Sleep|]. intros _. apply IH.
Qed.

End StoreGuarantee.

#[export] Hint Resolve each_step_WriteTelemetry each_step_MaybeUpdateLastSeen
  each_step_LoadEnabledRules each_step_LoadActiveRuleIDs each_step_applyDecisionsWithRetry
  : sitewatch.

(** ** Reading rules and active alerts *)

Section StoreReads.
Context `{!PgLib, !Env}.

Lemma query_outcome_done {A} f (rows : list A) l :
  query_outcome f rows = Ok (l, RowsDone) → l = rows.
Proof. destruct f; simpl; try case_decide; naive_solver. Qed.

Lemma select_enabled_rules_elem did db rows id row :
  select_enabled_rules did db = Ok rows →
  (id, row) ∈ rows ↔ alert_rules db !! id = Some row ∧
    uuid_in did = Some (ar_device_id row) ∧ ar_enabled row = true.
Proof.
  unfold select_enabled_rules. destruct (uuid_in did); [|done]. intros [= <-].
  rewrite list_elem_of_filter, elem_of_map_to_list. simpl. naive_solver.
Qed.

Lemma active_of_rows_get ids id : map_get false (active_of_rows ids) id = bool_decide (id ∈ ids).
Proof.
  unfold active_of_rows. induction ids as [|x ids IH] using rev_ind; [done|].
  rewrite foldl_snoc. destruct (decide (x = id)) as [->|Hne].
  - rewrite map_get_insert_eq. symmetry. apply bool_decide_eq_true. set_solver.
  - rewrite map_get_insert_ne, IH by done. apply bool_decide_ext. set_solver.
Qed.

Lemma run_LoadEnabledRules d w :
  run (LoadEnabledRules d) w =
  (match select_enabled_rules d (w_pg w) with
   | Ok rows =>
       match query_outcome (query_fault (w_tick w)) (row_order (w_tick w) _ rows) with
       | Ok (l, RowsDone) => Ok (rule_of_row <$> l)
       | Ok (_, RowScanErr) => Err (Wrapf "scan alert_rules" ScanError)
       | Ok (_, RowsErr) => Err NetError
       | Err e => Err (Wrapf "query alert_rules" e)
       end
   | Err e => Err (Wrapf "query alert_rules"
                     match query_fault (w_tick w) with QueryFails => NetError | _ => e end)
   end, tick w).
Proof.
  unfold LoadEnabledRules. rewrite run_bind. unfold pg_query. rewrite run_act. simpl.
  destruct (select_enabled_rules d (w_pg w)) as [rows|e]; simpl.
  - by destruct (query_outcome _ _) as [[l []]|].
  - by destruct (query_fault _).
Qed.

Lemma run_LoadActiveRuleIDs d w :
  run (LoadActiveRuleIDs d) w =
  (match select_active_rule_ids d (w_pg w) with
   | Ok rows =>
       match query_outcome (query_fault (w_tick w)) (row_order (w_tick w) _ rows) with
       | Ok (l, RowsDone) => Ok (active_of_rows l)
       | Ok (_, RowScanErr) => Err (Wrapf "scan active alerts" ScanError)
       | Ok (_, RowsErr) => Err NetError
       | Err e => Err (Wrapf "query active alerts" e)
       end
   | Err e => Err (Wrapf "query active alerts"
                     match query_fault (w_tick w) with QueryFails => NetError | _ => e end)
   end, tick w).
Proof.
  unfold LoadActiveRuleIDs. rewrite run_bind. unfold pg_query. rewrite run_act. simpl.
  destruct (select_active_rule_ids d (w_pg w)) as [rows|e]; simpl.
  - by destruct (query_outcome _ _) as [[l []]|].
  - by destruct (query_fault _).
Qed.

Lemma NoDup_map_fst_filter {A} (P : string * A → Prop) `{!∀ x, stdpp.base.Decision (P x)} (m : gmap string A) :
  NoDup (filter P (map_to_list m)).*1.
Proof.
  pose proof (NoDup_fst_map_to_list m) as Hnd. revert Hnd.
  generalize (map_to_list m). intros l. induction l as [|x l IH]; simpl; intros Hnd; [by constructor|].
  apply NoDup_cons in Hnd as [Hx Hnd]. rewrite filter_cons.
  case_decide; [|by apply IH]. rewrite fmap_cons. apply NoDup_cons. split; [|by apply IH].
  intros (y & Hy & Hin)%list_elem_of_fmap. apply Hx. rewrite Hy. apply list_elem_of_fmap_2.
  by apply list_elem_of_filter in Hin as [_ ?].
Qed.

(** The rules read from any delivery order of the selected rows. *)
Lemma loaded_rules_spec d db rows l :
  select_enabled_rules d db = Ok rows → l ≡ₚ rows →
  NoDup (rule_ID <$> (rule_of_row <$> l)) ∧
  ∀ r, r ∈ rule_of_row <$> l ↔ ∃ row, alert_rules db !! rule_ID r = Some row ∧
    uuid_in d = Some (ar_device_id row) ∧ ar_enabled row = true ∧ r = rule_of_row (rule_ID r, row).
Proof.
  intros Esel Hperm. split.
  - rewrite <- list_fmap_compose, (fmap_Permutation _ _ _ Hperm).
    unfold select_enabled_rules in Esel. destruct (uuid_in d); [|done]. simplify_eq.
    apply NoDup_map_fst_filter.
  - intros r. rewrite Hperm, list_elem_of_fmap. split.
    + intros ([id row] & -> & Hin). apply (select_enabled_rules_elem _ _ _ _ _ Esel) in Hin.
      exists row. simpl. naive_solver.
    + intros (row & Hr & Hd & He & ->). exists (rule_ID r, row). simpl. split; [done|].
      by apply (select_enabled_rules_elem _ _ _ _ _ Esel).
Qed.

Lemma loaded_active_spec d db ids l rid :
  select_active_rule_ids d db = Ok ids → l ≡ₚ ids →
  map_get false (active_of_rows l) rid = true ↔
  ∃ i a, alerts db !! i = Some a ∧ uuid_in d = Some (al_device_id a) ∧
    al_alert_rule_id a = rid ∧ is_active a = true.
Proof.
  unfold select_active_rule_ids. destruct (uuid_in d) as [did|] eqn:Ed; [|done]. intros [= <-] Hperm.
  rewrite active_of_rows_get, bool_decide_eq_true, Hperm, list_elem_of_fmap. split.
  - intros ([i a] & -> & [[Hd Ha] Hin%elem_of_map_to_list]%list_elem_of_filter).
    exists i, a. simpl in *. naive_solver.
  - intros (i & a & Hin & [= ->] & <- & Ha). exists (i, a). split; [done|].
    apply list_elem_of_filter. by rewrite elem_of_map_to_list.
Qed.

(** [LoadEnabledRules] is all or nothing: when it returns rules, they are the
    enabled rules of the device, each once, with the stored metric, operator,
    threshold and severity; an interrupted iteration is reported as an error and
    never as a shorter list.  Nothing is modified. *)
Theorem LoadEnabledRules_exact d w :
  (run (LoadEnabledRules d) w).2 = tick w ∧
  match (run (LoadEnabledRules d) w).1 with
  | Ok rules =>
      NoDup (rule_ID <$> rules) ∧
      ∀ r, r ∈ rules ↔ ∃ row, alert_rules (w_pg w) !! rule_ID r = Some row ∧
        uuid_in d = Some (ar_device_id row) ∧ ar_enabled row = true ∧
        r = rule_of_row (rule_ID r, row)
  | Err _ => uuid_in d = None ∨ query_fault (w_tick w) ≠ QueryOk
  end.
Proof.
  rewrite run_LoadEnabledRules. simpl. split; [done|].
  destruct (select_enabled_rules d (w_pg w)) as [rows|e] eqn:Esel.
  - destruct (query_outcome _ _) as [[l []]|e] eqn:Eq; [|right; intros E; by rewrite E in Eq..].
    apply query_outcome_done in Eq as ->. by apply (loaded_rules_spec _ _ _ _ Esel), row_order_perm.
  - left. unfold select_enabled_rules in Esel. by destruct (uuid_in d).
Qed.

(** [LoadActiveRuleIDs] is all or nothing: the map it returns is true at
    exactly the rules of which the device has an open or acknowledged alert. *)
Theorem LoadActiveRuleIDs_exact d w :
  (run (LoadActiveRuleIDs d) w).2 = tick w ∧
  match (run (LoadActiveRuleIDs d) w).1 with
  | Ok active => ∀ rid, map_get false active rid = true ↔
      ∃ i a, alerts (w_pg w) !! i = Some a ∧ uuid_in d = Some (al_device_id a) ∧
        al_alert_rule_id a = rid ∧ is_active a = true
  | Err _ => uuid_in d = None ∨ query_fault (w_tick w) ≠ QueryOk
  end.
Proof.
  rewrite run_LoadActiveRuleIDs. simpl. split; [done|].
  destruct (select_active_rule_ids d (w_pg w)) as [ids|e] eqn:Esel.
  - destruct (query_outcome _ _) as [[l []]|e] eqn:Eq; [|right; intros E; by rewrite E in Eq..].
    apply query_outcome_done in Eq as ->. intros rid.
    by apply (loaded_active_spec _ _ _ _ _ Esel), row_order_perm.
  - left. unfold select_active_rule_ids in Esel. by destruct (uuid_in d).
Qed.

End StoreReads.

(** ** The last-seen debounce *)

Definition at_least_a_window (t t' : time) : Prop := t' - t >= lastSeenDebounce.

Lemma lastSeen_due m d at_ :
  (lastSeen_section m d at_).1 = true ↔ ∀ last, m !! d = Some last → at_least_a_window last at_.
Proof.
  unfold lastSeen_section, at_least_a_window. simpl.
  destruct (m !! d) as [last|]; [|naive_solver].
  rewrite bool_decide_eq_true, time_Sub_ge by (vm_compute; split; congruence). naive_solver.
Qed.

(** What one call leaves behind. *)
Lemma run_MaybeUpdateLastSeen `{!PgLib, !Env} d at_ w :
  let '(due, m) := lastSeen_section (w_lastSeenSent w) d at_ in
  let w1 := tick (set_lastSeenSent m w) in
  run (MaybeUpdateLastSeen d at_) w =
    if due then
      let '(r, db) := exec_outcome (exec_fault (w_tick w1)) (update_last_seen at_ d) (w_pg w) in
      (match r with Err e => Err (Wrapf "update last_seen_at" e) | Ok _ => Ok tt end, tick (set_pg db w1))
    else (Ok tt, w1).
Proof.
  unfold MaybeUpdateLastSeen. rewrite run_bind, run_act. destruct (lastSeen_section _ _ _) as [[] m]; cbn [fst snd negb];
    [|done]. rewrite run_bind, run_pg_exec_any. simpl (w_pg (tick _)). by destruct (exec_outcome _ _ _) as [[] db].
Qed.

(** ** Retrying the write *)

Section Retry.
Context `{!PgLib, !Env}.

(** Only the retry loop sleeps. *)
Lemma sleeps_ApplyDecisions d ds at_ w :
  w_sleeps (run (ApplyDecisions d ds at_) w).2 = w_sleeps w.
Proof.
  assert (∀ A (st : string → time → stmt A) w', w_sleeps (run (pg_exec st) w').2 = w_sleeps w') as Hexec.
  { intros A st w'. unfold pg_exec. rewrite run_act. by destruct (exec_outcome _ _ _). }
  revert w. induction ds as [|x ds IH]; intros w; cbn [ApplyDecisions]; [done|].
  destruct (rd_Decision x); [apply IH|..]; rewrite run_bind; case_match; rewrite ?IH; apply Hexec.
Qed.

(** C18: The retry of the alert write terminates after at most three attempts,
    sleeping 100 ms after the first failure and 200 ms after the second and never
    otherwise; it reports success exactly when the last attempt made succeeded,
    and after the third failure returns that failure, wrapped. *)
Theorem retry_bounded d ds at_ w :
  let '(r, w') := run (applyDecisionsWithRetry d ds at_) w in
  ∃ n w1, (n < 3)%nat ∧
    w_sleeps w' = w_sleeps w ++ take n [100 * Millisecond; 200 * Millisecond] ∧
    match r with
    | Ok _ => run (ApplyDecisions d ds at_) w1 = (Ok tt, w')
    | Err e => n = 2%nat ∧ ∃ e', e = Wrapf "apply decisions after 3 attempts" e' ∧
        run (ApplyDecisions d ds at_) w1 = (Err e', w')
    end.
Proof.
  assert (∀ w0 r0 w0', run (ApplyDecisions d ds at_) w0 = (r0, w0') → w_sleeps w0' = w_sleeps w0) as Hsl.
  { intros w0 r0 w0' E. pose proof (sleeps_ApplyDecisions d ds at_ w0) as H1. by rewrite E in H1. }
  unfold applyDecisionsWithRetry, maxAttempts. cbn [retry_loop].
  rewrite run_bind. destruct (run (ApplyDecisions d ds at_) w) as [[[]|e1] w1] eqn:E1; cbn [fst snd run].
  { exists 0%nat, w. rewrite (Hsl _ _ _ E1), app_nil_r. split_and!; [lia|done|done]. }
  rewrite run_bind. unfold time_Sleep. rewrite run_act. cbn [fst snd]. rewrite run_bind. set (w1' := tick _).
  assert (w_sleeps w1' = w_sleeps w ++ [100 * Millisecond]) as Hs1
    by (subst w1'; simpl; by rewrite (Hsl _ _ _ E1)). clearbody w1'.
  destruct (run (ApplyDecisions d ds at_) w1') as [[[]|e2] w2] eqn:E2; cbn [fst snd run].
  { exists 1%nat, w1'. rewrite (Hsl _ _ _ E2). split_and!; [lia|done|done]. }
  rewrite run_bind, run_act. cbn [fst snd]. rewrite run_bind. set (w2' := tick _).
  assert (w_sleeps w2' = w_sleeps w ++ [100 * Millisecond; 200 * Millisecond]) as Hs2
    by (subst w2'; simpl; by rewrite (Hsl _ _ _ E2), Hs1, <- app_assoc). clearbody w2'.
  destruct (run (ApplyDecisions d ds at_) w2') as [[[]|e3] w3] eqn:E3; cbn [fst snd run];
    exists 2%nat, w2'; rewrite (Hsl _ _ _ E3); split_and!; eauto; lia.
Qed.

(** The alerts of one rule that are open or acknowledged, computed. *)
Definition active_alerts (db : Pg) (rid : string) : list string :=
  fst <$> filter (λ p, al_alert_rule_id p.2 = rid ∧ is_active p.2 = true) (map_to_list (alerts db)).

End Retry.

(** The write at tick 1 fails before it takes effect; all others succeed. *)
Definition blip_Env : Env :=
  fx_Env (λ n, if decide (n = 1%nat) then FailBefore else ExecOk) (λ _, QueryOk).

(** The decisions of one message are separate statements, and a retry repeats
    all of them: with two alerts to create, a connection blip on the second insert
    makes the retry insert the first alert again.  The call reports success and
    leaves two active alerts for one rule. *)
Theorem retry_duplicates_alert :
  let decisions := [mkRuleDecision (wit_rule "rule-warn" "warning" 28) CreateAlert (float_of_Z 33);
                    mkRuleDecision (wit_rule "rule-crit" "critical" 32) CreateAlert (float_of_Z 33)] in
  let '(r, w') := run (@applyDecisionsWithRetry fx_PgLib blip_Env temp_sensor_01 decisions 0)
                    (fresh_world init_sql) in
  r = Ok tt ∧ length (active_alerts (w_pg w') "rule-warn") = 2%nat ∧
  ¬ at_most_one_active (w_pg w').
Proof.
  cbv zeta. set (p := run _ _).
  assert (p.1 = Ok tt) as H1 by (vm_compute; reflexivity).
  assert (length (active_alerts (w_pg p.2) "rule-warn") = 2%nat) as H2 by (vm_compute; reflexivity).
  assert (duplicateb (w_pg p.2) "alert-0" "alert-3" = true) as H3 by (vm_compute; reflexivity).
  destruct p as [r w']. split_and!; [done|done|]. by apply (duplicateb_sound _ _ _ H3).
Qed.
