(* ===== verification/Process.v ===== *)
(** * One message end to end: [process] and [worker] of ingestion/main.go

    The order of the effects of a message and what each failure leaves behind. *)

From S2P Require Import Prelude GoStd Alerts Pg World Contract Shared Store Fixtures.
Open Scope Z_scope.
Open Scope string_scope.
Open Scope list_scope.
Open Scope go_scope.

Record job := mkJob {
  topic : string;
  payload : string;
}.

Definition decisionLabel (d : Decision) : string :=
  match d with
  | CreateAlert => "create"
  | AutoResolve => "auto_resolve"
  | NoAction => "none"
  end.

Section Process.
Context `{!GoText, !PgLib, !Env}.

(** The loop over the applied decisions: one counter and one log line each. *)
Fixpoint report_decisions (cid : string) (decisions : list RuleDecision) : prog World unit :=
  match decisions with
  | [] => Ret tt
  | d :: ds =>
      let label := decisionLabel (rd_Decision d) in
      act (λ w, (tt, set_alertDecisions
             (<[label := map_get 0 (w_alertDecisions w) label + 1]> (w_alertDecisions w)) w)) ;;
      log_line "INFO" (Some cid) "alert decision" ;;
      report_decisions cid ds
  end.

(** [tracker.Evaluate]: the whole call under the tracker's mutex. *)
Definition tracker_Evaluate (rules : list Rule) (readings : gmap string float64)
    (active : gmap string bool) (debounceN : Z) : prog World (list RuleDecision) :=
  act (λ w, let '(ds, t) := Evaluate (w_streaks w) rules readings active debounceN in
            (ds, tick (set_streaks t w))).

(** The part of [process] after the message has been validated. *)
Definition process_message (debounceN : Z) (cid : string) (msg : TelemetryMessage)
    : prog World (result unit) :=
  _ <-? WriteTelemetry msg ;;
  now <- time_Now ;;
  r <- MaybeUpdateLastSeen (DeviceID msg) now ;;
  (match r with
   | Err _ => log_line "WARN" (Some cid) "update last_seen_at failed"
   | Ok _ => Ret tt
   end) ;;
  rules <-? LoadEnabledRules (DeviceID msg) ;;
  if decide (length rules = O) then Ret (Ok tt)
  else
    active <-? LoadActiveRuleIDs (DeviceID msg) ;;
    decisions <- tracker_Evaluate rules (Readings msg) active debounceN ;;
    if decide (length decisions = O) then Ret (Ok tt)
    else
      _ <-? applyDecisionsWithRetry (DeviceID msg) decisions now ;;
      report_decisions cid decisions ;;
      Ret (Ok tt).

(** The checks of [process] before anything is written. *)
Definition validate (j : job) : result TelemetryMessage :=
  match parseTopic (topic j) with
  | Err e => Err e
  | Ok (siteID, deviceID) =>
      match parseTelemetryMessage (payload j) with
      | Err e => Err e
      | Ok msg =>
          if decide (SiteID msg ≠ siteID ∨ DeviceID msg ≠ deviceID)
          then Err (Errorf "payload ids don't match topic ids")
          else Ok msg
      end
  end.

Definition process (debounceN : Z) (j : job) : prog World (result unit) :=
  cid <- NewCorrelationID ;;
  match validate j with
  | Err e => Ret (Err e)
  | Ok msg => process_message debounceN cid msg
  end.

(** One iteration of [worker] after it has received job [j]. *)
Definition handle_job (debounceN : Z) (j : job) : prog World unit :=
  act (λ w, (tt, set_received (w_messagesReceived w + 1) w)) ;;
  start <- time_Now ;;
  r <- process debounceN j ;;
  _ <- time_Now ;;   (* time.Since(start), for processingDuration *)
  match r with
  | Err _ => log_line "WARN" None "failed to process message"
  | Ok _ => Ret tt
  end.

End Process.

(** ** The guarantee of a worker *)

Section ProcessGuarantee.
Context `{!GoText, !PgLib, !Env}.

Lemma each_step_report_decisions cid ds : each_step world_step (report_decisions cid ds).
Proof.
  induction ds as [|d ds IH]; cbn [report_decisions]; [done|].
  apply each_step_bind; [quiet_step|]. intros _.
  apply each_step_bind; [apply each_step_log_line|]. by intros _.
Qed.

Lemma each_step_tracker_Evaluate rules rd act_ n :
  each_step world_step (tracker_Evaluate rules rd act_ n).
Proof.
  apply each_step_act. intros w. destruct (Evaluate _ _ _ _ _).
  apply world_step_quiet; simpl; done || lia.
Qed.

Lemma each_step_process n j : each_step world_step (process n j).
Proof.
  pose proof each_step_report_decisions. pose proof each_step_tracker_Evaluate.
  unfold process. apply each_step_bind; [quiet_step|]. intros cid.
  unfold process_message. solve_each_step.
Qed.

Lemma each_step_handle_job n j : each_step world_step (handle_job n j).
Proof.
  pose proof each_step_process. unfold handle_job.
  apply each_step_bind; [quiet_step|]. solve_each_step.
Qed.

End ProcessGuarantee.

(** ** After the telemetry write *)

(** An action of message [cid] once its telemetry is stored: telemetry and the
    received counter stay, and every line it logs carries [cid]. *)
Definition message_step (cid : string) (w w' : World) : Prop :=
  w_telemetry w' = w_telemetry w ∧ w_messagesReceived w' = w_messagesReceived w ∧
  ∃ new, w_log w' = w_log w ++ new ∧ Forall (λ l, l_correlation_id l = Some cid) new.

#[global] Instance message_step_preorder cid : PreOrder (message_step cid).
Proof.
  split.
  - intros w. split_and!; [done..|]. exists []. by rewrite app_nil_r.
  - intros w1 w2 w3 (?&?&n1&E1&?) (?&?&n2&E2&?). split_and!; [congruence..|].
    exists (n1 ++ n2). rewrite E2, E1, app_assoc. split; [done|]. by apply Forall_app.
Qed.

(** The document of a message received at [now]. *)
Definition telemetry_doc (msg : TelemetryMessage) (now : time) : TelemetryDoc :=
  mkTelemetryDoc (DeviceID msg) (SiteID msg) (DeviceType msg) (Readings msg)
    (bson_datetime (Ts msg)) (bson_datetime now).

Section ProcessFacts.
Context `{!GoText, !PgLib, !Env}.

Lemma message_step_same cid w w' :
  w_telemetry w' = w_telemetry w → w_messagesReceived w' = w_messagesReceived w →
  w_log w' = w_log w → message_step cid w w'.
Proof. intros ? ? E. split_and!; [done..|]. exists []. by rewrite E, app_nil_r. Qed.

Lemma message_exec cid {A} (st : string → time → stmt A) : each_step (message_step cid) (pg_exec st).
Proof. apply each_step_act. intros w. simpl. case_match. by apply message_step_same. Qed.

Lemma message_query cid {A} (sel : Pg → result (list A)) : each_step (message_step cid) (pg_query sel).
Proof. apply each_step_act. intros w. by apply message_step_same. Qed.

Lemma message_log cid level m : each_step (message_step cid) (log_line level (Some cid) m).
Proof. apply each_step_act. intros w. split_and!; [done..|]. eexists. split; [done|]. by repeat constructor. Qed.

Lemma message_act_same cid {A} (f : World → A * World) :
  (∀ w, w_telemetry (f w).2 = w_telemetry w ∧ w_messagesReceived (f w).2 = w_messagesReceived w ∧
        w_log (f w).2 = w_log w) → each_step (message_step cid) (act f).
Proof. intros Hf. apply each_step_act. intros w. destruct (Hf w) as (?&?&?). by apply message_step_same. Qed.

Lemma message_ApplyDecisions cid d ds at_ : each_step (message_step cid) (ApplyDecisions d ds at_).
Proof.
  induction ds as [|x ds IH]; cbn [ApplyDecisions]; [done|].
  destruct (rd_Decision x); [done|..]; (apply each_step_bind; [apply message_exec|]);
    intros []; done.
Qed.

Lemma message_retry cid d ds at_ : each_step (message_step cid) (applyDecisionsWithRetry d ds at_).
Proof.
  unfold applyDecisionsWithRetry. generalize (100 * Millisecond), NetError. generalize maxAttempts.
  induction n as [|n IH]; intros b e; cbn [retry_loop]; [done|].
  apply each_step_bind; [apply message_ApplyDecisions|]. intros [|e']; [done|].
  destruct n; [apply IH|]. apply each_step_bind; [by apply message_act_same|]. intros _. apply IH.
Qed.

Lemma message_report cid ds : each_step (message_step cid) (report_decisions cid ds).
Proof.
  induction ds as [|d ds IH]; cbn [report_decisions]; [done|].
  apply each_step_bind; [by apply message_act_same|]. intros _.
  apply each_step_bind; [apply message_log|]. by intros _.
Qed.

(** The rest of [process_message] after its first statement, and after the update
    of the last-seen mark. *)
Definition engine_prog (N : Z) (cid : string) (msg : TelemetryMessage) (at_ : time)
    : prog World (result unit) :=
  rules <-? LoadEnabledRules (DeviceID msg) ;;
  if decide (length rules = O) then Ret (Ok tt)
  else
    active <-? LoadActiveRuleIDs (DeviceID msg) ;;
    decisions <- tracker_Evaluate rules (Readings msg) active N ;;
    if decide (length decisions = O) then Ret (Ok tt)
    else
      _ <-? applyDecisionsWithRetry (DeviceID msg) decisions at_ ;;
      report_decisions cid decisions ;;
      Ret (Ok tt).

Definition after_telemetry (N : Z) (cid : string) (msg : TelemetryMessage) : prog World (result unit) :=
  now <- time_Now ;;
  r <- MaybeUpdateLastSeen (DeviceID msg) now ;;
  (match r with
   | Err _ => log_line "WARN" (Some cid) "update last_seen_at failed"
   | Ok _ => Ret tt
   end) ;;
  engine_prog N cid msg now.

Lemma message_after_telemetry N cid msg : each_step (message_step cid) (after_telemetry N cid msg).
Proof.
  unfold after_telemetry. apply each_step_bind; [by apply message_act_same|]. intros now.
  apply each_step_bind.
  { unfold MaybeUpdateLastSeen. apply each_step_bind; [by apply message_act_same|].
    intros []; [|done]. apply each_step_bind; [apply message_exec|]. by intros []. }
  intros r. apply each_step_bind; [destruct r; [done|apply message_log]|]. intros _. unfold engine_prog.
  apply each_step_bind; [apply each_step_bind; [apply message_query|by intros [[? []]|]]|].
  intros [rules|]; [|done]. case_decide; [done|].
  apply each_step_bind; [apply each_step_bind; [apply message_query|by intros [[? []]|]]|].
  intros [active|]; [|done].
  apply each_step_bind; [apply message_act_same; intros w; by destruct (Evaluate _ _ _ _ _)|].
  intros ds. case_decide; [done|]. apply each_step_bind; [apply message_retry|]. intros [|]; [|done].
  apply each_step_bind; [apply message_report|]. done.
Qed.

Lemma each_message_run cid {A} (p : prog World A) w :
  each_step (message_step cid) p → message_step cid w (run p w).2.
Proof.
  intros Hp. pose proof (each_step_run _ p w Hp) as Hs.
  induction Hs as [|w1 w2 w3 H12 _ IH]; [done|]. by etransitivity.
Qed.

Lemma run_WriteTelemetry msg w :
  run (WriteTelemetry msg) w =
  let doc := telemetry_doc msg (now_at (w_tick w)) in
  let w' := tick (tick w) in
  match exec_fault (S (w_tick w)) with
  | ExecOk => (Ok tt, set_telemetry (w_telemetry w ++ [doc]) w')
  | FailBefore => (Err (Wrapf "mongo insert telemetry_raw" NetError), w')
  | FailAfter => (Err (Wrapf "mongo insert telemetry_raw" NetError),
                  set_telemetry (w_telemetry w ++ [doc]) w')
  end.
Proof.
  unfold WriteTelemetry. rewrite run_bind. unfold time_Now. rewrite run_act. cbn [fst snd].
  rewrite run_bind. unfold mongo_insert_one. rewrite run_act. simpl. by destruct (exec_fault _).
Qed.

Lemma run_process N j w :
  run (process N j) w =
  match validate j with
  | Err e => (Err e, tick w)
  | Ok msg => run (process_message N (run NewCorrelationID w).1 msg) (tick w)
  end.
Proof.
  unfold process. rewrite run_bind. unfold NewCorrelationID. rewrite run_act. cbn [fst snd].
  by destruct (validate j).
Qed.

Lemma run_process_message N cid msg w :
  run (process_message N cid msg) w =
  match run (WriteTelemetry msg) w with
  | (Ok _, w1) => run (after_telemetry N cid msg) w1
  | (Err e, w1) => (Err e, w1)
  end.
Proof. unfold process_message. rewrite run_bind. by destruct (run (WriteTelemetry msg) w) as [[] ?]. Qed.

End ProcessFacts.

(** ** Properties *)

(** C16: Telemetry first, under every failure.  An invalid job changes nothing (the
    tick of its correlation id apart) and reports why; a valid one stores at most
    one document, with the message's ids, type and readings and times cut to
    milliseconds, before anything else, and if the insert reports an error no
    table, streak, last-seen mark or log line is touched; when it reports success
    the document is stored exactly once whatever happens later. *)
Theorem process_telemetry_first `{!GoText, !PgLib, !Env} N j w :
  let '(r, w') := run (process N j) w in
  match validate j with
  | Err e => r = Err e ∧ w' = tick w
  | Ok msg =>
      let doc := telemetry_doc msg (now_at (S (w_tick w))) in
      (r = Err (Wrapf "mongo insert telemetry_raw" NetError) ∧
       ∃ docs, docs ∈ [[]; [doc]] ∧
         w' = set_telemetry (w_telemetry w ++ docs) (tick (tick (tick w)))) ∨
      (exec_fault (S (S (w_tick w))) = ExecOk ∧ w_telemetry w' = w_telemetry w ++ [doc])
  end.
Proof.
  rewrite run_process. destruct (validate j) as [msg|e] eqn:Ev; [|done].
  rewrite run_process_message, run_WriteTelemetry. cbv zeta. simpl w_tick.
  destruct (exec_fault _) eqn:Ef.
  - set (w1 := set_telemetry _ _).
    destruct (each_message_run _ _ w1 (message_after_telemetry N (run NewCorrelationID w).1 msg)) as [Ht _].
    destruct (run (after_telemetry _ _ _) w1) as [r w']. right. split; [done|]. exact Ht.
  - left. split; [done|]. exists []. split; [by left|]. rewrite app_nil_r. by destruct w.
  - left. split; [done|]. exists [telemetry_doc msg (now_at (S (w_tick w)))].
    split; [by right; left|]. done.
Qed.

(** The log of one message.  Every line [process] writes carries the message's
    own correlation id; but the line that reports why a message failed is written
    by [worker] without it, and is the only such line. *)
Theorem failure_line_lacks_correlation_id `{!GoText, !PgLib, !Env} N j w :
  let cid := (run NewCorrelationID (tick (set_received (w_messagesReceived w + 1) w))).1 in
  let w' := (run (handle_job N j) w).2 in
  w_messagesReceived w' = w_messagesReceived w + 1 ∧
  ∃ new tail_, w_log w' = w_log w ++ new ++ tail_ ∧
    Forall (λ l, l_correlation_id l = Some cid) new ∧
    tail_ = match (run (process N j) (tick (set_received (w_messagesReceived w + 1) w))).1 with
            | Ok _ => []
            | Err _ => [mkLogLine "WARN" None "failed to process message"]
            end.
Proof.
  cbv zeta. unfold handle_job. rewrite run_bind, run_act. cbn [fst snd].
  rewrite run_bind. unfold time_Now. rewrite run_act. cbn [fst snd]. set (w0 := tick _).
  rewrite run_bind. cbn [fst snd]. rewrite run_bind, run_act. cbn [fst snd].
  assert (∃ new, w_messagesReceived (run (process N j) w0).2 = w_messagesReceived w0 ∧
    w_log (run (process N j) w0).2 = w_log w0 ++ new ∧
    Forall (λ l, l_correlation_id l = Some (run NewCorrelationID w0).1) new) as (new & Hr & Hl & HF).
  { rewrite run_process. destruct (validate j) as [msg|e];
      [|exists []; by rewrite app_nil_r].
    rewrite run_process_message, run_WriteTelemetry. cbv zeta.
    destruct (exec_fault _); [|exists []; by rewrite app_nil_r..]. set (w1 := set_telemetry _ _).
    destruct (each_message_run _ _ w1 (message_after_telemetry N (run NewCorrelationID w0).1 msg))
      as (_ & Hr & new & Hl & HF). by exists new. }
  destruct (run (process N j) w0) as [r w1]. cbn [fst snd] in *.
  destruct r; cbn [run log_line fst snd act w_log w_messagesReceived tick set_log].
  - split; [done|]. exists new, []. by rewrite app_nil_r.
  - split; [done|]. exists new, [mkLogLine "WARN" None "failed to process message"].
    by rewrite Hl, app_assoc.
Qed.
