(* ===== verification/JsonText.v ===== *)
(** * Printing JSON

    The compact texts encoding/json and JSON.stringify write, for a way [esc] to
    write object keys, and the proof that the scanner of [GoJson] reads them back. *)

From S2P Require Import Prelude GoStd GoFloat GoTime Contract GoJson.
Open Scope Z_scope.
Open Scope string_scope.
Open Scope list_scope.

(** ** Strings *)

Definition quoted (s : string) : string := String dq (s +:+ String dq "").

(** Text that may stand between quotes. *)
Definition escaped (s : string) : bool := bool_decide (scan_string (s +:+ String dq "") = Some (s, "")).

Lemma string_cons_app a s t : String a s +:+ t = String a (s +:+ t).
Proof. reflexivity. Qed.

Lemma scan_string_app s raw rest t :
  scan_string s = Some (raw, rest) → scan_string (s +:+ t) = Some (raw, rest +:+ t).
Proof.
  remember (len s) as n eqn:Hn. revert s raw rest Hn.
  induction n as [n IH] using lt_wf_ind; intros s raw rest ->. destruct s as [|a s1]; [done|].
  assert (∀ s', (len s' < len (String a s1))%nat → ∀ raw rest,
    scan_string s' = Some (raw, rest) → scan_string (s' +:+ t) = Some (raw, rest +:+ t)) as IH'
    by (intros s' Hs' raw' rest'; by eapply IH).
  clear IH. rewrite string_cons_app. cbn [scan_string]. case_decide; [by intros [= <- <-]|].
  case_decide.
  - destruct s1 as [|e s2]; [done|]. rewrite string_cons_app. case_decide.
    + intros Hs. scanned. by erewrite IH' by (done || simpl; lia).
    + case_decide; [|done]. destruct s2 as [|h1 [|h2 [|h3 [|h4 s3]]]]; try done. rewrite !string_cons_app.
      destruct (is_hexdigit h1 && is_hexdigit h2 && is_hexdigit h3 && is_hexdigit h4); [|done].
      intros Hs. scanned. by erewrite IH' by (done || simpl; lia).
  - case_decide; [done|]. intros Hs. scanned. by erewrite IH' by (done || simpl; lia).
Qed.

Lemma escaped_scan s rest : escaped s = true → scan_string (s +:+ String dq rest) = Some (s, rest).
Proof.
  unfold escaped. rewrite bool_decide_eq_true. intros Hs%(scan_string_app _ _ _ rest).
  by rewrite append_assoc in Hs.
Qed.

(** ** Values *)

(** What may follow a number. *)
Definition number_end (s : string) : bool :=
  match s with
  | EmptyString => true
  | String a _ => negb (starts_with_digit s) && bool_decide (a ∉ ["."; "e"; "E"]%char)
  end.

Definition number_ok (n : string) : bool := bool_decide (scan_number n = Some (n, "")).

(** ** Scanning what was printed *)

Lemma digits_app s ds t rest :
  digits s = (ds, t) → (t = "" → starts_with_digit rest = false) → digits (s +:+ rest) = (ds, t +:+ rest).
Proof.
  revert ds t. induction s as [|a s IH]; intros ds t.
  - intros [= <- <-] Hr. specialize (Hr eq_refl). change ("" +:+ rest) with rest.
    destruct rest as [|b rest]; [done|]. cbn [digits]. unfold starts_with_digit in Hr. by destruct (digit_val b).
  - change (String a s +:+ rest) with (String a (s +:+ rest)). cbn [digits].
    destruct (digit_val a); [|by intros [= <- <-] _].
    destruct (digits s) as [ds' t'] eqn:E. intros [= <- <-] Hr. by rewrite (IH _ _ eq_refl Hr).
Qed.

Lemma lit_app c s rest : s ≠ "" → lit c (s +:+ rest) = (λ t, t +:+ rest) <$> lit c s.
Proof.
  destruct s as [|a s]; [done|]. intros _. change (String a s +:+ rest) with (String a (s +:+ rest)).
  unfold lit. by case_decide.
Qed.

Lemma number_end_facts rest :
  number_end rest = true →
  starts_with_digit rest = false ∧ lit "." rest = None ∧ exponent_part rest = Some ("", rest).
Proof.
  destruct rest as [|a rest]; [done|]. unfold number_end. intros [Hd Ha]%andb_true_iff.
  apply negb_true_iff in Hd. apply bool_decide_eq_true in Ha. rewrite !not_elem_of_cons in Ha.
  destruct Ha as (? & ? & ? & _). split_and!; [done| |].
  - unfold lit. by rewrite decide_False.
  - unfold exponent_part. by rewrite decide_False by naive_solver.
Qed.

Section Number.
Context (rest : string) (Hend : number_end rest = true).

Lemma digits1_app s ds t : digits1 s = Some (ds, t) → digits1 (s +:+ rest) = Some (ds, t +:+ rest).
Proof.
  unfold digits1. destruct (digits s) as [ds' t'] eqn:E. case_decide; [done|]. intros [= -> ->].
  rewrite (digits_app _ _ _ _ E) by (intros _; by apply number_end_facts). by rewrite decide_False.
Qed.

Lemma integer_part_app s i t :
  integer_part s = Some (i, t) → integer_part (s +:+ rest) = Some (i, t +:+ rest).
Proof.
  destruct s as [|a s]; [done|]. unfold integer_part. rewrite lit_app by done.
  destruct (lit "0" _); cbn [fmap option_fmap option_map]; [by intros [= <- <-]|by apply digits1_app].
Qed.

Lemma fraction_part_app s i t :
  fraction_part s = Some (i, t) → fraction_part (s +:+ rest) = Some (i, t +:+ rest).
Proof.
  destruct (number_end_facts rest Hend) as (_ & Hdot & _). unfold fraction_part. destruct s as [|a s].
  { intros [= <- <-]. change ("" +:+ rest) with rest. by rewrite Hdot. }
  rewrite lit_app by done. destruct (lit "." (String a s)) as [u|]; cbn [fmap option_fmap option_map]; [|by intros [= <- <-]].
  intros Hs. scanned. erewrite digits1_app by done. done.
Qed.

Lemma exponent_part_app s i t :
  exponent_part s = Some (i, t) → exponent_part (s +:+ rest) = Some (i, t +:+ rest).
Proof.
  destruct (number_end_facts rest Hend) as (_ & _ & He). destruct s as [|a s].
  { intros [= <- <-]. exact He. }
  change (String a s +:+ rest) with (String a (s +:+ rest)). unfold exponent_part.
  case_decide; [|by intros [= <- <-]]. intros Hs.
  assert (s ≠ "") by (intros ->; vm_compute in Hs; done). rewrite !lit_app by done.
  destruct (lit "+" s), (lit "-" s); cbn [fmap option_fmap option_map]; scanned; by erewrite digits1_app by done.
Qed.

Lemma scan_number_app n : number_ok n = true → scan_number (n +:+ rest) = Some (n, rest).
Proof.
  unfold number_ok. rewrite bool_decide_eq_true. intros Hs. assert (n ≠ "") by (by intros ->).
  unfold scan_number in *. rewrite lit_app by done.
  destruct (lit "-" n) as [u|] eqn:Eu; cbn [fmap option_fmap option_map] in *.
  all: apply bind_Some in Hs as ([i s1] & H1 & Hs); apply bind_Some in Hs as ([f s2] & H2 & Hs);
    apply bind_Some in Hs as ([e s3] & H3 & Hs); injection Hs as Hn ->.
  all: rewrite (integer_part_app _ _ _ H1); cbn [mbind option_bind].
  all: rewrite (fraction_part_app _ _ _ H2); cbn [mbind option_bind].
  all: rewrite (exponent_part_app _ _ _ H3); cbn [mbind option_bind]; by rewrite Hn.
Qed.

End Number.

(** A text that starts with a character that is neither white space nor a bracket that
    closes. *)
Definition opens_value (s : string) : Prop :=
  ∃ a t, s = String a t ∧ is_json_space a = false ∧ a ≠ "]"%char ∧ a ≠ "}"%char.

Lemma opens_value_app s t : opens_value s → opens_value (s +:+ t).
Proof. intros (a & u & -> & ?). exists a, (u +:+ t). by split. Qed.

Lemma opens_value_skip s : opens_value s → skip_space s = s.
Proof. intros (a & t & -> & E & _). cbn [skip_space]. by rewrite E. Qed.

Lemma opens_value_lit c s : opens_value s → c = "]"%char ∨ c = "}"%char → lit c s = None.
Proof. intros (a & t & -> & _ & ? & ?) Hc. unfold lit. rewrite decide_False; [done|]. naive_solver. Qed.

Lemma digit_facts a d : digit_val a = Some d → is_json_space a = false ∧
  a ∉ ["]"; "}"; "{"; "["; "t"; "f"; "n"; dq]%char.
Proof.
  unfold digit_val. case_decide as Hn; [|done]. intros _.
  destruct a as [[] [] [] [] [] [] [] []]; try (split; [reflexivity|by apply (bool_decide_unpack _)]);
    exfalso; vm_compute in Hn; destruct Hn; done.
Qed.

Lemma number_head n :
  number_ok n = true → ∃ a t, n = String a t ∧ is_json_space a = false ∧
    a ∉ ["]"; "}"; "{"; "["; "t"; "f"; "n"; dq]%char.
Proof.
  unfold number_ok. rewrite bool_decide_eq_true. destruct n as [|a t]; [done|]. intros Hs. exists a, t. split; [done|].
  unfold scan_number in Hs. destruct (decide (a = "-"%char)) as [->|Hm]; [by split; [|by apply (bool_decide_unpack _)]|].
  cbn [lit] in Hs. rewrite decide_False in Hs by done. apply bind_Some in Hs as ([i s1] & H1 & _).
  unfold integer_part in H1. destruct (decide (a = "0"%char)) as [->|Hz]; [by split; [|by apply (bool_decide_unpack _)]|].
  cbn [lit] in H1. rewrite decide_False in H1 by done. unfold digits1 in H1. cbn [digits] in H1.
  destruct (digit_val a) as [d|] eqn:E; [by apply (digit_facts a d)|by rewrite decide_True in H1].
Qed.

Lemma append_cons s c t u : (s +:+ String c t) +:+ u = s +:+ String c (t +:+ u).
Proof. by rewrite append_assoc. Qed.

Lemma Join_cons x l c : l ≠ [] → GoStd.Join (x :: l) c = x +:+ String c (GoStd.Join l c).
Proof. by destruct l. Qed.

Lemma Join_opens x l c : opens_value x → opens_value (GoStd.Join (x :: l) c).
Proof. destruct l; [done|]. intros Hx. rewrite Join_cons by done. by apply opens_value_app. Qed.

Lemma skip_open a s : is_json_space a = false → skip_space (String a s) = String a s.
Proof. intros E. cbn [skip_space]. by rewrite E. Qed.

Lemma lit_cons c s : lit c (String c s) = Some s.
Proof. unfold lit. by rewrite decide_True. Qed.

Lemma lit_other c a s : a ≠ c → lit c (String a s) = None.
Proof. intros. unfold lit. by rewrite decide_False. Qed.

Section Print.
Context (esc : string → string).

Fixpoint print_json (v : json) : string :=
  match v with
  | JNull => "null"
  | JBool true => "true"
  | JBool false => "false"
  | JNum n => n
  | JStr raw _ => quoted raw
  | JArr l => String "[" (GoStd.Join (map print_json l) "," +:+ "]")
  | JObj l => String "{" (GoStd.Join (map (λ kv, quoted (esc kv.1) +:+ String ":" (print_json kv.2)) l) "," +:+ "}")
  end.

(** A value of which every part can be scanned and whose nesting is at most [depth]. *)
Fixpoint printable (depth : nat) (v : json) {struct v} : bool :=
  match v with
  | JNull | JBool _ => true
  | JNum n => number_ok n
  | JStr raw _ => escaped raw
  | JArr l => match depth with O => false | S d => forallb (printable d) l end
  | JObj l => match depth with O => false | S d => forallb (λ kv, escaped (esc kv.1) && printable d kv.2) l end
  end.

(** What is read back: the strings as their texts spell them. *)
Fixpoint reread (v : json) : json :=
  match v with
  | JStr raw _ => JStr raw (unquote raw)
  | JArr l => JArr (map reread l)
  | JObj l => JObj (map (λ kv, (unquote (esc kv.1), reread kv.2)) l)
  | _ => v
  end.

Lemma print_opens d v : printable d v = true → opens_value (print_json v).
Proof.
  destruct v as [|[]|n|raw val|l|l]; cbn [printable print_json]; intros Hok.
  4: { apply number_head in Hok as (a & t & -> & Hs & Hn). exists a, t. split_and!; try done; set_solver. }
  all: eexists _, _; split; [reflexivity|]; split_and!; done.
Qed.

Definition print_member (kv : string * json) : string := quoted (esc kv.1) +:+ String ":" (print_json kv.2).

Lemma member_opens kv : opens_value (print_member kv).
Proof. eexists _, _. split; [reflexivity|]. by split_and!. Qed.

(** What the three scanning functions do to printed text, for a given fuel. *)
Definition scans_value (fuel : nat) : Prop := ∀ d v rest,
  printable d v = true → number_end rest = true → (2 * len (print_json v) + 1 <= fuel)%nat →
  json_value fuel d (print_json v +:+ rest) = Some (reread v, rest).

Definition scans_elements (fuel : nat) : Prop := ∀ d l rest,
  l ≠ [] → forallb (printable d) l = true → (2 * len (GoStd.Join (map print_json l) ",") + 2 <= fuel)%nat →
  json_elements fuel d (GoStd.Join (map print_json l) "," +:+ String "]" rest) = Some (map reread l, rest).

Definition reread_member (kv : string * json) : string * json := (unquote (esc kv.1), reread kv.2).

Definition scans_members (fuel : nat) : Prop := ∀ d l rest,
  l ≠ [] → forallb (λ kv, escaped (esc kv.1) && printable d kv.2) l = true →
  (2 * len (GoStd.Join (map print_member l) ",") + 2 <= fuel)%nat →
  json_members fuel d (GoStd.Join (map print_member l) "," +:+ String "}" rest) = Some (map reread_member l, rest).

Lemma scan_array fuel d l rest :
  scans_elements fuel → printable d (JArr l) = true → (2 * len (print_json (JArr l)) <= fuel)%nat →
  json_value (S fuel) d (print_json (JArr l) +:+ rest) = Some (reread (JArr l), rest).
Proof.
  intros IHe Hok Hf. cbn [printable] in Hok. destruct d as [|d]; [done|]. cbn [print_json] in *.
  set (body := GoStd.Join (map print_json l) ",") in *.
  change (String "[" (body +:+ "]") +:+ rest) with (String "[" ((body +:+ String "]" "") +:+ rest)).
  rewrite append_cons. cbn [json_value]. rewrite decide_False, decide_False, decide_True by done.
  destruct l as [|v l]; [reflexivity|].
  assert (opens_value (body +:+ String "]" rest)) as Ho.
  { apply opens_value_app, Join_opens, (print_opens d). by apply andb_true_iff in Hok as [? _]. }
  rewrite opens_value_skip, opens_value_lit by auto.
  cbn [String.length] in Hf. rewrite len_app in Hf. cbn [String.length] in Hf.
  subst body. by rewrite IHe by (done || lia).
Qed.

Lemma scan_object fuel d l rest :
  scans_members fuel → printable d (JObj l) = true → (2 * len (print_json (JObj l)) <= fuel)%nat →
  json_value (S fuel) d (print_json (JObj l) +:+ rest) = Some (reread (JObj l), rest).
Proof.
  intros IHm Hok Hf. cbn [printable] in Hok. destruct d as [|d]; [done|]. cbn [print_json] in *.
  fold print_member in *. set (body := GoStd.Join (map print_member l) ",") in *.
  change (String "{" (body +:+ "}") +:+ rest) with (String "{" ((body +:+ String "}" "") +:+ rest)).
  rewrite append_cons. cbn [json_value]. rewrite decide_False, decide_True by done.
  destruct l as [|v l]; [reflexivity|].
  assert (opens_value (body +:+ String "}" rest)) as Ho by apply opens_value_app, Join_opens, member_opens.
  rewrite opens_value_skip, opens_value_lit by auto.
  cbn [String.length] in Hf. rewrite len_app in Hf. cbn [String.length] in Hf.
  subst body. by rewrite IHm by (done || lia).
Qed.

Lemma scan_value_step fuel : scans_elements fuel → scans_members fuel → scans_value (S fuel).
Proof.
  intros IHe IHm d v rest Hok Hend Hf. destruct v as [|[]|n|raw val|l|l].
  1-3: reflexivity.
  - destruct (number_head n Hok) as (a & t & -> & Hs & Hn). cbn [printable print_json] in *.
    pose proof (scan_number_app rest Hend _ Hok) as E. rewrite !not_elem_of_cons in Hn.
    change (String a t +:+ rest) with (String a (t +:+ rest)) in *. cbn [json_value].
    rewrite !decide_False by naive_solver. by rewrite E.
  - cbn [printable print_json] in *. 
    change (quoted raw +:+ rest) with (String dq ((raw +:+ String dq "") +:+ rest)). rewrite append_cons.
    cbn [json_value]. rewrite decide_True by done. by rewrite escaped_scan.
  - apply scan_array; [done|done|lia].
  - apply scan_object; [done|done|lia].
Qed.

Lemma scan_elements_step fuel : scans_value fuel → scans_elements fuel → scans_elements (S fuel).
Proof.
  intros IHv IHe d [|v l] rest Hne Hok Hf; [done|]. cbn [forallb] in *. apply andb_true_iff in Hok as [Hv Hl].
  cbn [json_elements]. destruct (decide (l = [])) as [->|Hl'].
  - cbn [GoStd.Join map] in *. rewrite IHv by (done || lia). cbn [mbind option_bind].
    rewrite skip_open by done. by rewrite lit_cons.
  - change (map print_json (v :: l)) with (print_json v :: map print_json l) in *.
    rewrite Join_cons in * by (by destruct l).
    rewrite append_cons. rewrite len_app in Hf. cbn [String.length] in Hf.
    rewrite IHv by (done || lia). cbn [mbind option_bind]. rewrite skip_open by done.
    rewrite lit_other, lit_cons by done. cbn [mbind option_bind].
    rewrite opens_value_skip; [by rewrite IHe by (done || lia)|]. apply opens_value_app.
    destruct l as [|v' l]; [done|]. apply Join_opens, (print_opens d). by apply andb_true_iff in Hl as [? _].
Qed.

(** One member: its key, the colon, its value, and what follows. *)
Lemma scan_member fuel d k v t :
  escaped (esc k) = true → printable d v = true →
  json_members (S fuel) d (print_member (k, v) +:+ t) =
    '(v, s) ← json_value fuel d (print_json v +:+ t);
    match lit "}" (skip_space s) with
    | Some rest => Some ([(unquote (esc k), v)], rest)
    | None => s ← lit "," (skip_space s); '(l, rest) ← json_members fuel d (skip_space s); Some ((unquote (esc k), v) :: l, rest)
    end.
Proof.
  intros Hk Hv. unfold print_member, quoted. cbn [fst snd].
  change (String dq (esc k +:+ String dq "") +:+ String ":" (print_json v)) with
    (String dq ((esc k +:+ String dq "") +:+ String ":" (print_json v))).
  rewrite append_cons. change ("" +:+ String ":" (print_json v)) with (String ":" (print_json v)).
  change (String dq (esc k +:+ String dq (String ":" (print_json v))) +:+ t) with
    (String dq ((esc k +:+ String dq (String ":" (print_json v))) +:+ t)).
  rewrite append_cons. change (String ":" (print_json v) +:+ t) with (String ":" (print_json v +:+ t)).
  cbn [json_members]. rewrite lit_cons. cbn [mbind option_bind]. rewrite escaped_scan by done.
  cbn [mbind option_bind]. rewrite skip_open by done. rewrite lit_cons. cbn [mbind option_bind].
  rewrite opens_value_skip by (by eapply opens_value_app, print_opens). done.
Qed.

Lemma scan_members_step fuel : scans_value fuel → scans_members fuel → scans_members (S fuel).
Proof.
  intros IHv IHm d [|[k v] l] rest Hne Hok Hf; [done|]. cbn [forallb fst snd] in *.
  apply andb_true_iff in Hok as [[Hk Hv]%andb_true_iff Hl].
  assert (len (print_json v) + 3 <= len (print_member (k, v)))%nat.
  { unfold print_member, quoted. rewrite len_app. cbn [String.length fst snd]. rewrite len_app. simpl. lia. }
  destruct (decide (l = [])) as [->|Hl'].
  - cbn [GoStd.Join map] in *. rewrite scan_member, IHv by (done || lia). cbn [mbind option_bind].
    rewrite skip_open by done. by rewrite lit_cons.
  - change (map print_member ((k, v) :: l)) with (print_member (k, v) :: map print_member l) in *.
    rewrite Join_cons in * by (by destruct l).
    rewrite append_cons. rewrite len_app in Hf. cbn [String.length] in Hf.
    rewrite scan_member, IHv by (done || lia). cbn [mbind option_bind]. rewrite skip_open by done.
    rewrite lit_other, lit_cons by done. cbn [mbind option_bind].
    rewrite opens_value_skip; [by rewrite IHm by (done || lia)|]. apply opens_value_app.
    destruct l as [|kv l]; [done|]. apply Join_opens, member_opens.
Qed.

Lemma scan_print fuel : scans_value fuel ∧ scans_elements fuel ∧ scans_members fuel.
Proof.
  induction fuel as [|fuel (IHv & IHe & IHm)]; [by split_and!; repeat intro; lia|].
  auto using scan_value_step, scan_elements_step, scan_members_step.
Qed.

Lemma scan_print_whole v rest :
  printable maxNestingDepth v = true → number_end rest = true →
  scan_json (print_json v +:+ rest) = Some (reread v, rest).
Proof.
  intros Hok Hend. unfold scan_json. rewrite opens_value_skip by (by eapply opens_value_app, print_opens).
  apply scan_print; [done|done|]. rewrite len_app. lia.
Qed.

End Print.
