(* ===== verification/Decimal.v ===== *)
(** * Decimal numerals

    The digits of a number, as [strconv] and JavaScript print them, and how the scanner of
    [GoJson] and [ParseFloat] read them. *)

From S2P Require Import Prelude GoStd GoFloat GoTime Contract GoJson JsonText.
Open Scope Z_scope.
Open Scope string_scope.
Open Scope list_scope.

(** The decimal digits of [n], in front of [acc]; [fuel] bounds their number. *)
Fixpoint decimal_aux (fuel : nat) (n : Z) (acc : string) : string :=
  let acc := String (digit_char (n mod 10)) acc in
  match fuel with
  | O => acc
  | S fuel' => if decide (n < 10) then acc else decimal_aux fuel' (n / 10) acc
  end.

Definition decimal (n : Z) : string := decimal_aux (Z.to_nat (Z.log2 n)) n "".

Definition is_digit (a : ascii) : bool := match digit_val a with Some _ => true | None => false end.

Lemma decimal_aux_app fuel n acc : decimal_aux fuel n acc = decimal_aux fuel n "" +:+ acc.
Proof.
  revert n acc. induction fuel as [|fuel IH]; intros n acc; cbn [decimal_aux]; [done|].
  case_decide; [done|]. rewrite IH, (IH _ (String _ "")). by rewrite append_cons.
Qed.

Lemma decimal_aux_not_nil fuel n acc : decimal_aux fuel n acc ≠ "".
Proof.
  revert n acc. induction fuel as [|fuel IH]; intros n acc; cbn [decimal_aux]; [done|]. by case_decide.
Qed.

Lemma decimal_fuel n : 0 <= n → n < 10 ^ (Z.of_nat (Z.to_nat (Z.log2 n)) + 1).
Proof.
  intros Hn. pose proof (Z.log2_nonneg n). rewrite Z2Nat.id by done.
  destruct (decide (n = 0)) as [->|]; [done|].
  pose proof (Z.log2_spec n). assert (2 ^ Z.succ (Z.log2 n) <= 10 ^ (Z.log2 n + 1)); [|lia].
  apply Z.pow_le_mono_l. lia.
Qed.

(** Reading the digits back. *)
Lemma mantissa_digit m saw frac d s :
  0 <= d < 10 →
  mantissa false m saw frac (String (digit_char d) s) = mantissa false (10 * m + d) true ((λ f, f + 1) <$> frac) s.
Proof.
  intros Hd%digit_val_char. cbn [mantissa base_digit]. rewrite Hd.
  by rewrite !decide_False by (intros E; rewrite E in Hd; done).
Qed.

Lemma mantissa_point m saw s :
  mantissa false m saw None (String "." s) = mantissa false m saw (Some 0) s.
Proof. reflexivity. Qed.

Lemma mod10_range n : 0 <= n mod 10 < 10.
Proof. by apply Z.mod_pos_bound. Qed.

Lemma mantissa_decimal fuel n acc saw :
  0 <= n < 10 ^ (Z.of_nat fuel + 1) →
  mantissa false 0 saw None (decimal_aux fuel n acc) = mantissa false n true None acc.
Proof.
  revert n acc saw. induction fuel as [|fuel IH]; intros n acc saw Hn; cbn [decimal_aux].
  - change (10 ^ (Z.of_nat 0 + 1)) with 10 in Hn.
    rewrite mantissa_digit by apply mod10_range. rewrite Z.mod_small by lia. done.
  - case_decide.
    + rewrite mantissa_digit by apply mod10_range. rewrite Z.mod_small by lia. done.
    + rewrite IH, mantissa_digit by (apply mod10_range ||
        (split; [apply Z.div_pos; lia|apply Z.div_lt_upper_bound; [lia|]];
         rewrite <- Z.pow_succ_r by lia; eapply Z.lt_le_trans; [apply Hn|apply Z.pow_le_mono_r; lia])).
      by rewrite <- Z.div_mod.
Qed.

Lemma decimal_digits fuel n acc :
  string_forallb is_digit acc = true → string_forallb is_digit (decimal_aux fuel n acc) = true.
Proof.
  assert (∀ d, 0 <= d < 10 → is_digit (digit_char d) = true) as Hd.
  { intros d Hd%digit_val_char. unfold is_digit. by rewrite Hd. }
  revert n acc. induction fuel as [|fuel IH]; intros n acc Hacc; cbn [decimal_aux].
  - cbn [string_forallb]. by rewrite Hd, Hacc by apply mod10_range.
  - assert (string_forallb is_digit (String (digit_char (n mod 10)) acc) = true)
      by (cbn [string_forallb]; by rewrite Hd, Hacc by apply mod10_range).
    case_decide; [done|]. by apply IH.
Qed.

(** No leading zero. *)
Lemma decimal_head fuel n acc :
  0 < n < 10 ^ (Z.of_nat fuel + 1) → lit "0" (decimal_aux fuel n acc) = None.
Proof.
  revert n acc. induction fuel as [|fuel IH]; intros n acc Hn; cbn [decimal_aux].
  2: case_decide as Hlt; [|apply IH; split; [apply Z.div_str_pos; lia|apply Z.div_lt_upper_bound; [lia|]];
       rewrite <- Z.pow_succ_r by lia; eapply Z.lt_le_trans; [apply Hn|apply Z.pow_le_mono_r; lia]].
  1: change (10 ^ (Z.of_nat 0 + 1)) with 10 in Hn.
  all: apply lit_other; intros E; pose proof (digit_val_char (n mod 10) (mod10_range n)) as Hd;
    rewrite E in Hd; change (digit_val "0") with (Some 0) in Hd; injection Hd as Hd; rewrite Z.mod_small in Hd; lia.
Qed.

Lemma digits_all s rest :
  string_forallb is_digit s = true → starts_with_digit rest = false → digits (s +:+ rest) = (s, rest).
Proof.
  intros Hs Hr. induction s as [|a s IH].
  - change ("" +:+ rest) with rest. destruct rest as [|b rest]; [done|]. cbn [digits].
    unfold starts_with_digit in Hr. by destruct (digit_val b).
  - apply andb_true_iff in Hs as [Ha Hs]. change (String a s +:+ rest) with (String a (s +:+ rest)).
    cbn [digits]. unfold is_digit in Ha. destruct (digit_val a); [|done]. by rewrite IH.
Qed.

Lemma append_nil s : s +:+ "" = s.
Proof. induction s as [|a s IH]; [done|]. change (String a (s +:+ "") = String a s). by rewrite IH. Qed.

Lemma is_digit_cases a : is_digit a = true → a ∈ ["0"; "1"; "2"; "3"; "4"; "5"; "6"; "7"; "8"; "9"]%char.
Proof.
  destruct a as [[] [] [] [] [] [] [] []]; intros H; try (by vm_compute in H); by apply (bool_decide_unpack _).
Qed.

(** Text that starts with a digit is no special word. *)
Lemma digit_not_special a t w : is_digit a = true → w ∈ ["nan"; "inf"; "infinity"] → ToLower (String a t) ≠ w.
Proof.
  intros Ha%is_digit_cases Hw E. cbn [ToLower] in E. rewrite !elem_of_cons in Ha. rewrite !elem_of_cons in Hw.
  destruct_or! Ha; try (by apply not_elem_of_nil in Ha); subst a;
    destruct_or! Hw; try (by apply not_elem_of_nil in Hw); by subst.
Qed.

Lemma signed_float_digit neg a t :
  is_digit a = true → signed_float neg (String a t) = unsigned_float neg (String a t).
Proof.
  intros Ha. unfold signed_float. rewrite decide_False; [done|].
  intros [E|E]; revert E; apply digit_not_special; done || set_solver.
Qed.

Lemma ParseFloat_digit a t :
  is_digit a = true → strconv_ParseFloat (String a t) = unsigned_float false (String a t).
Proof.
  intros Ha. rewrite <- signed_float_digit by done.
  assert (ToLower (String a t) ≠ "nan") as Hnan by (apply digit_not_special; done || set_solver).
  apply is_digit_cases in Ha. rewrite !elem_of_cons in Ha.
  destruct_or! Ha; try (by apply not_elem_of_nil in Ha); subst a; unfold strconv_ParseFloat; by rewrite decide_False.
Qed.

(** Decimal text that starts with a digit is read as a mantissa and an exponent. *)
Lemma unsigned_decimal neg a t :
  is_digit a = true → (∀ b u, t = String b u → lower b ≠ "x"%char) → has_char "_" (String a t) = false →
  unsigned_float neg (String a t) =
    let '(m, saw, frac, rest) := mantissa false 0 false None (String a t) in
    if negb saw then None
    else e ← exponent false rest; GoFloat.in_range (float_of_decimal neg m (e - frac)).
Proof.
  intros Ha Hx Hu. unfold unsigned_float. rewrite Hu. cbn [andb].
  assert (hex_prefix (String a t) = (false, String a t)) as ->.
  - apply is_digit_cases in Ha. rewrite !elem_of_cons in Ha.
    destruct_or! Ha; try (by apply not_elem_of_nil in Ha); subst a; try done.
    destruct t as [|b [|c t]]; try done. unfold hex_prefix. by rewrite decide_False by (by eapply Hx).
  - destruct (mantissa false 0 false None (String a t)) as [[[m saw] frac] rest]. destruct saw; [|done]. cbn [negb].
    by destruct (exponent false rest).
Qed.

Lemma ParseFloat_decimal a t :
  is_digit a = true → (∀ b u, t = String b u → lower b ≠ "x"%char) → has_char "_" (String a t) = false →
  strconv_ParseFloat (String a t) =
    let '(m, saw, frac, rest) := mantissa false 0 false None (String a t) in
    if negb saw then None
    else e ← exponent false rest; GoFloat.in_range (float_of_decimal false m (e - frac)).
Proof. intros. rewrite ParseFloat_digit by done. by apply unsigned_decimal. Qed.

Definition numeric_char (a : ascii) : bool := is_digit a || bool_decide (a = "."%char).

Lemma numeric_facts a : numeric_char a = true → a ≠ "_"%char ∧ lower a ≠ "x"%char.
Proof. destruct a as [[] [] [] [] [] [] [] []]; intros H; try (by vm_compute in H); by split. Qed.

Lemma numeric_no_underscore s : string_forallb numeric_char s = true → has_char "_" s = false.
Proof.
  induction s as [|a s IH]; [done|]. intros [Ha Hs]%andb_true_iff. cbn [has_char].
  rewrite decide_False by (by apply numeric_facts). by apply IH.
Qed.
