(* ===== verification/Rounding.v ===== *)
(** * Rounding

    What the rounding of the Standard Library's [SpecFloat], in which [GoFloat] computes the
    value of a text, does: a decimal that is a float64 is not changed, and every
    result is a float64 in its one canonical form. *)

From S2P Require Import Prelude GoStd GoFloat.
Open Scope Z_scope.
Open Scope string_scope.
Open Scope list_scope.

(** ** Exact values are not rounded *)

Lemma Zdigits2_spec p : 2 ^ (Zdigits2 (Z.pos p) - 1) <= Z.pos p < 2 ^ Zdigits2 (Z.pos p).
Proof.
  unfold Zdigits2. induction p as [p IH|p IH|]; [| |done]; cbn [digits2_pos];
    assert (0 <= Z.pos (digits2_pos p) - 1) by lia;
    set (d := Z.pos (digits2_pos p) - 1) in *; rewrite Pos2Z.inj_succ;
    replace (Z.pos (digits2_pos p)) with (Z.succ d) in * by (subst d; lia);
    rewrite Z.pow_succ_r in IH by done; rewrite Z.sub_1_r, Z.pred_succ, !Z.pow_succ_r by lia; lia.
Qed.

Lemma Zdigits2_unique p d : 0 < d → 2 ^ (d - 1) <= Z.pos p < 2 ^ d → Zdigits2 (Z.pos p) = d.
Proof.
  intros Hd [H1 H2]. pose proof (Zdigits2_spec p) as [H3 H4].
  assert (0 < Zdigits2 (Z.pos p)) by done.
  assert (d - 1 < Zdigits2 (Z.pos p)) by (apply (Z.pow_lt_mono_r_iff 2); lia).
  assert (Zdigits2 (Z.pos p) - 1 < d) by (apply (Z.pow_lt_mono_r_iff 2); lia). lia.
Qed.

Lemma Zdigits2_shift p s q : 0 <= s → Z.pos q = Z.pos p * 2 ^ s → Zdigits2 (Z.pos q) = Zdigits2 (Z.pos p) + s.
Proof.
  intros Hs Hq. pose proof (Zdigits2_spec p) as [H1 H2]. assert (0 < Zdigits2 (Z.pos p)) by done.
  apply Zdigits2_unique; [lia|]. rewrite Hq. replace (_ + s - 1) with (Zdigits2 (Z.pos p) - 1 + s) by lia.
  rewrite !Z.pow_add_r by lia. assert (0 < 2 ^ s) by (apply Z.pow_pos_nonneg; lia). nia.
Qed.

Lemma iter_pos_nat {A} (f : A → A) p x : iter_pos f p x = Nat.iter (Pos.to_nat p) f x.
Proof.
  revert x. induction p as [p IH|p IH|]; intros x; cbn [iter_pos]; [| |done]; rewrite !IH, <- Nat.iter_add.
  - by rewrite <- Nat.iter_succ_r, Pos2Nat.inj_xI, Nat.mul_succ_l, Nat.mul_1_l.
  - by rewrite Pos2Nat.inj_xO, Nat.mul_succ_l, Nat.mul_1_l.
Qed.

Definition exact_record (m : Z) : shr_record := Build_shr_record m false false.

Lemma shr_exact n m : 0 <= m → Nat.iter n shr_1 (exact_record (m * 2 ^ Z.of_nat n)) = exact_record m.
Proof.
  intros Hm. induction n as [|n IH]; [simpl; by rewrite Z.mul_1_r|].
  rewrite Nat2Z.inj_succ, Z.pow_succ_r by lia. rewrite Nat.iter_succ_r.
  assert (∀ k, 0 <= k → shr_1 (exact_record (2 * k)) = exact_record k) as H1 by (by intros [|k|k] Hk).
  replace (m * (2 * 2 ^ Z.of_nat n)) with (2 * (m * 2 ^ Z.of_nat n)) by lia. by rewrite H1 by lia.
Qed.

Lemma shl_align_0 p e :
  shl_align p 0 e = if decide (e < 0) then (Z.to_pos (Z.pos p * 2 ^ (- e)), e) else (p, 0).
Proof.
  unfold shl_align. rewrite Z.sub_0_r. destruct e as [|e|e]; [done|done|].
  rewrite decide_True by done. f_equal. rewrite <- Z.shiftl_mul_pow2 by done.
  unfold Z.shiftl. change (- Z.neg e) with (Z.pos e). cbv iota.
  by rewrite <- (Pos.iter_swap_gen _ _ Z.pos xO (Z.mul 2)).
Qed.

Section Rounding.
Context (m : positive) (e : Z) (Hb : bounded 53 1024 m e = true).

Lemma bounded_facts : fexp 53 1024 (Zdigits2 (Z.pos m) + e) = e ∧ e <= 971.
Proof.
  unfold bounded, canonical_mantissa in Hb. apply andb_true_iff in Hb as [H1%Z.eqb_eq H2%Z.leb_le].
  by split.
Qed.

(** The mantissa shifted left by any number of bits is rounded to itself. *)
Lemma round_aux_exact neg s :
  0 <= s → binary_round_aux 53 1024 neg (Z.pos m * 2 ^ s) (e - s) loc_Exact = S754_finite neg m e.
Proof.
  intros Hs. destruct bounded_facts as [Hf He].
  assert (0 < 2 ^ s) by (apply Z.pow_pos_nonneg; lia).
  destruct (Z.pos m * 2 ^ s) as [|q|q] eqn:Eq; [lia| |lia]. symmetry in Eq.
  pose proof (Zdigits2_shift m s q Hs Eq) as Hd.
  assert (shr_fexp 53 1024 (Z.pos q) (e - s) loc_Exact = (exact_record (Z.pos m), e)) as E1.
  { unfold shr_fexp. rewrite Hd. replace (_ + s + (e - s)) with (Zdigits2 (Z.pos m) + e) by lia.
    rewrite Hf. replace (e - (e - s)) with s by lia. cbn [shr_record_of_loc]. fold (exact_record (Z.pos q)).
    destruct s as [|s|s]; [|unfold shr; rewrite iter_pos_nat|lia].
    - unfold shr. rewrite Z.sub_0_r, Eq. by rewrite Z.mul_1_r.
    - rewrite Eq. rewrite <- (positive_nat_Z s) at 1. rewrite shr_exact by done. f_equal. lia. }
  assert (shr_fexp 53 1024 (Z.pos m) e loc_Exact = (exact_record (Z.pos m), e)) as E2.
  { unfold shr_fexp. by rewrite Hf, Z.sub_diag. }
  unfold binary_round_aux. rewrite E1. cbn [exact_record shr_m loc_of_shr_record round_nearest_even].
  rewrite E2. cbn [exact_record shr_m]. by rewrite (proj2 (Z.leb_le e (1024 - 53)) He).
Qed.

(** An integer that is a float64. *)
Lemma round_integer_exact neg p :
  Z.pos p * 2 ^ Z.max 0 (- e) = Z.pos m * 2 ^ Z.max 0 e → binary_round 53 1024 neg p 0 = S754_finite neg m e.
Proof.
  intros Hp. destruct bounded_facts as [Hf He]. unfold binary_round. rewrite Z.add_0_r.
  change (Z.pos (digits2_pos p)) with (Zdigits2 (Z.pos p)).
  assert (Zdigits2 (Z.pos p) = Zdigits2 (Z.pos m) + e) as Hd.
  { destruct (decide (0 <= e)) as [Hle|Hle].
    - rewrite (Z.max_l 0 (- e)), (Z.max_r 0 e) in Hp by lia. apply Zdigits2_shift; [done|lia].
    - rewrite (Z.max_r 0 (- e)), (Z.max_l 0 e) in Hp by lia.
      pose proof (Zdigits2_shift p (- e) m ltac:(lia) ltac:(lia)). lia. }
  rewrite Hd, Hf, shl_align_0. case_decide as Hneg.
  - pose proof (round_aux_exact neg 0 ltac:(lia)) as Hr. rewrite Z.mul_1_r, Z.sub_0_r in Hr.
    rewrite (Z.max_r 0 (- e)), (Z.max_l 0 e), Z.mul_1_r in Hp by lia. by rewrite Hp.
  - pose proof (round_aux_exact neg e ltac:(lia)) as Hr. rewrite Z.sub_diag in Hr.
    rewrite (Z.max_l 0 (- e)), (Z.max_r 0 e), Z.mul_1_r in Hp by lia. by rewrite Hp.
Qed.

Lemma exponent_bound c den :
  Z.pos c * 2 ^ Z.max 0 (- e) = Z.pos m * 2 ^ Z.max 0 e * Z.pos den →
  fexp 53 1024 (Zdigits2 (Z.pos c) - Zdigits2 (Z.pos den)) <= e.
Proof.
  intros Hc. destruct bounded_facts as [Hf _]. transitivity (fexp 53 1024 (Zdigits2 (Z.pos m) + e)); [|by rewrite Hf].
  enough (Zdigits2 (Z.pos c) - Zdigits2 (Z.pos den) <= Zdigits2 (Z.pos m) + e) by (unfold fexp; lia).
  pose proof (Zdigits2_spec c) as [Hc1 _]. pose proof (Zdigits2_spec den) as [_ Hd2].
  pose proof (Zdigits2_spec m) as [_ Hm2].
  assert (0 < Zdigits2 (Z.pos c) ∧ 0 < Zdigits2 (Z.pos den) ∧ 0 < Zdigits2 (Z.pos m)) as (? & ? & ?) by done.
  assert (0 < 2 ^ Z.max 0 (- e) ∧ 0 < 2 ^ Z.max 0 e) as [Ha Hb'] by (split; apply Z.pow_pos_nonneg; lia).
  assert (Zdigits2 (Z.pos c) - 1 + Z.max 0 (- e) < Zdigits2 (Z.pos m) + Z.max 0 e + Zdigits2 (Z.pos den)); [|lia].
  apply (Z.pow_lt_mono_r_iff 2); [lia|lia|]. rewrite !Z.pow_add_r by lia.
  apply Z.le_lt_trans with (Z.pos c * 2 ^ Z.max 0 (- e)); [by apply Z.mul_le_mono_nonneg_r; lia|]. rewrite Hc.
  apply Z.mul_lt_mono_nonneg; [lia| |lia|done]. by apply Z.mul_lt_mono_pos_r.
Qed.

(** A decimal that is exactly a float64. *)
Lemma decimal_exact neg c q :
  c * 10 ^ Z.max 0 q * 2 ^ Z.max 0 (- e) = Z.pos m * 2 ^ Z.max 0 e * 10 ^ Z.max 0 (- q) →
  float_of_decimal neg c q = S754_finite neg m e.
Proof.
  intros Hc. assert (∀ k, 0 < 10 ^ Z.max 0 k) as Hten by (intros k; apply Z.pow_pos_nonneg; lia).
  assert (∀ k, 0 < 2 ^ Z.max 0 k) as Htwo by (intros k; apply Z.pow_pos_nonneg; lia).
  pose proof (Hten q). pose proof (Hten (- q)). pose proof (Htwo e). pose proof (Htwo (- e)).
  destruct c as [|c|c]; [nia| |nia]. unfold float_of_decimal. case_decide as Hq.
  - rewrite (Z.max_l 0 (- q)), (Z.max_r 0 q), Z.mul_1_r in Hc by lia.
    apply round_integer_exact. rewrite Z2Pos.id; [lia|]. rewrite Z.max_r in * by lia. nia.
  - rewrite (Z.max_r 0 (- q)), (Z.max_l 0 q), Z.mul_1_r in Hc by lia.
    destruct (10 ^ (- q)) as [|den|den] eqn:Hden; [|clear Hden|];
      [rewrite Z.max_r in * by lia; lia| |rewrite Z.max_r in * by lia; lia].
    pose proof (exponent_bound c den Hc) as He. unfold SFdiv_core_binary. rewrite !Z.add_0_r, Z.sub_0_r.
    set (e' := Z.min _ 0). assert (e' <= e ∧ e' <= 0) as [He1 He2] by lia. rewrite Z.sub_0_l. clearbody e'.
    set (m' := match - e' with Zpos _ => _ | _ => _ end).
    assert (m' = Z.pos m * 2 ^ (e - e') * Z.pos den) as Em.
    { assert (m' = Z.pos c * 2 ^ (- e')) as -> by (subst m'; destruct e'; [simpl; lia|lia|by apply Z.shiftl_mul_pow2]).
      destruct (decide (0 <= e)).
      - rewrite (Z.max_l 0 (- e)), (Z.max_r 0 e), Z.mul_1_r in Hc by lia. rewrite Hc.
        replace (e - e') with (e + - e') by lia. rewrite Z.pow_add_r by lia. ring.
      - rewrite (Z.max_r 0 (- e)), (Z.max_l 0 e), Z.mul_1_r in Hc by lia.
        replace (- e') with (- e + (e - e')) by lia. rewrite Z.pow_add_r, Z.mul_assoc, Hc by lia. ring. }
    pose proof (Z_div_mult (Z.pos m * 2 ^ (e - e')) (Z.pos den) ltac:(lia)) as Hdiv.
    pose proof (Z_mod_mult (Z.pos m * 2 ^ (e - e')) (Z.pos den)) as Hmod. rewrite <- Em in Hdiv, Hmod.
    unfold Z.div in Hdiv. unfold Z.modulo in Hmod. destruct (Z.div_eucl m' (Z.pos den)) as [q0 r]. subst q0 r.
    assert (new_location (Z.pos den) 0 = loc_Exact) as ->
      by (unfold new_location, new_location_even, new_location_odd; by case_match).
    pose proof (round_aux_exact neg (e - e') ltac:(lia)) as Hr. by replace (e - (e - e')) with e' in Hr by lia.
Qed.

End Rounding.

(** ** Results are canonical *)

Lemma shr_1_half r : 0 <= shr_m r → shr_m (shr_1 r) = shr_m r / 2.
Proof.
  destruct r as [m rb sb]. cbn [shr_m]. intros Hm. unfold shr_1. cbn [shr_m shr_r shr_s].
  destruct m as [|[p|p|]|]; try done; cbn [shr_m]; rewrite <- Z.div2_div; done.
Qed.

Lemma shr_halves n r : 0 <= shr_m r → shr_m (Nat.iter n shr_1 r) = shr_m r / 2 ^ Z.of_nat n.
Proof.
  intros Hm. induction n as [|n IH]; [by rewrite Z.div_1_r|].
  rewrite Nat.iter_succ, shr_1_half by (rewrite IH; apply Z.div_pos; lia).
  rewrite IH, Z.div_div by lia. f_equal. rewrite Nat2Z.inj_succ, Z.pow_succ_r by lia. lia.
Qed.

Lemma shr_spec r e k : 0 <= shr_m r → 0 <= k → shr_m (shr r e k).1 = shr_m r / 2 ^ k ∧ (shr r e k).2 = e + k.
Proof.
  intros Hm Hk. destruct k as [|k|k]; [|unfold shr; cbn [fst snd]|lia].
  - unfold shr. cbn [fst snd]. by rewrite Z.div_1_r, Z.add_0_r.
  - by rewrite iter_pos_nat, shr_halves, positive_nat_Z by done.
Qed.

Lemma shr_m_of_loc m l : shr_m (shr_record_of_loc m l) = m.
Proof. by destruct l as [|[]]. Qed.

Lemma Zdigits2_nonneg n : 0 <= Zdigits2 n.
Proof. by destruct n. Qed.

(** The number of binary digits, zero included. *)
Lemma Zdigits2_le n d : 0 <= n → 0 <= d → n < 2 ^ d → Zdigits2 n <= d.
Proof.
  intros Hn Hd Hlt. destruct n as [|p|p]; [done| |lia]. pose proof (Zdigits2_spec p) as [H _].
  assert (2 ^ (Zdigits2 (Z.pos p) - 1) < 2 ^ d) as H2 by lia. apply Z.pow_lt_mono_r_iff in H2; lia.
Qed.

Lemma Zdigits2_ge n d : d <= 0 ∨ 2 ^ (d - 1) <= n → d <= Zdigits2 n.
Proof.
  intros [Hd|Hd]; [pose proof (Zdigits2_nonneg n); lia|]. destruct (decide (0 < d)); [|pose proof (Zdigits2_nonneg n); lia].
  assert (0 < 2 ^ (d - 1)) by (apply Z.pow_pos_nonneg; lia). destruct n as [|p|p]; [lia| |lia].
  pose proof (Zdigits2_spec p) as [_ Hp]. assert (2 ^ (d - 1) < 2 ^ Zdigits2 (Z.pos p)) as H2 by lia.
  apply Z.pow_lt_mono_r_iff in H2; [lia|lia|by apply Zdigits2_nonneg].
Qed.

Lemma Zdigits2_bound n : 0 <= n → n < 2 ^ Zdigits2 n.
Proof. intros Hn. destruct n as [|p|p]; [done|apply Zdigits2_spec|lia]. Qed.

(** A mantissa of at most 53 bits, or one more than the largest, is brought to its
    canonical form. *)
Lemma shr_canonical m e :
  0 <= m <= 2 ^ 53 → -1074 <= e → (e = -1074 ∨ 2 ^ 52 <= m) →
  let '(r, e') := shr_fexp 53 1024 m e loc_Exact in
  fexp 53 1024 (Zdigits2 (shr_m r) + e') = e' ∧ 0 <= shr_m r.
Proof.
  intros Hm He Hlow. unfold shr_fexp. destruct (decide (m = 2 ^ 53)) as [->|Hne].
  - change (Zdigits2 (2 ^ 53)) with 54. replace (fexp 53 1024 (54 + e) - e) with 1 by (unfold fexp, emin; lia).
    destruct (shr_spec (shr_record_of_loc (2 ^ 53) loc_Exact) e 1) as [H1 H2]; [done..|].
    destruct (shr _ e 1) as [r e']. cbn [fst snd] in *. rewrite shr_m_of_loc in H1. subst e'. rewrite H1.
    change (Zdigits2 (2 ^ 53 / 2 ^ 1)) with 53. unfold fexp, emin. split; [lia|done].
  - pose proof (Zdigits2_le m 53 ltac:(lia) ltac:(lia) ltac:(lia)) as Hd.
    assert (e = -1074 ∨ 53 <= Zdigits2 m) as Hd2.
    { destruct Hlow as [|Hlow]; [by left|right]. apply Zdigits2_ge. by right. }
    replace (fexp 53 1024 (Zdigits2 m + e)) with e by (unfold fexp, emin; lia). rewrite Z.sub_diag.
    unfold shr. rewrite shr_m_of_loc. split; [unfold fexp, emin; lia|lia].
Qed.

Lemma round_nearest_even_range m l : m <= round_nearest_even m l <= m + 1.
Proof. destruct l as [|[]]; cbn; try case_match; lia. Qed.

(** Rounding: the mantissa must not be coarser than the result may be. *)
Lemma round_aux_valid neg m e l :
  0 <= m → e <= fexp 53 1024 (Zdigits2 m + e) → valid_binary 53 1024 (binary_round_aux 53 1024 neg m e l) = true.
Proof.
  intros Hm He. unfold binary_round_aux. unfold shr_fexp at 1. set (f := fexp 53 1024 (Zdigits2 m + e)) in *.
  destruct (shr_spec (shr_record_of_loc m l) e (f - e)) as [H1 H2]; [by rewrite shr_m_of_loc|lia|].
  destruct (shr _ e (f - e)) as [r e1]. cbn [fst snd] in *. rewrite shr_m_of_loc in H1.
  replace (e + (f - e)) with f in H2 by lia. subst e1.
  pose proof (round_nearest_even_range (shr_m r) (loc_of_shr_record r)) as Hr.
  set (m2 := round_nearest_even _ _) in *. clearbody m2. rewrite H1 in Hr. clear H1 r.
  pose proof (Zdigits2_bound m Hm) as Hub. pose proof (Zdigits2_nonneg m).
  assert (0 < 2 ^ (f - e)) as Hpow by (apply Z.pow_pos_nonneg; lia).
  pose proof (Z.div_pos m (2 ^ (f - e)) Hm Hpow).
  assert (m / 2 ^ (f - e) < 2 ^ 53) as Hhi.
  { apply Z.div_lt_upper_bound; [done|]. rewrite <- Z.pow_add_r by lia.
    eapply Z.lt_le_trans; [exact Hub|]. apply Z.pow_le_mono_r; [done|]. subst f. unfold fexp, emin. lia. }
  assert (f = -1074 ∨ 2 ^ 52 <= m / 2 ^ (f - e)) as Hlo.
  { destruct (decide (f = -1074)) as [|Hne]; [by left|right]. apply Z.div_le_lower_bound; [done|].
    rewrite <- Z.pow_add_r by lia. replace (f - e + 52) with (Zdigits2 m - 1) by (subst f; unfold fexp, emin in *; lia).
    destruct m as [|p|p]; [subst f; unfold fexp, emin in *; cbn in *; lia|apply Zdigits2_spec|lia]. }
  assert (-1074 <= f) by (subst f; unfold fexp, emin; lia).
  pose proof (shr_canonical m2 f ltac:(lia) ltac:(lia) ltac:(lia)) as Hc.
  destruct (shr_fexp 53 1024 m2 f loc_Exact) as [r e2]. destruct Hc as [Hc Hpos].
  destruct (shr_m r) as [|p|p]; [done| |lia]. destruct (e2 <=? 1024 - 53)%Z eqn:E; [|done].
  cbn [valid_binary]. unfold bounded, canonical_mantissa. change (Z.pos (digits2_pos p)) with (Zdigits2 (Z.pos p)).
  by rewrite Hc, Z.eqb_refl, E.
Qed.

Lemma binary_round_valid neg p e : valid_binary 53 1024 (binary_round 53 1024 neg p e) = true.
Proof.
  unfold binary_round. change (Z.pos (digits2_pos p)) with (Zdigits2 (Z.pos p)).
  set (f := fexp 53 1024 (Zdigits2 (Z.pos p) + e)). unfold shl_align.
  destruct (f - e) as [|k|k] eqn:Ek; try (apply round_aux_valid; [done|]; fold f; lia).
  set (q := Pos.iter xO p k). assert (Z.pos q = Z.pos p * 2 ^ Z.pos k) as Hq.
  { rewrite <- Z.shiftl_mul_pow2 by done. unfold Z.shiftl. cbv iota. subst q.
    by rewrite <- (Pos.iter_swap_gen _ _ Z.pos xO (Z.mul 2)). }
  apply round_aux_valid; [done|]. rewrite (Zdigits2_shift p (Z.pos k) q) by done.
  by replace (Zdigits2 (Z.pos p) + Z.pos k + f) with (Zdigits2 (Z.pos p) + e) by lia.
Qed.

(** What the division keeps is precise enough. *)
Lemma quotient_precise p den e' :
  e' <= fexp 53 1024 (Zdigits2 (Z.pos p) - Zdigits2 (Z.pos den)) → e' <= 0 →
  e' <= fexp 53 1024 (Zdigits2 (Z.pos p * 2 ^ (- e') / Z.pos den) + e').
Proof.
  intros He Hneg.
  enough (Zdigits2 (Z.pos p) - Zdigits2 (Z.pos den) - e' <= Zdigits2 (Z.pos p * 2 ^ (- e') / Z.pos den))
    by (unfold fexp in *; lia).
  apply Zdigits2_ge. set (d := _ - _ - e'). destruct (decide (d <= 0)); [by left|right].
  pose proof (Zdigits2_spec p) as [Hp _]. pose proof (Zdigits2_spec den) as [_ Hden].
  assert (0 < Zdigits2 (Z.pos p)) by done.
  apply Z.div_le_lower_bound; [done|]. transitivity (2 ^ Zdigits2 (Z.pos den) * 2 ^ (d - 1)).
  { apply Z.mul_le_mono_nonneg_r; [apply Z.pow_nonneg; lia|lia]. }
  rewrite <- Z.pow_add_r by (subst d; lia || apply Zdigits2_nonneg).
  transitivity (2 ^ (Zdigits2 (Z.pos p) - 1) * 2 ^ (- e')).
  { rewrite <- Z.pow_add_r by lia. apply Z.pow_le_mono_r; [done|]. subst d. lia. }
  apply Z.mul_le_mono_nonneg_r; [apply Z.pow_nonneg; lia|done].
Qed.

(** Whatever the decimal, the value is a float64 in canonical form. *)
Lemma float_of_decimal_valid neg m e : valid_binary 53 1024 (float_of_decimal neg m e) = true.
Proof.
  unfold float_of_decimal. destruct m as [|p|p]; [done| |done]. case_decide as He; [apply binary_round_valid|].
  assert (0 < 10 ^ (- e)) by (apply Z.pow_pos_nonneg; lia). destruct (10 ^ (- e)) as [|den|den]; [lia| |lia].
  unfold SFdiv_core_binary. rewrite !Z.add_0_r, Z.sub_0_r. set (e' := Z.min _ 0).
  assert (e' <= fexp 53 1024 (Zdigits2 (Z.pos p) - Zdigits2 (Z.pos den)) ∧ e' <= 0) as [H1 H2] by lia. clearbody e'.
  rewrite Z.sub_0_l. set (m' := match - e' with Zpos _ => _ | _ => _ end).
  assert (m' = Z.pos p * 2 ^ (- e')) as Em.
  { subst m'. destruct e' as [|k|k]; [simpl; lia|lia|by apply Z.shiftl_mul_pow2]. }
  pose proof (quotient_precise p den e' H1 H2) as Hq. rewrite <- Em in Hq.
  assert (0 <= m' / Z.pos den) as Hpos by (apply Z.div_pos; [rewrite Em; apply Z.mul_nonneg_nonneg; [done|apply Z.pow_nonneg; lia]|done]).
  unfold Z.div in Hq, Hpos. destruct (Z.div_eucl m' (Z.pos den)) as [q r]. by apply round_aux_valid.
Qed.

Lemma float_of_binary_valid neg m e : valid_binary 53 1024 (float_of_binary neg m e) = true.
Proof. destruct m; [done|apply binary_round_valid|done]. Qed.

(** A float64 that is a number. *)
Definition is_number (x : float64) : bool := finite x && valid_binary 53 1024 x.

Lemma unsigned_float_number neg s x : unsigned_float neg s = Some x → is_number x = true.
Proof.
  intros Hx. unfold is_number. rewrite (unsigned_float_finite _ _ _ Hx). revert Hx.
  unfold unsigned_float. destruct (hex_prefix s) as [hex digits].
  destruct (mantissa hex 0 false None digits) as [[[m saw] frac] rest].
  destruct saw; [|done]. cbn [negb]. destruct (exponent hex rest) as [e|]; [|done].
  case_match; [done|]. unfold GoFloat.in_range.
  pose proof (float_of_binary_valid neg m (e - 4 * frac)). pose proof (float_of_decimal_valid neg m (e - frac)).
  destruct hex; case_match; intros [= <-]; done.
Qed.
