(* ===== verification/Escape.v ===== *)
(** * Strings in JSON responses

    How the encoder of [encoding/json] writes a Go string between quotes (its HTML escaping
    is on, as [json.NewEncoder] leaves it), and that the scanner of [GoJson] reads the
    string back: all of it when it is UTF-8, with U+FFFD for every other byte. *)

From S2P Require Import Prelude GoStd GoFloat GoTime Contract GoJson JsonText Decimal.
Open Scope Z_scope.
Open Scope string_scope.
Open Scope list_scope.

(** ** appendString *)

Definition hex_char (n : Z) : ascii :=
  if decide (n < 10) then digit_char n else ascii_of_nat (Z.to_nat (87 + n)).

(** A byte below 128. *)
Definition escape_ascii (a : ascii) : string :=
  let n := Z.of_nat (nat_of_ascii a) in
  if decide (a = dq ∨ a = bslash) then String bslash (String a "")
  else if decide (a = "008"%char) then String bslash "b"
  else if decide (a = "012"%char) then String bslash "f"
  else if decide (a = "010"%char) then String bslash "n"
  else if decide (a = "013"%char) then String bslash "r"
  else if decide (a = "009"%char) then String bslash "t"
  else if decide (n < 32 ∨ a ∈ ["<"; ">"; "&"]%char) then
    String bslash ("u00" +:+ String (hex_char (n / 16)) (String (hex_char (n mod 16)) ""))
  else String a "".

(** A rune of three bytes; U+2028 and U+2029 are escaped. *)
Definition escape_three (a b c : ascii) : string :=
  if decide (a = "226"%char ∧ b = "128"%char ∧ c = "168"%char) then String bslash "u2028"
  else if decide (a = "226"%char ∧ b = "128"%char ∧ c = "169"%char) then String bslash "u2029"
  else String a (String b (String c "")).

Fixpoint escape (s : string) : string :=
  match s with
  | EmptyString => ""
  | String a s1 =>
      if decide (nat_of_ascii a < 128)%nat then escape_ascii a +:+ escape s1
      else match rune_size s, s1 with
           | 2%nat, String b s2 => String a (String b (escape s2))
           | 3%nat, String b (String c s2) => escape_three a b c +:+ escape s2
           | 4%nat, String b (String c (String d s2)) => String a (String b (String c (String d (escape s2))))
           | _, _ => String bslash "ufffd" +:+ escape s1
           end
  end.

(** The text with U+FFFD for every byte that is no part of a rune. *)
Fixpoint to_valid (s : string) : string :=
  match s with
  | EmptyString => ""
  | String a s1 =>
      if decide (nat_of_ascii a < 128)%nat then String a (to_valid s1)
      else match rune_size s, s1 with
           | 2%nat, String b s2 => String a (String b (to_valid s2))
           | 3%nat, String b (String c s2) => String a (String b (String c (to_valid s2)))
           | 4%nat, String b (String c (String d s2)) => String a (String b (String c (String d (to_valid s2))))
           | _, _ => RuneError +:+ to_valid s1
           end
  end.

(** [utf8.ValidString] *)
Fixpoint valid_string (s : string) : bool :=
  match s with
  | EmptyString => true
  | String a s1 =>
      if decide (nat_of_ascii a < 128)%nat then valid_string s1
      else match rune_size s, s1 with
           | 2%nat, String b s2 => valid_string s2
           | 3%nat, String b (String c s2) => valid_string s2
           | 4%nat, String b (String c (String d s2)) => valid_string s2
           | _, _ => false
           end
  end.

Example escapes :
  escape (requote "a'<\>" +:+ String "010" (String "001" (String "127" "")) +:+ EncodeRune 233 +:+ EncodeRune 8232 +:+
    String "195" "x" +:+ EncodeRune 128512) =
  "a" +:+ String bslash (requote "'\u003c\\\u003e\n\u0001") +:+ String "127" (EncodeRune 233) +:+
    "\u2028\ufffdx" +:+ EncodeRune 128512.
Proof. vm_compute. reflexivity. Qed.

(** ** Runes *)

(** A text by its runes: the first byte is ASCII, or starts a rune of two, three or four
    bytes, or belongs to no rune. *)
Variant rune_view : string → Prop :=
| view_nil : rune_view ""
| view_ascii a s : (nat_of_ascii a < 128)%nat → rune_view (String a s)
| view_two a b s : (∀ t, rune_size (String a (String b t)) = 2%nat) → rune_view (String a (String b s))
| view_three a b c s : (∀ t, rune_size (String a (String b (String c t))) = 3%nat) →
    rune_view (String a (String b (String c s)))
| view_four a b c d s : (∀ t, rune_size (String a (String b (String c (String d t)))) = 4%nat) →
    rune_view (String a (String b (String c (String d s))))
| view_bad a s : (128 <= nat_of_ascii a)%nat → rune_size (String a s) = 0%nat → rune_view (String a s).

Lemma rune_view_spec s : rune_view s.
Proof.
  destruct s as [|a s]; [constructor|]. destruct (decide (nat_of_ascii a < 128)%nat); [by constructor|].
  destruct (rune_size (String a s)) as [|size] eqn:E; [apply view_bad; [lia|done]|].
  destruct s as [|b s]; [done|]. cbn [rune_size] in E.
  destruct (between 194 223 a && between 128 191 b) eqn:E2.
  { apply view_two. intros t. cbn [rune_size]. by rewrite E2. }
  destruct s as [|c s]; [done|].
  destruct ((_ || _) && between 128 191 c) eqn:E3.
  { apply view_three. intros t. cbn [rune_size]. by rewrite E2, E3. }
  destruct s as [|d s]; [done|]. destruct ((_ || _) && between 128 191 c && between 128 191 d) eqn:E4; [|done].
  apply view_four. intros t. cbn [rune_size]. by rewrite E2, E3, E4.
Qed.

Lemma rune_high a k u : rune_size (String a u) = S k → (128 <= nat_of_ascii a)%nat.
Proof.
  intros Hk. destruct (decide (nat_of_ascii a < 128)%nat) as [Ha|]; [exfalso|lia]. revert Hk.
  clear -Ha. destruct u as [|b [|c [|d u]]]; cbn [rune_size]; unfold between; [done|..];
    rewrite !(bool_decide_false (_ <= nat_of_ascii a <= _)%nat) by lia; done.
Qed.

(** Induction along the runes of a text. *)
Lemma rune_ind (P : string → Prop) :
  P "" →
  (∀ a s, (nat_of_ascii a < 128)%nat → P s → P (String a s)) →
  (∀ a b s, (128 <= nat_of_ascii a)%nat → (∀ t, rune_size (String a (String b t)) = 2%nat) →
    P s → P (String a (String b s))) →
  (∀ a b c s, (128 <= nat_of_ascii a)%nat → (∀ t, rune_size (String a (String b (String c t))) = 3%nat) →
    P s → P (String a (String b (String c s)))) →
  (∀ a b c d s, (128 <= nat_of_ascii a)%nat → (∀ t, rune_size (String a (String b (String c (String d t)))) = 4%nat) →
    P s → P (String a (String b (String c (String d s))))) →
  (∀ a s, (128 <= nat_of_ascii a)%nat → rune_size (String a s) = 0%nat → P s → P (String a s)) →
  ∀ s, P s.
Proof.
  intros H0 H1 H2 H3 H4 Hb s. remember (len s) as n eqn:En. revert s En.
  induction n as [n IH] using lt_wf_ind. intros s ->.
  destruct (rune_view_spec s) as [|a s Ha|a b s Hs|a b c s Hs|a b c d s Hs|a s Ha Hs];
    [done|apply H1|apply H2|apply H3|apply H4|apply Hb]; try done;
    try (eapply IH; [|reflexivity]; simpl; lia); eapply rune_high; apply (Hs "").
Qed.

(** The equations of the three functions along the runes. *)
Ltac rune_step Hs := rewrite decide_False by lia; rewrite Hs; reflexivity.

Section RuneEquations.
Context (a b c d : ascii) (s : string) (Ha : (128 <= nat_of_ascii a)%nat).

Lemma escape_bad : rune_size (String a s) = 0%nat → escape (String a s) = String bslash "ufffd" +:+ escape s.
Proof. intros Hs. cbn [escape]. rewrite decide_False by lia. by rewrite Hs. Qed.

Lemma to_valid_bad : rune_size (String a s) = 0%nat → to_valid (String a s) = RuneError +:+ to_valid s.
Proof. intros Hs. cbn [to_valid]. rewrite decide_False by lia. by rewrite Hs. Qed.

Lemma valid_bad : rune_size (String a s) = 0%nat → valid_string (String a s) = false.
Proof. intros Hs. cbn [valid_string]. rewrite decide_False by lia. by rewrite Hs. Qed.

Section Two.
Context (Hs : ∀ t, rune_size (String a (String b t)) = 2%nat).

Lemma escape_two : escape (String a (String b s)) = String a (String b (escape s)).
Proof. cbn [escape]. rune_step Hs. Qed.

Lemma to_valid_two : to_valid (String a (String b s)) = String a (String b (to_valid s)).
Proof. cbn [to_valid]. rune_step Hs. Qed.

Lemma valid_two : valid_string (String a (String b s)) = valid_string s.
Proof. cbn [valid_string]. rune_step Hs. Qed.

Lemma unquote_two fuel : unquote_aux (S fuel) (String a (String b s)) = String a (String b (unquote_aux fuel s)).
Proof.
  cbn [unquote_aux]. rewrite decide_False by (intros ->; vm_compute in Ha; lia). rune_step Hs.
Qed.

End Two.

Section Three.
Context (Hs : ∀ t, rune_size (String a (String b (String c t))) = 3%nat).

Lemma escape_3 : escape (String a (String b (String c s))) = escape_three a b c +:+ escape s.
Proof. cbn [escape]. rune_step Hs. Qed.

Lemma to_valid_three : to_valid (String a (String b (String c s))) = String a (String b (String c (to_valid s))).
Proof. cbn [to_valid]. rune_step Hs. Qed.

Lemma valid_three : valid_string (String a (String b (String c s))) = valid_string s.
Proof. cbn [valid_string]. rune_step Hs. Qed.

Lemma unquote_three fuel :
  unquote_aux (S fuel) (String a (String b (String c s))) = String a (String b (String c (unquote_aux fuel s))).
Proof.
  cbn [unquote_aux]. rewrite decide_False by (intros ->; vm_compute in Ha; lia). rune_step Hs.
Qed.

End Three.

Section Four.
Context (Hs : ∀ t, rune_size (String a (String b (String c (String d t)))) = 4%nat).

Lemma escape_four :
  escape (String a (String b (String c (String d s)))) = String a (String b (String c (String d (escape s)))).
Proof. cbn [escape]. rune_step Hs. Qed.

Lemma to_valid_four :
  to_valid (String a (String b (String c (String d s)))) = String a (String b (String c (String d (to_valid s)))).
Proof. cbn [to_valid]. rune_step Hs. Qed.

Lemma valid_four : valid_string (String a (String b (String c (String d s)))) = valid_string s.
Proof. cbn [valid_string]. rune_step Hs. Qed.

Lemma unquote_four fuel :
  unquote_aux (S fuel) (String a (String b (String c (String d s)))) =
    String a (String b (String c (String d (unquote_aux fuel s)))).
Proof.
  cbn [unquote_aux]. rewrite decide_False by (intros ->; vm_compute in Ha; lia). rune_step Hs.
Qed.

End Four.

End RuneEquations.

(** ** Scanning *)

(** Text that stands for itself between quotes. *)
Definition scans_as_is (p : string) : Prop :=
  ∀ t, scan_string (p +:+ t) = '(raw, rest) ← scan_string t; Some (p +:+ raw, rest).

Lemma as_is_app p q : scans_as_is p → scans_as_is q → scans_as_is (p +:+ q).
Proof.
  intros Hp Hq t. rewrite append_assoc, Hp, Hq.
  destruct (scan_string t) as [[raw rest]|]; [|done]. cbn [mbind option_bind]. by rewrite append_assoc.
Qed.

Lemma as_is_byte a p : (128 <= nat_of_ascii a)%nat → scans_as_is p → scans_as_is (String a p).
Proof.
  intros Ha. apply (as_is_app (String a "")). intros t.
  change (String a "" +:+ t) with (String a t). cbn [scan_string].
  rewrite decide_False by (intros ->; vm_compute in Ha; lia).
  rewrite decide_False by (intros ->; vm_compute in Ha; lia). by rewrite decide_False by lia.
Qed.

Lemma as_is_ascii a : (nat_of_ascii a < 128)%nat → scans_as_is (escape_ascii a).
Proof.
  intros Ha t. destruct a as [[] [] [] [] [] [] [] []]; try (exfalso; vm_compute in Ha; lia); reflexivity.
Qed.

(** The bytes of a rune after its first. *)
Lemma rune_tail2 a b t : rune_size (String a (String b t)) = 2%nat → (128 <= nat_of_ascii b)%nat.
Proof.
  cbn [rune_size]. destruct (between 194 223 a && between 128 191 b) eqn:E.
  - apply andb_true_iff in E as [_ E]. unfold between in E. rewrite bool_decide_eq_true in E. lia.
  - destruct t as [|c [|d t]]; repeat case_match; done.
Qed.

Lemma between_ge lo hi a : (128 <= lo)%nat → between lo hi a = true → (128 <= nat_of_ascii a)%nat.
Proof. unfold between. rewrite bool_decide_eq_true. lia. Qed.

Ltac rune_tail :=
  rewrite ?andb_true_iff, ?orb_true_iff, ?andb_true_iff in *; destruct_and?; destruct_or?; destruct_and?;
  repeat split; (eapply between_ge; [|eassumption]; apply Nat.leb_le; reflexivity).

Lemma rune_tail3 a b c t :
  rune_size (String a (String b (String c t))) = 3%nat → (128 <= nat_of_ascii b)%nat ∧ (128 <= nat_of_ascii c)%nat.
Proof.
  cbn [rune_size]. destruct (between 194 223 a && between 128 191 b); [done|].
  destruct ((_ || _) && between 128 191 c) eqn:E; [intros _; rune_tail|].
  destruct t as [|d t]; [done|]. by case_match.
Qed.

Lemma rune_tail4 a b c d t :
  rune_size (String a (String b (String c (String d t)))) = 4%nat →
  (128 <= nat_of_ascii b)%nat ∧ (128 <= nat_of_ascii c)%nat ∧ (128 <= nat_of_ascii d)%nat.
Proof.
  cbn [rune_size]. destruct (between 194 223 a && between 128 191 b); [done|].
  destruct ((_ || _) && between 128 191 c) eqn:E; [done|].
  destruct ((_ || _) && between 128 191 c && between 128 191 d) eqn:E4; [|done]. intros _. clear E. rune_tail.
Qed.

Lemma as_is_three a b c :
  (128 <= nat_of_ascii a)%nat → (128 <= nat_of_ascii b)%nat → (128 <= nat_of_ascii c)%nat →
  scans_as_is (escape_three a b c).
Proof.
  intros Ha Hb Hc. unfold escape_three. case_decide; [by intros t|]. case_decide; [by intros t|].
  do 3 (apply as_is_byte; [done|]). intros t. change ("" +:+ t) with t. by destruct (scan_string t) as [[]|].
Qed.

Lemma as_is_escape s : scans_as_is (escape s).
Proof.
  induction s as [|a s Ha IH|a b s Ha Hs IH|a b c s Ha Hs IH|a b c d s Ha Hs IH|a s Ha Hs IH] using rune_ind.
  - intros t. change (escape "" +:+ t) with t. by destruct (scan_string t) as [[]|].
  - cbn [escape]. rewrite decide_True by done. by apply as_is_app; [apply as_is_ascii|].
  - rewrite escape_two by done. pose proof (rune_tail2 a b "" (Hs "")). by do 2 (apply as_is_byte; [done|]).
  - rewrite escape_3 by done. destruct (rune_tail3 a b c "" (Hs "")). by apply as_is_app; [apply as_is_three|].
  - rewrite escape_four by done. destruct (rune_tail4 a b c d "" (Hs "")) as (? & ? & ?).
    by do 4 (apply as_is_byte; [done|]).
  - rewrite escape_bad by done. apply as_is_app; [by intros t|done].
Qed.

(** Whatever the string, its text can stand between quotes. *)
Lemma escaped_escape s : escaped (escape s) = true.
Proof.
  unfold escaped. rewrite bool_decide_eq_true, as_is_escape. cbn [scan_string]. rewrite decide_True by done.
  cbn [mbind option_bind]. by rewrite append_nil.
Qed.

(** ** Unquoting *)

Lemma unquote_ascii a fuel t :
  (nat_of_ascii a < 128)%nat → unquote_aux (S fuel) (escape_ascii a +:+ t) = String a (unquote_aux fuel t).
Proof.
  intros Ha. destruct a as [[] [] [] [] [] [] [] []]; try (exfalso; vm_compute in Ha; lia); reflexivity.
Qed.

Lemma unquote_escape_three a b c fuel t :
  (128 <= nat_of_ascii a)%nat → (∀ t, rune_size (String a (String b (String c t))) = 3%nat) →
  unquote_aux (S fuel) (escape_three a b c +:+ t) = String a (String b (String c (unquote_aux fuel t))).
Proof.
  intros Ha Hs. unfold escape_three.
  case_decide as H1; [by destruct H1 as (-> & -> & ->)|]. case_decide as H2; [by destruct H2 as (-> & -> & ->)|].
  change (String a (String b (String c "")) +:+ t) with (String a (String b (String c t))). by apply unquote_three.
Qed.

Lemma escape_ascii_len a : (1 <= len (escape_ascii a))%nat.
Proof. unfold escape_ascii. repeat case_decide; simpl; lia. Qed.

Lemma escape_three_len a b c : (1 <= len (escape_three a b c))%nat.
Proof. unfold escape_three. repeat case_decide; simpl; lia. Qed.

Lemma unquote_aux_escape s : ∀ fuel, (len (escape s) <= fuel)%nat → unquote_aux fuel (escape s) = to_valid s.
Proof.
  induction s as [|a s Ha IH|a b s Ha Hs IH|a b c s Ha Hs IH|a b c d s Ha Hs IH|a s Ha Hs IH] using rune_ind; intros fuel Hf.
  - by destruct fuel.
  - cbn [escape] in Hf. cbn [escape to_valid]. rewrite !decide_True by done.
    rewrite decide_True, len_app in Hf by done.
    pose proof (escape_ascii_len a). destruct fuel as [|fuel]; [lia|]. by rewrite unquote_ascii, IH by (done || lia).
  - rewrite escape_two by done. rewrite escape_two in Hf by done. cbn [String.length] in Hf. destruct fuel as [|fuel]; [lia|].
    by rewrite unquote_two, to_valid_two, IH by (done || lia).
  - rewrite escape_3 by done. rewrite escape_3 in Hf by done. rewrite len_app in Hf.
    pose proof (escape_three_len a b c). destruct fuel as [|fuel]; [lia|].
    by rewrite unquote_escape_three, to_valid_three, IH by (done || lia).
  - rewrite escape_four by done. rewrite escape_four in Hf by done. cbn [String.length] in Hf. destruct fuel as [|fuel]; [lia|].
    by rewrite unquote_four, to_valid_four, IH by (done || lia).
  - rewrite escape_bad, to_valid_bad by done. rewrite escape_bad in Hf by done. rewrite len_app in Hf. cbn [String.length] in Hf.
    destruct fuel as [|fuel]; [lia|].
    change (unquote_aux (S fuel) (String bslash "ufffd" +:+ escape s)) with (RuneError +:+ unquote_aux fuel (escape s)).
    by rewrite IH by lia.
Qed.

Lemma unquote_escape s : unquote (escape s) = to_valid s.
Proof. by apply unquote_aux_escape. Qed.

Lemma to_valid_id s : valid_string s = true → to_valid s = s.
Proof.
  induction s as [|a s Ha IH|a b s Ha Hs IH|a b c s Ha Hs IH|a b c d s Ha Hs IH|a s Ha Hs IH] using rune_ind.
  - done.
  - cbn [valid_string to_valid]. rewrite !decide_True by done. intros Hv. by rewrite IH.
  - rewrite valid_two, to_valid_two by done. intros Hv. by rewrite IH.
  - rewrite valid_three, to_valid_three by done. intros Hv. by rewrite IH.
  - rewrite valid_four, to_valid_four by done. intros Hv. by rewrite IH.
  - by rewrite valid_bad by done.
Qed.

(** Text of plain characters is written as it is. *)
Definition safe_char (a : ascii) : bool := bool_decide (nat_of_ascii a < 128)%nat && bool_decide (escape_ascii a = String a "").

Lemma escape_safe s : string_forallb safe_char s = true → escape s = s ∧ valid_string s = true.
Proof.
  induction s as [|a s IH]; [done|]. cbn [string_forallb]. unfold safe_char at 1.
  rewrite !andb_true_iff, !bool_decide_eq_true. intros [[Ha E] [IHe IHv]%IH].
  cbn [escape valid_string]. rewrite !decide_True by done. by rewrite E, IHe.
Qed.
