(* ===== verification/Scanned.v ===== *)
(** * What the scanner delivers, whatever was scanned

    Every string of a scanned value is UTF-8 ([unquote] of encoding/json replaces what is
    not) and every number is the literal of a finite float64; so is what the decoders
    of [Contract] and [Models] make of them. *)

From S2P Require Import Prelude GoStd GoFloat GoTime Contract GoJson JsonText Decimal Escape Rounding.
Open Scope Z_scope.
Open Scope string_scope.
Open Scope list_scope.
Open Scope go_scope.

(** ** Encoded runes *)

(** The code points of Unicode but the surrogates. *)
Definition scalar_value (r : Z) : Prop := 0 <= r < 1114112 ∧ ¬ (55296 <= r < 57344).

Lemma nat_byte_at n : 0 <= n < 256 → nat_of_ascii (byte_at n) = Z.to_nat n.
Proof. intros Hn. unfold byte_at. apply nat_ascii_embedding. lia. Qed.

Lemma between_byte lo hi n :
  0 <= n < 256 → between lo hi (byte_at n) = bool_decide (Z.of_nat lo <= n <= Z.of_nat hi).
Proof. intros Hn. unfold between. rewrite nat_byte_at by done. apply bool_decide_ext. lia. Qed.

(** The digits of a code point to the base 64. *)
Lemma base64_digits r :
  0 <= r → 0 <= r mod 64 < 64 ∧ 0 <= r / 64 mod 64 < 64 ∧ 0 <= r / 4096 mod 64 < 64 ∧
    r / 64 = r / 4096 * 64 + r / 64 mod 64 ∧ r / 4096 = r / 262144 * 64 + r / 4096 mod 64 ∧
    r = r / 64 * 64 + r mod 64.
Proof. intros Hr. Z.to_euclidean_division_equations. lia. Qed.

(** One of the tests of [rune_size] holds. *)
Ltac some_test :=
  lazymatch goal with
  | |- _ || _ = true => apply orb_true_iff; first [right; some_test | left; some_test]
  | |- _ => rewrite ?andb_true_iff, ?bool_decide_eq_true; lia
  end.

Lemma rune_two n m u : 194 <= n <= 223 → 128 <= m <= 191 → rune_size (String (byte_at n) (String (byte_at m) u)) = 2%nat.
Proof. intros Hn Hm. cbn [rune_size]. rewrite !between_byte by lia. simpl Z.of_nat. by rewrite !bool_decide_true by lia. Qed.

Lemma rune_three n m l u :
  224 <= n <= 239 → 128 <= m <= 191 → 128 <= l <= 191 → (n = 224 → 160 <= m) → (n = 237 → m <= 159) →
  rune_size (String (byte_at n) (String (byte_at m) (String (byte_at l) u))) = 3%nat.
Proof.
  intros Hn Hm Hl H0 H1. cbn [rune_size]. rewrite !between_byte by lia. simpl Z.of_nat.
  rewrite (bool_decide_false (194 <= n <= 223)) by lia. rewrite (bool_decide_true (128 <= l <= 191)), !andb_true_r by done.
  cbn [andb]. match goal with |- (if ?b then _ else _) = _ => assert (b = true) as ->; [|done] end.
  assert (n = 224 ∨ 225 <= n <= 236 ∨ n = 237 ∨ 238 <= n <= 239) as [|[|[|]]] by lia; some_test.
Qed.

Lemma rune_four n m l k u :
  240 <= n <= 244 → 128 <= m <= 191 → 128 <= l <= 191 → 128 <= k <= 191 → (n = 240 → 144 <= m) → (n = 244 → m <= 143) →
  rune_size (String (byte_at n) (String (byte_at m) (String (byte_at l) (String (byte_at k) u)))) = 4%nat.
Proof.
  intros Hn Hm Hl Hk H0 H1. cbn [rune_size]. rewrite !between_byte by lia. simpl Z.of_nat.
  rewrite (bool_decide_false (194 <= n <= 223)), (bool_decide_false (224 <= n <= 224)),
    (bool_decide_false (225 <= n <= 236)), (bool_decide_false (237 <= n <= 237)),
    (bool_decide_false (238 <= n <= 239)) by lia.
  rewrite (bool_decide_true (128 <= l <= 191)), (bool_decide_true (128 <= k <= 191)), !andb_true_r by done. cbn [andb orb].
  match goal with |- (if ?b then _ else _) = _ => assert (b = true) as ->; [|done] end.
  assert (n = 240 ∨ 241 <= n <= 243 ∨ n = 244) as [|[|]] by lia; some_test.
Qed.

Lemma valid_rune r t : scalar_value r → valid_string (EncodeRune r +:+ t) = valid_string t.
Proof.
  intros [Hr Hs]. pose proof (base64_digits r ltac:(lia)) as (H0 & H1 & H2 & E1 & E2 & E0).
  unfold EncodeRune. repeat case_decide; rewrite ?string_cons_app; change ("" +:+ t) with t;
    [|apply valid_two; [|intros u; apply rune_two; lia]|apply valid_three; [|intros u; apply rune_three; lia]
     |apply valid_four; [|intros u; apply rune_four; lia]]; [|rewrite nat_byte_at by lia; lia..].
  cbn [valid_string]. by rewrite nat_byte_at, decide_True by lia.
Qed.

Lemma valid_error t : valid_string (RuneError +:+ t) = valid_string t.
Proof. apply valid_rune. unfold scalar_value. lia. Qed.

Lemma hex_digit_range a d : hex_digit a = Some d → 0 <= d < 16.
Proof.
  unfold hex_digit, digit_val. repeat case_match; intros [= <-]; repeat case_decide; simplify_eq; lia.
Qed.

Lemma hex4_range h1 h2 h3 h4 : 0 <= hex4 h1 h2 h3 h4 < 65536.
Proof.
  unfold hex4. assert (∀ a, 0 <= default 0 (hex_digit a) < 16) as H.
  { intros a. destruct (hex_digit a) eqn:E; simpl; [by apply hex_digit_range in E|lia]. }
  pose proof (H h1). pose proof (H h2). pose proof (H h3). pose proof (H h4). lia.
Qed.

Lemma surrogate_pair_scalar r1 r2 r : surrogate_pair r1 r2 = Some r → scalar_value r.
Proof. unfold surrogate_pair, scalar_value. case_decide; [|done]. intros [= <-]. lia. Qed.

(** ** Strings *)

(** Text between quotes: ordinary bytes and complete escapes. *)
Inductive scanned_raw : string → Prop :=
| raw_nil : scanned_raw ""
| raw_byte a s : a ≠ bslash → scanned_raw s → scanned_raw (String a s)
| raw_escape e s : e ∈ [dq; bslash; "/"; "b"; "f"; "n"; "r"; "t"]%char → scanned_raw s →
    scanned_raw (String bslash (String e s))
| raw_unicode h1 h2 h3 h4 s : scanned_raw s →
    scanned_raw (String bslash (String "u" (String h1 (String h2 (String h3 (String h4 s)))))).

Lemma scan_string_raw s raw rest : scan_string s = Some (raw, rest) → scanned_raw raw.
Proof.
  remember (len s) as n eqn:Hn. revert s raw rest Hn.
  induction n as [n IH] using lt_wf_ind; intros s raw rest ->. destruct s as [|a s1]; [done|].
  assert (∀ s', (len s' < len (String a s1))%nat → ∀ raw rest, scan_string s' = Some (raw, rest) → scanned_raw raw)
    as IH' by (intros s' Hs' raw' rest'; by eapply IH).
  clear IH. cbn [scan_string]. case_decide; [intros [= <- <-]; constructor|]. case_decide as Ha.
  - subst a. destruct s1 as [|e s2]; [done|]. case_decide.
    + intros Hs. scanned. apply raw_escape; [done|]. eapply IH'; [|done]. simpl. lia.
    + case_decide as He; [|done]. subst e. destruct s2 as [|h1 [|h2 [|h3 [|h4 s3]]]]; try done.
      destruct (is_hexdigit h1 && is_hexdigit h2 && is_hexdigit h3 && is_hexdigit h4); [|done].
      intros Hs. scanned. apply raw_unicode. eapply IH'; [|done]. simpl. lia.
  - case_decide; [done|]. intros Hs. scanned. apply raw_byte; [done|]. eapply IH'; [|done]. simpl. lia.
Qed.

(** Nothing but a backslash starts an escape. *)
Lemma raw_high a s : (128 <= nat_of_ascii a)%nat → scanned_raw (String a s) → scanned_raw s.
Proof. intros Ha. inversion 1; subst; [done|exfalso; revert Ha; vm_compute; lia..]. Qed.

Lemma raw_unicode_tail h1 h2 h3 h4 s :
  scanned_raw (String bslash (String "u" (String h1 (String h2 (String h3 (String h4 s)))))) → scanned_raw s.
Proof. inversion 1; subst; [done| |done]. exfalso. set_solver. Qed.

(** What [unquote] makes of the escape of a code point. *)
Lemma unquote_unicode fuel h1 h2 h3 h4 s2 (P : string → Prop) :
  (∀ r u t, scalar_value r → scanned_raw u → t = unquote_aux fuel u → P (EncodeRune r +:+ t)) → scanned_raw s2 →
  P (unquote_aux (S fuel) (String bslash (String "u" (String h1 (String h2 (String h3 (String h4 s2))))))).
Proof.
  intros HP Hs. pose proof (hex4_range h1 h2 h3 h4) as Hr1. cbn [unquote_aux]. rewrite decide_True by done.
  assert (P (RuneError +:+ unquote_aux fuel s2)) as Hbad by (eapply HP; [|exact Hs|done]; unfold scalar_value; lia).
  destruct (is_surrogate (hex4 h1 h2 h3 h4)) eqn:E.
  - repeat (case_match; try exact Hbad). subst.
    eapply HP; [by eapply surrogate_pair_scalar| |done]. by eapply raw_unicode_tail.
  - eapply HP; [|exact Hs|done]. unfold is_surrogate in E. rewrite bool_decide_eq_false in E.
    unfold scalar_value. lia.
Qed.

(** ... and of a text that starts with no escape. *)
Lemma unquote_plain_byte fuel a s :
  a ≠ bslash → scanned_raw s → (∀ u, scanned_raw u → valid_string (unquote_aux fuel u) = true) →
  valid_string (unquote_aux (S fuel) (String a s)) = true.
Proof.
  intros Hne Hs IH. remember (String a s) as u eqn:Eu.
  destruct (rune_view_spec u) as [|a' s' Ha|a' b s' Hr|a' b c s' Hr|a' b c d s' Hr|a' s' Ha Hr]; simplify_eq.
  - cbn [unquote_aux]. rewrite decide_False, decide_True by done. cbn [valid_string]. rewrite decide_True by done.
    by apply IH.
  - pose proof (rune_high _ _ _ (Hr "")). pose proof (rune_tail2 a b "" (Hr "")).
    rewrite unquote_two, valid_two by done. by apply IH, (raw_high b).
  - pose proof (rune_high _ _ _ (Hr "")). destruct (rune_tail3 a b c "" (Hr "")).
    rewrite unquote_three, valid_three by done. by apply IH, (raw_high c), (raw_high b).
  - pose proof (rune_high _ _ _ (Hr "")). destruct (rune_tail4 a b c d "" (Hr "")) as (? & ? & ?).
    rewrite unquote_four, valid_four by done. by apply IH, (raw_high d), (raw_high c), (raw_high b).
  - cbn [unquote_aux]. rewrite decide_False, decide_False by (done || lia). rewrite Hr.
    rewrite valid_error. by apply IH.
Qed.

Lemma unquote_aux_valid fuel s : scanned_raw s → valid_string (unquote_aux fuel s) = true.
Proof.
  revert s. induction fuel as [|fuel IH]; [done|]. intros s Hs. destruct Hs as [|a s Ha Hs|e s He Hs|h1 h2 h3 h4 s Hs].
  - done.
  - by apply unquote_plain_byte.
  - repeat (apply elem_of_cons in He as [->|He]; [exact (IH s Hs)|]). by apply elem_of_nil in He.
  - apply unquote_unicode; [|done]. intros r u t Hr Hu ->. rewrite valid_rune by done. by apply IH.
Qed.

(** Every string the scanner delivers is UTF-8. *)
Lemma unquote_valid s raw rest : scan_string s = Some (raw, rest) → valid_string (unquote raw) = true.
Proof. intros Hs%scan_string_raw. by apply unquote_aux_valid. Qed.

(** ** Values *)

(** The literal of a scanned number. *)
Definition literal (n : string) : bool :=
  match n with
  | String a t => is_digit a || (bool_decide (a = "-"%char) && starts_with_digit t)
  | EmptyString => false
  end.

(** Its strings and keys are text, its numbers literals. *)
Fixpoint json_sound (v : json) : bool :=
  match v with
  | JStr _ s => valid_string s
  | JNum n => literal n
  | JArr l => forallb json_sound l
  | JObj l => forallb (λ kv, valid_string kv.1 && json_sound kv.2) l
  | _ => true
  end.

Lemma literal_digit a t : is_digit a = true → literal (String a t) = true.
Proof. intros Ha. unfold literal. by rewrite Ha. Qed.

Lemma literal_minus t : starts_with_digit t = true → literal (String "-" t) = true.
Proof. done. Qed.

Lemma scan_number_literal s n rest : scan_number s = Some (n, rest) → literal n = true.
Proof.
  assert (∀ s i t, integer_part s = Some (i, t) → starts_with_digit i = true) as Hi.
  { intros u i t. unfold integer_part. destruct (lit "0" u); [by intros [= <- <-]|]. unfold digits1.
    destruct (digits u) as [ds t'] eqn:E. case_decide; [done|]. intros [= -> ->].
    destruct u as [|a u]; cbn [digits] in E; [by simplify_eq|].
    destruct (digit_val a) as [d|] eqn:Ea; [|by simplify_eq]. destruct (digits u). simplify_eq.
    unfold starts_with_digit. by rewrite Ea. }
  unfold scan_number. destruct (lit "-" s) as [u|]; intros Hs;
    apply bind_Some in Hs as ([i s1] & H1%Hi & Hs); scanned; destruct i as [|a i]; try done.
  all: first [by apply (literal_digit a) | by apply (literal_minus (String a _))].
Qed.

Lemma scanned_sound fuel :
  (∀ d s v rest, json_value fuel d s = Some (v, rest) → json_sound v = true) ∧
  (∀ d s l rest, json_elements fuel d s = Some (l, rest) → forallb json_sound l = true) ∧
  (∀ d s l rest, json_members fuel d s = Some (l, rest) →
    forallb (λ kv, valid_string kv.1 && json_sound kv.2) l = true).
Proof.
  induction fuel as [|fuel (IHv & IHe & IHm)]; [done|].
  split_and!; intros d s v rest; [destruct s as [|a s]; [done|]|..];
    cbn [json_value json_elements json_members]; intros Hs.
  - repeat case_decide; repeat (case_match; try done); scanned; cbn [json_sound];
      eauto using scan_number_literal, unquote_valid.
  - scanned. case_match; scanned; cbn [forallb]; by erewrite IHv, ?IHe by done.
  - scanned. case_match; scanned; cbn [forallb fst snd]; by erewrite IHv, ?IHm, unquote_valid by done.
Qed.

Lemma literal_number n x : literal n = true → strconv_ParseFloat n = Some x → is_number x = true.
Proof.
  destruct n as [|a t]; [done|]. unfold literal. intros [Ha|[->%bool_decide_eq_true Ht]%andb_true_iff]%orb_true_iff.
  - rewrite ParseFloat_digit by done. apply unsigned_float_number.
  - destruct t as [|b t]; [done|].
    change (strconv_ParseFloat (String "-" (String b t))) with (signed_float true (String b t)).
    rewrite signed_float_digit; [apply unsigned_float_number|]. exact Ht.
Qed.

Lemma result_bind_Ok {A B} (c : result A) (k : A → result B) y :
  (x <-! c; k x) = Ok y → ∃ x, c = Ok x ∧ k x = Ok y.
Proof. destruct c as [x|e]; [by eauto|done]. Qed.

Lemma json_Unmarshal_sound raw v : @json_Unmarshal go_text raw = Ok v → json_sound v = true.
Proof.
  unfold json_Unmarshal. change (@json_scan go_text) with scan_json.
  destruct (scan_json raw) as [[v' rest]|] eqn:E; [|done]. destruct (all_json_space rest); [|done].
  intros [= ->]. unfold scan_json in E. by apply scanned_sound in E.
Qed.

Lemma json_Decode_sound raw v : @json_Decode go_text raw = Ok v → json_sound v = true.
Proof.
  unfold json_Decode. change (@json_scan go_text) with scan_json.
  destruct (scan_json raw) as [[v' rest]|] eqn:E; [|done]. intros [= ->]. unfold scan_json in E. by apply scanned_sound in E.
Qed.

(** ** Decoding *)

Lemma decode_string_valid old v s :
  valid_string old = true → json_sound v = true → decode_string old v = Ok s → valid_string s = true.
Proof. intros Ho Hv. destruct v; cbn [decode_string json_sound] in *; intros; by simplify_eq. Qed.

Lemma decode_float_number old v x :
  is_number old = true → json_sound v = true → @decode_float go_text old v = Ok x → is_number x = true.
Proof.
  intros Ho Hv. destruct v as [|b|n|raw s|l|l]; cbn [decode_float json_sound] in *; try done; [by intros [= <-]|].
  change (@ParseFloat go_text) with strconv_ParseFloat.
  destruct (strconv_ParseFloat n) as [y|] eqn:E; [|done]. intros [= <-]. by eapply literal_number.
Qed.

(** Names are text, values numbers. *)
Definition sound_map (m : gmap string float64) : Prop :=
  map_Forall (λ k x, valid_string k = true ∧ is_number x = true) m.

Lemma decode_members_sound l m m' :
  sound_map m → json_sound (JObj l) = true → @decode_members go_text m l = Ok m' → sound_map m'.
Proof.
  revert m. induction l as [|[k v] l IH]; intros m Hm Hl; cbn [decode_members]; [by intros [= <-]|].
  cbn [json_sound forallb fst snd] in Hl. rewrite !andb_true_iff in Hl. destruct Hl as [[Hk Hv] Hl].
  intros H. apply result_bind_Ok in H as (x & Hx & H).
  apply (IH (<[k := x]> m)); [|done|done]. apply map_Forall_insert_2; [|done]. split; [done|].
  by eapply decode_float_number in Hx.
Qed.

Lemma decode_float_map_sound m v m' :
  sound_map m → json_sound v = true → @decode_float_map go_text m v = Ok m' → sound_map m'.
Proof.
  intros Hm Hv. destruct v; cbn [decode_float_map]; try done; [by intros [= <-]|]. by eapply decode_members_sound.
Qed.

(** A struct whose fields keep an invariant. *)
Lemma decode_into_keeps {A} (field : A → string → json → result A) (I : A → Prop) zero v x :
  (∀ y k u z, I y → json_sound u = true → field y k u = Ok z → I z) → I zero → json_sound v = true →
  decode_into field zero v = Ok x → I x.
Proof.
  intros Hf Hz Hv. destruct v as [| | | | |l]; cbn [decode_into]; try done; [by intros [= <-]|].
  revert zero Hz Hv. induction l as [|[k v] l IH]; intros zero Hz Hv; cbn [decode_struct]; [by intros [= <-]|].
  cbn [json_sound forallb fst snd] in Hv. rewrite !andb_true_iff in Hv. destruct Hv as [[Hk Hv] Hl].
  intros H. apply result_bind_Ok in H as (y & Hy & H). by eapply IH; [eapply Hf|..].
Qed.
