(* ===== verification/GoFormat.v ===== *)
(** * Floating-point numbers as text

    [strconv.FormatFloat] with precision -1, the shortest decimal that parses back to
    the same float64, in the two formats encoding/json chooses from; and the proof that
    [ParseFloat] reads the same number again. *)

From S2P Require Import Prelude GoStd GoFloat GoTime Contract GoJson JsonText Decimal Rounding.
Open Scope Z_scope.
Open Scope string_scope.
Open Scope list_scope.

(** ** The shortest decimal *)

(** Without trailing zeros. *)
Fixpoint trim (fuel : nat) (c q : Z) : Z * Z :=
  match fuel with
  | O => (c, q)
  | S fuel' => if decide (c mod 10 = 0) then trim fuel' (c / 10) (q + 1) else (c, q)
  end.

Section Shortest.
Context (m : positive) (e : Z).

(** The number [m * 2^e] as a fraction. *)
Definition numerator : Z := Z.pos m * 2 ^ Z.max 0 e.
Definition denominator : Z := 2 ^ Z.max 0 (- e).

(** The least [k] with [m * 2^e < 10^k], from an estimate that is at most that. *)
Fixpoint search_point (fuel : nat) (k : Z) : Z :=
  match fuel with
  | O => k
  | S fuel' =>
      if decide (numerator * 10 ^ Z.max 0 (- k) < denominator * 10 ^ Z.max 0 k) then k
      else search_point fuel' (k + 1)
  end.
Definition estimate : Z := (Z.log2 (Z.pos m) + e) * 1233 / 4096 - 1.
Definition decimal_point : Z := search_point 6 estimate.

(** The two decimals with [n] significant digits next to the number, the nearest first
    (to even on a tie). *)
Definition candidates (n : Z) : list (Z * Z) :=
  let q := decimal_point - n in
  let num := numerator * 10 ^ Z.max 0 (- q) in
  let den := denominator * 10 ^ Z.max 0 q in
  let lo := num / den in
  let r := num mod den in
  let lo_first := if decide (2 * r = den) then Z.even lo else bool_decide (2 * r < den) in
  let digits_of c := trim (Z.to_nat (Z.log2 c)) c q in
  if lo_first then [digits_of lo; digits_of (lo + 1)] else [digits_of (lo + 1); digits_of lo].

(** It is read as the same number. *)
Definition reads_back (cq : Z * Z) : bool :=
  match float_of_decimal false cq.1 cq.2 with
  | S754_finite false m' e' => bool_decide (m' = m ∧ e' = e)
  | _ => false
  end.

(** The first number of digits that is enough. *)
Fixpoint shortest_from (fuel : nat) (n : Z) : option (Z * Z) :=
  match fuel with
  | O => None
  | S fuel' =>
      match List.find reads_back (candidates n) with
      | Some cq => Some cq
      | None => shortest_from fuel' (n + 1)
      end
  end.
Definition shortest : Z * Z := default (0, 0) (shortest_from 1100 1).

(** *** It exists *)

Context (Hb : bounded 53 1024 m e = true).

Lemma trim_value fuel c q :
  0 < c → let '(c', q') := trim fuel c q in 0 < c' ∧ q <= q' ∧ c = c' * 10 ^ (q' - q).
Proof.
  revert c q. induction fuel as [|fuel IH]; intros c q Hc; cbn [trim].
  - rewrite Z.sub_diag. lia.
  - case_decide as Hm; [|rewrite Z.sub_diag; lia].
    pose proof (Z.div_mod c 10 ltac:(lia)) as Hd. rewrite Hm, Z.add_0_r in Hd.
    specialize (IH (c / 10) (q + 1) ltac:(lia)). destruct (trim fuel (c / 10) (q + 1)) as [c' q'].
    destruct IH as (H1 & H2 & H3). split_and!; [done|lia|]. rewrite Hd, H3.
    replace (q' - q) with (1 + (q' - (q + 1))) by lia. rewrite Z.pow_add_r by lia. ring.
Qed.

Lemma search_point_range fuel k : k <= search_point fuel k <= k + Z.of_nat fuel.
Proof.
  revert k. induction fuel as [|fuel IH]; intros k; cbn [search_point]; [lia|].
  case_decide; [lia|]. specialize (IH (k + 1)). lia.
Qed.

(** Enough digits for the exact value. *)
Lemma exact_candidate n :
  decimal_point - n <= Z.min 0 e → ∃ cq, List.find reads_back (candidates n) = Some cq.
Proof.
  intros Hq. unfold candidates. set (q := decimal_point - n) in *. clearbody q.
  rewrite (Z.max_l 0 q), (Z.max_r 0 (- q)), Z.mul_1_r by lia. set (num := numerator * 10 ^ (- q)).
  assert (0 < 10 ^ (- q)) by (apply Z.pow_pos_nonneg; lia).
  assert (0 < denominator) as Hden by (unfold denominator; apply Z.pow_pos_nonneg; lia).
  assert (0 < numerator) as Hnum
    by (unfold numerator; apply Z.mul_pos_pos; [done|apply Z.pow_pos_nonneg; lia]).
  assert (num mod denominator = 0) as Hmod.
  { apply Z.mod_divide; [lia|]. subst num. unfold denominator.
    destruct (decide (0 <= e)); [rewrite Z.max_l by lia; apply Z.divide_1_l|]. rewrite Z.max_r by lia.
    apply Z.divide_mul_r. replace 10 with (2 * 5) by done. rewrite Z.pow_mul_l. apply Z.divide_mul_l.
    exists (2 ^ (- q - - e)). rewrite <- Z.pow_add_r by lia. f_equal. lia. }
  rewrite Hmod. rewrite decide_False by lia. rewrite bool_decide_eq_true_2 by lia.
  pose proof (Z.div_mod num denominator ltac:(lia)) as Hdm. rewrite Hmod, Z.add_0_r in Hdm.
  set (lo := num / denominator) in *. assert (0 < lo) as Hlo by (subst num; nia).
  pose proof (trim_value (Z.to_nat (Z.log2 lo)) lo q Hlo) as Ht.
  destruct (trim (Z.to_nat (Z.log2 lo)) lo q) as [c' q'] eqn:Et. destruct Ht as (Hc' & Hq' & Hval).
  exists (c', q'). cbn [List.find]. assert (reads_back (c', q') = true) as ->; [|done].
  unfold reads_back. cbn [fst snd]. rewrite (decimal_exact m e Hb false c' q'); [by apply bool_decide_eq_true|].
  fold denominator numerator. assert (c' * 10 ^ (q' - q) * denominator = numerator * 10 ^ (- q)) as Hall by (fold num; lia).
  clear - Hall Hq Hq' Hden. destruct (decide (0 <= q')).
  - rewrite (Z.max_r 0 q'), (Z.max_l 0 (- q')) by lia. replace (q' - q) with (q' + - q) in Hall by lia.
    rewrite Z.pow_add_r in Hall by lia. assert (0 < 10 ^ (- q)) by (apply Z.pow_pos_nonneg; lia). nia.
  - rewrite (Z.max_l 0 q'), (Z.max_r 0 (- q')) by lia. replace (- q) with (q' - q + - q') in Hall by lia.
    rewrite Z.pow_add_r in Hall by lia. assert (0 < 10 ^ (q' - q)) by (apply Z.pow_pos_nonneg; lia). nia.
Qed.

Lemma shortest_from_some fuel n0 n :
  n <= n0 → n0 < n + Z.of_nat fuel → decimal_point - n0 <= Z.min 0 e →
  ∃ cq, shortest_from fuel n = Some cq ∧ reads_back cq = true.
Proof.
  revert n. induction fuel as [|fuel IH]; intros n H1 H2 Hq; [lia|]. cbn [shortest_from].
  destruct (List.find reads_back (candidates n)) as [cq|] eqn:E.
  - exists cq. split; [done|]. by apply List.find_some in E as [_ ?].
  - destruct (decide (n = n0)) as [->|]; [|apply IH; lia].
    destruct (exact_candidate n0 Hq) as [cq E']. congruence.
Qed.

Lemma shortest_reads_back : reads_back shortest = true.
Proof.
  assert (-1074 <= e <= 971) as He.
  { destruct (bounded_facts m e Hb) as [Hf ?]. unfold fexp, emin in Hf. lia. }
  assert (Z.log2 (Z.pos m) <= 52) as Hm.
  { destruct (bounded_facts m e Hb) as [Hf _]. pose proof (Zdigits2_spec m) as [Hd _].
    assert (Zdigits2 (Z.pos m) <= 53) by (unfold fexp, emin in Hf; lia).
    assert (Z.pos m < 2 ^ 53).
    { pose proof (Zdigits2_spec m) as [_ Hd2]. eapply Z.lt_le_trans; [exact Hd2|]. by apply Z.pow_le_mono_r. }
    assert (Z.log2 (Z.pos m) < 53) by (by apply Z.log2_lt_pow2). lia. }
  pose proof (Z.log2_nonneg (Z.pos m)). pose proof (search_point_range 6 estimate) as Hr. fold decimal_point in Hr.
  assert (decimal_point - Z.min 0 e < 1100).
  { unfold estimate in Hr. pose proof (Z.div_le_mono ((Z.log2 (Z.pos m) + e) * 1233) ((52 + e) * 1233) 4096).
    pose proof (Z.mul_div_le ((52 + e) * 1233) 4096). lia. }
  destruct (shortest_from_some 1100 (Z.max 1 (decimal_point - Z.min 0 e)) 1) as (cq & E & Hc); [lia..|].
  unfold shortest. by rewrite E.
Qed.

Lemma shortest_value : 0 < shortest.1 ∧ float_of_decimal false shortest.1 shortest.2 = S754_finite false m e.
Proof.
  pose proof shortest_reads_back as H. unfold reads_back in H. split.
  - destruct shortest.1; done.
  - destruct (float_of_decimal false shortest.1 shortest.2) as [| | |[] m' e']; try done.
    by apply bool_decide_eq_true in H as [-> ->].
Qed.

End Shortest.

Example shortest_24_8 : shortest 6980579422424269 (-48) = (248, -1).
Proof. vm_compute. reflexivity. Qed.
Example shortest_edges :
  [shortest 1 (-1074); shortest 9007199254740991 971; shortest 4503599627370496 (-52); shortest 5902958103587057 (-59)] =
  [(5, -324); (17976931348623157, 292); (1, 0); (1024, -5)].
Proof. vm_compute. reflexivity. Qed.

(** ** Text *)

(** [n] digits of [v], in front of [acc]. *)
Fixpoint padded (n : nat) (v : Z) (acc : string) : string :=
  match n with
  | O => acc
  | S n' => padded n' (v / 10) (String (digit_char (v mod 10)) acc)
  end.

(** A point and [n] digits; nothing if there are none. *)
Definition point_digits (n : Z) (v : Z) : string :=
  if decide (n = 0) then "" else String "." (padded (Z.to_nat n) v "").

(** Format 'f': [c * 10^q]. *)
Definition format_f (c q : Z) : string :=
  if decide (0 <= q) then decimal (c * 10 ^ q)
  else decimal (c / 10 ^ (- q)) +:+ point_digits (- q) (c mod 10 ^ (- q)).

(** The exponent of format 'e', after encoding/json has cleaned up e-09 to e-9. *)
Definition exponent_text (exp : Z) : string :=
  String "e" (String (if decide (exp < 0) then "-" else "+") (decimal (Z.abs exp))).

(** Format 'e'. *)
Definition format_e (c q : Z) : string :=
  let n := Z.of_nat (String.length (decimal c)) - 1 in
  decimal (c / 10 ^ n) +:+ point_digits n (c mod 10 ^ n) +:+ exponent_text (n + q).

(** [floatEncoder] of encoding/json. *)
Definition format_json_float (x : float64) : string :=
  match x with
  | S754_zero neg => if neg then "-0" else "0"
  | S754_finite neg m e =>
      let '(c, q) := shortest m e in
      let abs := S754_finite false m e in
      let text := if float_lt abs (float_of_decimal false 1 (-6)) || negb (float_lt abs (float_of_decimal false 1 21))
                  then format_e c q else format_f c q in
      if neg then String "-" text else text
  | _ => ""
  end.

Example format_examples :
  format_json_float <$> [S754_finite false 6980579422424269 (-48); float_of_decimal true 15 (-1);
    float_of_decimal false 123 20; float_of_decimal false 1 20; float_of_decimal false 25 (-9);
    float_of_decimal false 1 (-6); float_of_decimal false 1 21; S754_zero true; float_of_decimal false 5 (-324)] =
  ["24.8"; "-1.5"; "1.23e+22"; "100000000000000000000"; "2.5e-8"; "0.000001"; "1e+21"; "-0"; "5e-324"].
Proof. vm_compute. reflexivity. Qed.

Lemma float_of_decimal_sign neg c q :
  float_of_decimal neg c q =
  match float_of_decimal false c q with
  | S754_zero _ => S754_zero neg
  | S754_infinity _ => S754_infinity neg
  | S754_nan => S754_nan
  | S754_finite _ m e => S754_finite neg m e
  end.
Proof.
  assert (∀ s mx ex lx, binary_round_aux 53 1024 s mx ex lx =
    match binary_round_aux 53 1024 false mx ex lx with
    | S754_zero _ => S754_zero s
    | S754_infinity _ => S754_infinity s
    | S754_nan => S754_nan
    | S754_finite _ m e => S754_finite s m e
    end) as Haux.
  { intros. unfold binary_round_aux. destruct (shr_fexp _ _ _ _ _) as [r1 e1].
    destruct (shr_fexp _ _ _ _ _) as [r2 e2]. by repeat case_match. }
  unfold float_of_decimal. destruct c as [|c|c]; try done. case_decide.
  - unfold binary_round. destruct (shl_align _ _ _). apply Haux.
  - destruct (SFdiv_core_binary _ _ _ _ _ _) as [[q' e'] l]. apply Haux.
Qed.

Lemma padded_app n v acc : padded n v acc = padded n v "" +:+ acc.
Proof.
  revert v acc. induction n as [|n IH]; intros v acc; cbn [padded]; [done|].
  rewrite IH, (IH _ (String _ "")). by rewrite append_cons.
Qed.

Lemma mantissa_padded n : ∀ v acc m saw f,
  0 <= v < 10 ^ Z.of_nat n →
  mantissa false m saw (Some f) (padded n v acc) =
  mantissa false (m * 10 ^ Z.of_nat n + v) (saw || bool_decide (n ≠ O)) (Some (f + Z.of_nat n)) acc.
Proof.
  induction n as [|n IH]; intros v acc m saw f Hv.
  - cbn [padded]. change (10 ^ Z.of_nat 0) with 1 in *. rewrite orb_false_r. f_equal; [lia|]. f_equal. lia.
  - cbn [padded]. rewrite Nat2Z.inj_succ, Z.pow_succ_r in * by lia.
    rewrite IH by (split; [apply Z.div_pos; lia|apply Z.div_lt_upper_bound; lia]).
    rewrite mantissa_digit by apply mod10_range. rewrite bool_decide_true, orb_true_r by done.
    cbn [fmap option_fmap option_map]. f_equal; [|f_equal; lia]. pose proof (Z.div_mod v 10 ltac:(lia)). lia.
Qed.

Lemma exponent_digits_decimal fuel n acc :
  0 <= n < 10 ^ (Z.of_nat fuel + 1) → n < 10000 →
  exponent_digits 0 (decimal_aux fuel n acc) = exponent_digits n acc.
Proof.
  assert (∀ d e s, 0 <= d < 10 → e < 10000 →
    exponent_digits e (String (digit_char d) s) = exponent_digits (10 * e + d) s) as Hdigit.
  { intros d e s Hd%digit_val_char He. cbn [exponent_digits]. rewrite Hd, (decide_True (P := e < 10000)) by done.
    by rewrite decide_False by (intros E; rewrite E in Hd; done). }
  revert n acc. induction fuel as [|fuel IH]; intros n acc Hn Hlt; cbn [decimal_aux].
  - change (10 ^ (Z.of_nat 0 + 1)) with 10 in Hn. rewrite Hdigit by (done || apply mod10_range).
    by rewrite Z.mod_small by lia.
  - case_decide.
    + rewrite Hdigit by (done || apply mod10_range). by rewrite Z.mod_small by lia.
    + assert (0 <= n / 10 ∧ n / 10 <= n) as [? ?]
        by (split; [apply Z.div_pos; lia|apply Z.div_le_upper_bound; lia]).
      rewrite IH; [|split; [done|]|lia].
      * rewrite Hdigit by (lia || apply mod10_range). by rewrite <- Z.div_mod.
      * apply Z.div_lt_upper_bound; [lia|]. rewrite <- Z.pow_succ_r by lia.
        eapply Z.lt_le_trans; [apply Hn|apply Z.pow_le_mono_r; lia].
Qed.

(** A text in exponential or decimal format, in its parts. *)
Lemma point_digits_mantissa i n v t :
  0 <= n → 0 <= v < 10 ^ n → 0 <= i →
  (∀ m saw f, mantissa false m saw (Some f) t = (m, saw, f, t)) →
  (∀ m saw, mantissa false m saw None t = (m, saw, 0, t)) →
  mantissa false 0 false None (decimal i +:+ point_digits n v +:+ t) = (i * 10 ^ n + v, true, n, t).
Proof.
  intros Hn Hv Hi Ht1 Ht2. unfold decimal. rewrite <- decimal_aux_app, mantissa_decimal
    by (split; [done|by apply decimal_fuel]).
  unfold point_digits. case_decide as E.
  - subst n. change ("" +:+ t) with t. rewrite Ht2. change (10 ^ 0) with 1 in *. repeat f_equal; lia.
  - rewrite string_cons_app, mantissa_point, <- padded_app, mantissa_padded by (by rewrite Z2Nat.id).
    rewrite Ht1, Z2Nat.id by done. done.
Qed.

(** ** Reading the text back *)

Definition text_char (a : ascii) : bool := is_digit a || bool_decide (a ∈ ["."; "e"; "+"; "-"]%char).

Lemma text_char_facts a : text_char a = true → a ≠ "_"%char ∧ lower a ≠ "x"%char.
Proof. destruct a as [[] [] [] [] [] [] [] []]; intros H; try (by vm_compute in H); by split. Qed.

Lemma text_no_underscore s : string_forallb text_char s = true → has_char "_" s = false.
Proof.
  induction s as [|a s IH]; [done|]. intros [Ha Hs]%andb_true_iff. cbn [has_char].
  rewrite decide_False by (by apply text_char_facts). by apply IH.
Qed.

Lemma digits_text s : string_forallb is_digit s = true → string_forallb text_char s = true.
Proof. apply string_forallb_impl. intros a Ha. unfold text_char. by rewrite Ha. Qed.

Lemma decimal_is_digits n : string_forallb is_digit (decimal n) = true.
Proof. by apply decimal_digits. Qed.

Lemma padded_digits n v acc :
  string_forallb is_digit acc = true → string_forallb is_digit (padded n v acc) = true.
Proof.
  revert v acc. induction n as [|n IH]; intros v acc Ha; cbn [padded]; [done|]. apply IH.
  cbn [string_forallb]. rewrite Ha, andb_true_r. unfold is_digit. by rewrite digit_val_char by apply mod10_range.
Qed.

Lemma point_digits_text n v : string_forallb text_char (point_digits n v) = true.
Proof.
  unfold point_digits. case_decide; [done|]. cbn [string_forallb]. apply digits_text. by apply padded_digits.
Qed.

Lemma decimal_cons n : ∃ a t, decimal n = String a t ∧ is_digit a = true.
Proof.
  pose proof (decimal_is_digits n) as Hd. pose proof (decimal_aux_not_nil (Z.to_nat (Z.log2 n)) n "") as Hn.
  fold (decimal n) in Hn. destruct (decimal n) as [|a t]; [done|]. exists a, t. split; [done|].
  by apply andb_true_iff in Hd as [? _].
Qed.

(** What may follow the digits: nothing, or an exponent. *)
Inductive number_tail : string → Z → Prop :=
| tail_none : number_tail "" 0
| tail_exp exp : Z.abs exp < 10000 → number_tail (exponent_text exp) exp.

Lemma decimal_starts n : starts_with_digit (decimal n) = true.
Proof. destruct (decimal_cons n) as (a & t & -> & Ha). exact Ha. Qed.

Lemma exponent_tail t exp : number_tail t exp → exponent false t = Some exp.
Proof.
  intros [|exp' Hexp]; [done|]. unfold exponent, exponent_text. rewrite decide_True by done.
  assert (exponent_digits 0 (decimal (Z.abs exp')) = (Z.abs exp', "")) as E.
  { unfold decimal. rewrite exponent_digits_decimal; [done| |done]. split; [lia|]. apply decimal_fuel. lia. }
  case_decide; rewrite decimal_starts, E; by (rewrite decide_True by done; f_equal; lia).
Qed.

Lemma tail_text t exp : number_tail t exp → string_forallb text_char t = true.
Proof.
  intros [|exp' _]; [done|]. unfold exponent_text. cbn [string_forallb].
  rewrite digits_text by apply decimal_is_digits. by case_decide.
Qed.

Section Text.
Context (i n v exp : Z) (t : string) (Hi : 0 <= i) (Hn : 0 <= n) (Hv : 0 <= v < 10 ^ n) (Ht : number_tail t exp).

Definition number_text : string := decimal i +:+ point_digits n v +:+ t.

Lemma number_text_chars : string_forallb text_char number_text = true.
Proof.
  unfold number_text. rewrite !string_forallb_app, digits_text by apply decimal_is_digits.
  by rewrite point_digits_text, (tail_text t exp Ht).
Qed.

Lemma number_text_cons : ∃ a u, number_text = String a u ∧ is_digit a = true ∧ string_forallb text_char u = true.
Proof.
  pose proof number_text_chars as Hc. unfold number_text in *.
  destruct (decimal_cons i) as (a & u & E & Ha). rewrite E, string_cons_app in *.
  exists a, (u +:+ point_digits n v +:+ t). split_and!; [done..|]. by apply andb_true_iff in Hc as [_ ?].
Qed.

Lemma unsigned_number_text neg :
  unsigned_float neg number_text = GoFloat.in_range (float_of_decimal neg (i * 10 ^ n + v) (exp - n)).
Proof.
  pose proof number_text_chars as Hc. destruct number_text_cons as (a & u & E & Ha & Hu).
  assert (mantissa false 0 false None number_text = (i * 10 ^ n + v, true, n, t)) as Hm.
  { apply point_digits_mantissa; [done..| |]; by destruct Ht. }
  rewrite E in *. rewrite unsigned_decimal; [|done| |by apply text_no_underscore].
  - rewrite Hm. cbn [negb]. by rewrite (exponent_tail t exp Ht).
  - intros b w ->. apply andb_true_iff in Hu as [Hb _]. by apply text_char_facts.
Qed.

(** The scanner takes the whole text. *)
Lemma tail_starts : starts_with_digit t = false.
Proof. by destruct Ht. Qed.

Lemma fraction_number_text : fraction_part (point_digits n v +:+ t) = Some (point_digits n v, t).
Proof.
  unfold fraction_part, point_digits. case_decide as E; [by destruct Ht|].
  rewrite string_cons_app, lit_cons. unfold digits1.
  rewrite digits_all; [|by apply padded_digits|by apply tail_starts]. rewrite decide_False; [done|].
  destruct (Z.to_nat n) as [|n'] eqn:En; [lia|]. cbn [padded]. rewrite padded_app. by destruct (padded n' _ "").
Qed.

Lemma exponent_number_text : exponent_part t = Some (t, "").
Proof.
  destruct Ht as [|exp' _]; [done|]. unfold exponent_part, exponent_text. rewrite decide_True by auto.
  assert (digits1 (decimal (Z.abs exp')) = Some (decimal (Z.abs exp'), "")) as E.
  { unfold digits1. rewrite <- (append_nil (decimal _)) at 1. rewrite digits_all by (done || apply decimal_is_digits).
    by rewrite decide_False by apply decimal_aux_not_nil. }
  case_decide.
  - rewrite lit_other, lit_cons, E by done. done.
  - by rewrite lit_cons, E.
Qed.

Lemma point_tail_starts : starts_with_digit (point_digits n v +:+ t) = false.
Proof. unfold point_digits. case_decide; [by apply tail_starts|done]. Qed.

Lemma scan_number_text sign :
  sign = "" ∨ sign = "-" → scan_number (sign +:+ number_text) = Some (sign +:+ number_text, "").
Proof.
  intros Hsign. assert (integer_part number_text = Some (decimal i, point_digits n v +:+ t)) as Hint.
  { unfold integer_part, number_text. destruct (decide (i = 0)) as [->|Hne]; [done|].
    assert (lit "0" (decimal i +:+ point_digits n v +:+ t) = None) as ->.
    { unfold decimal. rewrite <- decimal_aux_app. apply decimal_head. split; [lia|by apply decimal_fuel]. }
    unfold digits1. rewrite digits_all by (apply decimal_is_digits || apply point_tail_starts).
    by rewrite decide_False by apply decimal_aux_not_nil. }
  destruct number_text_cons as (a & u & E & Ha & _).
  assert (lit "-" number_text = None) as Hminus.
  { rewrite E. apply lit_other. intros ->. done. }
  unfold scan_number. destruct Hsign as [-> | ->].
  - change ("" +:+ number_text) with number_text. rewrite Hminus. cbn [mbind option_bind]. rewrite Hint.
    cbn [mbind option_bind]. rewrite fraction_number_text. cbn [mbind option_bind]. by rewrite exponent_number_text.
  - change ("-" +:+ number_text) with (String "-" number_text). rewrite lit_cons, Hint.
    cbn [mbind option_bind]. rewrite fraction_number_text. cbn [mbind option_bind]. by rewrite exponent_number_text.
Qed.

End Text.

(** ** Bounds on the exponent *)

Lemma trim_log2 fuel c q : 0 < c →
  let '(c', q') := trim fuel c q in Z.log2 c' + q' <= Z.log2 c + q ∧ q <= q'.
Proof.
  intros Hc. pose proof (trim_value fuel c q Hc) as Ht. destruct (trim fuel c q) as [c' q'].
  destruct Ht as (Hc' & Hq & ->). split; [|done].
  assert (2 ^ (q' - q) <= 10 ^ (q' - q)) as Hp by (by apply Z.pow_le_mono_l).
  pose proof (Z.log2_mul_pow2 c' (q' - q) Hc' ltac:(lia)) as Hl.
  pose proof (Z.log2_le_mono (c' * 2 ^ (q' - q)) (c' * 10 ^ (q' - q))). nia.
Qed.

Lemma shortest_from_in m e fuel n cq :
  shortest_from m e fuel n = Some cq → ∃ n', n <= n' < n + Z.of_nat fuel ∧ cq ∈ candidates m e n'.
Proof.
  revert n. induction fuel as [|fuel IH]; intros n; cbn [shortest_from]; [done|].
  destruct (List.find (reads_back m e) (candidates m e n)) as [cq'|] eqn:E.
  - intros [= <-]. exists n. split; [lia|]. apply List.find_some in E as [E _]. by apply list_elem_of_In.
  - intros Hs. destruct (IH _ Hs) as (n' & ? & ?). exists n'. split; [lia|done].
Qed.

Section Bound.
Context (m : positive) (e : Z) (Hb : bounded 53 1024 m e = true).

Lemma bounded_range : -1074 <= e <= 971 ∧ 0 <= Z.log2 (Z.pos m) <= 52.
Proof.
  destruct (bounded_facts m e Hb) as [Hf He]. pose proof (Zdigits2_spec m) as [_ Hd].
  assert (Zdigits2 (Z.pos m) <= 53) by (unfold fexp, emin in Hf; lia).
  assert (Z.pos m < 2 ^ 53) by (eapply Z.lt_le_trans; [exact Hd|]; by apply Z.pow_le_mono_r).
  assert (Z.log2 (Z.pos m) < 53) by (by apply Z.log2_lt_pow2).
  pose proof (Z.log2_nonneg (Z.pos m)). unfold fexp, emin in Hf. lia.
Qed.

Lemma decimal_point_range : -326 <= decimal_point m e <= 320.
Proof.
  destruct bounded_range as [He Hm]. pose proof (search_point_range m e 6 (estimate m e)) as Hr.
  fold (decimal_point m e) in Hr. unfold estimate in Hr.
  pose proof (Z.div_le_mono ((Z.log2 (Z.pos m) + e) * 1233) ((52 + 971) * 1233) 4096).
  pose proof (Z.div_le_mono ((0 + -1074) * 1233) ((Z.log2 (Z.pos m) + e) * 1233) 4096).
  change ((52 + 971) * 1233 / 4096) with 307 in *. change ((0 + -1074) * 1233 / 4096) with (-324) in *. lia.
Qed.

Lemma numerator_bound q :
  -1426 <= q → 0 <= numerator m e * 10 ^ Z.max 0 (- q) ∧ Z.log2 (numerator m e * 10 ^ Z.max 0 (- q)) <= 6898.
Proof.
  intros Hq. destruct bounded_range as [He Hm]. unfold numerator.
  assert (0 < 2 ^ Z.max 0 e) by (apply Z.pow_pos_nonneg; lia).
  assert (0 < 10 ^ Z.max 0 (- q)) by (apply Z.pow_pos_nonneg; lia). split; [nia|].
  pose proof (Z.log2_mul_above (Z.pos m * 2 ^ Z.max 0 e) (10 ^ Z.max 0 (- q)) ltac:(nia) ltac:(lia)) as H1.
  pose proof (Z.log2_mul_pow2 (Z.pos m) (Z.max 0 e) ltac:(lia) ltac:(lia)) as H2.
  pose proof (Z.log2_le_mono (10 ^ Z.max 0 (- q)) (16 ^ Z.max 0 (- q)) ltac:(apply Z.pow_le_mono_l; lia)) as H3.
  change 16 with (2 ^ 4) in H3. rewrite <- Z.pow_mul_r, Z.log2_pow2 in H3 by lia. lia.
Qed.

(** Far below the numbers of digits at which [ParseFloat] stops counting. *)
Lemma candidate_bound n c q :
  1 <= n <= 1100 → (c, q) ∈ candidates m e n → 0 < c → -10000 < q ∧ Z.log2 c + q < 10000.
Proof.
  intros Hn Hin Hc. pose proof decimal_point_range as Hp. destruct bounded_range as [He Hm].
  unfold candidates in Hin. set (q0 := decimal_point m e - n) in *. assert (-1426 <= q0 <= 319) as Hq0 by lia.
  set (lo := _ / (denominator e * 10 ^ Z.max 0 q0)) in Hin.
  assert (0 <= lo ∧ Z.log2 (lo + 1) <= 6900) as [Hlo Hlog].
  { assert (0 < denominator e) by (unfold denominator; apply Z.pow_pos_nonneg; lia).
    assert (0 < 10 ^ Z.max 0 q0) by (apply Z.pow_pos_nonneg; lia).
    destruct (numerator_bound q0 ltac:(lia)) as [Hnum1 Hnum2].
    assert (0 <= lo <= numerator m e * 10 ^ Z.max 0 (- q0)) as [? Hle].
    { subst lo. assert (1 <= denominator e * 10 ^ Z.max 0 q0) as HD by nia.
      generalize dependent (denominator e * 10 ^ Z.max 0 q0). intros D HD.
      split; [apply Z.div_pos; lia|]. apply Z.div_le_upper_bound; nia. }
    split; [done|]. apply Z.log2_le_mono in Hle. pose proof (Z.log2_succ_le lo) as Hs.
    change (Z.succ lo) with (lo + 1) in Hs. lia. }
  assert (∀ c0, 0 <= c0 <= lo + 1 → (c, q) = trim (Z.to_nat (Z.log2 c0)) c0 q0 →
    -10000 < q ∧ Z.log2 c + q < 10000) as Hgoal.
  { intros c0 Hc0 Ht. destruct (decide (c0 = 0)) as [->|].
    { change (Z.to_nat (Z.log2 0)) with O in Ht. cbn [trim] in Ht. by simplify_eq. }
    pose proof (trim_log2 (Z.to_nat (Z.log2 c0)) c0 q0 ltac:(lia)) as Hl. rewrite <- Ht in Hl.
    assert (Z.log2 c0 <= 6900); [|lia]. etransitivity; [|exact Hlog]. apply Z.log2_le_mono. lia. }
  destruct (if decide _ then _ else _) in Hin; rewrite !elem_of_cons in Hin; destruct Hin as [Hin|[Hin|Hin]];
    (by apply not_elem_of_nil in Hin) || (eapply Hgoal; [|exact Hin]; lia).
Qed.

Lemma shortest_bound :
  0 < (shortest m e).1 ∧ -10000 < (shortest m e).2 ∧ Z.log2 (shortest m e).1 + (shortest m e).2 < 10000.
Proof.
  pose proof (shortest_value m e Hb) as [Hpos _]. split; [done|]. revert Hpos. unfold shortest.
  destruct (shortest_from m e 1100 1) as [[c q]|] eqn:E; [|done]. cbn [default fst snd]. intros Hc.
  apply shortest_from_in in E as (n & Hn & Hin). apply (candidate_bound n c q); [lia|done|done].
Qed.

End Bound.

Lemma decimal_length c : 0 <= c → 1 <= Z.of_nat (String.length (decimal c)) <= Z.log2 c + 1.
Proof.
  intros Hc. assert (∀ fuel n acc, (len acc < len (decimal_aux fuel n acc) <= len acc + fuel + 1)%nat) as H.
  { induction fuel as [|fuel IH]; intros n acc; cbn [decimal_aux String.length]; [lia|].
    case_decide; cbn [String.length]; [lia|]. specialize (IH (n / 10) (String (digit_char (n mod 10)) acc)).
    cbn [String.length] in IH. lia. }
  specialize (H (Z.to_nat (Z.log2 c)) c ""). fold (decimal c) in H. simpl in H.
  pose proof (Z.log2_nonneg c). lia.
Qed.

(** Both formats are a number text with the value of their decimal. *)
Lemma format_f_text c q : 0 < c → ∃ i n v,
  format_f c q = number_text i n v "" ∧ 0 <= i ∧ 0 <= n ∧ 0 <= v < 10 ^ n ∧
  ∀ neg, float_of_decimal neg (i * 10 ^ n + v) (0 - n) = float_of_decimal neg c q.
Proof.
  intros Hc. unfold format_f, number_text. case_decide as Hq.
  - assert (0 < c * 10 ^ q) as Hp by (apply Z.mul_pos_pos; [done|by apply Z.pow_pos_nonneg]).
    exists (c * 10 ^ q), 0, 0. rewrite Z.mul_1_r, Z.add_0_r. split_and!; [|lia|done|done|done|].
    + change (point_digits 0 0 +:+ "") with "". by rewrite append_nil.
    + intros neg. unfold float_of_decimal. destruct c as [|c|c]; [done| |lia].
      destruct (Z.pos c * 10 ^ q) as [|k|k] eqn:E; [lia| |lia].
      rewrite decide_True, decide_True by done. by rewrite Z.mul_1_r.
  - exists (c / 10 ^ (- q)), (- q), (c mod 10 ^ (- q)).
    assert (0 < 10 ^ (- q)) by (apply Z.pow_pos_nonneg; lia). split_and!.
    + by rewrite append_nil.
    + apply Z.div_pos; lia.
    + lia.
    + by apply Z.mod_pos_bound.
    + by apply Z.mod_pos_bound.
    + intros neg. f_equal; [|lia]. pose proof (Z.div_mod c (10 ^ (- q)) ltac:(lia)). lia.
Qed.

Lemma format_e_text c q : 0 < c → -10000 < q → Z.log2 c + q < 10000 → ∃ i n v exp,
  format_e c q = number_text i n v (exponent_text exp) ∧ 0 <= i ∧ 0 <= n ∧ 0 <= v < 10 ^ n ∧ Z.abs exp < 10000 ∧
  ∀ neg, float_of_decimal neg (i * 10 ^ n + v) (exp - n) = float_of_decimal neg c q.
Proof.
  intros Hc Hq1 Hq2. unfold format_e, number_text. pose proof (decimal_length c ltac:(lia)) as Hlen.
  set (n := Z.of_nat (len (decimal c)) - 1). assert (0 <= n <= Z.log2 c) as Hn by (subst n; lia).
  assert (0 < 10 ^ n) by (apply Z.pow_pos_nonneg; lia).
  exists (c / 10 ^ n), n, (c mod 10 ^ n), (n + q). split_and!.
  - done.
  - apply Z.div_pos; lia.
  - lia.
  - by apply Z.mod_pos_bound.
  - by apply Z.mod_pos_bound.
  - lia.
  - intros neg. f_equal; [|lia]. pose proof (Z.div_mod c (10 ^ n) ltac:(lia)). lia.
Qed.

(** What the encoder writes for a number is a JSON number, and [ParseFloat] reads the
    same float64 from it. *)
Lemma format_json_float_spec x :
  is_number x = true →
  number_ok (format_json_float x) = true ∧ strconv_ParseFloat (format_json_float x) = Some x.
Proof.
  unfold is_number. destruct x as [neg|neg| |neg m e]; try done; [by destruct neg|].
  cbn [finite valid_binary andb]. intros Hb. unfold format_json_float.
  pose proof (shortest_value m e Hb) as [Hc Hval]. pose proof (shortest_bound m e Hb) as (_ & Hq1 & Hq2).
  destruct (shortest m e) as [c q]. cbn [fst snd] in *.
  set (text := if _ : bool then format_e c q else format_f c q).
  assert (∃ i n v exp t, text = number_text i n v t ∧ 0 <= i ∧ 0 <= n ∧ 0 <= v < 10 ^ n ∧ number_tail t exp ∧
    ∀ neg, float_of_decimal neg (i * 10 ^ n + v) (exp - n) = float_of_decimal neg c q) as
    (i & n & v & exp & t & -> & Hi & Hn & Hv & Ht & Hfl).
  { subst text. destruct (_ || _).
    - destruct (format_e_text c q Hc Hq1 Hq2) as (i & n & v & exp & E & ? & ? & ? & ? & ?).
      exists i, n, v, exp, (exponent_text exp). pose proof (tail_exp exp). naive_solver.
    - destruct (format_f_text c q Hc) as (i & n & v & E & ? & ? & ? & ?).
      exists i, n, v, 0, "". pose proof tail_none. naive_solver. }
  assert (∀ s, unsigned_float s (number_text i n v t) = Some (S754_finite s m e)) as Hu.
  { intros s. rewrite (unsigned_number_text i n v exp t) by done. rewrite Hfl, float_of_decimal_sign, Hval. done. }
  destruct (number_text_cons i n v exp t Ht) as (a & u & E & Ha & _). destruct neg; unfold number_ok; split.
  - rewrite bool_decide_eq_true. apply (scan_number_text i n v exp t Hi Hn Ht "-"). by right.
  - change (strconv_ParseFloat (String "-" (number_text i n v t))) with (signed_float true (number_text i n v t)).
    rewrite E, signed_float_digit, <- E by done. by rewrite Hu.
  - rewrite bool_decide_eq_true. apply (scan_number_text i n v exp t Hi Hn Ht ""). by left.
  - rewrite E, ParseFloat_digit, <- E by done. apply Hu.
Qed.
