(* ===== verification/Payload.v ===== *)
(** * What the publishers send

    The JSON texts JSON.stringify writes, read back by the scanner of [GoJson]; and the
    payloads of simulator/src/index.ts, from topic and text to the message [process]
    works on. *)

From S2P Require Import Prelude GoStd GoFloat GoTime Contract GoJson JsonText Decimal Rounding Escape Scanned Alerts Pg World Shared Store Process.
Open Scope Z_scope.
Open Scope string_scope.
Open Scope list_scope.
Open Scope go_scope.

(** ** JSON.stringify *)

(** Text that needs no escapes. *)
Definition plain_char (a : ascii) : bool :=
  bool_decide ((32 <= nat_of_ascii a < 128)%nat ∧ a ≠ dq ∧ a ≠ bslash).
Definition plain (s : string) : bool := string_forallb plain_char s.

(** The compact text of a value; keys are written as they are. *)
Definition stringify : json → string := print_json (λ k, k).

(** A value whose strings need no escapes and whose nesting is at most [depth]. *)
Fixpoint json_ok (depth : nat) (v : json) {struct v} : bool :=
  match v with
  | JNull | JBool _ => true
  | JNum n => number_ok n
  | JStr raw val => bool_decide (raw = val) && plain raw
  | JArr l => match depth with O => false | S d => forallb (json_ok d) l end
  | JObj l => match depth with O => false | S d => forallb (λ kv, plain kv.1 && json_ok d kv.2) l end
  end.

Lemma plain_char_facts a :
  plain_char a = true → (32 <= nat_of_ascii a < 128)%nat ∧ a ≠ dq ∧ a ≠ bslash.
Proof. unfold plain_char. by rewrite bool_decide_eq_true. Qed.

Lemma escaped_plain s : plain s = true → escaped s = true.
Proof.
  unfold escaped. rewrite bool_decide_eq_true. induction s as [|a s IH]; intros Hs; [reflexivity|].
  apply andb_true_iff in Hs as [(? & ? & ?)%plain_char_facts Hs]. rewrite string_cons_app. cbn [scan_string].
  rewrite !decide_False by (done || lia). by rewrite (IH Hs).
Qed.

Lemma unquote_plain s : plain s = true → unquote s = s.
Proof.
  unfold unquote. intros Hs. assert (∀ n, (len s <= n)%nat → unquote_aux n s = s) as H; [|by apply H].
  induction s as [|a s IH]; intros [|n] Hn; simpl in Hn; try done; try lia.
  apply andb_true_iff in Hs as [(? & ? & ?)%plain_char_facts Hs]. cbn [unquote_aux].
  rewrite decide_False, decide_True by (done || lia). by rewrite IH by (done || lia).
Qed.

(** Such a value is read back as it is. *)
Lemma json_ok_printable v : ∀ d, json_ok d v = true → printable (λ k, k) d v = true ∧ reread (λ k, k) v = v.
Proof.
  revert v. fix IH 1. intros [|b|n|raw val|l|l] d; cbn [json_ok printable reread]; try done.
  - intros [<-%bool_decide_eq_true Hp]%andb_true_iff. by rewrite unquote_plain, escaped_plain.
  - destruct d as [|d]; [done|]. induction l as [|v l IHl]; [done|]. cbn [forallb map].
    intros [Hv Hl]%andb_true_iff. destruct (IH v d Hv) as [-> E]. destruct (IHl Hl) as [-> El].
    injection El as El. by rewrite E, El.
  - destruct d as [|d]; [done|]. induction l as [|[k v] l IHl]; [done|]. cbn [forallb map fst snd].
    intros [[Hk Hv]%andb_true_iff Hl]%andb_true_iff. destruct (IH v d Hv) as [-> E]. destruct (IHl Hl) as [-> El].
    injection El as El. by rewrite E, El, unquote_plain, escaped_plain.
Qed.

Lemma scan_stringify v rest :
  json_ok maxNestingDepth v = true → number_end rest = true →
  scan_json (stringify v +:+ rest) = Some (v, rest).
Proof.
  intros [Hp Hr]%json_ok_printable Hend. unfold stringify. by rewrite scan_print_whole, Hr.
Qed.

(** Printing and scanning.  The scanner reads back, unchanged and in full, every JSON
    value in the compact form of JSON.stringify (strings without escapes, nesting
    within the limit), whatever text follows it. *)
Theorem json_roundtrip v rest :
  json_ok maxNestingDepth v = true → number_end rest = true →
  scan_json (stringify v +:+ rest) = Some (v, rest).
Proof. apply scan_stringify. Qed.

(** ** Numbers with two decimals *)

(** The text JavaScript prints for [k / 100], the values [round2] of
    simulator/src/generate.ts returns: no trailing zeros (nor, below 1e21, an exponent). *)
Definition two_decimals (r : Z) : string :=
  if decide (r = 0) then ""
  else if decide (r mod 10 = 0) then String "." (String (digit_char (r / 10)) "")
  else String "." (pad2 r).

Definition js_hundredths (k : Z) : string := decimal (k / 100) +:+ two_decimals (k mod 100).

(** The float64 that text denotes. *)
Definition hundredths (k : Z) : float64 :=
  if decide (k mod 100 = 0) then float_of_decimal false (k / 100) 0
  else if decide (k mod 10 = 0) then float_of_decimal false (k / 10) (-1)
  else float_of_decimal false k (-2).

Section Hundredths.
Context (k : Z) (Hk : 0 <= k).

Lemma hundredths_parts :
  0 <= k / 100 ∧ 0 <= k mod 100 < 100 ∧ 0 <= k mod 100 / 10 < 10 ∧ k = 100 * (k / 100) + k mod 100 ∧
  k mod 100 mod 10 = k mod 10 ∧ k / 10 = 10 * (k / 100) + k mod 100 / 10 ∧
  k mod 100 = 10 * (k mod 100 / 10) + k mod 10.
Proof.
  pose proof (Z.mod_pos_bound k 100). pose proof (Z.div_mod k 100).
  assert (k mod 100 mod 10 = k mod 10) as E.
  { rewrite (Z.div_mod k 100) at 2 by lia. rewrite Z.add_comm.
    replace (100 * (k / 100)) with ((10 * (k / 100)) * 10) by lia. by rewrite Z.mod_add by lia. }
  pose proof (Z.div_mod (k mod 100) 10). pose proof (Z.div_mod k 10).
  split_and!; try lia; try (apply Z.div_pos; lia). apply Z.div_lt_upper_bound; lia.
Qed.

Lemma two_decimals_numeric : string_forallb numeric_char (two_decimals (k mod 100)) = true.
Proof.
  destruct hundredths_parts as (_ & ? & Hd & _ & E & _).
  assert (∀ d, 0 <= d < 10 → numeric_char (digit_char d) = true) as Hn.
  { intros d Hd'%digit_val_char. unfold numeric_char, is_digit. by rewrite Hd'. }
  unfold two_decimals, pad2. repeat case_decide; cbn [string_forallb]; try done;
    rewrite !Hn by (done || apply mod10_range); done.
Qed.

Lemma js_hundredths_text :
  js_hundredths k = decimal_aux (Z.to_nat (Z.log2 (k / 100))) (k / 100) (two_decimals (k mod 100)).
Proof. unfold js_hundredths, decimal. by rewrite <- decimal_aux_app. Qed.

Lemma js_hundredths_numeric : string_forallb numeric_char (js_hundredths k) = true.
Proof.
  unfold js_hundredths, decimal. rewrite string_forallb_app, two_decimals_numeric, andb_true_r.
  eapply string_forallb_impl; [|by apply decimal_digits].
  intros a Ha. unfold numeric_char. by rewrite Ha.
Qed.

Lemma js_hundredths_head : ∃ a t, js_hundredths k = String a t ∧ is_digit a = true.
Proof.
  unfold js_hundredths, decimal. pose proof (decimal_digits (Z.to_nat (Z.log2 (k / 100))) (k / 100) "" eq_refl) as Hd.
  destruct (decimal_aux _ _ _) as [|a t] eqn:E.
  - by apply decimal_aux_not_nil in E.
  - exists a, (t +:+ two_decimals (k mod 100)). split; [done|]. by apply andb_true_iff in Hd as [? _].
Qed.

(** The text is read back as the float64 it denotes. *)
Lemma ParseFloat_js_hundredths : strconv_ParseFloat (js_hundredths k) = GoFloat.in_range (hundredths k).
Proof.
  destruct hundredths_parts as (Hi & Hr & Hd & Ek & Em & E10 & E100).
  destruct js_hundredths_head as (a & t & E & Ha). pose proof js_hundredths_numeric as Hnum.
  rewrite E in *. rewrite ParseFloat_decimal; [|done| |by apply numeric_no_underscore].
  2: { intros b u ->. apply andb_true_iff in Hnum as [_ [Hb _]%andb_true_iff]. by apply numeric_facts. }
  rewrite <- E, js_hundredths_text, mantissa_decimal by (split; [done|by apply decimal_fuel]).
  unfold two_decimals, hundredths, pad2. rewrite Em.
  destruct (decide (k mod 100 = 0)) as [E0|E0]; [done|]. destruct (decide (k mod 10 = 0)) as [E1|E1].
  - rewrite mantissa_point, mantissa_digit by done. cbn. by rewrite E10.
  - rewrite mantissa_point, !mantissa_digit by (done || apply mod10_range). cbn.
    do 2 f_equal. lia.
Qed.

Lemma fraction_two_decimals :
  fraction_part (two_decimals (k mod 100)) = Some (two_decimals (k mod 100), "") ∧
  starts_with_digit (two_decimals (k mod 100)) = false.
Proof.
  destruct hundredths_parts as (_ & Hr & Hd & _ & Em & _).
  assert (∀ s, string_forallb is_digit s = true → s ≠ "" → digits1 s = Some (s, "")) as Hs.
  { intros s Hs Hne. unfold digits1. rewrite <- (append_nil s) at 1. rewrite digits_all by done.
    by rewrite decide_False. }
  assert (∀ d, 0 <= d < 10 → is_digit (digit_char d) = true) as Hn.
  { intros d Hd'%digit_val_char. unfold is_digit. by rewrite Hd'. }
  unfold two_decimals, fraction_part. repeat case_decide; split; try done.
  all: rewrite lit_cons, Hs; [done| |done].
  all: unfold pad2; cbn [string_forallb]; by rewrite !Hn by (done || apply mod10_range).
Qed.

Lemma js_hundredths_ok : number_ok (js_hundredths k) = true.
Proof.
  destruct hundredths_parts as (Hi & _). destruct fraction_two_decimals as [Hf Hs].
  unfold number_ok. rewrite bool_decide_eq_true. unfold scan_number.
  assert (lit "-" (js_hundredths k) = None) as ->.
  { destruct js_hundredths_head as (a & t & -> & Ha). apply lit_other. intros ->. done. }
  assert (integer_part (js_hundredths k) = Some (decimal (k / 100), two_decimals (k mod 100))) as ->.
  { unfold integer_part, js_hundredths. destruct (decide (k / 100 = 0)) as [E|E].
    - rewrite E. change (decimal 0) with "0". change ("0" +:+ two_decimals (k mod 100)) with
        (String "0" (two_decimals (k mod 100))). by rewrite lit_cons.
    - unfold decimal. rewrite <- decimal_aux_app, decimal_head by (split; [lia|by apply decimal_fuel]).
      rewrite decimal_aux_app. unfold digits1. rewrite digits_all; [|by apply decimal_digits|done].
      rewrite decide_False; [done|]. apply decimal_aux_not_nil. }
  cbn [mbind option_bind]. rewrite Hf. cbn. by rewrite append_nil.
Qed.

End Hundredths.

(** ** The messages of the simulator *)

Record Reading := mkReading { metric : string; value : Z (* in hundredths *) }.

(** The object index.ts publishes. *)
Definition simulator_json (deviceId siteId type : string) (readings : list Reading) (ts : civil) : json :=
  JObj [("device_id", JStr deviceId deviceId); ("site_id", JStr siteId siteId); ("device_type", JStr type type);
        ("readings", JObj (map (λ r, (metric r, JNum (js_hundredths (value r)))) readings));
        ("ts", JStr (toISOString ts) (toISOString ts))].

Definition simulator_payload (deviceId siteId type : string) (readings : list Reading) (ts : civil) : string :=
  stringify (simulator_json deviceId siteId type readings ts).

(** A reading the simulator can produce: a plain name and a finite value. *)
Definition reading_ok (r : Reading) : bool :=
  plain (metric r) && bool_decide (0 <= value r) && bool_decide (GoFloat.in_range (hundredths (value r)) = Some (hundredths (value r))).

Definition readings_map (readings : list Reading) : gmap string float64 :=
  list_to_map (map (λ r, (metric r, hundredths (value r))) readings).

Lemma decode_readings m readings :
  forallb reading_ok readings = true → NoDup (map metric readings) →
  @decode_members go_text m (map (λ r, (metric r, JNum (js_hundredths (value r)))) readings) =
    Ok (readings_map readings ∪ m).
Proof.
  revert m. induction readings as [|[name k] readings IH]; intros m Hok Hnd.
  - cbn. unfold readings_map. cbn. by rewrite map_empty_union.
  - cbn [forallb map] in *. apply andb_true_iff in Hok as [Hr Hok]. apply NoDup_cons in Hnd as [Hnot Hnd].
    unfold reading_ok in Hr. cbn [metric value] in *. rewrite !andb_true_iff, !bool_decide_eq_true in Hr.
    destruct Hr as [[_ Hk] Hfin]. cbn [decode_members decode_float].
    change (@ParseFloat go_text) with strconv_ParseFloat.
    rewrite (ParseFloat_js_hundredths k Hk), Hfin, IH by done. f_equal.
    unfold readings_map. cbn [map]. rewrite list_to_map_cons. cbn [metric value].
    rewrite <- insert_union_l, insert_union_r; [done|]. apply not_elem_of_list_to_map_1.
    rewrite <- list_fmap_compose. exact Hnot.
Qed.

Lemma plain_digit d : 0 <= d < 10 → plain_char (digit_char d) = true.
Proof.
  intros Hd. assert (is_digit (digit_char d) = true) as Ha%is_digit_cases
    by (unfold is_digit; by rewrite digit_val_char).
  rewrite !elem_of_cons in Ha. destruct_or! Ha; try (by apply not_elem_of_nil in Ha); by rewrite Ha.
Qed.

Lemma plain_pad2 n : 0 <= n < 100 → plain (pad2 n) = true.
Proof.
  intros Hn. unfold plain, pad2. cbn [string_forallb]. rewrite !plain_digit; [done|apply mod10_range|].
  split; [apply Z.div_pos; lia|apply Z.div_lt_upper_bound; lia].
Qed.

Lemma plain_app s t : plain (s +:+ t) = plain s && plain t.
Proof. apply string_forallb_app. Qed.

Lemma plain_pad3 n : 0 <= n < 1000 → plain (pad3 n) = true.
Proof.
  intros Hn. unfold pad3. cbn [plain string_forallb]. apply andb_true_iff. split.
  - apply plain_digit. split; [apply Z.div_pos; lia|apply Z.div_lt_upper_bound; lia].
  - apply plain_pad2, Z.mod_pos_bound. lia.
Qed.

Lemma plain_pad4 n : 0 <= n <= 9999 → plain (pad4 n) = true.
Proof.
  intros Hn. unfold pad4. rewrite plain_app, !plain_pad2; [done|apply Z.mod_pos_bound; lia|].
  split; [apply Z.div_pos; lia|apply Z.div_lt_upper_bound; lia].
Qed.

Lemma plain_toISOString ts : valid_civil ts = true → plain (toISOString ts) = true.
Proof.
  unfold valid_civil. rewrite bool_decide_eq_true. intros (Hy & Hm & Hd & Hh & Hmi & Hs & Hms).
  assert (daysIn (c_month ts) (c_year ts) <= 31) by (unfold daysIn; repeat case_match; lia).
  unfold toISOString. rewrite !plain_app, plain_pad4, plain_pad3, !plain_pad2 by lia. reflexivity.
Qed.

Lemma simulator_json_ok d deviceId siteId type readings ts :
  plain deviceId = true → plain siteId = true → plain type = true →
  forallb reading_ok readings = true → valid_civil ts = true →
  json_ok (S (S d)) (simulator_json deviceId siteId type readings ts) = true.
Proof.
  intros H1 H2 H3 Hr Ht%plain_toISOString. unfold simulator_json. cbn [json_ok forallb fst snd].
  rewrite H1, H2, H3, Ht, !bool_decide_true by done. cbn [andb].
  rewrite !andb_true_iff. split_and!; try reflexivity.
  induction readings as [|r readings IH]; [done|]. cbn [forallb map fst snd json_ok] in *.
  apply andb_true_iff in Hr as [Hr Hrs]. rewrite (IH Hrs), andb_true_r. unfold reading_ok in Hr.
  rewrite !andb_true_iff, !bool_decide_eq_true in Hr. destruct Hr as [[Hp Hk] _].
  by rewrite Hp, js_hundredths_ok.
Qed.

(** The same with the exact depth of the scanner. *)
Lemma scan_simulator_payload deviceId siteId type readings ts :
  plain deviceId = true → plain siteId = true → plain type = true →
  forallb reading_ok readings = true → valid_civil ts = true →
  scan_json (simulator_payload deviceId siteId type readings ts) =
    Some (simulator_json deviceId siteId type readings ts, "").
Proof.
  intros. unfold simulator_payload. rewrite <- (append_nil (stringify _)). apply scan_stringify; [|done].
  unfold maxNestingDepth. by apply (simulator_json_ok 9998).
Qed.

(** End to end from a publisher to the pipeline.  Every message the simulator publishes
    (ids and type without characters that need escapes, ids without a slash, at least
    one reading, distinct metrics, finite values with two decimals, a time printed by
    toISOString) passes every check of [process], which goes on with exactly the ids,
    the type, the nearest float64 of every reading and the instant it was sent with. *)
Theorem simulator_message_valid deviceId siteId type readings ts :
  plain deviceId = true → plain siteId = true → plain type = true →
  has_char slash siteId = false → has_char slash deviceId = false →
  deviceId ≠ "" → siteId ≠ "" → type ≠ "" → readings ≠ [] →
  forallb reading_ok readings = true → NoDup (map metric readings) → valid_civil ts = true →
  @validate go_text (mkJob (telemetryTopic siteId deviceId) (simulator_payload deviceId siteId type readings ts)) =
    Ok (mkTelemetryMessage deviceId siteId type (readings_map readings) (instant ts)).
Proof.
  intros Hd Hs Ht Hss Hds Hne1 Hne2 Hne3 Hr Hok Hnd Hts. unfold validate. cbn [topic payload].
  rewrite (parseTopic_telemetryTopic siteId deviceId Hss Hds).
  unfold parseTelemetryMessage, json_Unmarshal_TelemetryMessage, json_Unmarshal.
  change (@json_scan go_text) with scan_json. rewrite scan_simulator_payload by done. cbn [all_json_space].
  assert (readings_map readings ≠ ∅) as Hmap.
  { destruct readings as [|r readings]; [done|]. apply insert_non_empty. }
  unfold simulator_json.
  repeat progress (cbn [decode_into decode_struct TelemetryMessage_field zero_TelemetryMessage decode_string
    decode_float_map decode_time]; rewrite ?decode_readings by done; key_simpl).
  change (@time_UnmarshalText go_text) with Parse_RFC3339. rewrite Parse_toISOString by done.
  cbn [DeviceID SiteID DeviceType Readings]. rewrite map_union_empty, !decide_False; [done|..]; try naive_solver.
  by rewrite map_size_empty_iff.
Qed.

(** ** What an accepted message is like, whatever bytes arrived *)

(** Every reading is a number. *)
Definition all_numbers (m : gmap string float64) : Prop := map_Forall (λ _ x, is_number x = true) m.

Lemma readings_map_finite readings :
  forallb reading_ok readings = true → all_numbers (readings_map readings).
Proof.
  unfold all_numbers, readings_map. induction readings as [|r readings IH]; [done|]. cbn [forallb map].
  intros [Hr Hrs]%andb_true_iff. rewrite list_to_map_cons. apply map_Forall_insert_2; [|by apply IH].
  unfold reading_ok in Hr. rewrite !andb_true_iff, !bool_decide_eq_true in Hr. destruct Hr as [_ Hr].
  assert (hundredths (value r) ≠ S754_nan) as Hn
    by (unfold hundredths; repeat case_decide; apply float_of_decimal_not_nan).
  assert (valid_binary 53 1024 (hundredths (value r)) = true) as Hv
    by (unfold hundredths; repeat case_decide; done || apply float_of_decimal_valid).
  unfold is_number. rewrite Hv. by destruct (hundredths (value r)).
Qed.

(** Ids, type and metrics are text, readings are numbers. *)
Definition message_sound (msg : TelemetryMessage) : Prop :=
  valid_string (DeviceID msg) = true ∧ valid_string (SiteID msg) = true ∧ valid_string (DeviceType msg) = true ∧
  sound_map (Readings msg).

Lemma TelemetryMessage_field_sound msg key v msg' :
  message_sound msg → json_sound v = true → @TelemetryMessage_field go_text msg key v = Ok msg' → message_sound msg'.
Proof.
  destruct msg as [d s t r ts]. intros (Hd & Hs & Ht & Hr) Hv. unfold TelemetryMessage_field.
  cbn [DeviceID SiteID DeviceType Readings] in *.
  intros H. repeat (match type of H with context [if ?b then _ else _] => destruct b end);
    try (apply result_bind_Ok in H as (x & Hx & H)); simplify_eq; split_and!;
    cbn [DeviceID SiteID DeviceType Readings]; eauto using decode_string_valid, decode_float_map_sound.
Qed.

Lemma accepted_message_sound raw msg : @parseTelemetryMessage go_text raw = Ok msg → message_sound msg.
Proof.
  unfold parseTelemetryMessage, json_Unmarshal_TelemetryMessage.
  destruct (json_Unmarshal raw) as [v|e] eqn:Hv; [|done]. apply json_Unmarshal_sound in Hv.
  destruct (decode_into _ _ v) as [msg'|e] eqn:E; [|done]. repeat case_decide; try done. intros [= ->].
  eapply decode_into_keeps; [apply TelemetryMessage_field_sound| |exact Hv|exact E]. by repeat split.
Qed.

(** C22: Whatever bytes arrive on the broker, a message the service accepts is well formed:
    its ids and type are not empty and UTF-8, it has a reading, and every reading has a name in UTF-8
    and is a finite float64 in its canonical form (no NaN and no infinity reaches the rules or the numeric
    column of the store, although [strconv.ParseFloat] itself accepts their names). *)
Theorem accepted_message_typed raw msg :
  @parseTelemetryMessage go_text raw = Ok msg →
  (∀ s, s ∈ [DeviceID msg; SiteID msg; DeviceType msg] → s ≠ "" ∧ valid_string s = true) ∧ Readings msg ≠ ∅ ∧
  ∀ metric x, Readings msg !! metric = Some x → valid_string metric = true ∧ is_number x = true.
Proof.
  intros H. pose proof (accepted_message_sound raw msg H) as (Hd & Hs & Ht & Hr). revert H.
  unfold parseTelemetryMessage. destruct (json_Unmarshal_TelemetryMessage raw) as [msg'|e]; [|done].
  case_decide as Hf; [done|]. case_decide as Hn; [done|]. intros [= ->]. split_and!.
  - set_solver.
  - intros E. apply Hn. by rewrite E.
  - exact Hr.
Qed.

(** ** Witnesses *)

(** The example of docs/mqtt-contract.md. *)
Definition doc_ts : civil := mkCivil 2026 8 8 12 0 0 0.

Lemma json_roundtrip_witness :
  scan_json (stringify (simulator_json wit_device wit_site "temp_sensor" [mkReading "temperature_c" 2480] doc_ts)
    +:+ " trailing") =
  Some (simulator_json wit_device wit_site "temp_sensor" [mkReading "temperature_c" 2480] doc_ts, " trailing").
Proof.
  apply (json_roundtrip (simulator_json wit_device wit_site "temp_sensor" [mkReading "temperature_c" 2480] doc_ts)
    " trailing"); vm_compute; reflexivity.
Defined.

Lemma simulator_message_valid_witness :
  @validate go_text (mkJob (telemetryTopic wit_site wit_device)
    (simulator_payload wit_device wit_site "temp_sensor" [mkReading "temperature_c" 2480] doc_ts)) =
  Ok (mkTelemetryMessage wit_device wit_site "temp_sensor"
    (readings_map [mkReading "temperature_c" 2480]) (1786190400 * Second)).
Proof.
  apply (simulator_message_valid wit_device wit_site "temp_sensor" [mkReading "temperature_c" 2480] doc_ts).
  - vm_compute. reflexivity.
  - vm_compute. reflexivity.
  - vm_compute. reflexivity.
  - vm_compute. reflexivity.
  - vm_compute. reflexivity.
  - discriminate.
  - discriminate.
  - discriminate.
  - discriminate.
  - vm_compute. reflexivity.
  - apply (bool_decide_unpack _). vm_compute. exact I.
  - vm_compute. reflexivity.
Defined.

Lemma accepted_message_typed_witness :
  let raw := simulator_payload wit_device wit_site "temp_sensor" [mkReading "temperature_c" 2480] doc_ts in
  let msg := mkTelemetryMessage wit_device wit_site "temp_sensor"
    (readings_map [mkReading "temperature_c" 2480]) (1786190400 * Second) in
  (∀ s, s ∈ [DeviceID msg; SiteID msg; DeviceType msg] → s ≠ "" ∧ valid_string s = true) ∧ Readings msg ≠ ∅ ∧
  ∀ metric x, Readings msg !! metric = Some x → valid_string metric = true ∧ is_number x = true.
Proof.
  intros raw msg. apply (accepted_message_typed raw msg). vm_compute. reflexivity.
Defined.
