(* ===== verification/Engine.v ===== *)
(** * The ingestion pipeline, one message after another

    While no statement and no query fails, and with one message handled at a time, the whole
    pipeline (parsing, the two databases, the in-memory streaks, the SQL the
    decisions turn into) implements a small automaton per rule: the specification
    [rule_spec].  The invariant "at most one active alert per rule" that
    [docs/alert-engine.md] relies on holds in this serial setting; [Pool] shows
    what concurrency does to it. *)

From S2P Require Import Prelude GoStd Alerts Pg World Contract Shared Store Process Fixtures.
From stdpp Require Import pretty.
Open Scope Z_scope.
Open Scope string_scope.
Open Scope list_scope.
Open Scope go_scope.

(** ** Specification *)

(** What the system knows of one rule: its streak and whether it has an active
    alert. *)
Record RuleState := mkRuleState {
  rs_streak : BreachState;
  rs_active : bool;
}.

(** One reading: the streak moves on, and once it has reached the window the rule
    is active exactly if it is breached. *)
Definition rule_spec (N : Z) (s : RuleState) (met : bool) : RuleState :=
  let streak := next_state (rs_streak s) met in
  mkRuleState streak (if bool_decide (N <= Count streak) then met else rs_active s).

(** The state of rule [rid] in a world. *)
Definition rule_activeb (db : Pg) (rid : string) : bool :=
  bool_decide (map_Exists (λ _ a, al_alert_rule_id a = rid ∧ is_active a = true) (alerts db)).

Definition rule_state (w : World) (rid : string) : RuleState :=
  mkRuleState (map_get zero_BreachState (w_streaks w) rid) (rule_activeb (w_pg w) rid).

Section Spec.
Context `{!GoText, !PgLib, !Env}.

(** What a message says about a rule: nothing unless the rule is an enabled rule
    of the message's device and the message carries its metric. *)
Definition message_reading (msg : TelemetryMessage) (row : AlertRuleRow) : option bool :=
  if decide (uuid_in (DeviceID msg) = Some (ar_device_id row) ∧ ar_enabled row = true)
  then (λ v, compareThreshold v (ar_operator row) (ar_threshold row)) <$>
         Readings msg !! ar_metric row
  else None.

(** What a job says about a rule: nothing unless it is a valid message. *)
Definition job_reading (j : job) (row : AlertRuleRow) : option bool :=
  match validate j with
  | Ok msg => message_reading msg row
  | Err _ => None
  end.

(** The effect of an observation on the state of a rule. *)
Definition rule_observe (N : Z) (s : RuleState) (o : option bool) : RuleState :=
  match o with Some met => rule_spec N s met | None => s end.

(** No statement or query fails. *)
Definition no_faults : Prop := ∀ n, exec_fault n = ExecOk ∧ query_fault n = QueryOk.

(** [gen_random_uuid()] yields distinct canonical uuids. *)
Definition uuids_fresh : Prop :=
  (∀ n m, gen_random_uuid n = gen_random_uuid m → n = m) ∧
  (∀ n, uuid_in (gen_random_uuid n) = Some (gen_random_uuid n)).

(** The invariant of the serial pipeline. *)
Record serial_inv (w : World) : Prop := {
  si_pg : Pg_ok (w_pg w);
  si_one : at_most_one_active (w_pg w);
  si_device : device_coherent (w_pg w);
  si_canonical : ∀ rid, is_Some (alert_rules (w_pg w) !! rid) → uuid_in rid = Some rid;
  si_fresh : ∀ n, (w_tick w <= n)%nat → alerts (w_pg w) !! gen_random_uuid n = None;
}.

(** Jobs handled one after another. *)
Definition run_serial (debounceN : Z) (js : list job) (w : World) : World :=
  foldl (λ w j, (run (handle_job debounceN j) w).2) w js.

End Spec.

(** ** Actions that leave the engine alone *)

(** Same rules, alerts and streaks; time has passed. *)
Definition same_engine (w w' : World) : Prop :=
  alert_rules (w_pg w') = alert_rules (w_pg w) ∧ alerts (w_pg w') = alerts (w_pg w) ∧
  w_streaks w' = w_streaks w ∧ (w_tick w <= w_tick w')%nat.

#[global] Instance same_engine_preorder : PreOrder same_engine.
Proof.
  split; [by intros w; split_and!|].
  intros w1 w2 w3 (?&?&?&?) (?&?&?&?). split_and!; congruence || lia.
Qed.

Section Steps.
Context `{!GoText, !PgLib, !Env}.

Lemma rule_activeb_spec db rid : rule_activeb db rid = true ↔ rule_active db rid.
Proof.
  unfold rule_activeb, rule_active. rewrite bool_decide_eq_true. unfold map_Exists. naive_solver.
Qed.

Lemma rule_activeb_ext db db' rid rid' :
  (rule_active db rid ↔ rule_active db' rid') → rule_activeb db rid = rule_activeb db' rid'.
Proof. intros E. apply eq_true_iff_eq. by rewrite !rule_activeb_spec. Qed.

Lemma each_step_Pg_ok {A} (p : prog World A) w :
  each_step world_step p → Pg_ok (w_pg w) → Pg_ok (w_pg (run p w).2).
Proof.
  intros Hp Hok. pose proof (each_step_run world_step p w Hp) as Hs.
  induction Hs as [|w1 w2 w3 H12 _ IH]; [done|]. apply IH. by apply (ws_pg _ _ H12).
Qed.

Lemma serial_inv_same w w' :
  serial_inv w → Pg_ok (w_pg w') → same_engine w w' → serial_inv w'.
Proof.
  intros [Hpgok Hone Hdc Hcn Hfr] Hok (Er & Ea & _ & Ht). split; [done| | | |].
  - intros i j a b. rewrite Ea. apply Hone.
  - intros i a r. rewrite Ea, Er. apply Hdc.
  - intros rid. rewrite Er. apply Hcn.
  - intros n Hn. rewrite Ea. apply Hfr. lia.
Qed.

Lemma serial_inv_run {A} (p : prog World A) w :
  each_step world_step p → serial_inv w → same_engine w (run p w).2 → serial_inv (run p w).2.
Proof. intros Hp Hw Hs. eapply serial_inv_same; [done| |done]. by apply each_step_Pg_ok, si_pg. Qed.

(** [each_step]: these programs change neither rules nor alerts nor streaks. *)
Ltac same := apply each_step_act; intros; simpl; split_and!; simpl; done || lia.

Lemma each_same_run {A} (p : prog World A) w : each_step same_engine p → same_engine w (run p w).2.
Proof.
  intros Hp. pose proof (each_step_run same_engine p w Hp) as Hs.
  induction Hs as [|w1 w2 w3 H12 _ IH]; [done|]. by etransitivity.
Qed.

Lemma same_log_line l c m : each_step same_engine (log_line l c m).
Proof. same. Qed.
Lemma same_time_Now : each_step same_engine time_Now.
Proof. same. Qed.
Lemma same_WriteTelemetry msg : each_step same_engine (WriteTelemetry msg).
Proof.
  unfold WriteTelemetry. apply each_step_bind; [apply same_time_Now|]. intros now.
  apply each_step_bind.
  - apply each_step_act. intros w. destruct (exec_fault _); split_and!; simpl; done || lia.
  - intros []; done.
Qed.

Lemma same_MaybeUpdateLastSeen d at_ : each_step same_engine (MaybeUpdateLastSeen d at_).
Proof.
  unfold MaybeUpdateLastSeen. apply each_step_bind; [same|]. intros []; [|done].
  apply each_step_bind; [|by intros []].
  apply each_step_act. intros w. unfold update_last_seen, fail, exec_outcome.
  destruct (exec_fault _); destruct (uuid_in d); split_and!; simpl; done || lia.
Qed.

Lemma same_report_decisions cid ds : each_step same_engine (report_decisions cid ds).
Proof.
  induction ds as [|d ds IH]; cbn [report_decisions]; [done|].
  apply each_step_bind; [same|]. intros _. apply each_step_bind; [apply same_log_line|]. by intros _.
Qed.

(** ** The effect of the decisions *)

(** What holds of the decisions of one message when they are applied. *)
Definition decisions_ok (db : Pg) (did : string) (ds : list RuleDecision) : Prop :=
  NoDup (rule_ID ∘ rd_Rule <$> ds) ∧
  ∀ d, d ∈ ds → severity_check (rule_Severity (rd_Rule d)) = true ∧
    (∃ row, alert_rules db !! rule_ID (rd_Rule d) = Some row ∧ ar_device_id row = did) ∧
    (rd_Decision d = CreateAlert → ¬ rule_active db (rule_ID (rd_Rule d))).

Lemma decisions_ok_cons db did d ds :
  decisions_ok db did (d :: ds) →
  (rule_ID (rd_Rule d) ∉ rule_ID ∘ rd_Rule <$> ds) ∧ decisions_ok db did ds.
Proof.
  intros [Hnd Hd]. rewrite fmap_cons in Hnd. apply NoDup_cons in Hnd as [? ?].
  split; [done|]. split; [done|]. intros d' ?. apply Hd. by right.
Qed.

(** Rules of the remaining decisions are not touched by the first one. *)
Lemma decisions_ok_after db db' did d ds :
  alert_rules db' = alert_rules db →
  (∀ x, x ≠ rule_ID (rd_Rule d) → rule_active db' x → rule_active db x) →
  decisions_ok db did (d :: ds) → decisions_ok db' did ds.
Proof.
  intros Er Ha Hok. destruct (decisions_ok_cons _ _ _ _ Hok) as [Hn [Hnd Hds]].
  split; [done|]. intros d' Hd'. rewrite Er. destruct (Hds d' Hd') as (? & ? & Hc).
  split_and!; [done..|]. intros ? Hact. apply (Hc ltac:(done)). apply Ha; [|done].
  intros E. apply Hn. rewrite <- E. by apply (list_elem_of_fmap_2 (rule_ID ∘ rd_Rule)).
Qed.

(** The active rules after applying [ds]. *)
Definition active_after (act : Prop) (rid : string) (ds : list RuleDecision) : Prop :=
  (∃ d, d ∈ ds ∧ rule_ID (rd_Rule d) = rid ∧ rd_Decision d = CreateAlert) ∨
  (act ∧ ¬ ∃ d, d ∈ ds ∧ rule_ID (rd_Rule d) = rid ∧ rd_Decision d = AutoResolve).

#[global] Instance active_after_proper : Proper (iff ==> eq ==> eq ==> iff) active_after.
Proof. intros P P' E x _ <- ds _ <-. unfold active_after. by rewrite E. Qed.

(** One statement of the loop. *)
Lemma run_create w d deviceID did at_ ds :
  (∀ n, exec_fault n = ExecOk) → uuids_fresh → serial_inv w →
  uuid_in deviceID = Some did → decisions_ok (w_pg w) did (d :: ds) → rd_Decision d = CreateAlert →
  let w1 := (run (pg_exec (λ newid _, insert_alert newid (rule_ID (rd_Rule d)) deviceID (rd_Value d)
                 (rule_Severity (rd_Rule d)) at_)) w).2 in
  run (pg_exec (λ newid _, insert_alert newid (rule_ID (rd_Rule d)) deviceID (rd_Value d)
                 (rule_Severity (rd_Rule d)) at_)) w = (Ok tt, w1) ∧
  serial_inv w1 ∧ w_streaks w1 = w_streaks w ∧ alert_rules (w_pg w1) = alert_rules (w_pg w) ∧
  ∀ x, rule_active (w_pg w1) x ↔ x = rule_ID (rd_Rule d) ∨ rule_active (w_pg w) x.
Proof.
  intros Hex [Hinj Hcan] [Hpgok Hone Hdc Hcn Hfr] Hdev [_ Hds] Hc.
  destruct (Hds d ltac:(by left)) as (Hsev & (row & Hrow & Hdid) & Hna). specialize (Hna Hc).
  pose proof (ok_rule _ Hpgok _ _ Hrow) as (Hd & _). rewrite Hdid in Hd.
  pose proof (insert_alert_guarantee (gen_random_uuid (w_tick w)) (rule_ID (rd_Rule d)) deviceID
                (rd_Value d) (rule_Severity (rd_Rule d)) at_ _ Hpgok) as [Hpg _].
  unfold pg_exec. rewrite run_act, Hex. cbn [exec_outcome].
  pose proof (insert_alert_Ok (gen_random_uuid (w_tick w)) _ deviceID _ did (rd_Value d) _ at_ _
    (Hcn _ (mk_is_Some _ _ Hrow)) Hdev Hsev (Hfr _ (le_n _)) (mk_is_Some _ _ Hrow) Hd) as Hins.
  rewrite Hins in *. clear Hins.
  cbn [fst snd]. split; [done|]. set (a := mkAlertRow _ _ _ _ _ _ _ _ _ _) in *.
  split; [|split_and!; [done|done|by intros x; apply (rule_active_insert _ _ a); auto]].
  split; cbn [w_pg w_tick tick set_pg]; [exact Hpg|by apply at_most_one_insert; auto| |done|].
  - intros i b r. simpl. rewrite lookup_insert. case_decide; [|by apply Hdc].
    intros [= <-]. simpl. rewrite Hrow. by intros [= <-].
  - intros n Hn. simpl. rewrite lookup_insert_ne; [apply Hfr; lia|]. intros E%Hinj. lia.
Qed.

Lemma run_auto_resolve w rid at_ :
  (∀ n, exec_fault n = ExecOk) → serial_inv w → is_Some (alert_rules (w_pg w) !! rid) →
  let w1 := (run (pg_exec (λ _ _, auto_resolve_alerts at_ rid)) w).2 in
  run (pg_exec (λ _ _, auto_resolve_alerts at_ rid)) w = (Ok tt, w1) ∧
  serial_inv w1 ∧ w_streaks w1 = w_streaks w ∧ alert_rules (w_pg w1) = alert_rules (w_pg w) ∧
  ∀ x, rule_active (w_pg w1) x ↔ x ≠ rid ∧ rule_active (w_pg w) x.
Proof.
  intros Hex [Hpgok Hone Hdc Hcn Hfr] Hr.
  pose proof (auto_resolve_alerts_guarantee at_ rid _ Hpgok) as [Hpg _].
  unfold pg_exec. rewrite run_act, Hex. cbn [exec_outcome].
  unfold auto_resolve_alerts in *. rewrite (Hcn _ Hr) in *. cbn [fst snd].
  change (set_alerts _ (w_pg w)) with (resolve_rule_alerts at_ rid (w_pg w)) in *.
  split; [done|]. split; [|split_and!; [done|done|intros; apply rule_active_resolve]].
  split; simpl; [exact Hpg|by apply at_most_one_resolve| |done|].
  - intros i b r. simpl. rewrite lookup_fmap. intros (a & <- & Ha)%fmap_Some_1_eq.
    case_match; apply (Hdc i a); done.
  - intros n Hn. simpl. rewrite lookup_fmap, Hfr by lia. done.
Qed.

Lemma active_after_other act x ds :
  x ∉ rule_ID ∘ rd_Rule <$> ds → active_after act x ds ↔ act.
Proof.
  intros Hx. assert (∀ d, d ∈ ds → rule_ID (rd_Rule d) ≠ x) as Hne.
  { intros d Hd <-. apply Hx. by apply (list_elem_of_fmap_2 (rule_ID ∘ rd_Rule)). }
  unfold active_after. split; [intros [(d & Hd & Hr & _)|[? _]]; [by destruct (Hne d Hd)|done]|].
  intros ?. right. split; [done|]. intros (d & Hd & Hr & _). by destruct (Hne d Hd).
Qed.

Lemma active_after_cons act x d ds :
  rule_ID (rd_Rule d) ∉ rule_ID ∘ rd_Rule <$> ds →
  active_after act x (d :: ds) ↔
  active_after (match rd_Decision d with
                | CreateAlert => x = rule_ID (rd_Rule d) ∨ act
                | AutoResolve => x ≠ rule_ID (rd_Rule d) ∧ act
                | NoAction => act
                end) x ds.
Proof.
  intros Hd. destruct (decide (x = rule_ID (rd_Rule d))) as [->|Hne].
  - rewrite (active_after_other _ _ ds) by done. unfold active_after.
    assert (∀ d', d' ∈ ds → rule_ID (rd_Rule d') ≠ rule_ID (rd_Rule d)) as Hne.
    { intros d' Hd' E. apply Hd. rewrite <- E. by apply (list_elem_of_fmap_2 (rule_ID ∘ rd_Rule)). }
    setoid_rewrite elem_of_cons. destruct (rd_Decision d) eqn:E; split.
    + intros [(d' & [->|Hd'] & Hr & Hc)|[? _]]; [congruence|by destruct (Hne d' Hd')|done].
    + intros ?. right. split; [done|].
      intros (d' & [->|Hd'] & Hr & Hc); [congruence|by destruct (Hne d' Hd')].
    + auto.
    + intros _. left. exists d. auto.
    + intros [(d' & [->|?] & ? & ?)|[_ Hx]]; [congruence|by destruct (Hne d')|].
      destruct Hx. exists d. auto.
    + by intros [].
  - unfold active_after. setoid_rewrite elem_of_cons. destruct (rd_Decision d); naive_solver.
Qed.

(** All decisions of one message. *)
Lemma run_ApplyDecisions ds w deviceID did at_ :
  (∀ n, exec_fault n = ExecOk) → uuids_fresh → serial_inv w →
  uuid_in deviceID = Some did → decisions_ok (w_pg w) did ds →
  let w' := (run (ApplyDecisions deviceID ds at_) w).2 in
  run (ApplyDecisions deviceID ds at_) w = (Ok tt, w') ∧
  serial_inv w' ∧ w_streaks w' = w_streaks w ∧ alert_rules (w_pg w') = alert_rules (w_pg w) ∧
  ∀ x, rule_active (w_pg w') x ↔ active_after (rule_active (w_pg w) x) x ds.
Proof.
  intros Hex Hfr. revert w. induction ds as [|d ds IH]; intros w Hinv Hdev Hok; cbn [ApplyDecisions run].
  { split_and!; try done. intros x. unfold active_after. set_solver. }
  destruct (decisions_ok_cons _ _ _ _ Hok) as [Hn Hok'].
  assert (∀ w1, serial_inv w1 → w_streaks w1 = w_streaks w →
    alert_rules (w_pg w1) = alert_rules (w_pg w) →
    (∀ x, rule_active (w_pg w1) x ↔ match rd_Decision d with
       | CreateAlert => x = rule_ID (rd_Rule d) ∨ rule_active (w_pg w) x
       | AutoResolve => x ≠ rule_ID (rd_Rule d) ∧ rule_active (w_pg w) x
       | NoAction => rule_active (w_pg w) x end) →
    let w' := (run (ApplyDecisions deviceID ds at_) w1).2 in
    run (ApplyDecisions deviceID ds at_) w1 = (Ok tt, w') ∧
    serial_inv w' ∧ w_streaks w' = w_streaks w ∧ alert_rules (w_pg w') = alert_rules (w_pg w) ∧
    ∀ x, rule_active (w_pg w') x ↔ active_after (rule_active (w_pg w) x) x (d :: ds)) as Hrest.
  { intros w1 Hinv1 Hs1 Hr1 Ha1. destruct (IH w1 Hinv1 Hdev) as (E & I & S & R & A).
    - apply (decisions_ok_after _ _ _ _ _ Hr1) in Hok; [done|]. intros x Hx. rewrite Ha1.
      destruct (rd_Decision d); naive_solver.
    - rewrite <- Hs1, <- Hr1. split_and!; try done. intros x.
      rewrite (active_after_cons _ x d ds Hn). by rewrite A, (Ha1 x). }
  destruct (proj2 Hok d ltac:(by left)) as (_ & (row & Hrow & _) & _).
  destruct (rd_Decision d) eqn:Ed.
  - by apply Hrest.
  - destruct (run_create w d deviceID did at_ ds Hex Hfr Hinv Hdev Hok Ed) as (E1 & I1 & S1 & R1 & A1).
    rewrite run_bind, E1. cbn [fst snd]. by apply Hrest.
  - destruct (run_auto_resolve w (rule_ID (rd_Rule d)) at_ Hex Hinv ltac:(by eexists))
      as (E1 & I1 & S1 & R1 & A1).
    rewrite run_bind, E1. cbn [fst snd]. by apply Hrest.
Qed.

(** ** The decisions of one message, rule by rule *)

Lemma decision_of_rule m t N rid b :
  Eval_ok m →
  (∃ d, d ∈ (Evaluate t (ev_rules m) (ev_readings m) (ev_active m) N).1 ∧
        rule_ID (rd_Rule d) = rid ∧ rd_Decision d = decision_for b) ↔
  observed rid m = Some b ∧ map_get false (ev_active m) rid = negb b ∧
  N <= Count (next_state (map_get zero_BreachState t rid) b).
Proof.
  intros Hok. setoid_rewrite (elem_of_Evaluate m t N) ; [|done]. split.
  - intros (d & (r & Hr & (v & b' & Hv & Hb & -> & Ha & Hc)%table_decision_Some) & <- & Hd).
    simpl in *. assert (b' = b) as -> by (by destruct b, b'). split; [|done].
    rewrite (observed_rule m r), Hv by done. simpl. by rewrite Hb.
  - intros (Ho & Ha & Hc). pose proof Ho as Hob. unfold observed in Ho.
    destruct (list_find _ _) as [[k r]|] eqn:E; [|done]. simpl in Ho.
    apply list_find_Some in E as (Hk & <- & _). apply list_elem_of_lookup_2 in Hk.
    rewrite (observed_rule m r) in Hob by done.
    destruct (ev_readings m !! rule_Metric r) as [v|] eqn:Hv; [|done]. simpl in Hob. simplify_eq.
    exists (mkRuleDecision r (decision_for (compareThreshold v (rule_Operator r) (rule_Threshold r))) v).
    split; [|done]. exists r. split; [done|]. apply table_decision_Some. by eexists _, _.
Qed.

Lemma decision_ids_NoDup m t N :
  Eval_ok m →
  NoDup (rule_ID ∘ rd_Rule <$> (Evaluate t (ev_rules m) (ev_readings m) (ev_active m) N).1).
Proof.
  unfold Eval_ok, Evaluate. intros Hok. rewrite EvaluateRules_decisions by done.
  destruct m as [rs rd act_]. simpl in *. revert Hok.
  generalize (table_decision (mkEval rs rd act_) t N) (table_decision_Some (mkEval rs rd act_) t N).
  intros f Hf. induction rs as [|r rs' IH]; simpl; intros Hnd; [constructor|].
  apply NoDup_cons in Hnd as [Hr Hnd]. destruct (f r) as [d|] eqn:Ed; [|by apply IH].
  rewrite fmap_cons. apply NoDup_cons. split; [|by apply IH].
  apply Hf in Ed as (v & b & _ & _ & -> & _). simpl.
  intros (d' & Hd' & (r' & Hr' & Ed')%list_elem_of_omap)%list_elem_of_fmap. apply Hr.
  apply Hf in Ed' as (v' & b' & _ & _ & -> & _). simpl in Hd'. rewrite Hd'.
  by apply list_elem_of_fmap_2.
Qed.

(** The active state the decisions leave is the one the specification asks for. *)
Lemma active_after_spec m t N rid (P : bool) (act : Prop) :
  Eval_ok m → (act ↔ P = true) →
  (is_Some (observed rid m) → map_get false (ev_active m) rid = P) →
  active_after act rid (Evaluate t (ev_rules m) (ev_readings m) (ev_active m) N).1 ↔
  rs_active (rule_observe N (mkRuleState (map_get zero_BreachState t rid) P) (observed rid m)) = true.
Proof.
  intros Hok Hact Hget. unfold active_after.
  rewrite (decision_of_rule m t N rid true Hok), (decision_of_rule m t N rid false Hok).
  destruct (observed rid m) as [b|] eqn:Eo; simpl; [|naive_solver].
  specialize (Hget (mk_is_Some _ _ eq_refl)). rewrite Hget, Hact.
  case_bool_decide as Hc; destruct b, P; naive_solver lia || naive_solver.
Qed.

End Steps.

(** ** One message, and a sequence of messages *)

Section Serial.
Context `{!GoText, !PgLib, !Env} (Hquiet : no_faults) (Huuid : uuids_fresh).

Let Hexec n : exec_fault n = ExecOk := proj1 (Hquiet n).

(** The rules loaded for a message, against the table. *)
Lemma observed_message_reading db msg rules active rid row :
  NoDup (rule_ID <$> rules) →
  (∀ r, r ∈ rules ↔ ∃ row, alert_rules db !! rule_ID r = Some row ∧
     uuid_in (DeviceID msg) = Some (ar_device_id row) ∧ ar_enabled row = true ∧
     r = rule_of_row (rule_ID r, row)) →
  alert_rules db !! rid = Some row →
  observed rid (mkEval rules (Readings msg) active) = message_reading msg row.
Proof.
  intros Hnd Hrules Hrow. unfold message_reading. case_decide as Hc.
  - pose (r := rule_of_row (rid, row)).
    assert (r ∈ rules) as Hr by (apply Hrules; exists row; naive_solver).
    exact (observed_rule (mkEval rules (Readings msg) active) r Hnd Hr).
  - unfold observed. simpl. destruct (list_find _ rules) as [[k r]|] eqn:E; [|done].
    apply list_find_Some in E as (Hk & <- & _). apply list_elem_of_lookup_2, Hrules in Hk.
    destruct Hk as (row' & ? & ? & ? & _). simplify_eq. by destruct Hc.
Qed.

(** The decisions of a message satisfy the hypotheses of [run_ApplyDecisions]. *)
Lemma message_decisions_ok w msg did rules active t N :
  serial_inv w → uuid_in (DeviceID msg) = Some did → NoDup (rule_ID <$> rules) →
  (∀ r, r ∈ rules ↔ ∃ row, alert_rules (w_pg w) !! rule_ID r = Some row ∧
     uuid_in (DeviceID msg) = Some (ar_device_id row) ∧ ar_enabled row = true ∧
     r = rule_of_row (rule_ID r, row)) →
  (∀ rid row, alert_rules (w_pg w) !! rid = Some row → ar_device_id row = did →
     map_get false active rid = true ↔ rule_active (w_pg w) rid) →
  decisions_ok (w_pg w) did (Evaluate t rules (Readings msg) active N).1.
Proof.
  intros Hinv Hdid Hnd Hrules Hact. pose (m := mkEval rules (Readings msg) active).
  split; [apply (decision_ids_NoDup m t N Hnd)|]. intros d Hd.
  apply (elem_of_Evaluate m t N d Hnd) in Hd as (r & Hr & Hd).
  apply table_decision_Some in Hd as (v & b & _ & _ & -> & Hb & _).
  apply Hrules in Hr as (row & Hrow & Hdev & _ & ->). simpl in *. split_and!.
  - by apply (ok_rule _ (si_pg _ Hinv) _ _ Hrow).
  - exists row. split; [done|congruence].
  - destruct b; [|done]. intros _. rewrite <- (Hact _ _ Hrow) by congruence. by rewrite Hb.
Qed.

(** The active map of a message agrees with the alerts of the device's rules. *)
Lemma loaded_active_rule w d did ids l rid row :
  device_coherent (w_pg w) → uuid_in d = Some did →
  select_active_rule_ids d (w_pg w) = Ok ids → l ≡ₚ ids →
  alert_rules (w_pg w) !! rid = Some row → ar_device_id row = did →
  map_get false (active_of_rows l) rid = true ↔ rule_active (w_pg w) rid.
Proof.
  intros Hco Hd Hsel Hperm Hrow Hdid. rewrite (loaded_active_spec _ _ _ _ _ Hsel Hperm).
  unfold rule_active. split; [naive_solver|]. intros (i & a & Ha & <- & Hact).
  exists i, a. split_and!; [done| |done|done]. rewrite Hd. f_equal.
  by rewrite <- (Hco i a row).
Qed.

(** The effect on every rule of a step that observes [obs]. *)
Definition engine_effect (N : Z) (obs : AlertRuleRow → option bool) (w w' : World) : Prop :=
  serial_inv w' ∧ alert_rules (w_pg w') = alert_rules (w_pg w) ∧
  ∀ rid row, alert_rules (w_pg w) !! rid = Some row →
    rule_state w' rid = rule_observe N (rule_state w rid) (obs row).

Lemma rule_state_same w w' rid : same_engine w w' → rule_state w' rid = rule_state w rid.
Proof.
  intros (_ & Ea & Es & _). unfold rule_state, rule_activeb. by rewrite Ea, Es.
Qed.

(** The evaluation and the write, from loaded rules and active alerts. *)
Lemma evaluate_and_apply N msg did rules active at_ w :
  serial_inv w → uuid_in (DeviceID msg) = Some did → NoDup (rule_ID <$> rules) →
  (∀ r, r ∈ rules ↔ ∃ row, alert_rules (w_pg w) !! rule_ID r = Some row ∧
     uuid_in (DeviceID msg) = Some (ar_device_id row) ∧ ar_enabled row = true ∧
     r = rule_of_row (rule_ID r, row)) →
  (∀ rid row, alert_rules (w_pg w) !! rid = Some row → ar_device_id row = did →
     map_get false active rid = true ↔ rule_active (w_pg w) rid) →
  let p := (decisions <- tracker_Evaluate rules (Readings msg) active N ;;
            ApplyDecisions (DeviceID msg) decisions at_) in
  (run p w).1 = Ok tt ∧ engine_effect N (message_reading msg) w (run p w).2.
Proof.
  intros Hinv Hdid Hnd Hrules Hact. cbv zeta. rewrite run_bind.
  unfold tracker_Evaluate. rewrite run_act.
  pose proof (message_decisions_ok w msg did rules active (w_streaks w) N Hinv Hdid Hnd Hrules Hact) as Hok.
  pose proof (active_after_spec (mkEval rules (Readings msg) active) (w_streaks w) N) as Hspec.
  pose proof (EvaluateRules_streaks rules (Readings msg) active (w_streaks w) N) as Hst. simpl in Hspec.
  unfold Evaluate in *. destruct (EvaluateRules _ _ _ _ _ _) as [ds t']. cbn [fst snd] in *.
  set (w1 := tick _).
  assert (serial_inv w1) as Hinv1.
  { destruct Hinv as [Hp Ho Hd Hc Hf]. split; try done. intros n Hn. apply Hf. simpl in Hn. lia. }
  destruct (run_ApplyDecisions ds w1 (DeviceID msg) did at_ Hexec Huuid Hinv1 Hdid Hok) as (E & I & S & R & A).
  rewrite E. cbn [fst snd]. split; [done|]. split; [done|]. split; [done|].
  intros rid row Hrow. specialize (Hst rid Hnd).
  pose proof (observed_message_reading (w_pg w) msg rules active rid row Hnd Hrules Hrow) as Hobs.
  rewrite Hobs in Hst. unfold rule_state at 1, map_get. rewrite S. simpl (w_streaks w1). rewrite Hst.
  assert (rule_activeb (w_pg (run (ApplyDecisions (DeviceID msg) ds at_) w1).2) rid =
    rs_active (rule_observe N (rule_state w rid) (message_reading msg row))) as ->.
  { apply eq_true_iff_eq. rewrite rule_activeb_spec, A, <- Hobs. apply Hspec; [done|..].
    - by rewrite rule_activeb_spec.
    - rewrite Hobs. intros [b Hb]. unfold message_reading in Hb. case_decide as Hc; [|done].
      apply eq_true_iff_eq. rewrite rule_activeb_spec. apply (Hact _ _ Hrow). naive_solver. }
  by destruct (message_reading msg row).
Qed.
Lemma run_retry_ok d ds at_ w w' :
  run (ApplyDecisions d ds at_) w = (Ok tt, w') →
  run (applyDecisionsWithRetry d ds at_) w = (Ok tt, w').
Proof.
  intros E. unfold applyDecisionsWithRetry, maxAttempts. cbn [retry_loop].
  by rewrite run_bind, E.
Qed.

Lemma engine_effect_after N obs w w1 w2 :
  same_engine w w1 → engine_effect N obs w1 w2 → engine_effect N obs w w2.
Proof.
  intros Hs (I & R & A). pose proof Hs as (Er & _). split; [done|]. split; [congruence|].
  intros rid row Hrow. rewrite <- (rule_state_same _ _ rid Hs). apply A. by rewrite Er.
Qed.

Lemma engine_effect_before N obs w w1 w2 :
  engine_effect N obs w w1 → Pg_ok (w_pg w2) → same_engine w1 w2 → engine_effect N obs w w2.
Proof.
  intros (I & R & A) Hok Hs. pose proof Hs as (Er & _). split; [by eapply serial_inv_same|].
  split; [congruence|]. intros rid row Hrow. rewrite (rule_state_same _ _ rid Hs). by apply A.
Qed.

Lemma engine_effect_none N obs w w' :
  serial_inv w → Pg_ok (w_pg w') → same_engine w w' →
  (∀ rid row, alert_rules (w_pg w) !! rid = Some row → obs row = None) →
  engine_effect N obs w w'.
Proof.
  intros Hinv Hok Hs Hnone. pose proof Hs as (Er & _). split; [by eapply serial_inv_same|].
  split; [done|]. intros rid row Hrow. rewrite (rule_state_same _ _ rid Hs). by rewrite (Hnone rid row).
Qed.

Lemma tick_same w : same_engine w (tick w).
Proof. split_and!; simpl; done || lia. Qed.

Lemma serial_inv_tick w : serial_inv w → serial_inv (tick w).
Proof. intros Hinv. apply (serial_inv_same w); [done|apply (si_pg w Hinv)|apply tick_same]. Qed.

Lemma quiet_LoadEnabledRules d did w :
  uuid_in d = Some did →
  ∃ rules, run (LoadEnabledRules d) w = (Ok rules, tick w) ∧ NoDup (rule_ID <$> rules) ∧
    ∀ r, r ∈ rules ↔ ∃ row, alert_rules (w_pg w) !! rule_ID r = Some row ∧
      uuid_in d = Some (ar_device_id row) ∧ ar_enabled row = true ∧
      r = rule_of_row (rule_ID r, row).
Proof.
  intros Hd. rewrite run_LoadEnabledRules. destruct (Hquiet (w_tick w)) as [_ ->].
  destruct (select_enabled_rules d (w_pg w)) as [rows|e] eqn:E;
    [|unfold select_enabled_rules in E; by rewrite Hd in E].
  eexists. split; [done|]. apply (loaded_rules_spec _ _ _ _ E). apply row_order_perm.
Qed.

Lemma quiet_LoadActiveRuleIDs d did w :
  uuid_in d = Some did → device_coherent (w_pg w) →
  ∃ active, run (LoadActiveRuleIDs d) w = (Ok active, tick w) ∧
    ∀ rid row, alert_rules (w_pg w) !! rid = Some row → ar_device_id row = did →
      map_get false active rid = true ↔ rule_active (w_pg w) rid.
Proof.
  intros Hd Hco. rewrite run_LoadActiveRuleIDs. destruct (Hquiet (w_tick w)) as [_ ->].
  destruct (select_active_rule_ids d (w_pg w)) as [ids|e] eqn:E;
    [|unfold select_active_rule_ids in E; by rewrite Hd in E].
  eexists. split; [done|]. intros rid row Hrow Hdid.
  by apply (loaded_active_rule w d did ids _ rid row Hco Hd E (row_order_perm _ _ _)).
Qed.

Lemma report_effect N cid msg ds w w1 :
  engine_effect N (message_reading msg) w w1 → engine_effect N (message_reading msg) w (run (report_decisions cid ds) w1).2.
Proof.
  intros He. eapply engine_effect_before; [done| |by apply each_same_run, same_report_decisions].
  apply each_step_Pg_ok; [apply each_step_report_decisions|apply si_pg, He].
Qed.

(** The rules, the active alerts, the evaluation and the write. *)
Lemma run_engine_prog N cid msg did at_ w :
  serial_inv w → uuid_in (DeviceID msg) = Some did →
  (run (engine_prog N cid msg at_) w).1 = Ok tt ∧
  engine_effect N (message_reading msg) w (run (engine_prog N cid msg at_) w).2.
Proof.
  intros Hinv Hdid. unfold engine_prog.
  destruct (quiet_LoadEnabledRules _ _ w Hdid) as (rules & E1 & Hnd & Hrules).
  rewrite run_bind, E1. cbn [fst snd]. pose proof (tick_same w) as Hs1.
  pose proof (serial_inv_tick _ Hinv) as Hinv1.
  case_decide as Hlen.
  { split; [done|]. apply engine_effect_none; [done|apply (si_pg w Hinv)|done|]. intros rid row Hrow.
    rewrite <- (observed_message_reading (w_pg w) msg rules ∅ rid row) by done.
    by rewrite (nil_length_inv _ Hlen). }
  destruct (quiet_LoadActiveRuleIDs _ _ (tick w) Hdid (si_device _ Hinv1)) as (active & E2 & Hact).
  rewrite run_bind, E2. cbn [fst snd]. pose proof (tick_same (tick w)) as Hs2.
  pose proof (serial_inv_tick _ Hinv1) as Hinv2.
  destruct (evaluate_and_apply N msg did rules active at_ _ Hinv2 Hdid Hnd Hrules Hact) as [Hr He].
  rewrite run_bind in *. destruct (run (tracker_Evaluate _ _ _ _) _) as [ds w3]. cbn [fst snd] in *.
  assert (same_engine w (tick (tick w))) as Hs by (by etransitivity).
  destruct (run (ApplyDecisions _ _ _) w3) as [r w4] eqn:Ea. cbn [fst snd] in *. subst r.
  case_decide as Hds.
  - apply nil_length_inv in Hds as ->. simpl in Ea. injection Ea as ->. split; [done|].
    by apply (engine_effect_after N _ w (tick (tick w))).
  - rewrite run_bind, (run_retry_ok _ _ _ _ _ Ea). cbn [fst snd]. rewrite run_bind. cbn [fst snd run].
    split; [done|]. apply report_effect. by apply (engine_effect_after N _ w (tick (tick w))).
Qed.

(** The part of a message that does not concern the engine. *)
Lemma skip_step {A} (p : prog World A) w :
  each_step world_step p → each_step same_engine p → serial_inv w →
  serial_inv (run p w).2 ∧ same_engine w (run p w).2.
Proof. intros Hp Hs Hinv. pose proof (each_same_run p w Hs). split; [by apply serial_inv_run|done]. Qed.

Lemma quiet_WriteTelemetry msg w : (run (WriteTelemetry msg) w).1 = Ok tt.
Proof.
  unfold WriteTelemetry. rewrite !run_bind. unfold mongo_insert_one. rewrite run_act, Hexec. done.
Qed.

(** [process_message] on any device id. *)
Lemma process_message_effect N cid msg w :
  serial_inv w →
  let p := run (process_message N cid msg) w in
  engine_effect N (message_reading msg) w p.2 ∧ (is_Some (uuid_in (DeviceID msg)) → p.1 = Ok tt).
Proof.
  intros Hinv. unfold process_message. cbv zeta. rewrite run_bind, quiet_WriteTelemetry.
  destruct (skip_step _ w (each_step_WriteTelemetry msg) (same_WriteTelemetry msg) Hinv) as [Hinv1 Hs1].
  destruct (run (WriteTelemetry msg) w) as [r1 w1]. cbn [fst snd] in *. rewrite run_bind.
  destruct (skip_step _ w1 each_step_time_Now same_time_Now Hinv1) as [Hinv2 Hs2].
  destruct (run time_Now w1) as [now w2]. cbn [fst snd] in *. rewrite run_bind.
  destruct (skip_step _ w2 (each_step_MaybeUpdateLastSeen (DeviceID msg) now)
    (same_MaybeUpdateLastSeen (DeviceID msg) now) Hinv2) as [Hinv3 Hs3].
  destruct (run (MaybeUpdateLastSeen _ _) w2) as [r3 w3]. cbn [fst snd] in *. rewrite run_bind.
  set (warn := match r3 with Ok _ => _ | Err _ => _ end).
  destruct (skip_step warn w3) as [Hinv4 Hs4];
    [subst warn; destruct r3; eauto with sitewatch|subst warn; destruct r3; [done|apply same_log_line]|done|].
  destruct (run warn w3) as [[] w4]. cbn [fst snd] in *.
  assert (same_engine w w4) as Hs by (by do 3 (etransitivity; [eassumption|])).
  fold (engine_prog N cid msg now). destruct (uuid_in (DeviceID msg)) as [did|] eqn:Hdid.
  - destruct (run_engine_prog N cid msg did now w4 Hinv4 Hdid) as [Hr He]. split; [|done].
    by apply (engine_effect_after N _ w w4).
  - split; [|by intros []]. unfold engine_prog. rewrite run_bind, run_LoadEnabledRules.
    unfold select_enabled_rules. rewrite Hdid. cbn [fst snd run].
    apply engine_effect_none; [done|apply (si_pg w4 Hinv4)| |].
    + etransitivity; [exact Hs|apply tick_same].
    + intros rid row _. unfold message_reading. rewrite Hdid. by rewrite decide_False by naive_solver.
Qed.

(** Steps beside a step of the engine. *)
Lemma engine_effect_skip {A} N obs (p : prog World A) w w1 :
  each_step world_step p → each_step same_engine p →
  engine_effect N obs w w1 → engine_effect N obs w (run p w1).2.
Proof.
  intros Hp Hs He. eapply engine_effect_before; [exact He| |by apply each_same_run].
  apply each_step_Pg_ok; [done|apply si_pg, He].
Qed.

(** One job, valid or not. *)
Lemma handle_job_effect N j w :
  serial_inv w → engine_effect N (job_reading j) w (run (handle_job N j) w).2.
Proof.
  intros Hinv. unfold handle_job. rewrite !run_bind, run_act. cbn [fst snd].
  set (w0 := set_received _ w). assert (same_engine w w0) as Hs0 by (by split_and!).
  pose proof (serial_inv_same w w0 Hinv (si_pg w Hinv) Hs0) as Hinv0. clearbody w0.
  destruct (skip_step _ w0 each_step_time_Now same_time_Now Hinv0) as [Hinv1 Hs1].
  destruct (run time_Now w0) as [t0 w1]. cbn [fst snd] in *.
  apply engine_effect_skip; [destruct (run (process N j) w1).1; eauto with sitewatch|
    destruct (run (process N j) w1).1; [done|apply same_log_line]|].
  apply engine_effect_skip; [apply each_step_time_Now|apply same_time_Now|].
  apply (engine_effect_after N _ w w1); [by etransitivity|].
  unfold process. rewrite run_bind. unfold NewCorrelationID. rewrite run_act. cbn [fst snd].
  apply (engine_effect_after N _ w1 (tick w1)); [apply tick_same|].
  pose proof (serial_inv_tick _ Hinv1) as Hinv2. unfold job_reading.
  destruct (validate j) as [msg|e]; [by apply process_message_effect|].
  by apply engine_effect_none; [|apply (si_pg _ Hinv2)|..].
Qed.

Lemma run_serial_effect N js w :
  serial_inv w →
  serial_inv (run_serial N js w) ∧ alert_rules (w_pg (run_serial N js w)) = alert_rules (w_pg w) ∧
  ∀ rid row, alert_rules (w_pg w) !! rid = Some row →
    rule_state (run_serial N js w) rid =
    foldl (rule_spec N) (rule_state w rid) (omap (λ j, job_reading j row) js).
Proof.
  revert w. induction js as [|j js IH]; intros w Hinv; [done|]. unfold run_serial. simpl.
  destruct (handle_job_effect N j w Hinv) as (I1 & R1 & A1).
  destruct (IH _ I1) as (I2 & R2 & A2). unfold run_serial in *.
  split; [exact I2|]. split; [exact (eq_trans R2 R1)|]. intros rid row Hrow.
  etransitivity; [apply (A2 rid row); by rewrite R1|].
  rewrite (A1 rid row Hrow). by destruct (job_reading j row).
Qed.

End Serial.

(** ** Runs of readings *)

(** After [h], the specification started without an alert is active exactly when
    [h] contains [n] consecutive breaches after which [n] consecutive clear
    readings have not occurred. *)
Definition alerting (n : nat) (h : list bool) : Prop :=
  ∃ pre post, h = pre ++ replicate n true ++ post ∧
    ¬ ∃ a b, post = a ++ replicate n false ++ b.

(** One more reading that does not complete a run of [n]. *)
Lemma alerting_short n h b :
  (trail b (h ++ [b]) < n)%nat → alerting n (h ++ [b]) ↔ alerting n h.
Proof.
  intros Hlt. split.
  - intros (pre & post & E & Hno). destruct post as [|x post _] using rev_ind.
    { exfalso. rewrite app_nil_r in E. destruct n as [|n]; [lia|].
      assert (b = true) as -> by (rewrite replicate_S_end, app_assoc in E; by apply app_inj_tail in E as [_ E]).
      assert (S n <= trail true (h ++ [true]))%nat; [|lia]. apply trail_ge. by exists pre. }
    rewrite !app_assoc in E. apply app_inj_tail in E as [-> ->]. exists pre, post.
    rewrite <- app_assoc. split; [done|]. intros (a & c & ->). apply Hno. exists a, (c ++ [x]).
    by rewrite <- !app_assoc.
  - intros (pre & post & -> & Hno). exists pre, (post ++ [b]). rewrite <- !app_assoc. split; [done|].
    intros (a & c & E). destruct c as [|x c _] using rev_ind.
    + rewrite app_nil_r in E. destruct n as [|n]; [lia|].
      assert (b = false) as -> by (rewrite replicate_S_end, app_assoc in E; by apply app_inj_tail in E as [_ E]).
      assert (S n <= trail false ((pre ++ replicate (S n) true ++ post) ++ [false]))%nat; [|lia].
      apply trail_ge. exists ((pre ++ replicate (S n) true) ++ a). rewrite <- !app_assoc. by rewrite E.
    + rewrite !app_assoc in E. apply app_inj_tail in E as [-> _]. apply Hno. exists a, c.
      by rewrite <- app_assoc.
Qed.

(** One more reading that completes a run of [n]. *)
Lemma alerting_long n h b :
  (1 <= n)%nat → (n <= trail b (h ++ [b]))%nat → alerting n (h ++ [b]) ↔ b = true.
Proof.
  intros Hn [pre E]%trail_ge. rewrite E. split.
  - intros (p & post & E2 & Hno). destruct b; [done|exfalso]. apply Hno.
    rewrite app_assoc in E2. destruct (decide (n <= length post)%nat) as [Hle|Hlt].
    + exists (take (length post - n) post), []. rewrite app_nil_r.
      rewrite <- (take_drop (length post - n) post) at 1. f_equal.
      rewrite <- (take_drop (length post - n) post), app_assoc in E2.
      apply app_inj_2 in E2 as [_ E2]; [done|]. rewrite length_replicate, length_drop. lia.
    + exfalso. destruct n as [|m]; [lia|]. rewrite (replicate_S_end m true) in E2.
      rewrite <- !app_assoc in E2. cbn [app] in E2.
      assert (length pre + S m = length p + (m + S (length post)))%nat as Hlen
        by (apply (f_equal length) in E2; rewrite !length_app, !length_replicate in E2; cbn [length] in E2; lia).
      apply (f_equal (lookup (length p + m)%nat)) in E2.
      rewrite lookup_app_r in E2 by lia. rewrite lookup_replicate_2 in E2 by lia.
      rewrite lookup_app_r in E2 by lia. rewrite lookup_app_r in E2 by (rewrite length_replicate; lia).
      rewrite length_replicate in E2. by replace (length p + m - length p - m)%nat with 0%nat in E2 by lia.
  - intros ->. exists pre, []. rewrite app_nil_r. split; [done|].
    intros (a & c & E2). destruct n; [lia|]. by destruct a.
Qed.

(** The specification against runs of readings. *)
Lemma rule_spec_alerting n h :
  (1 <= n)%nat → Z.of_nat (length h) < max_int64 →
  rs_streak (foldl (rule_spec (Z.of_nat n)) (mkRuleState zero_BreachState false) h) =
    foldl next_state zero_BreachState h ∧
  (rs_active (foldl (rule_spec (Z.of_nat n)) (mkRuleState zero_BreachState false) h) = true ↔
    alerting n h).
Proof.
  intros Hn. induction h as [|b h IH] using rev_ind; intros Hlen.
  { split; [done|]. split; [done|]. intros (pre & post & E & _). destruct n; [lia|]. by destruct pre. }
  rewrite length_app in Hlen. simpl in Hlen. destruct IH as [IH1 IH2]; [lia|].
  rewrite !foldl_snoc. simpl. rewrite IH1. split; [done|].
  destruct (foldl_next_state zero_BreachState h b) as [_ Hc]; [simpl; lia..|].
  assert (Count (next_state (foldl next_state zero_BreachState h) b) = Z.of_nat (trail b (h ++ [b])))
    as -> by (rewrite foldl_snoc in Hc; rewrite Hc; case_bool_decide; simpl; lia).
  clear Hc. case_bool_decide as Hle.
  - symmetry. apply alerting_long; lia.
  - rewrite IH2. symmetry. apply alerting_short. lia.
Qed.

(** ** Properties *)

Section Failures.
Context `{!GoText, !PgLib, !Env}.

Lemma retry_error d ds at_ w e :
  (run (applyDecisionsWithRetry d ds at_) w).1 = Err e →
  ∃ e', e = Wrapf "apply decisions after 3 attempts" e'.
Proof.
  unfold applyDecisionsWithRetry. generalize (100 * Millisecond), NetError. revert w. generalize maxAttempts.
  induction n as [|n IH]; intros w b e0; cbn [retry_loop run fst]; [intros [= <-]; by eexists|].
  rewrite run_bind. destruct (run (ApplyDecisions d ds at_) w) as [[|e1] w1]; cbn [fst snd run]; [done|].
  destruct n; [apply IH|]. rewrite run_bind. apply IH.
Qed.

(** A failing run of the engine's part that never reached the evaluation. *)
Lemma engine_prog_error N cid msg at_ w e :
  (run (engine_prog N cid msg at_) w).1 = Err e →
  same_engine w (run (engine_prog N cid msg at_) w).2 ∨
  ∃ e', e = Wrapf "apply decisions after 3 attempts" e'.
Proof.
  unfold engine_prog. rewrite run_bind. pose proof (run_LoadEnabledRules (DeviceID msg) w) as E1.
  destruct (run (LoadEnabledRules _) w) as [[rules|e1] w1]; injection E1 as _ ->; cbn [fst snd run];
    [|intros _; left; split_and!; simpl; done || lia].
  case_decide; [done|]. rewrite run_bind.
  pose proof (run_LoadActiveRuleIDs (DeviceID msg) (tick w)) as E2.
  destruct (run (LoadActiveRuleIDs _) (tick w)) as [[active|e2] w2]; injection E2 as _ ->;
    cbn [fst snd run]; [|intros _; left; split_and!; simpl; done || lia].
  rewrite run_bind. destruct (run (tracker_Evaluate _ _ _ _) _) as [ds w3]. cbn [fst snd].
  case_decide; [done|]. rewrite run_bind. pose proof (retry_error (DeviceID msg) ds at_ w3) as Hret.
  destruct (run (applyDecisionsWithRetry _ _ _) w3) as [[|e3] w4]; cbn [fst snd run] in *.
  - by rewrite run_bind.
  - intros [= <-]. right. by apply Hret.
Qed.

End Failures.

(** C17: Errors are contained.  If processing a job fails anywhere before the alert
    write has been tried three times (topic, payload, telemetry insert, loading of
    rules or of active alerts), then no rule, no alert and no streak has changed,
    under any failures of the two databases. *)
Theorem error_before_write_is_clean `{!GoText, !PgLib, !Env} N j w e :
  (run (process N j) w).1 = Err e →
  (∀ e', e ≠ Wrapf "apply decisions after 3 attempts" e') →
  same_engine w (run (process N j) w).2.
Proof.
  rewrite run_process. destruct (validate j) as [msg|e1]; [|intros; apply tick_same].
  rewrite run_process_message. intros Herr Hne.
  etransitivity; [apply tick_same|].
  pose proof (each_same_run _ (tick w) (same_WriteTelemetry msg)) as Hs.
  destruct (run (WriteTelemetry msg) (tick w)) as [[[]|e1] w1]; [|done]. cbn [snd] in Hs.
  etransitivity; [exact Hs|]. revert Herr. unfold after_telemetry. rewrite run_bind.
  pose proof (each_same_run _ w1 same_time_Now) as Hs2.
  destruct (run time_Now w1) as [now w2]. cbn [fst snd] in *. rewrite run_bind.
  pose proof (each_same_run _ w2 (same_MaybeUpdateLastSeen (DeviceID msg) now)) as Hs3.
  destruct (run (MaybeUpdateLastSeen _ _) w2) as [r w3]. cbn [fst snd] in *. rewrite run_bind.
  set (warn := match r with Ok _ => _ | Err _ => _ end).
  assert (same_engine w3 (run warn w3).2) as Hs4
    by (apply each_same_run; subst warn; destruct r; [done|apply same_log_line]).
  destruct (run warn w3) as [[] w4]. cbn [fst snd] in *. intros Herr.
  destruct (engine_prog_error _ _ _ _ _ _ Herr) as [Hs5|[e' ->]]; [|by destruct (Hne e')].
  do 3 (etransitivity; [eassumption|]). done.
Qed.

(** The invariant of docs/alert-engine.md holds of the serial pipeline: from any
    consistent database with at most one active alert per rule, handling any
    sequence of jobs one at a time (valid or not, of any device, with any clock)
    while no statement and no query fails again leaves at most one active alert per rule, every
    alert on its rule's device and all schema constraints intact. *)
Theorem serial_at_most_one_active `{!GoText, !PgLib, !Env} debounceN js w :
  no_faults → uuids_fresh → serial_inv w →
  at_most_one_active (w_pg (run_serial debounceN js w)) ∧
  device_coherent (w_pg (run_serial debounceN js w)) ∧ Pg_ok (w_pg (run_serial debounceN js w)).
Proof.
  intros Hq Hu Hinv. destruct (run_serial_effect Hq Hu debounceN js w Hinv) as (I & _).
  split_and!; apply I.
Qed.

(** C2: Refinement.  With messages handled one at a time ([run_serial]), while no statement and
    no query fails ([no_faults]) and generated ids are fresh, from a state of the serial
    invariant: topic and payload parsing, telemetry write, last-seen debounce,
    loading of rules and active alerts, the decision table, the in-memory streaks
    and the SQL writes together implement, for every rule in the database, the
    automaton [rule_spec] on the readings the jobs carry for that rule: jobs that
    are invalid, of another device or without the metric, and disabled rules, are
    not observed at all. *)
Theorem serial_refines_rule_spec `{!GoText, !PgLib, !Env} debounceN js w rid row :
  no_faults → uuids_fresh → serial_inv w → alert_rules (w_pg w) !! rid = Some row →
  rule_state (run_serial debounceN js w) rid =
  foldl (rule_spec debounceN) (rule_state w rid) (omap (λ j, job_reading j row) js).
Proof. intros Hq Hu Hinv. by apply (run_serial_effect Hq Hu debounceN js w Hinv). Qed.

(** A rule is active after the jobs exactly when its readings call for it. *)
Lemma serial_active_alerting `{!GoText, !PgLib, !Env} (n : nat) js w rid row :
  no_faults → uuids_fresh → serial_inv w → alert_rules (w_pg w) !! rid = Some row →
  w_streaks w = NewBreachTracker → ¬ rule_active (w_pg w) rid →
  (1 <= n)%nat → Z.of_nat (length js) < max_int64 →
  rule_active (w_pg (run_serial (Z.of_nat n) js w)) rid ↔
  alerting n (omap (λ j, job_reading j row) js).
Proof.
  intros Hq Hu Hinv Hrow Hst Hna Hn Hlen.
  destruct (run_serial_effect Hq Hu (Z.of_nat n) js w Hinv) as (_ & _ & A).
  specialize (A rid row Hrow). rewrite <- rule_activeb_spec.
  assert (rule_state w rid = mkRuleState zero_BreachState false) as Hs.
  { unfold rule_state. rewrite Hst. f_equal. apply not_true_is_false. by rewrite rule_activeb_spec. }
  change (rule_activeb _ _) with (rs_active (rule_state (run_serial (Z.of_nat n) js w) rid)).
  rewrite A, Hs. apply rule_spec_alerting; [done|].
  assert (length (omap (λ j, job_reading j row) js) <= length js)%nat; [|lia].
  clear. induction js as [|j js IH]; simpl; [done|]. by destruct (job_reading j row); [apply le_n_S|apply Nat.le_le_succ_r].
Qed.

(** C3: End to end, from a state of the serial invariant and with fresh generated ids: started with no streaks
    and no active alert for a rule, after any sequence of jobs handled one at a time, while
    no statement and no query fails, the rule has an active alert if and only if its readings
    contain [n] consecutive breaches not followed by [n] consecutive clear
    readings.  (With a failed write or read, or with two workers, it need not: see
    [Store.retry_duplicates_alert] and [Pool.concurrent_readings_duplicate_alerts].) *)
Theorem serial_active_iff_runs `{!GoText, !PgLib, !Env} (n : nat) js w rid row :
  no_faults → uuids_fresh → serial_inv w → alert_rules (w_pg w) !! rid = Some row →
  w_streaks w = NewBreachTracker → ¬ rule_active (w_pg w) rid →
  (1 <= n)%nat → Z.of_nat (length js) < max_int64 →
  rule_active (w_pg (run_serial (Z.of_nat n) js w)) rid ↔
  alerting n (omap (λ j, job_reading j row) js).
Proof. apply serial_active_alerting. Qed.

(** ** Witnesses *)

Lemma quiet_Env_no_faults : @no_faults quiet_Env.
Proof. done. Qed.

Lemma quiet_Env_uuids : @uuids_fresh fx_PgLib quiet_Env.
Proof.
  split; [|done]. intros n m E. simpl in E. by apply (inj pretty), (inj (String.append "alert-")).
Qed.

Lemma init_sql_serial : @serial_inv fx_PgLib quiet_Env (fresh_world init_sql).
Proof.
  split; [exact init_sql_ok|by intros i j a b Ha|by intros i a r Ha| |done].
  intros rid [row Hr]. simpl. rewrite decide_False; [done|]. by intros ->.
Qed.

Definition wit_job (lit : string) : job := mkJob (telemetryTopic wit_site wit_device) lit.

(** The seed data's critical rule, which fires above 32 degrees. *)
Definition wit_crit : AlertRuleRow :=
  mkAlertRuleRow temp_sensor_01 "temperature_c" "gt" (float_of_Z 32) "critical" true.

Lemma serial_at_most_one_active_witness :
  at_most_one_active (w_pg (@run_serial wit_GoText fx_PgLib quiet_Env 1 [wit_job "33"; wit_job "33"]
    (fresh_world init_sql))).
Proof.
  apply (@serial_at_most_one_active wit_GoText fx_PgLib quiet_Env 1 [wit_job "33"; wit_job "33"]
    (fresh_world init_sql) quiet_Env_no_faults quiet_Env_uuids init_sql_serial).
Defined.

Lemma serial_refines_rule_spec_witness :
  rule_state (@run_serial wit_GoText fx_PgLib quiet_Env 2 [wit_job "33"; wit_job "20"; wit_job "33"]
    (fresh_world init_sql)) "rule-crit" = mkRuleState (mkBreachState 1 true) false.
Proof.
  rewrite (@serial_refines_rule_spec wit_GoText fx_PgLib quiet_Env 2
    [wit_job "33"; wit_job "20"; wit_job "33"] (fresh_world init_sql) "rule-crit" wit_crit
    quiet_Env_no_faults quiet_Env_uuids init_sql_serial); vm_compute; reflexivity.
Defined.

Lemma serial_active_iff_runs_witness :
  rule_active (w_pg (@run_serial wit_GoText fx_PgLib quiet_Env 2 [wit_job "33"; wit_job "33"; wit_job "20"]
    (fresh_world init_sql))) "rule-crit".
Proof.
  apply (@serial_active_iff_runs wit_GoText fx_PgLib quiet_Env 2 [wit_job "33"; wit_job "33"; wit_job "20"]
    (fresh_world init_sql) "rule-crit" wit_crit quiet_Env_no_faults quiet_Env_uuids init_sql_serial).
  - vm_compute. reflexivity.
  - reflexivity.
  - by intros (i & a & Ha & _).
  - lia.
  - vm_compute. reflexivity.
  - exists [], [false]. split; [vm_compute; reflexivity|].
    intros (a & c & E%(f_equal length)). rewrite !length_app in E. simpl in E. lia.
Defined.

Lemma error_before_write_is_clean_witness :
  same_engine (fresh_world init_sql)
    (run (@process wit_GoText fx_PgLib unreadable_Env 1 (wit_job "33")) (fresh_world init_sql)).2.
Proof.
  apply (@error_before_write_is_clean wit_GoText fx_PgLib unreadable_Env 1 (wit_job "33")
    (fresh_world init_sql) (Wrapf "query alert_rules" NetError)).
  - vm_compute. reflexivity.
  - intros e'. discriminate.
Defined.
