(* ===== verification/Pool.v ===== *)
(** * The worker pool of ingestion/main.go, and the requests running beside it

    [main] connects the MQTT callback to [workerCount] workers through a
    buffered channel; API requests run concurrently against the same databases.
    A configuration holds the channel, each worker's position in its code and
    the requests in flight; one step is one atomic action of one of them. *)

From S2P Require Import Prelude GoStd Alerts Pg World Contract Shared Store Process Engine Fixtures.
Open Scope Z_scope.
Open Scope string_scope.
Open Scope list_scope.

(** Where a worker is in its [for { select ... }] loop. *)
Inductive Worker :=
| Idle                           (* at the select *)
| Running (p : prog World unit)  (* handling a job *)
| Stopped.                       (* returned on ctx.Done() *)

Record Pool := mkPool {
  p_world : World;
  p_jobs : list job;                     (* the channel's buffer *)
  p_workers : list Worker;
  p_requests : list (prog World unit);   (* API requests in flight *)
  p_done : bool;                         (* ctx is cancelled *)
  p_accepted : list job;                 (* history: jobs sent to the channel *)
  p_taken : list job;                    (* history: jobs received from it *)
  p_published : nat;                     (* history: messages delivered by MQTT *)
}.

(** The choices of the scheduler. *)
Inductive choice :=
| Deliver (j : job)              (* the MQTT callback runs *)
| Take (i : nat)                 (* worker i receives from the channel *)
| RunWorker (i : nat)            (* worker i performs its next action *)
| Finish (i : nat)               (* worker i returns to its select *)
| Cancel                         (* SIGTERM *)
| Stop (i : nat)                 (* worker i sees ctx.Done() *)
| Request (p : prog World unit)  (* an API request starts *)
| RunRequest (i : nat)           (* request i performs its next action *)
| EndRequest (i : nat).          (* request i has answered *)

Definition set_world (w : World) (c : Pool) : Pool :=
  mkPool w (p_jobs c) (p_workers c) (p_requests c) (p_done c) (p_accepted c) (p_taken c) (p_published c).
Definition set_workers (ws : list Worker) (c : Pool) : Pool :=
  mkPool (p_world c) (p_jobs c) ws (p_requests c) (p_done c) (p_accepted c) (p_taken c) (p_published c).
Definition set_requests (rs : list (prog World unit)) (c : Pool) : Pool :=
  mkPool (p_world c) (p_jobs c) (p_workers c) rs (p_done c) (p_accepted c) (p_taken c) (p_published c).

(** The subscription callback: a non-blocking send on the channel. *)
Definition deliver (queueSize : nat) (j : job) (c : Pool) : Pool :=
  if decide (length (p_jobs c) < queueSize)%nat
  then mkPool (p_world c) (p_jobs c ++ [j]) (p_workers c) (p_requests c) (p_done c)
         (p_accepted c ++ [j]) (p_taken c) (S (p_published c))
  else let w := p_world c in
       mkPool (set_log (w_log w ++ [mkLogLine "WARN" None "job queue full, dropping message"])
                 (set_dropped (w_messagesDropped w + 1) w))
         (p_jobs c) (p_workers c) (p_requests c) (p_done c)
         (p_accepted c) (p_taken c) (S (p_published c)).

Section Pool.
Context `{!GoText, !PgLib, !Env} (queueSize : nat) (debounceN : Z).

(** One scheduled step; [None] when the choice is not enabled. *)
Definition pool_step (ch : choice) (c : Pool) : option Pool :=
  match ch with
  | Deliver j => Some (deliver queueSize j c)
  | Take i =>
      match p_workers c !! i, p_jobs c with
      | Some Idle, j :: js =>
          Some (mkPool (p_world c) js (<[i := Running (handle_job debounceN j)]> (p_workers c))
                  (p_requests c) (p_done c) (p_accepted c) (p_taken c ++ [j]) (p_published c))
      | _, _ => None
      end
  | RunWorker i =>
      match p_workers c !! i with
      | Some (Running (Act f k)) =>
          let '(b, w) := f (p_world c) in
          Some (set_world w (set_workers (<[i := Running (k b)]> (p_workers c)) c))
      | _ => None
      end
  | Finish i =>
      match p_workers c !! i with
      | Some (Running (Ret _)) => Some (set_workers (<[i := Idle]> (p_workers c)) c)
      | _ => None
      end
  | Cancel =>
      Some (mkPool (p_world c) (p_jobs c) (p_workers c) (p_requests c) true
              (p_accepted c) (p_taken c) (p_published c))
  | Stop i =>
      match p_workers c !! i with
      | Some Idle => if p_done c then Some (set_workers (<[i := Stopped]> (p_workers c)) c) else None
      | _ => None
      end
  | Request p => Some (set_requests (p_requests c ++ [p]) c)
  | RunRequest i =>
      match p_requests c !! i with
      | Some (Act f k) =>
          let '(b, w) := f (p_world c) in
          Some (set_world w (set_requests (<[i := k b]> (p_requests c)) c))
      | _ => None
      end
  | EndRequest i =>
      match p_requests c !! i with
      | Some (Ret _) => Some (set_requests (delete i (p_requests c)) c)
      | _ => None
      end
  end.

Fixpoint pool_run (chs : list choice) (c : Pool) : option Pool :=
  match chs with
  | [] => Some c
  | ch :: chs' => match pool_step ch c with Some c' => pool_run chs' c' | None => None end
  end.

End Pool.

(** [main] after the worker loop has been started. *)
Definition pool_start (w : World) (workerCount : nat) : Pool :=
  mkPool w [] (replicate workerCount Idle) [] false [] [] 0.

(** Requests started by a schedule have the guarantee. *)
Definition request_ok (ch : choice) : Prop :=
  match ch with Request p => each_step world_step p | _ => True end.

(** What holds of the channel in every configuration. *)
Record channel_ok (queueSize workerCount : nat) (dropped0 : Z) (c : Pool) : Prop := {
  ch_bounded : (length (p_jobs c) <= queueSize)%nat;
  ch_fifo : p_accepted c = p_taken c ++ p_jobs c;
  ch_workers : length (p_workers c) = workerCount;
  ch_conserved : Z.of_nat (p_published c) =
    Z.of_nat (length (p_accepted c)) + (w_messagesDropped (p_world c) - dropped0);
}.

(** Every program in flight has the guarantee. *)
Definition worker_ok (x : Worker) : Prop :=
  match x with Running p => each_step world_step p | _ => True end.

Definition threads_ok (c : Pool) : Prop :=
  Forall worker_ok (p_workers c) ∧ Forall (each_step world_step) (p_requests c).

(** What one step of the whole system does to the world: an action with the
    guarantee, or the drop of a message. *)
Inductive pool_world_step (w : World) : World → Prop :=
| pws_same : pool_world_step w w
| pws_action w' : world_step w w' → pool_world_step w w'
| pws_drop : pool_world_step w
    (set_log (w_log w ++ [mkLogLine "WARN" None "job queue full, dropping message"])
       (set_dropped (w_messagesDropped w + 1) w)).

(** ** Invariants of every schedule *)

Section PoolFacts.
Context `{!GoText, !PgLib, !Env} (queueSize : nat) (debounceN : Z).

(** Steps that leave the channel alone. *)
Lemma channel_ok_same workerCount d0 c c' :
  p_jobs c' = p_jobs c → p_accepted c' = p_accepted c → p_taken c' = p_taken c →
  p_published c' = p_published c → length (p_workers c') = length (p_workers c) →
  w_messagesDropped (p_world c') = w_messagesDropped (p_world c) →
  channel_ok queueSize workerCount d0 c → channel_ok queueSize workerCount d0 c'.
Proof. intros E1 E2 E3 E4 E5 E6 [C1 C2 C3 C4]. split; rewrite ?E1, ?E2, ?E3, ?E4, ?E5, ?E6; done. Qed.

Lemma deliver_ok workerCount d0 j c :
  channel_ok queueSize workerCount d0 c →
  channel_ok queueSize workerCount d0 (deliver queueSize j c) ∧
  pool_world_step (p_world c) (p_world (deliver queueSize j c)).
Proof.
  intros [C1 C2 C3 C4]. unfold deliver. case_decide;
    (split; [|by (apply pws_same || apply pws_drop)]); split; simpl;
    rewrite ?length_app; simpl; try done; try lia.
  by rewrite C2, app_assoc.
Qed.

(** One step, seen by the threads, the channel and the world. *)
Lemma pool_step_ok workerCount d0 ch c c' :
  threads_ok c → channel_ok queueSize workerCount d0 c → request_ok ch →
  pool_step queueSize debounceN ch c = Some c' →
  threads_ok c' ∧ channel_ok queueSize workerCount d0 c' ∧ pool_world_step (p_world c) (p_world c').
Proof.
  intros [Hws Hrs] HC Hreq Hstep.
  assert (∀ i x, worker_ok x → Forall worker_ok (<[i:=x]> (p_workers c))) as Hins
    by (intros; by apply Forall_insert).
  destruct ch as [j|i|i|i| |i|p|i|i]; simpl in Hstep; simplify_eq.
  - split; [|by apply deliver_ok]. unfold deliver. by case_decide.
  - destruct (p_workers c !! i) as [[]|] eqn:Ei, (p_jobs c) as [|j js] eqn:Ej; simplify_eq.
    split; [by split; [apply Hins, each_step_handle_job|]|]. split; [|constructor].
    destruct HC as [C1 C2 C3 C4]. rewrite Ej in *. split; simpl in *; rewrite ?length_insert; try done; [lia|].
    by rewrite C2, <- app_assoc.
  - destruct (p_workers c !! i) as [[|[|B f k]|]|] eqn:Ei; simplify_eq.
    destruct (Forall_lookup_1 _ _ _ _ Hws Ei (p_world c)) as [Ha Hb].
    destruct (f (p_world c)) as [b w]. simplify_eq. split; [split; [by apply Hins|done]|].
    split; [|by constructor]. eapply channel_ok_same; [..|exact HC]; try done; simpl;
      [by rewrite length_insert | by apply ws_dropped].
  - destruct (p_workers c !! i) as [[|[|B f k]|]|] eqn:Ei; simplify_eq.
    split; [split; [by apply Hins|done]|]. split; [|constructor].
    eapply channel_ok_same; [..|exact HC]; try done; simpl. by rewrite length_insert.
  - split; [done|]. split; [|constructor]. by eapply channel_ok_same; [..|exact HC].
  - destruct (p_workers c !! i) as [[]|] eqn:Ei; simplify_eq. case_match; simplify_eq.
    split; [split; [by apply Hins|done]|]. split; [|constructor].
    eapply channel_ok_same; [..|exact HC]; try done; simpl. by rewrite length_insert.
  - split; [split; [done|apply Forall_app; by repeat constructor]|]. split; [|constructor].
    by eapply channel_ok_same; [..|exact HC].
  - destruct (p_requests c !! i) as [[|B f k]|] eqn:Ei; simplify_eq.
    destruct (Forall_lookup_1 _ _ _ _ Hrs Ei (p_world c)) as [Ha Hb].
    destruct (f (p_world c)) as [b w]. simplify_eq. split; [split; [done|by apply Forall_insert]|].
    split; [|by constructor]. eapply channel_ok_same; [..|exact HC]; try done. by apply ws_dropped.
  - destruct (p_requests c !! i) as [[|B f k]|] eqn:Ei; simplify_eq.
    split; [split; [done|by apply Forall_delete]|]. split; [|constructor].
    by eapply channel_ok_same; [..|exact HC].
Qed.

(** The same for a whole schedule. *)
Lemma pool_run_ok workerCount d0 chs c c' :
  threads_ok c → channel_ok queueSize workerCount d0 c → Forall request_ok chs →
  pool_run queueSize debounceN chs c = Some c' →
  threads_ok c' ∧ channel_ok queueSize workerCount d0 c' ∧
  rtc pool_world_step (p_world c) (p_world c').
Proof.
  intros HT HC HF. revert c HT HC. induction HF as [|ch chs Hch HF IH]; simpl; intros c HT HC Hrun;
    [by simplify_eq|].
  destruct (pool_step _ _ ch c) as [c1|] eqn:E; [|done].
  destruct (pool_step_ok workerCount d0 ch c c1 HT HC Hch E) as (HT1 & HC1 & Hw).
  destruct (IH c1 HT1 HC1 Hrun) as (HT2 & HC2 & Hw2). split_and!; [done..|]. by econstructor.
Qed.

Lemma pool_start_ok w workerCount :
  threads_ok (pool_start w workerCount) ∧
  channel_ok queueSize workerCount (w_messagesDropped w) (pool_start w workerCount).
Proof.
  split; [split; [by apply Forall_replicate | done]|].
  split; simpl; [lia|done|by rewrite length_replicate|lia].
Qed.

End PoolFacts.

(** ** Properties *)

(** A world reached by system steps: what is kept and what only grows. *)
Lemma pool_world_steps_safe w w' :
  rtc pool_world_step w w' → Pg_ok (w_pg w) →
  Pg_ok (w_pg w') ∧ alerts_evolve (w_pg w) (w_pg w') ∧
  w_telemetry w `prefix_of` w_telemetry w' ∧ w_log w `prefix_of` w_log w'.
Proof.
  induction 1 as [|w1 w2 w3 H12 _ IH]; intros Hok.
  { split_and!; [done|apply alerts_evolve_refl|done|done]. }
  assert (Pg_ok (w_pg w2) ∧ alerts_evolve (w_pg w1) (w_pg w2) ∧
    w_telemetry w1 `prefix_of` w_telemetry w2 ∧ w_log w1 `prefix_of` w_log w2) as (A & B & C & D).
  { destruct H12 as [|w2 [Hpg ? ? _ _ _ _]|].
    - split_and!; [done|apply alerts_evolve_refl|done|done].
    - destruct (Hpg Hok) as (? & ? & _). done.
    - split_and!; simpl; [done|apply alerts_evolve_refl|done|by eexists]. }
  destruct (IH A) as (A' & B' & C' & D').
  split_and!; [done|by eapply alerts_evolve_trans|by etransitivity|by etransitivity].
Qed.

(** A configuration reached by any schedule: the constraints hold, alerts have only
    moved forward, nothing stored or logged is lost. *)
Definition safe_since (w w' : World) : Prop :=
  Pg_ok (w_pg w') ∧
  (∀ id a, alerts (w_pg w) !! id = Some a →
     ∃ a', alerts (w_pg w') !! id = Some a' ∧ rtc alert_step a a' ∧
       (al_alert_rule_id a' = al_alert_rule_id a ∧ al_device_id a' = al_device_id a ∧
        al_triggered_value a' = al_triggered_value a ∧ al_severity a' = al_severity a ∧
        al_triggered_at a' = al_triggered_at a) ∧
       (al_status a = resolved → a' = a)) ∧
  w_telemetry w `prefix_of` w_telemetry w' ∧ w_log w `prefix_of` w_log w'.

Lemma pool_safe `{!GoText, !PgLib, !Env} queueSize debounceN workerCount w chs c' :
  Pg_ok (w_pg w) → Forall request_ok chs →
  pool_run queueSize debounceN chs (pool_start w workerCount) = Some c' →
  safe_since w (p_world c').
Proof.
  intros Hok HF Hrun. destruct (pool_start_ok queueSize w workerCount) as [HT HC].
  destruct (pool_run_ok queueSize debounceN workerCount _ chs _ c' HT HC HF Hrun) as (_ & _ & Hw).
  destruct (pool_world_steps_safe _ _ Hw Hok) as (H1' & H2' & H3' & H4').
  split_and!; [done| |done|done]. intros id a Ha.
  destruct (H2' id a Ha) as (a' & Ha' & Hs). exists a'.
  split; [done|]. split; [done|]. split; [by apply alert_steps_immutable|].
  intros. by apply resolved_terminal.
Qed.

(** Deliver a job, have worker [i] take it and run its [n] actions. *)
Definition whole_job (lit : string) (i n : nat) : list choice :=
  [Deliver (wit_job lit); Take i] ++ replicate n (RunWorker i) ++ [Finish i].

(** The configuration a schedule of the default pool reaches on the seed data. *)
Definition wit_run (queueSize : nat) (chs : list choice) : option Pool :=
  @pool_run wit_GoText fx_PgLib quiet_Env queueSize defaultDebounceBreaches chs
    (pool_start (fresh_world init_sql) (Z.to_nat defaultWorkerCount)).
Definition wit_end (queueSize : nat) (chs : list choice) : Pool :=
  default (pool_start (fresh_world init_sql) 0) (wit_run queueSize chs).

(** C37: The job channel.  In every configuration the buffer holds at most
    [queueSize] jobs; jobs are received in the order they were accepted, none is
    lost or duplicated between the two ends; every delivered message was either
    accepted or counted in messagesDropped; the number of workers is constant. *)
Theorem channel_invariant `{!GoText, !PgLib, !Env} queueSize debounceN workerCount w chs c' :
  Forall request_ok chs →
  pool_run queueSize debounceN chs (pool_start w workerCount) = Some c' →
  (length (p_jobs c') <= queueSize)%nat ∧
  p_accepted c' = p_taken c' ++ p_jobs c' ∧
  Z.of_nat (p_published c') =
    Z.of_nat (length (p_accepted c')) + (w_messagesDropped (p_world c') - w_messagesDropped w) ∧
  length (p_workers c') = workerCount.
Proof.
  intros HF Hrun. destruct (pool_start_ok queueSize w workerCount) as [HT HC].
  destruct (pool_run_ok queueSize debounceN workerCount _ chs _ c' HT HC HF Hrun)
    as (_ & [C1 C2 C3 C4] & _). done.
Qed.

Lemma channel_invariant_witness :
  (length (p_jobs (wit_end 1 [Deliver (wit_job "33"); Deliver (wit_job "34")])) <= 1)%nat.
Proof.
  apply (@channel_invariant wit_GoText fx_PgLib quiet_Env 1 defaultDebounceBreaches
           (Z.to_nat defaultWorkerCount) (fresh_world init_sql)
           [Deliver (wit_job "33"); Deliver (wit_job "34")]).
  - repeat constructor.
  - unfold wit_end, wit_run. apply Some_default. vm_compute. reflexivity.
Defined.

(** Delivery never blocks the MQTT client, and drops a message exactly when the
    buffer is full. *)
Theorem delivery_never_blocks `{!GoText, !PgLib, !Env} queueSize debounceN j c :
  ∃ c', pool_step queueSize debounceN (Deliver j) c = Some c' ∧
    p_workers c' = p_workers c ∧
    (w_messagesDropped (p_world c') ≠ w_messagesDropped (p_world c) ↔
       (queueSize <= length (p_jobs c))%nat) ∧
    ((length (p_jobs c) < queueSize)%nat → p_jobs c' = p_jobs c ++ [j] ∧ p_world c' = p_world c).
Proof.
  eexists. split; [done|]. unfold deliver. case_decide; simpl.
  - split_and!; [done| |done]. split; [done|lia].
  - split_and!; [done| |lia]. split; lia.
Qed.

(** Every job a worker has taken is finished: from any configuration, letting
    that worker alone run brings it back to its select after finitely many
    actions, with the effect of running the rest of the handler sequentially. *)
Theorem worker_finishes_job `{!GoText, !PgLib, !Env} queueSize debounceN c i p :
  p_workers c !! i = Some (Running p) →
  ∃ n, pool_run queueSize debounceN (replicate n (RunWorker i) ++ [Finish i]) c =
       Some (set_world (run p (p_world c)).2 (set_workers (<[i := Idle]> (p_workers c)) c)).
Proof.
  revert c. induction p as [[]|B f k IH]; intros c Hi.
  - exists 0%nat. simpl. rewrite Hi. by destruct c.
  - simpl. destruct (f (p_world c)) as [b w] eqn:Ef.
    destruct (IH b (set_world w (set_workers (<[i := Running (k b)]> (p_workers c)) c))) as [n Hn].
    { simpl. apply list_lookup_insert_eq. by eapply lookup_lt_Some. }
    exists (S n). simpl. rewrite Hi, Ef, Hn. simpl. unfold set_world, set_workers. simpl.
    by rewrite list_insert_insert_eq.
Qed.

Lemma worker_finishes_job_witness :
  ∃ n, @pool_run wit_GoText fx_PgLib quiet_Env 256 3 (replicate n (RunWorker 0) ++ [Finish 0])
    (set_workers [Running (@handle_job wit_GoText fx_PgLib quiet_Env 3 (wit_job "33"))]
       (pool_start (fresh_world init_sql) 1)) =
  Some (set_world (run (@handle_job wit_GoText fx_PgLib quiet_Env 3 (wit_job "33")) (fresh_world init_sql)).2
    (set_workers [Idle] (pool_start (fresh_world init_sql) 1))).
Proof.
  apply (@worker_finishes_job wit_GoText fx_PgLib quiet_Env 256 3
    (set_workers [Running (@handle_job wit_GoText fx_PgLib quiet_Env 3 (wit_job "33"))]
       (pool_start (fresh_world init_sql) 1)) 0%nat). reflexivity.
Defined.

(** Two readings of one device, the second one handled entirely between the
    first one's load of the active alerts and its write. *)
Definition race : list choice :=
  whole_job "33" 0 12 ++ whole_job "33" 0 11 ++
  [Deliver (wit_job "33"); Deliver (wit_job "33"); Take 0; Take 1] ++
  replicate 9 (RunWorker 0) ++ replicate 17 (RunWorker 1) ++ [Finish 1] ++
  replicate 8 (RunWorker 0) ++ [Finish 0].

(** C7: The invariant "at most one active alert per rule" of docs/alert-engine.md
    does not survive the worker pool: with the default settings, the seed data
    and no failure at all, two readings of one device handled concurrently both
    see no active alert and both create one. *)
Theorem concurrent_readings_duplicate_alerts :
  ∃ c',
    @pool_run wit_GoText fx_PgLib quiet_Env (Z.to_nat defaultQueueSize) defaultDebounceBreaches
      race (pool_start (fresh_world init_sql) (Z.to_nat defaultWorkerCount)) = Some c' ∧
    at_most_one_active init_sql ∧ ¬ at_most_one_active (w_pg (p_world c')).
Proof.
  exists (wit_end 256 race). split; [unfold wit_end, wit_run; apply Some_default; vm_compute; reflexivity|].
  split; [by intros i j a b Ha|].
  apply (duplicateb_sound _ "alert-39" "alert-43"). vm_compute. reflexivity.
Qed.
