(* ===== verification/Shutdown.v ===== *)
(** * Draining and abandoning the job queue

    What becomes of the accepted messages of the worker pool ([main] and [worker] of
    ingestion/main.go): as long as a worker has not returned, the queue can be
    emptied; once all have returned on [ctx.Done()], what the callback
    still puts into the channel, or has put there, is never handled. *)

From S2P Require Import Prelude GoStd Alerts Pg World Contract Fixtures Shared Store Process Engine Pool.
Open Scope Z_scope.
Open Scope string_scope.
Open Scope list_scope.

Section Shutdown.
Context `{!GoText, !PgLib, !Env} (queueSize : nat) (debounceN : Z).

Lemma pool_run_app chs1 chs2 c :
  pool_run queueSize debounceN (chs1 ++ chs2) c =
  match pool_run queueSize debounceN chs1 c with
  | Some c' => pool_run queueSize debounceN chs2 c'
  | None => None
  end.
Proof. revert c. induction chs1 as [|ch chs1 IH]; intros c; simpl; [done|]. by destruct (pool_step _ _ ch c). Qed.

(** ** Draining *)

(** The world after the jobs have been handled one after the other. *)
Definition handled (w : World) (js : list job) : World :=
  foldl (λ w j, (run (handle_job debounceN j) w).2) w js.

(** The world after a worker has finished what it is doing. *)
Definition settled (x : Worker) (w : World) : World :=
  match x with Running p => (run p w).2 | _ => w end.

Definition drained (w : World) (ws : list Worker) (c : Pool) : Pool :=
  mkPool w [] ws (p_requests c) (p_done c) (p_accepted c) (p_taken c ++ p_jobs c) (p_published c).

(** One worker at its select empties the queue. *)
Lemma idle_worker_drains c i :
  p_workers c !! i = Some Idle →
  ∃ chs, pool_run queueSize debounceN chs c = Some (drained (handled (p_world c) (p_jobs c)) (p_workers c) c).
Proof.
  remember (p_jobs c) as js eqn:Ejs. revert c Ejs. induction js as [|j js IH]; intros c Ejs Hi.
  - exists []. unfold drained. rewrite <- Ejs, app_nil_r. destruct c. cbn in *. by subst.
  - set (c1 := mkPool (p_world c) js (<[i := Running (handle_job debounceN j)]> (p_workers c))
      (p_requests c) (p_done c) (p_accepted c) (p_taken c ++ [j]) (p_published c)).
    assert (i < length (p_workers c))%nat as Hlt by (by eapply lookup_lt_Some).
    destruct (worker_finishes_job queueSize debounceN c1 i (handle_job debounceN j)) as [n Hn];
      [by apply list_lookup_insert_eq|].
    match type of Hn with _ = Some ?c2 => destruct (IH c2) as [chs Hchs] end; [done| |].
    { simpl. by rewrite list_insert_insert_eq, list_insert_id. }
    exists (Take i :: (replicate n (RunWorker i) ++ [Finish i]) ++ chs). cbn [pool_run pool_step]. rewrite Hi, <- Ejs.
    fold c1. rewrite pool_run_app, Hn, Hchs. unfold drained. cbn. f_equal.
    rewrite list_insert_insert_eq, list_insert_id, <- app_assoc by done. by rewrite <- Ejs.
Qed.

(** The queue can always be emptied.  From any configuration, even after SIGTERM, one worker that has
    not returned is enough: scheduled alone it finishes what it is doing and then
    handles every queued job, each once and in order, with the effect of running
    the handler on them one after the other. *)
Theorem queue_drains c i x :
  p_workers c !! i = Some x → x ≠ Stopped →
  ∃ chs, pool_run queueSize debounceN chs c =
    Some (drained (handled (settled x (p_world c)) (p_jobs c)) (<[i := Idle]> (p_workers c)) c).
Proof.
  intros Hi Hx. destruct x as [|p|]; [| |done]; cbn [settled].
  - rewrite list_insert_id by done. by apply idle_worker_drains with i.
  - destruct (worker_finishes_job queueSize debounceN c i p Hi) as [n Hn].
    match type of Hn with _ = Some ?c2 => destruct (idle_worker_drains c2 i) as [chs Hchs] end.
    { simpl. apply list_lookup_insert_eq. by eapply lookup_lt_Some. }
    exists ((replicate n (RunWorker i) ++ [Finish i]) ++ chs). by rewrite pool_run_app, Hn, Hchs.
Qed.

(** ** Abandoning *)

Definition all_stopped (c : Pool) : Prop := Forall (eq Stopped) (p_workers c).

Lemma stopped_lookup c i x : all_stopped c → p_workers c !! i = Some x → x = Stopped.
Proof. intros Hc Hi. unfold all_stopped in Hc. rewrite Forall_lookup in Hc. by rewrite (Hc i x Hi). Qed.

(** A stopped pool only ever gains queued jobs. *)
Lemma stopped_step ch c c' :
  all_stopped c → pool_step queueSize debounceN ch c = Some c' →
  all_stopped c' ∧ p_taken c' = p_taken c ∧ p_jobs c `prefix_of` p_jobs c'.
Proof.
  intros Hc. assert (∀ i, p_workers c !! i = Some Stopped ∨ p_workers c !! i = None) as Hs.
  { intros i. destruct (p_workers c !! i) as [x|] eqn:E; [left|by right]. by rewrite (stopped_lookup c i x). }
  destruct ch as [j|i|i|i| |i|p|i|i]; cbn [pool_step];
    try (destruct (Hs i) as [-> | ->]; done).
  - intros [= <-]. unfold deliver. case_decide; simpl; split_and!; try done. by eexists.
  - intros [= <-]. by split_and!.
  - intros [= <-]. by split_and!.
  - destruct (p_requests c !! i) as [[|B f k]|]; try done. destruct (f (p_world c)). intros [= <-]. by split_and!.
  - destruct (p_requests c !! i) as [[|]|]; try done. intros [= <-]. by split_and!.
Qed.

Lemma stopped_run chs c c' :
  all_stopped c → pool_run queueSize debounceN chs c = Some c' →
  all_stopped c' ∧ p_taken c' = p_taken c ∧ p_jobs c `prefix_of` p_jobs c'.
Proof.
  revert c. induction chs as [|ch chs IH]; intros c Hc; simpl; [by intros [= <-]|].
  destruct (pool_step queueSize debounceN ch c) as [c1|] eqn:E; [|done]. intros Hrun.
  destruct (stopped_step ch c c1 Hc E) as (Hc1 & Et & Hp). destruct (IH c1 Hc1 Hrun) as (? & Et' & Hp').
  split_and!; [done|congruence|by etransitivity].
Qed.

(** The schedule: messages arrive, SIGTERM, every worker's select picks [ctx.Done()]. *)
Definition deliver_then_stop (js : list job) (workerCount : nat) : list choice :=
  (Deliver <$> js) ++ Cancel :: (Stop <$> seq 0 workerCount).

Lemma deliver_all js c :
  (length (p_jobs c) + length js <= queueSize)%nat →
  pool_run queueSize debounceN (Deliver <$> js) c =
    Some (mkPool (p_world c) (p_jobs c ++ js) (p_workers c) (p_requests c) (p_done c) (p_accepted c ++ js)
      (p_taken c) (p_published c + length js)).
Proof.
  revert c. induction js as [|j js IH]; intros c Hl; cbn [fmap list_fmap pool_run pool_step length] in *.
  - rewrite !app_nil_r, Nat.add_0_r. by destruct c.
  - unfold deliver. rewrite decide_True by lia. rewrite IH by (cbn; rewrite length_app; cbn; lia).
    cbn. rewrite <- !app_assoc. do 2 f_equal. lia.
Qed.

Lemma stop_all n k c :
  p_done c = true → p_workers c = replicate k Stopped ++ replicate n Idle →
  pool_run queueSize debounceN (Stop <$> seq k n) c = Some (set_workers (replicate (k + n) Stopped) c).
Proof.
  revert k c. induction n as [|n IH]; intros k c Hd Hw; cbn [seq fmap list_fmap pool_run pool_step].
  - rewrite Nat.add_0_r. rewrite app_nil_r in Hw. unfold set_workers. rewrite <- Hw. by destruct c.
  - rewrite Hw, lookup_app_r, length_replicate, Nat.sub_diag by (by rewrite length_replicate). cbn [replicate lookup list_lookup].
    rewrite Hd. rewrite (IH (S k)).
    + unfold set_workers. cbn. by rewrite Nat.add_succ_r.
    + done.
    + cbn. rewrite insert_app_r_alt, length_replicate, Nat.sub_diag by (by rewrite length_replicate). cbn.
      by rewrite (cons_middle _ _ (replicate n Idle)), app_assoc, <- replicate_S_end.
Qed.

(** C39: SIGTERM can abandon accepted messages.  Whatever messages are in the queue (as many as fit) when
    the signal comes, every worker may return at its select before taking one of
    them: nothing has been done for them, none is counted as dropped, and, however
    the process goes on until it exits, none is ever handled: [main] cancels the
    workers' context before it disconnects from the broker and does not wait
    for the queue. *)
Theorem shutdown_abandons_queue workerCount w js :
  (length js <= queueSize)%nat →
  ∃ c, pool_run queueSize debounceN (deliver_then_stop js workerCount) (pool_start w workerCount) = Some c ∧
    p_accepted c = js ∧ p_world c = w ∧
    ∀ chs c', pool_run queueSize debounceN chs c = Some c' → p_taken c' = [] ∧ js `prefix_of` p_jobs c'.
Proof.
  intros Hl. unfold deliver_then_stop. rewrite pool_run_app, deliver_all by done. cbn [pool_run pool_step].
  rewrite stop_all by done. eexists. split; [reflexivity|]. split_and!; [done|done|].
  intros chs c' Hrun. apply stopped_run in Hrun as (_ & Ht & Hp); [done|]. by apply Forall_replicate.
Qed.

End Shutdown.

(** ** Witnesses *)

(** Two queued messages and a worker in the middle of a third. *)
Definition busy_pool : Pool :=
  mkPool (fresh_world init_sql) [wit_job "34"; wit_job "35"]
    [Stopped; Running (@handle_job wit_GoText fx_PgLib quiet_Env 3 (wit_job "33"))] [] true
    [wit_job "33"; wit_job "34"; wit_job "35"] [wit_job "33"] 3.

Lemma queue_drains_witness :
  ∃ chs, @pool_run wit_GoText fx_PgLib quiet_Env 256 3 chs busy_pool =
    Some (drained (@handled wit_GoText fx_PgLib quiet_Env 3
      (run (@handle_job wit_GoText fx_PgLib quiet_Env 3 (wit_job "33")) (fresh_world init_sql)).2
      [wit_job "34"; wit_job "35"]) [Stopped; Idle] busy_pool).
Proof.
  apply (@queue_drains wit_GoText fx_PgLib quiet_Env 256 3 busy_pool 1
    (Running (@handle_job wit_GoText fx_PgLib quiet_Env 3 (wit_job "33")))); [reflexivity|discriminate].
Defined.

Lemma shutdown_abandons_queue_witness :
  ∃ c, @pool_run wit_GoText fx_PgLib quiet_Env 256 3 (deliver_then_stop [wit_job "33"; wit_job "34"] 4)
      (pool_start (fresh_world init_sql) 4) = Some c ∧
    p_accepted c = [wit_job "33"; wit_job "34"] ∧ p_world c = fresh_world init_sql ∧
    ∀ chs c', @pool_run wit_GoText fx_PgLib quiet_Env 256 3 chs c = Some c' →
      p_taken c' = [] ∧ [wit_job "33"; wit_job "34"] `prefix_of` p_jobs c'.
Proof.
  apply (@shutdown_abandons_queue wit_GoText fx_PgLib quiet_Env 256 3 4 (fresh_world init_sql)
    [wit_job "33"; wit_job "34"]). simpl. lia.
Defined.
