(* ===== verification/Client.v ===== *)
(** * A client of the running system

    One more program beside the threads of [Pool]: what it gets for an answer while the
    callback, the workers and the other requests of main.go go on between its actions;
    and the rule that an invariant every thread keeps may be assumed by each. *)

From S2P Require Import Prelude GoStd Alerts Pg World Contract Shared Store Process Pool.
Open Scope Z_scope.
Open Scope string_scope.
Open Scope list_scope.

Section Client.
Context `{!GoText, !PgLib, !Env} (queueSize : nat) (debounceN : Z).

(** The schedule as the client sees it: [None] is its own next action. *)
Fixpoint client_run {A} (chs : list (option choice)) (p : prog World A) (c : Pool) : option (A * Pool) :=
  match chs with
  | [] => match p with Ret a => Some (a, c) | Act _ _ => None end
  | Some ch :: chs' =>
      match pool_step queueSize debounceN ch c with Some c' => client_run chs' p c' | None => None end
  | None :: chs' =>
      match p with
      | Act f k => let '(b, w) := f (p_world c) in client_run chs' (k b) (set_world w c)
      | Ret _ => None
      end
  end.

(** ** Invariants of all threads *)

Context (I : World → Prop).

Definition keeps_always {A} (p : prog World A) : Prop := keeps I p (λ _, True).

Definition worker_keeps (x : Worker) : Prop :=
  match x with Running p => keeps_always p | _ => True end.

Record pool_inv (c : Pool) : Prop := {
  pi_world : I (p_world c);
  pi_workers : Forall worker_keeps (p_workers c);
  pi_requests : Forall keeps_always (p_requests c);
}.

(** Requests started by a schedule keep the invariant. *)
Definition choice_keeps (ch : choice) : Prop :=
  match ch with Request p => keeps_always p | _ => True end.

Context (job_keeps : ∀ j, keeps_always (handle_job debounceN j)).
Context (drop_keeps : ∀ w l n, I w → I (set_log l (set_dropped n w))).

Lemma pool_step_keeps ch c c' :
  choice_keeps ch → pool_step queueSize debounceN ch c = Some c' → pool_inv c → pool_inv c'.
Proof.
  intros Hch Hstep [Hw Hws Hrs].
  assert (∀ i x, worker_keeps x → Forall worker_keeps (<[i:=x]> (p_workers c))) as Hins
    by (intros; by apply Forall_insert).
  destruct ch as [j|i|i|i| |i|p|i|i]; simpl in Hstep; simplify_eq.
  - unfold deliver. case_decide; split; simpl; auto.
  - destruct (p_workers c !! i) as [[]|] eqn:Ei, (p_jobs c) as [|j js]; simplify_eq.
    split; simpl; [done|apply Hins, job_keeps|done].
  - destruct (p_workers c !! i) as [[|[|B f k]|]|] eqn:Ei; simplify_eq.
    destruct (keeps_step I f k _ _ (Forall_lookup_1 _ _ _ _ Hws Ei) Hw) as [Ha Hb].
    destruct (f (p_world c)) as [b w]. simplify_eq. split; simpl; [done|by apply Hins|done].
  - destruct (p_workers c !! i) as [[|[|B f k]|]|] eqn:Ei; simplify_eq. split; simpl; [done|by apply Hins|done].
  - done.
  - destruct (p_workers c !! i) as [[]|] eqn:Ei; simplify_eq. case_match; simplify_eq.
    split; simpl; [done|by apply Hins|done].
  - split; simpl; [done|done|]. apply Forall_app. by repeat constructor.
  - destruct (p_requests c !! i) as [[|B f k]|] eqn:Ei; simplify_eq.
    destruct (keeps_step I f k _ _ (Forall_lookup_1 _ _ _ _ Hrs Ei) Hw) as [Ha Hb].
    destruct (f (p_world c)) as [b w]. simplify_eq. split; simpl; [done|done|by apply Forall_insert].
  - destruct (p_requests c !! i) as [[|B f k]|] eqn:Ei; simplify_eq. split; simpl; [done|done|by apply Forall_delete].
Qed.

Lemma pool_start_keeps w workerCount : I w → pool_inv (pool_start w workerCount).
Proof. intros Hw. split; simpl; [done|by apply Forall_replicate|done]. Qed.

(** What [keeps] promises of a program, its client gets, however the system
    interleaves with it. *)
Lemma client_run_keeps {A} chs (p : prog World A) (Q : A → Prop) c a c' :
  Forall (λ o, from_option choice_keeps True o) chs → keeps I p Q → pool_inv c →
  client_run chs p c = Some (a, c') → Q a ∧ pool_inv c'.
Proof.
  intros HF. revert p c. induction HF as [|[ch|] chs Hch HF IH]; intros p c Hp Hc; cbn [client_run].
  - destruct p as [b|]; [|done]. by intros [= <- <-].
  - destruct (pool_step _ _ ch c) as [c1|] eqn:E; [|done]. apply IH; [done|]. by eapply pool_step_keeps.
  - destruct p as [|B f k]; [done|]. destruct Hc as [Hw Hws Hrs]. destruct (keeps_step I f k Q _ Hp Hw) as [Ha Hb].
    destruct (f (p_world c)) as [b w]. apply IH; [done|]. by split.
Qed.

End Client.
