(* ===== verification/Liveness.v ===== *)
(** * Every accepted message is handled

    Infinite runs of the worker pool of ingestion/main.go under a fair scheduler: while
    no signal arrives, each message on the channel is taken by a worker, in its turn, and
    handled to the end. *)

From S2P Require Import Prelude GoStd Alerts Pg World Contract Fixtures Shared Store Process Engine Pool.
Open Scope Z_scope.
Open Scope string_scope.
Open Scope list_scope.

(** The choices that move worker [i]. *)
Definition moves (i : nat) (ch : choice) : Prop :=
  match ch with Take j | RunWorker j | Finish j | Stop j => j = i | _ => False end.

#[global] Instance moves_dec i ch : stdpp.base.Decision (moves i ch).
Proof. destruct ch; simpl; apply _. Defined.

Definition is_take (ch : choice) : Prop := match ch with Take _ => True | _ => False end.

#[global] Instance is_take_dec ch : stdpp.base.Decision (is_take ch).
Proof. destruct ch; simpl; apply _. Defined.

(** Worker [i] can move: its select has something to receive, or it is handling a
    job. *)
Definition worker_enabled (i : nat) (c : Pool) : Prop :=
  match p_workers c !! i with
  | Some Idle => p_jobs c ≠ [] ∨ p_done c = true
  | Some (Running _) => True
  | _ => False
  end.

Section Fair.
Context `{!GoText, !PgLib, !Env} (queueSize : nat) (debounceN : Z).
Context (sched : nat → choice) (conf : nat → Pool).

(** An infinite run, and weak fairness for worker [i]: again and again it moves or
    cannot. *)
Definition infinite_run : Prop :=
  ∀ n, pool_step queueSize debounceN (sched n) (conf n) = Some (conf (S n)).

Definition fair (i : nat) : Prop :=
  ∀ n, ∃ m, (n <= m)%nat ∧ (¬ worker_enabled i (conf m) ∨ moves i (sched m)).

Context (Hrun : infinite_run).

(** ** One step *)

Lemma worker_stays i n : ¬ moves i (sched n) → p_workers (conf (S n)) !! i = p_workers (conf n) !! i.
Proof.
  pose proof (Hrun n) as Hs. intros Hm. destruct (sched n) as [j|k|k|k| |k|p|k|k]; simpl in *.
  1: { injection Hs as <-. unfold deliver. by case_decide. }
  all: repeat (case_match; try done); injection Hs as <-; simpl; by rewrite ?list_lookup_insert_ne.
Qed.

Lemma running_moves i n p :
  p_workers (conf n) !! i = Some (Running p) → moves i (sched n) →
  match p with
  | Ret _ => sched n = Finish i
  | Act f k => p_workers (conf (S n)) !! i = Some (Running (k (f (p_world (conf n))).1))
  end.
Proof.
  pose proof (Hrun n) as Hs. intros Hi Hm. assert (i < length (p_workers (conf n)))%nat by (by eapply lookup_lt_Some).
  destruct (sched n) as [j|k|k|k| |k|q|k|k]; simpl in Hm; subst; try done; simpl in Hs; rewrite Hi in Hs.
  - done.
  - destruct p as [|B f k]; [done|]. destruct (f (p_world (conf n))) as [b w]. simplify_eq. rewrite <- Hs. simpl.
    by rewrite list_lookup_insert_eq.
  - by destruct p.
  - done.
Qed.

Lemma workers_length_step n : length (p_workers (conf (S n))) = length (p_workers (conf n)).
Proof.
  pose proof (Hrun n) as Hs. destruct (sched n) as [j|k|k|k| |k|p|k|k]; simpl in *.
  1: { injection Hs as <-. unfold deliver. by case_decide. }
  all: repeat (case_match; try done); injection Hs as <-; simpl; by rewrite ?length_insert.
Qed.

(** A step keeps what is taken, or takes the head of the queue. *)
Lemma taken_step n :
  match sched n with
  | Take i => ∃ j js, p_jobs (conf n) = j :: js ∧ p_jobs (conf (S n)) = js ∧
      p_workers (conf n) !! i = Some Idle ∧
      p_taken (conf (S n)) = p_taken (conf n) ++ [j] ∧ p_accepted (conf (S n)) = p_accepted (conf n) ∧
      p_workers (conf (S n)) !! i = Some (Running (handle_job debounceN j))
  | _ => p_taken (conf (S n)) = p_taken (conf n) ∧
      ∃ new, p_jobs (conf (S n)) = p_jobs (conf n) ++ new ∧ p_accepted (conf (S n)) = p_accepted (conf n) ++ new
  end.
Proof.
  pose proof (Hrun n) as Hs. destruct (sched n) as [j|i|i|i| |i|p|i|i]; simpl in Hs.
  2: { destruct (p_workers (conf n) !! i) as [[]|] eqn:Ei, (p_jobs (conf n)) as [|j js] eqn:Ej; simplify_eq.
    exists j, js. rewrite <- Hs. simpl. split_and!; try done. apply list_lookup_insert_eq. by eapply lookup_lt_Some. }
  1: { injection Hs as <-. unfold deliver. case_decide; simpl; (split; [done|]); [by exists [j]|].
    exists []. by rewrite !app_nil_r. }
  all: repeat (case_match; try done); injection Hs as <-; (split; [done|]); exists []; by rewrite !app_nil_r.
Qed.

(** ** Until a worker moves *)

(** Worker [i] is handling a job at every moment from [n] to [m]. *)
Definition busy (i n m : nat) : Prop :=
  ∀ t, (n <= t <= m)%nat → ∃ p, p_workers (conf t) !! i = Some (Running p).

Lemma busy_extend i n m m' : busy i n m → busy i (S m) m' → busy i n m'.
Proof. intros Hb Hb' t Ht. destruct (decide (t <= m)%nat); [apply Hb|apply Hb']; lia. Qed.

(** Looking ahead [d] steps: the worker's first move, or none. *)
Lemma look_ahead i n x d :
  p_workers (conf n) !! i = Some x →
  (∃ m, (n <= m < n + d)%nat ∧ moves i (sched m) ∧ ∀ t, (n <= t <= m)%nat → p_workers (conf t) !! i = Some x) ∨
  ∀ t, (n <= t <= n + d)%nat → p_workers (conf t) !! i = Some x.
Proof.
  intros Hx. induction d as [|d [(m & Hm & Hmv & Hs)|Hs]].
  - right. intros t Ht. by replace t with n by lia.
  - left. exists m. split_and!; [lia|lia|done|done].
  - destruct (decide (moves i (sched (n + d)%nat))) as [Hmv|Hmv].
    + left. exists (n + d)%nat. split_and!; [lia|lia|done|done].
    + right. intros t Ht. destruct (decide (t = S (n + d))) as [->|]; [|apply Hs; lia].
      rewrite worker_stays by done. apply Hs. lia.
Qed.

(** A worker with a job moves. *)
Lemma running_next i n p :
  fair i → p_workers (conf n) !! i = Some (Running p) →
  ∃ m, (n <= m)%nat ∧ moves i (sched m) ∧ ∀ t, (n <= t <= m)%nat → p_workers (conf t) !! i = Some (Running p).
Proof.
  intros Hf Hp. destruct (Hf n) as (m & Hnm & Hm).
  destruct (look_ahead i n _ (m - n) Hp) as [(k & Hk & Hmv & Hs)|Hs]; [exists k; split_and!; [lia|done|done]|].
  exists m. split_and!; [done| |intros t Ht; apply Hs; lia]. destruct Hm as [Hm|Hm]; [|done].
  destruct Hm. unfold worker_enabled. by rewrite (Hs m) by lia.
Qed.

(** ... until it is back at its select. *)
Lemma running_finishes i n p :
  fair i → p_workers (conf n) !! i = Some (Running p) →
  ∃ m, (n <= m)%nat ∧ sched m = Finish i ∧ busy i n m.
Proof.
  intros Hf. revert n. induction p as [[]|B f k IH]; intros n Hp;
    destruct (running_next i n _ Hf Hp) as (m & Hnm & Hmv & Hs);
    pose proof (running_moves i m _ (Hs m ltac:(lia)) Hmv) as Hm; cbn beta iota in Hm.
  - exists m. split_and!; [done|done|]. intros t Ht. eauto.
  - destruct (IH _ _ Hm) as (m' & Hmm & Hfin & Hb). exists m'. split_and!; [lia|done|].
    apply (busy_extend i n m); [|done]. intros t Ht. eauto.
Qed.

(** ** Until a message is taken *)

Definition taken (n : nat) : nat := length (p_taken (conf n)).

(** Looking ahead [d] steps: the next message taken, or none. *)
Lemma look_for_take n d :
  (∃ m i, (n <= m < n + d)%nat ∧ sched m = Take i ∧ taken m = taken n) ∨
  (taken (n + d) = taken n ∧ (∀ t, (n <= t < n + d)%nat → ¬ is_take (sched t)) ∧
   p_jobs (conf n) `prefix_of` p_jobs (conf (n + d))).
Proof.
  induction d as [|d [(m & i & Hm & Hs & Ht)|(Ht & Hno & Hp)]].
  - right. rewrite Nat.add_0_r. split_and!; [done|lia|done].
  - left. exists m, i. split_and!; [lia|lia|done|done].
  - pose proof (taken_step (n + d)) as Hs. rewrite Nat.add_succ_r.
    destruct (decide (is_take (sched (n + d)%nat))) as [Htk|Htk].
    + left. destruct (sched (n + d)%nat) as [|i| | | | | | |] eqn:E; try done. exists (n + d)%nat, i. split_and!; [lia|lia|done|done].
    + right. assert (p_taken (conf (S (n + d))) = p_taken (conf (n + d)) ∧
        ∃ new, p_jobs (conf (S (n + d))) = p_jobs (conf (n + d)) ++ new) as [E (new & Ej)]
        by (destruct (sched (n + d)%nat); try done; destruct Hs as (? & new & ? & _); eauto).
      split_and!.
      * unfold taken in *. by rewrite E.
      * intros t Ht'. destruct (decide (t = n + d)%nat) as [->|]; [done|]. apply Hno. lia.
      * rewrite Ej. by apply prefix_app_r.
Qed.

(** While no signal has come, an idle worker leaves its select for a message only. *)
Lemma idle_moves i n :
  p_done (conf n) = false → p_workers (conf n) !! i = Some Idle → moves i (sched n) → is_take (sched n).
Proof.
  pose proof (Hrun n) as Hs. intros Hd Hi Hm.
  destruct (sched n) as [j|k|k|k| |k|q|k|k]; simpl in Hm; subst; try done; simpl in Hs; rewrite Hi in Hs; try done.
  by rewrite Hd in Hs.
Qed.

Context (Hdone : ∀ n, p_done (conf n) = false).

(** A worker that has not returned takes a waiting message, unless another does. *)
Lemma idle_takes i n :
  fair i → p_jobs (conf n) ≠ [] → p_workers (conf n) !! i = Some Idle →
  ∃ m k, (n <= m)%nat ∧ sched m = Take k ∧ taken m = taken n.
Proof.
  intros Hf Hj Hi. destruct (Hf n) as (m & Hnm & Hm).
  destruct (look_for_take n (S (m - n))) as [(t & k & Ht & Hs & E)|(_ & Hno & _)].
  { exists t, k. split_and!; [lia|done|done]. }
  exfalso. destruct (look_ahead i n _ (m - n) Hi) as [(t & Ht & Hmv & Hs)|Hs].
  - apply (Hno t); [lia|]. apply (idle_moves i); [done| |done]. apply Hs. lia.
  - destruct Hm as [Hm|Hm].
    + destruct Hm. unfold worker_enabled. rewrite (Hs m) by lia. left.
      destruct (look_for_take n (m - n)) as [(t & k & Ht & Et & _)|(_ & _ & Hp)].
      * exfalso. apply (Hno t); [lia|]. by rewrite Et.
      * replace (n + (m - n))%nat with m in Hp by lia. destruct Hp as [l ->]. by destruct (p_jobs (conf n)).
    + apply (Hno m); [lia|]. apply (idle_moves i); [done| |done]. apply Hs. lia.
Qed.

Lemma message_taken i n x :
  fair i → p_jobs (conf n) ≠ [] → p_workers (conf n) !! i = Some x → x ≠ Stopped →
  ∃ m k, (n <= m)%nat ∧ sched m = Take k ∧ taken m = taken n.
Proof.
  intros Hf Hj Hi Hx. destruct x as [|p|]; [by eapply idle_takes| |done].
  destruct (running_finishes i n p Hf Hi) as (m & Hnm & Hfin & Hb).
  destruct (look_for_take n (S (m - n))) as [(t & k & Ht & Hs & E)|(E & _ & Hp)].
  { exists t, k. split_and!; [lia|done|done]. }
  replace (n + S (m - n))%nat with (S m) in * by lia.
  destruct (idle_takes i (S m) Hf) as (t & k & Ht & Hs & Et).
  - destruct Hp as [l ->]. by destruct (p_jobs (conf n)).
  - pose proof (Hrun m) as Hm. rewrite Hfin in Hm. simpl in Hm. destruct (Hb m ltac:(lia)) as [q Hq].
    rewrite Hq in Hm. destruct q; [|done]. injection Hm as <-. apply list_lookup_insert_eq. by eapply lookup_lt_Some.
  - exists t, k. split_and!; [lia|done|congruence].
Qed.

(** ** From the start of the pool *)

Context (w : World) (workerCount : nat) (Hstart : conf 0%nat = pool_start w workerCount).

Lemma never_stops i n : (i < workerCount)%nat → ∃ x, p_workers (conf n) !! i = Some x ∧ x ≠ Stopped.
Proof.
  intros Hi. induction n as [|n (x & Hx & Hne)].
  - exists Idle. split; [|done]. rewrite Hstart. simpl. by apply lookup_replicate_2.
  - destruct (decide (moves i (sched n))) as [Hm|Hm]; [|exists x; by rewrite worker_stays].
    destruct x as [|p|]; [..|done].
    + pose proof (idle_moves i n (Hdone n) Hx Hm) as Ht. pose proof (taken_step n) as Hs.
      destruct (sched n); try done. simpl in Hm. subst. destruct Hs as (?&?&?&?&?&?&?&?). by eexists.
    + pose proof (running_moves i n p Hx Hm) as Hs. destruct p as [u|B f k]; [|by eexists].
      pose proof (Hrun n) as Hn. rewrite Hs in Hn. simpl in Hn. rewrite Hx in Hn. injection Hn as <-.
      exists Idle. split; [|done]. apply list_lookup_insert_eq. by eapply lookup_lt_Some.
Qed.

Lemma workers_count n : length (p_workers (conf n)) = workerCount.
Proof. induction n as [|n IH]; [rewrite Hstart; simpl; apply length_replicate|]. by rewrite workers_length_step. Qed.

Lemma accepted_split n : p_accepted (conf n) = p_taken (conf n) ++ p_jobs (conf n).
Proof.
  induction n as [|n IH]; [by rewrite Hstart|]. pose proof (taken_step n) as Hs. destruct (sched n).
  2: { destruct Hs as (j & js & Ej & Ej' & _ & Et & Ea & _). by rewrite Ea, Et, Ej', IH, Ej, <- app_assoc. }
  all: destruct Hs as (Et & new & Ej & Ea); by rewrite Ea, Et, Ej, IH, app_assoc.
Qed.

Lemma accepted_grows n m : (n <= m)%nat → p_accepted (conf n) `prefix_of` p_accepted (conf m).
Proof.
  induction 1 as [|m _ IH]; [done|]. etransitivity; [exact IH|]. pose proof (taken_step m) as Hs.
  destruct (sched m).
  2: { destruct Hs as (? & ? & _ & _ & _ & _ & -> & _). done. }
  all: destruct Hs as (_ & new & _ & ->); by exists new.
Qed.

(** The message that is taken next. *)
Lemma taken_head m i :
  sched m = Take i → ∃ j, p_accepted (conf m) !! taken m = Some j ∧ taken (S m) = S (taken m) ∧
    p_workers (conf (S m)) !! i = Some (Running (handle_job debounceN j)).
Proof.
  intros Hm. pose proof (taken_step m) as Hs. rewrite Hm in Hs. destruct Hs as (j & js & Ej & _ & _ & Et & _ & Hi).
  exists j. split_and!; [|unfold taken; rewrite Et, length_app; simpl; lia|done].
  rewrite accepted_split, Ej. by apply list_lookup_middle.
Qed.

Lemma taken_counts n : taken (S n) = taken n ∨ ∃ i, sched n = Take i.
Proof.
  pose proof (taken_step n) as Hs. destruct (sched n) as [|i| | | | | | |]; [|right; by exists i|..];
    left; unfold taken; destruct Hs as [-> _]; done.
Qed.

(** What has been taken was taken at some moment. *)
Lemma was_taken k n : (k < taken n)%nat → ∃ m i, sched m = Take i ∧ taken m = k.
Proof.
  induction n as [|n IH]; [unfold taken; rewrite Hstart; simpl; lia|]. intros Hk.
  destruct (decide (k < taken n)%nat); [by apply IH|]. destruct (taken_counts n) as [E|[i Hi]]; [lia|].
  exists n, i. split; [done|]. destruct (taken_head n i Hi) as (_ & _ & E & _). lia.
Qed.

Lemma is_taken k n :
  (0 < workerCount)%nat → fair 0 → (k < length (p_accepted (conf n)))%nat → ∃ m i, sched m = Take i ∧ taken m = k.
Proof.
  intros Hc Hf Hk. destruct (decide (k < taken n)%nat) as [|Hge]; [by apply (was_taken k n)|].
  remember (k - taken n)%nat as d eqn:Hd. revert n Hk Hge Hd. induction d as [|d IH]; intros n Hk Hge Hd.
  all: destruct (never_stops 0 n Hc) as (x & Hx & Hne).
  all: assert (p_jobs (conf n) ≠ []) as Hj
    by (rewrite accepted_split, length_app in Hk; unfold taken in *; intros E; rewrite E in Hk; simpl in Hk; lia).
  all: destruct (message_taken 0 n x Hf Hj Hx Hne) as (m & i & Hnm & Hm & E).
  - exists m, i. split; [done|lia].
  - destruct (taken_head m i Hm) as (_ & _ & E' & _). apply (IH (S m)); [|lia|lia].
    destruct (accepted_grows n (S m) ltac:(lia)) as [l Hl]. rewrite Hl, length_app. lia.
Qed.

End Fair.

(** ** Properties *)

(** C38: Every accepted message is handled.  Under any infinite schedule of the pool (deliveries, workers,
    API requests) that is fair to each worker (again and again it moves or has nothing to
    do) and in which no signal arrives, the message with number [k] on the channel is taken by
    a worker as number [k], and that worker handles it to the end: it starts with
    [handle_job] of that message and is busy with it until it returns to its select. *)
Theorem accepted_message_handled `{!GoText, !PgLib, !Env} queueSize debounceN sched conf w workerCount :
  conf 0%nat = pool_start w workerCount → (0 < workerCount)%nat →
  infinite_run queueSize debounceN sched conf → (∀ n, p_done (conf n) = false) →
  (∀ i, (i < workerCount)%nat → fair sched conf i) →
  ∀ n k j, p_accepted (conf n) !! k = Some j →
  ∃ m i m', sched m = Take i ∧ length (p_taken (conf m)) = k ∧
    p_workers (conf (S m)) !! i = Some (Running (handle_job debounceN j)) ∧
    (m < m')%nat ∧ sched m' = Finish i ∧ busy conf i (S m) m'.
Proof.
  intros Hstart Hc Hrun Hdone Hf n k j Hj.
  destruct (is_taken queueSize debounceN sched conf Hrun Hdone w workerCount Hstart k n) as (m & i & Hm & E);
    [done|by apply Hf|by eapply lookup_lt_Some|].
  destruct (taken_head queueSize debounceN sched conf Hrun w workerCount Hstart m i Hm) as (j' & Hj' & _ & Hi).
  unfold taken in *. rewrite E in Hj'.
  assert (j' = j) as ->.
  { destruct (Nat.le_ge_cases n m) as [Hle|Hle].
    - pose proof (prefix_lookup_Some _ _ _ _ Hj (accepted_grows queueSize debounceN sched conf Hrun n m Hle)). congruence.
    - pose proof (prefix_lookup_Some _ _ _ _ Hj' (accepted_grows queueSize debounceN sched conf Hrun m n Hle)). congruence. }
  assert (i < workerCount)%nat as Hlt.
  { rewrite <- (workers_count queueSize debounceN sched conf Hrun w workerCount Hstart (S m)). by eapply lookup_lt_Some. }
  destruct (running_finishes queueSize debounceN sched conf Hrun i (S m) _ (Hf i Hlt) Hi) as (m' & Hmm & Hfin & Hb).
  exists m, i, m'. by split_and!.
Qed.

(** ** Witnesses *)

(** One message, one worker; then nothing but requests that are answered at once. *)
Definition one_message (n : nat) : choice := nth n (whole_job "33" 0 12) (Request (Ret tt)).

Fixpoint one_message_conf (n : nat) : Pool :=
  match n with
  | O => pool_start (fresh_world init_sql) 1
  | S n' =>
      let c := one_message_conf n' in
      default c (@pool_step wit_GoText fx_PgLib quiet_Env 256 3 (one_message n') c)
  end.

(** The fifteen steps that do something are possible, before any signal, and leave the
    worker idle. *)
Definition one_message_ok (n : nat) : bool :=
  match @pool_step wit_GoText fx_PgLib quiet_Env 256 3 (one_message n) (one_message_conf n) with
  | Some _ => negb (p_done (one_message_conf n))
  | None => false
  end.

Definition at_rest (c : Pool) : bool :=
  match p_workers c, p_jobs c with [Idle], [] => negb (p_done c) | _, _ => false end.

Lemma one_message_done : forallb one_message_ok (seq 0 15) && at_rest (one_message_conf 15) = true.
Proof. vm_compute. reflexivity. Qed.

Lemma one_message_rest n : (15 <= n)%nat → one_message n = Request (Ret tt) ∧ at_rest (one_message_conf n) = true.
Proof.
  intros Hn. assert (∀ k, (15 <= k)%nat → one_message k = Request (Ret tt)) as Hr by (intros k Hk; by apply nth_overflow).
  split; [by apply Hr|]. induction Hn as [|n Hn IH]; [by pose proof one_message_done as [_ ?]%andb_true_iff|].
  cbn [one_message_conf]. rewrite Hr by done. exact IH.
Qed.

Lemma at_rest_spec c : at_rest c = true → p_workers c = [Idle] ∧ p_jobs c = [] ∧ p_done c = false.
Proof.
  unfold at_rest. destruct (p_workers c) as [|[] []], (p_jobs c); try done. by rewrite negb_true_iff.
Qed.

Lemma one_message_step n : one_message_ok n = true.
Proof.
  destruct (decide (n < 15)%nat) as [Hn|Hn].
  - pose proof one_message_done as [H _]%andb_true_iff. rewrite forallb_forall in H. apply H, in_seq. lia.
  - unfold one_message_ok. destruct (one_message_rest n) as [-> (_ & _ & Hd)%at_rest_spec]; [lia|]. simpl. by rewrite Hd.
Qed.

Lemma one_message_run : @infinite_run wit_GoText fx_PgLib quiet_Env 256 3 one_message one_message_conf.
Proof.
  intros n. cbn [one_message_conf]. apply Some_default. pose proof (one_message_step n) as H.
  unfold one_message_ok in H. by destruct (pool_step _ _ _ _).
Qed.

Lemma one_message_undone n : p_done (one_message_conf n) = false.
Proof.
  pose proof (one_message_step n) as H. unfold one_message_ok in H.
  destruct (pool_step _ _ _ _); [by apply negb_true_iff|done].
Qed.

Lemma one_message_fair i : (i < 1)%nat → fair one_message one_message_conf i.
Proof.
  intros Hi n. assert (∃ m, (n <= m)%nat ∧ (15 <= m)%nat) as (m & Hnm & Hm) by (exists (15 + n)%nat; lia).
  exists m. split; [done|]. left. destruct (one_message_rest m Hm) as [_ (Hw & Hj & Hd)%at_rest_spec].
  unfold worker_enabled. rewrite Hw, Hj, Hd. destruct i; [|lia]. simpl. naive_solver.
Qed.

Lemma accepted_message_handled_witness :
  ∃ m i m', one_message m = Take i ∧ length (p_taken (one_message_conf m)) = 0%nat ∧
    p_workers (one_message_conf (S m)) !! i =
      Some (Running (@handle_job wit_GoText fx_PgLib quiet_Env 3 (wit_job "33"))) ∧
    (m < m')%nat ∧ one_message m' = Finish i ∧ busy one_message_conf i (S m) m'.
Proof.
  apply (@accepted_message_handled wit_GoText fx_PgLib quiet_Env 256 3 one_message one_message_conf
    (fresh_world init_sql) 1) with 1%nat.
  - reflexivity.
  - apply Nat.leb_le. reflexivity.
  - exact one_message_run.
  - exact one_message_undone.
  - exact one_message_fair.
  - vm_compute. reflexivity.
Defined.
