(* ===== verification/Concurrent.v ===== *)
(** * When concurrency is harmless

    [Pool] shows that two readings of one device handled at once can both create an
    alert.  Here is the other side: while no two messages of one device are in
    flight together, no statement fails and no rule is deleted, every interleaving
    of the workers with each other and with API requests keeps at most one active
    alert per rule.  The proof is a rely-guarantee argument over [rg]: a worker that
    handles a message of device [did] relies on the others not to activate rules of
    [did], and guarantees to activate no other. *)

From S2P Require Import Prelude GoStd Alerts Pg World Contract Shared Store Process Engine Pool Fixtures.
Open Scope Z_scope.
Open Scope string_scope.
Open Scope list_scope.
Open Scope go_scope.

(** The device a job is about; none if the job is invalid or the id is no uuid. *)
Definition job_device `{!GoText, !PgLib} (j : job) : option string :=
  match validate j with
  | Ok msg => uuid_in (DeviceID msg)
  | Err _ => None
  end.

(** No rule disappears or changes device. *)
Definition rules_stay (db db' : Pg) : Prop :=
  ∀ id r, alert_rules db !! id = Some r →
    ∃ r', alert_rules db' !! id = Some r' ∧ ar_device_id r' = ar_device_id r.

Section Rely.
Context `{!GoText, !PgLib, !Env}.

(** What a thread working on device [od] may do. *)
Definition dev_step (od : option string) (w w' : World) : Prop :=
  serial_inv w →
  serial_inv w' ∧ rules_stay (w_pg w) (w_pg w') ∧
  ∀ rid, rule_active (w_pg w') rid → rule_active (w_pg w) rid ∨
    ∃ row, alert_rules (w_pg w) !! rid = Some row ∧ od = Some (ar_device_id row).

(** What it can rely on: the others work on other devices, or on none. *)
Definition others (od : option string) (w w' : World) : Prop :=
  ∃ od', (od' = None ∨ od' ≠ od) ∧ dev_step od' w w'.

Lemma dev_same od w w' : world_step w w' → same_engine w w' → dev_step od w w'.
Proof.
  intros Hw Hs Hinv. pose proof Hs as (Er & Ea & _).
  split; [by apply (serial_inv_same w); [..|apply (ws_pg _ _ Hw), Hinv|]|].
  split; [intros id r; rewrite Er; eauto|].
  intros rid (i & a & Ha & ?). left. exists i, a. by rewrite <- Ea.
Qed.

Lemma alert_rule_exists w rid :
  serial_inv w → rule_active (w_pg w) rid → is_Some (alert_rules (w_pg w) !! rid).
Proof. intros Hinv (i & a & Ha & <- & _). by apply (ok_alert _ (si_pg _ Hinv) i). Qed.

(** What the others leave alone, over any number of their steps. *)
Lemma others_rtc od w w' :
  rtc (others od) w w' → serial_inv w →
  serial_inv w' ∧ rules_stay (w_pg w) (w_pg w') ∧
  ∀ rid row, alert_rules (w_pg w') !! rid = Some row → od = Some (ar_device_id row) →
    rule_active (w_pg w') rid → rule_active (w_pg w) rid.
Proof.
  induction 1 as [w|w1 w2 w3 (od' & Hod & H12) _ IH]; intros Hinv.
  { split_and!; [done| |done]. intros id r Hr. by exists r. }
  destruct (H12 Hinv) as (Hinv2 & Hst & Hact). destruct (IH Hinv2) as (Hinv3 & Hst3 & Hact3).
  split; [done|]. split.
  - intros id r (r2 & Hr2 & E2)%Hst. apply Hst3 in Hr2 as (r3 & ? & ?). exists r3. split; congruence.
  - intros rid row Hrow Hdev Ha. specialize (Hact3 _ _ Hrow Hdev Ha).
    destruct (Hact _ Hact3) as [?|(row1 & Hr1 & ->)]; [done|].
    destruct (Hst _ _ Hr1) as (r2 & Hr2 & E2). destruct (Hst3 _ _ Hr2) as (r3 & Hr3 & E3).
    simplify_eq. destruct Hod as [?|[]]; congruence.
Qed.

Lemma others_inv od w w' : serial_inv w → rtc (others od) w w' → serial_inv w'.
Proof. intros Hinv Hr. by apply (others_rtc _ _ _ Hr). Qed.

(** Decisions on rules of [did] stay correct. *)
Lemma decisions_stable did ds w w' :
  serial_inv w → rtc (others (Some did)) w w' →
  decisions_ok (w_pg w) did ds → decisions_ok (w_pg w') did ds.
Proof.
  intros Hinv Hr [Hnd Hds]. destruct (others_rtc _ _ _ Hr Hinv) as (_ & Hst & Hact).
  split; [done|]. intros d Hd. destruct (Hds d Hd) as (? & (row & Hrow & <-) & Hc).
  destruct (Hst _ _ Hrow) as (row' & Hrow' & E).
  split_and!; [done|by exists row'|]. intros Hcr Ha. apply Hc; [done|].
  by apply (Hact _ _ Hrow' (f_equal Some (eq_sym E))).
Qed.

(** Programs that leave rules, alerts and streaks alone. *)
Lemma rg_same {A} od (p : prog World A) Q w :
  each_step world_step p → each_step same_engine p → serial_inv w →
  (∀ a w', serial_inv w' → Q a w') → rg (others od) (dev_step od) p Q w.
Proof.
  intros Hp Hs Hinv HQ.
  apply (rg_invariant _ _ (λ s s', world_step s s' ∧ same_engine s s') serial_inv); try done.
  - intros w1 w2. apply others_inv.
  - intros w1 w2 Hw1 [Hws Hse]. pose proof (dev_same od _ _ Hws Hse) as Hd. split; [done|]. by apply Hd.
  - by apply each_step_and.
Qed.

End Rely.

(** ** A worker, message by message *)

Section Worker.
Context `{!GoText, !PgLib, !Env} (Hexec : ∀ n, exec_fault n = ExecOk) (Huuid : uuids_fresh).

(** One statement that changes the alerts of rule [rid] only. *)
Lemma dev_statement did w w1 rid row :
  alert_rules (w_pg w) !! rid = Some row → ar_device_id row = did →
  serial_inv w1 → alert_rules (w_pg w1) = alert_rules (w_pg w) →
  (∀ x, rule_active (w_pg w1) x → x = rid ∨ rule_active (w_pg w) x) →
  dev_step (Some did) w w1.
Proof.
  intros Hrow Hdid Hinv1 Er Ha _. split; [done|]. split; [intros id r; rewrite Er; eauto|].
  intros x [->|?]%Ha; [|by left]. right. exists row. by rewrite Hdid.
Qed.

Lemma rg_ApplyDecisions did ds deviceID at_ w :
  serial_inv w → uuid_in deviceID = Some did → decisions_ok (w_pg w) did ds →
  rg (others (Some did)) (dev_step (Some did)) (ApplyDecisions deviceID ds at_)
    (λ r w', r = Ok tt ∧ serial_inv w') w.
Proof.
  intros Hinv Hdev. revert w Hinv. induction ds as [|d ds IH]; intros w Hinv Hok; cbn [ApplyDecisions]; [done|].
  destruct (decisions_ok_cons _ _ _ _ Hok) as [_ Hok'].
  destruct (proj2 Hok d ltac:(by left)) as (_ & (row & Hrow & Hdid) & _).
  assert (∀ w1 w', serial_inv w1 → alert_rules (w_pg w1) = alert_rules (w_pg w) →
    (∀ x, x ≠ rule_ID (rd_Rule d) → rule_active (w_pg w1) x → rule_active (w_pg w) x) →
    rtc (others (Some did)) w1 w' →
    rg (others (Some did)) (dev_step (Some did)) (ApplyDecisions deviceID ds at_)
      (λ r w', r = Ok tt ∧ serial_inv w') w') as Hrest.
  { intros w1 w' Hinv1 Er Ha Hr. apply IH; [by eapply others_inv|].
    eapply decisions_stable; [done..|]. by eapply decisions_ok_after. }
  destruct (rd_Decision d) eqn:Ed; [by apply IH|..]; apply rg_bind.
  - pose proof (run_create w d deviceID did at_ ds Hexec Huuid Hinv Hdev Hok Ed) as (E & I1 & _ & R1 & A1).
    unfold pg_exec in *. rewrite run_act in *. apply rg_act.
    + eapply dev_statement; [done..|]. intros x. by rewrite A1.
    + rewrite E. cbn [fst snd]. intros w' Hr. eapply Hrest; [exact I1|done| |done].
      intros x Hx. rewrite A1. naive_solver.
  - pose proof (run_auto_resolve w (rule_ID (rd_Rule d)) at_ Hexec Hinv ltac:(by eexists)) as (E & I1 & _ & R1 & A1).
    unfold pg_exec in *. rewrite run_act in *. apply rg_act.
    + eapply dev_statement; [done..|]. intros x. rewrite A1. naive_solver.
    + rewrite E. cbn [fst snd]. intros w' Hr. eapply Hrest; [exact I1|done| |done].
      intros x Hx. rewrite A1. naive_solver.
Qed.

Lemma rg_retry did ds deviceID at_ w :
  serial_inv w → uuid_in deviceID = Some did → decisions_ok (w_pg w) did ds →
  rg (others (Some did)) (dev_step (Some did)) (applyDecisionsWithRetry deviceID ds at_)
    (λ r w', r = Ok tt ∧ serial_inv w') w.
Proof.
  intros Hinv Hdev Hok. unfold applyDecisionsWithRetry, maxAttempts. cbn [retry_loop].
  apply rg_bind. eapply rg_weaken; [|by apply (rg_ApplyDecisions did)]. by intros r w' [-> ?].
Qed.

(** What has been loaded for a message of device [did], and stays true. *)
Definition rules_loaded (did : string) (rules : list Rule) (db : Pg) : Prop :=
  NoDup (rule_ID <$> rules) ∧
  ∀ r, r ∈ rules → severity_check (rule_Severity r) = true ∧
    ∃ row, alert_rules db !! rule_ID r = Some row ∧ ar_device_id row = did.

Definition active_loaded (did : string) (active : gmap string bool) (db : Pg) : Prop :=
  ∀ rid row, alert_rules db !! rid = Some row → ar_device_id row = did →
    rule_active db rid → map_get false active rid = true.

Lemma rules_loaded_stable did rules w w' :
  serial_inv w → rtc (others (Some did)) w w' →
  rules_loaded did rules (w_pg w) → rules_loaded did rules (w_pg w').
Proof.
  intros Hinv Hr [Hnd Hrs]. destruct (others_rtc _ _ _ Hr Hinv) as (_ & Hst & _).
  split; [done|]. intros r Hin. destruct (Hrs r Hin) as (? & row & Hrow & <-).
  split; [done|]. by apply Hst.
Qed.

Lemma active_loaded_stable did active w w' :
  serial_inv w → rtc (others (Some did)) w w' →
  active_loaded did active (w_pg w) → active_loaded did active (w_pg w').
Proof.
  intros Hinv Hr Hac rid row Hrow Hdev Ha. destruct (others_rtc _ _ _ Hr Hinv) as (_ & Hst & Hact).
  specialize (Hact _ _ Hrow (f_equal Some (eq_sym Hdev)) Ha).
  destruct (alert_rule_exists _ _ Hinv Hact) as [row0 Hrow0].
  destruct (Hst _ _ Hrow0) as (row' & Hrow' & E). simplify_eq. by eapply Hac.
Qed.

Lemma dev_tick od w : dev_step od w (tick w).
Proof. apply dev_same; [|by split_and!; simpl; auto]. apply world_step_quiet; simpl; done || lia. Qed.

Lemma tick_inv w : serial_inv w → serial_inv (tick w).
Proof. intros Hinv. by apply (dev_tick None). Qed.

Lemma query_done {A} (f : QueryFault) (rows : list A) (l : list A) :
  query_outcome f rows = Ok (l, RowsDone) → l = rows.
Proof. destruct f; simpl; repeat case_decide; by intros [= <-]. Qed.

Lemma rg_LoadEnabledRules did d w :
  serial_inv w → uuid_in d = Some did →
  rg (others (Some did)) (dev_step (Some did)) (LoadEnabledRules d)
    (λ r w', serial_inv w' ∧
       match r with Ok rules => rules_loaded did rules (w_pg w') | Err _ => True end) w.
Proof.
  intros Hinv Hd. pose proof (run_LoadEnabledRules d w) as E. unfold LoadEnabledRules, pg_query in *.
  apply rg_single.
  - intros [[rows []]|e]; by eexists.
  - rewrite E. apply dev_tick.
  - rewrite E. cbn [fst snd]. intros w' Hr. split; [by eapply others_inv, Hr; apply tick_inv|].
    destruct (select_enabled_rules d (w_pg w)) as [rows|] eqn:Es; [|done].
    destruct (query_outcome _ _) as [[l []]|] eqn:Eq; try done. apply query_done in Eq as ->.
    apply (rules_loaded_stable _ _ (tick w)); [by apply tick_inv|done|]. simpl.
    destruct (loaded_rules_spec _ _ _ _ Es (row_order_perm (w_tick w) _ rows)) as [Hnd Hrs].
    split; [done|]. intros r (row & Hrow & Hdev & _ & ->)%Hrs. simpl in *.
    split; [by apply (ok_rule _ (si_pg _ Hinv) _ _ Hrow)|]. exists row. split; [done|congruence].
Qed.

Lemma rg_LoadActiveRuleIDs did d rules w :
  serial_inv w → uuid_in d = Some did → rules_loaded did rules (w_pg w) →
  rg (others (Some did)) (dev_step (Some did)) (LoadActiveRuleIDs d)
    (λ r w', serial_inv w' ∧ rules_loaded did rules (w_pg w') ∧
       match r with Ok active => active_loaded did active (w_pg w') | Err _ => True end) w.
Proof.
  intros Hinv Hd Hrs. pose proof (run_LoadActiveRuleIDs d w) as E. unfold LoadActiveRuleIDs, pg_query in *.
  apply rg_single.
  - intros [[rows []]|e]; by eexists.
  - rewrite E. apply dev_tick.
  - rewrite E. cbn [fst snd]. intros w' Hr. split; [by eapply others_inv, Hr; apply tick_inv|].
    split; [by apply (rules_loaded_stable _ _ (tick w)); [apply tick_inv|..]|].
    destruct (select_active_rule_ids d (w_pg w)) as [rows|] eqn:Es; [|done].
    destruct (query_outcome _ _) as [[l []]|] eqn:Eq; try done. apply query_done in Eq as ->.
    apply (active_loaded_stable _ _ (tick w)); [by apply tick_inv|done|]. simpl.
    intros rid row Hrow Hdev Ha.
    by apply (loaded_active_rule w d did _ _ rid row (si_device _ Hinv) Hd Es (row_order_perm _ _ _)).
Qed.

(** The decisions taken on what has been loaded. *)
Lemma loaded_decisions_ok did rules readings active t N w :
  rules_loaded did rules (w_pg w) → active_loaded did active (w_pg w) →
  decisions_ok (w_pg w) did (Evaluate t rules readings active N).1.
Proof.
  intros [Hnd Hrs] Hac. pose (m := mkEval rules readings active).
  split; [apply (decision_ids_NoDup m t N Hnd)|]. intros d Hd.
  apply (elem_of_Evaluate m t N d Hnd) in Hd as (r & Hr & Hd).
  apply table_decision_Some in Hd as (v & b & _ & _ & -> & Hb & _).
  destruct (Hrs r Hr) as (Hsev & row & Hrow & Hdev). simpl in *.
  split_and!; [done|by exists row|]. destruct b; [|done]. intros _ Ha.
  rewrite (Hac _ _ Hrow Hdev Ha) in Hb. done.
Qed.

Lemma rg_tracker_Evaluate did rules readings active N w :
  serial_inv w → rules_loaded did rules (w_pg w) → active_loaded did active (w_pg w) →
  rg (others (Some did)) (dev_step (Some did)) (tracker_Evaluate rules readings active N)
    (λ ds w', serial_inv w' ∧ decisions_ok (w_pg w') did ds) w.
Proof.
  intros Hinv Hrs Hac. unfold tracker_Evaluate.
  pose proof (loaded_decisions_ok did rules readings active (w_streaks w) N w Hrs Hac) as Hok.
  apply rg_act; destruct (Evaluate _ _ _ _ _) as [ds t]; cbn [fst snd] in *;
    set (w1 := tick (set_streaks t w));
    assert (serial_inv w1) as Hinv1
      by (destruct Hinv as [Hp Ho Hd Hc Hf]; split; try done; intros n Hn; apply Hf; simpl in Hn; lia).
  - intros _. split; [done|]. split; [by intros id r Hr; exists r|]. by left.
  - intros w' Hr. split; [by eapply others_inv|]. by eapply decisions_stable.
Qed.

(** The part of [process_message] before the rules are loaded. *)
Lemma rg_until_load od cid msg (k : time → prog World (result unit)) w :
  serial_inv w →
  (∀ now w', serial_inv w' → rg (others od) (dev_step od) (k now) (λ _, serial_inv) w') →
  rg (others od) (dev_step od)
    (_ <-? WriteTelemetry msg ;;
     now <- time_Now ;;
     r <- MaybeUpdateLastSeen (DeviceID msg) now ;;
     (match r with
      | Err _ => log_line "WARN" (Some cid) "update last_seen_at failed"
      | Ok _ => Ret tt
      end) ;;
     k now) (λ _, serial_inv) w.
Proof.
  intros Hinv Hk.
  apply rg_bind, rg_same; [apply each_step_WriteTelemetry|apply same_WriteTelemetry|done|].
  clear w Hinv. intros [_|e] w Hinv; [|done].
  apply rg_bind, rg_same; [apply each_step_time_Now|apply same_time_Now|done|].
  clear w Hinv. intros now w Hinv.
  apply rg_bind, rg_same; [apply each_step_MaybeUpdateLastSeen|apply same_MaybeUpdateLastSeen|done|].
  clear w Hinv. intros r w Hinv.
  apply rg_bind, rg_same; [destruct r; auto with sitewatch|destruct r; [done|apply same_log_line]|done|].
  clear w Hinv. intros _ w Hinv. by apply Hk.
Qed.

(** [process] after validation, of a message whose device id is a uuid. *)
Lemma rg_process_message did N cid msg w :
  serial_inv w → uuid_in (DeviceID msg) = Some did →
  rg (others (Some did)) (dev_step (Some did)) (process_message N cid msg) (λ _, serial_inv) w.
Proof.
  intros Hinv Hdid. unfold process_message.
  apply rg_until_load; [done|]. clear w Hinv. intros now w Hinv.
  apply rg_bind. eapply rg_weaken; [|by apply (rg_LoadEnabledRules did)]. clear w Hinv.
  intros [rules|e] w [Hinv Hrs]; [|done]. case_decide; [done|].
  apply rg_bind. eapply rg_weaken; [|by apply (rg_LoadActiveRuleIDs did _ rules)]. clear w Hinv Hrs.
  intros [active|e] w (Hinv & Hrs & Hac); [|done].
  apply rg_bind. eapply rg_weaken; [|by apply (rg_tracker_Evaluate did)]. clear w Hinv Hrs Hac.
  intros ds w [Hinv Hok]. case_decide; [done|].
  apply rg_bind. eapply rg_weaken; [|by apply (rg_retry did)]. clear w Hinv Hok.
  intros r w [-> Hinv].
  apply rg_bind, rg_same; [apply each_step_report_decisions|apply same_report_decisions|done|done].
Qed.

(** The same for a device id that is no uuid: nothing of the engine is touched. *)
Lemma rg_process_unknown N cid msg w :
  serial_inv w → uuid_in (DeviceID msg) = None →
  rg (others None) (dev_step None) (process_message N cid msg) (λ _, serial_inv) w.
Proof.
  intros Hinv Hdid. unfold process_message.
  apply rg_until_load; [done|]. clear w Hinv. intros now w Hinv.
  apply rg_bind. pose proof (run_LoadEnabledRules (DeviceID msg) w) as E.
  unfold LoadEnabledRules, pg_query, select_enabled_rules in *. rewrite Hdid in *. apply rg_single.
  - intros [[rows []]|e]; by eexists.
  - rewrite E. apply dev_tick.
  - rewrite E. cbn [fst snd]. intros w' Hr. by eapply others_inv, Hr; apply tick_inv.
Qed.

Lemma rg_handle_job N j w :
  serial_inv w →
  rg (others (job_device j)) (dev_step (job_device j)) (handle_job N j) (λ _ _, True) w.
Proof.
  intros Hinv. unfold handle_job.
  apply rg_bind, rg_same; [quiet_step|by apply each_step_act; intros; split_and!; simpl|done|].
  clear w Hinv. intros _ w Hinv.
  apply rg_bind, rg_same; [apply each_step_time_Now|apply same_time_Now|done|].
  clear w Hinv. intros start w Hinv.
  apply rg_bind. apply (rg_weaken _ _ _ (λ _, serial_inv)).
  - clear w Hinv. intros r w Hinv.
    apply rg_bind, rg_same; [apply each_step_time_Now|apply same_time_Now|done|].
    clear w Hinv. intros _ w Hinv.
    apply rg_same; [destruct r; auto with sitewatch|destruct r; [done|apply same_log_line]|done|done].
  - unfold process, job_device.
    apply rg_bind, rg_same; [quiet_step|by apply each_step_act; intros; split_and!; simpl; auto|done|].
    clear w Hinv. intros cid w Hinv.
    destruct (validate j) as [msg|e]; [|done].
    destruct (uuid_in (DeviceID msg)) as [did|] eqn:Ed;
      [by apply rg_process_message|by apply rg_process_unknown].
Qed.

End Worker.

(** ** The pool *)

Section Confined.
Context `{!GoText, !PgLib, !Env} (queueSize : nat) (debounceN : Z).

(** The devices the workers are busy with, followed through a schedule. *)
Definition busy_after (ch : choice) (c : Pool) (busy : list (option string)) : list (option string) :=
  match ch with
  | Take i => match p_jobs c with j :: _ => <[i := job_device j]> busy | [] => busy end
  | Finish i => <[i := None]> busy
  | _ => busy
  end.

(** No worker takes a message of a device another one is busy with. *)
Definition take_allowed (ch : choice) (c : Pool) (busy : list (option string)) : bool :=
  match ch with
  | Take _ => match p_jobs c with
              | j :: _ => bool_decide (job_device j = None ∨ job_device j ∉ busy)
              | [] => true
              end
  | _ => true
  end.

Fixpoint one_per_device (chs : list choice) (c : Pool) (busy : list (option string)) : bool :=
  match chs with
  | [] => true
  | ch :: chs' =>
      match pool_step queueSize debounceN ch c with
      | Some c' => take_allowed ch c busy && one_per_device chs' c' (busy_after ch c busy)
      | None => true
      end
  end.

(** A request that activates no rule and deletes none. *)
Definition request_gentle (ch : choice) : Prop :=
  match ch with Pool.Request p => each_step (dev_step None) p | _ => True end.

(** What holds of a worker whatever the others have done meanwhile. *)
Definition worker_inv (od : option string) (x : Worker) (w : World) : Prop :=
  match x with
  | Running p => ∀ w', rtc (others od) w w' → rg (others od) (dev_step od) p (λ _ _, True) w'
  | _ => od = None
  end.

Record confined (busy : list (option string)) (c : Pool) : Prop := {
  cf_inv : serial_inv (p_world c);
  cf_workers : Forall2 (λ od x, worker_inv od x (p_world c)) busy (p_workers c);
  cf_exclusive : ∀ i j d, busy !! i = Some (Some d) → busy !! j = Some (Some d) → i = j;
  cf_requests : Forall (each_step (dev_step None)) (p_requests c);
}.

Lemma worker_inv_others od x w w' : others od w w' → worker_inv od x w → worker_inv od x w'.
Proof. intros Hw. destruct x; simpl; [done| |done]. intros Hp w2 Hr. apply Hp. by econstructor. Qed.

(** The world moves by a step of a thread that works on no device. *)
Lemma workers_idle_step busy xs w w' :
  dev_step None w w' → Forall2 (λ od x, worker_inv od x w) busy xs →
  Forall2 (λ od x, worker_inv od x w') busy xs.
Proof.
  intros Hw HF. eapply Forall2_impl; [exact HF|]. intros od x. apply worker_inv_others. exists None. auto.
Qed.

(** Worker [i] makes a step and goes on as [x]. *)
Lemma workers_step busy xs w w' i od x :
  busy !! i = Some od → dev_step od w w' →
  (∀ i j d, busy !! i = Some (Some d) → busy !! j = Some (Some d) → i = j) →
  worker_inv od x w' → Forall2 (λ od x, worker_inv od x w) busy xs →
  Forall2 (λ od x, worker_inv od x w') busy (<[i := x]> xs).
Proof.
  intros Hi Hw Hex Hx HF. apply Forall2_same_length_lookup_2.
  { rewrite length_insert. by eapply Forall2_length. }
  intros k odk y Hk. rewrite list_lookup_insert_Some. intros [(-> & <- & _)|[Hne Hy]].
  { by simplify_eq. }
  eapply worker_inv_others; [|by eapply Forall2_lookup_lr in HF].
  exists od. split; [|done]. destruct od as [d|]; [|by left]. right. intros <-.
  by apply Hne, (Hex i k d).
Qed.

Lemma confined_start w workerCount :
  serial_inv w → confined (replicate workerCount None) (pool_start w workerCount).
Proof.
  intros Hinv. split; [done| | |done]; simpl.
  - apply Forall2_replicate. done.
  - intros i j d [? _]%lookup_replicate. done.
Qed.

(** Replacing what worker [i] is busy with. *)
Lemma workers_rebusy busy xs w i od x :
  worker_inv od x w → Forall2 (λ od x, worker_inv od x w) busy xs →
  Forall2 (λ od x, worker_inv od x w) (<[i := od]> busy) (<[i := x]> xs).
Proof. intros. by apply Forall2_insert. Qed.

Lemma exclusive_insert (busy : list (option string)) i od :
  od = None ∨ od ∉ busy →
  (∀ i j d, busy !! i = Some (Some d) → busy !! j = Some (Some d) → i = j) →
  ∀ k j d, <[i := od]> busy !! k = Some (Some d) → <[i := od]> busy !! j = Some (Some d) → k = j.
Proof.
  intros Hod Hex k j d. rewrite !list_lookup_insert_Some.
  intros [(-> & Ek & _)|[? Hk]] [(-> & Ej & _)|[? Hj]]; try done; [..|by eapply Hex].
  - destruct Hod as [?|[]]; [congruence|]. rewrite Ek. by eapply list_elem_of_lookup_2.
  - destruct Hod as [?|[]]; [congruence|]. rewrite Ej. by eapply list_elem_of_lookup_2.
Qed.

Context (Hexec : ∀ n, exec_fault n = ExecOk) (Huuid : uuids_fresh).

Lemma confined_step ch c c' busy :
  confined busy c → request_gentle ch → take_allowed ch c busy = true →
  pool_step queueSize debounceN ch c = Some c' → confined (busy_after ch c busy) c'.
Proof.
  intros [Hinv HF Hex Hrs] Hreq Hal Hstep.
  destruct ch as [j|i|i|i| |i|p|i|i]; simpl in Hstep, Hal |- *; simplify_eq.
  - unfold deliver. case_decide; [by split|].
    assert (dev_step None (p_world c) (p_world (deliver queueSize j c))) as Hd.
    { unfold deliver. rewrite decide_False by done. simpl. intros [Hp Ho Hdc Hcn Hfr].
      split; [by split|]. split; [by intros id r Hr; exists r|]. by left. }
    unfold deliver in Hd. rewrite decide_False in Hd by done. simpl in Hd.
    split; simpl; [by apply Hd|by eapply workers_idle_step|done|done].
  - destruct (p_workers c !! i) as [[]|] eqn:Ei, (p_jobs c) as [|j js] eqn:Ej; simplify_eq.
    apply bool_decide_eq_true in Hal. split; simpl; [done| |by apply exclusive_insert|done].
    apply workers_rebusy; [|done]. simpl. intros w' Hr.
    apply rg_handle_job; [done|done|]. by eapply others_inv.
  - destruct (p_workers c !! i) as [[|[|B f k]|]|] eqn:Ei; simplify_eq.
    destruct (Forall2_lookup_r _ _ _ _ _ HF Ei) as (od & Hod & Hx). simpl in Hx.
    destruct (Hx _ (rtc_refl _ _)) as [HG Hk]. destruct (f (p_world c)) as [b w]. simplify_eq.
    split; simpl; [by apply HG|by eapply workers_step|done|done].
  - destruct (p_workers c !! i) as [[|[|B f k]|]|] eqn:Ei; simplify_eq.
    split; simpl; [done|by apply workers_rebusy|apply exclusive_insert; auto|done].
  - by split.
  - destruct (p_workers c !! i) as [[]|] eqn:Ei; simplify_eq. case_match; simplify_eq.
    split; simpl; [done| |done|done]. destruct (Forall2_lookup_r _ _ _ _ _ HF Ei) as (od & Hod & Hx).
    rewrite <- (list_insert_id busy i od) by done. by apply workers_rebusy.
  - split; simpl; [done..|]. apply Forall_app. by repeat constructor.
  - destruct (p_requests c !! i) as [[|B f k]|] eqn:Ei; simplify_eq.
    destruct (Forall_lookup_1 _ _ _ _ Hrs Ei (p_world c)) as [Hd Hk].
    destruct (f (p_world c)) as [b w]. simplify_eq.
    split; simpl; [by apply Hd|by eapply workers_idle_step|done|by apply Forall_insert].
  - destruct (p_requests c !! i) as [[|B f k]|] eqn:Ei; simplify_eq.
    split; simpl; [done..|]. by apply Forall_delete.
Qed.

Lemma confined_run chs c c' busy :
  confined busy c → Forall request_gentle chs → one_per_device chs c busy = true →
  pool_run queueSize debounceN chs c = Some c' → ∃ busy', confined busy' c'.
Proof.
  intros Hc HF. revert c busy Hc. induction HF as [|ch chs Hch _ IH]; simpl; intros c busy Hc Hone Hrun.
  { simplify_eq. by exists busy. }
  destruct (pool_step _ _ ch c) as [c1|] eqn:E; [|done]. apply andb_true_iff in Hone as [Hal Hone].
  by eapply IH; [eapply confined_step| |].
Qed.

(** A pool of one worker never has two messages in flight. *)
Lemma single_worker_one_per_device chs c busy :
  confined busy c → (length busy <= 1)%nat → Forall request_gentle chs →
  one_per_device chs c busy = true.
Proof.
  intros Hc Hlen HF. revert c busy Hc Hlen. induction HF as [|ch chs Hch _ IH]; intros c busy Hc Hlen; simpl; [done|].
  destruct (pool_step _ _ ch c) as [c1|] eqn:E; [|done].
  assert (take_allowed ch c busy = true) as Hal.
  { destruct ch as [|i| | | | | | |]; simpl in *; try done.
    destruct (p_jobs c) as [|j js]; [done|]. apply bool_decide_eq_true.
    destruct (p_workers c !! i) as [[]|] eqn:Ei; simplify_eq.
    destruct (Forall2_lookup_r _ _ _ _ _ (cf_workers _ _ Hc) Ei) as (od & Hod & Hx). simpl in Hx. subst od.
    destruct busy as [|od [|? ?]]; simpl in Hlen; [done| |lia].
    destruct i; simpl in Hod; [|done]. simplify_eq.
    destruct (job_device j); [|by left]. right. by intros ?%list_elem_of_singleton. }
  rewrite Hal. simpl. apply IH; [by eapply confined_step|].
  destruct ch; simpl; try done; [case_match|]; by rewrite ?length_insert.
Qed.

End Confined.
