(* ===== verification/Models.v ===== *)
(** * The API's data: [api/models.go]

    The structs of the JSON interface, how request bodies are decoded into them
    and how database rows are scanned into them. *)

From S2P Require Import Prelude GoStd Alerts Pg World Contract.
Open Scope Z_scope.
Open Scope string_scope.
Open Scope list_scope.
Open Scope go_scope.

(** ** Response structs *)

Record Site := mkSite {
  site_ID : string;
  site_Name : string;
  site_Type : string;
  site_Location : string;
}.

Record Device := mkDevice {
  dev_ID : string;
  dev_SiteID : string;
  dev_Name : string;
  dev_Type : string;
  dev_LastSeenAt : option time;
}.

Record TelemetryPoint := mkTelemetryPoint {
  tp_DeviceID : string;
  tp_Readings : gmap string float64;
  tp_Ts : time;
  tp_ReceivedAt : time;
}.

Record AlertRule := mkAlertRule {
  rule_id : string;
  rule_DeviceID : string;
  rule_metric : string;
  rule_operator : string;
  rule_threshold : float64;
  rule_severity : string;
  rule_Enabled : bool;
}.

Record Alert := mkAlert {
  alert_ID : string;
  alert_AlertRuleID : string;
  alert_DeviceID : string;
  alert_TriggeredValue : float64;
  alert_Severity : string;
  alert_Status : string;
  alert_TriggeredAt : time;
  alert_AcknowledgedAt : option time;
  alert_AcknowledgedBy : option string;
  alert_ResolvedAt : option time;
  alert_ResolvedBy : option string;
}.

(** ** Request structs *)

Record AlertRuleInput := mkAlertRuleInput {
  in_DeviceID : string;
  in_Metric : string;
  in_Operator : string;
  in_Threshold : float64;
  in_Severity : string;
  in_Enabled : option bool;   (* nil pointer: not given *)
}.

Record AckInput := mkAckInput { UserID : string }.

Definition zero_AlertRuleInput : AlertRuleInput := mkAlertRuleInput "" "" "" (S754_zero false) "" None.

(** ** Scanning rows *)

(** COALESCE(location, '') *)
Definition site_of_row (p : string * SiteRow) : Site :=
  mkSite p.1 (s_name p.2) (s_type p.2) (default "" (s_location p.2)).

Definition device_of_row (p : string * DeviceRow) : Device :=
  mkDevice p.1 (d_site_id p.2) (d_name p.2) (d_type p.2) (d_last_seen_at p.2).

Definition alert_rule_of_row (p : string * AlertRuleRow) : AlertRule :=
  mkAlertRule p.1 (ar_device_id p.2) (ar_metric p.2) (ar_operator p.2) (ar_threshold p.2)
    (ar_severity p.2) (ar_enabled p.2).

Definition alert_of_row (p : string * AlertRow) : Alert :=
  mkAlert p.1 (al_alert_rule_id p.2) (al_device_id p.2) (al_triggered_value p.2) (al_severity p.2)
    (status_text (al_status p.2)) (al_triggered_at p.2) (al_acknowledged_at p.2)
    (al_acknowledged_by p.2) (al_resolved_at p.2) (al_resolved_by p.2).

(** A document decoded by its bson tags. *)
Definition point_of_doc (d : TelemetryDoc) : TelemetryPoint :=
  mkTelemetryPoint (t_device_id d) (t_readings d) (t_ts d) (t_received_at d).

(** ** Decoding bodies *)

Section Decode.
Context `{!GoText}.

Definition AlertRuleInput_field (i : AlertRuleInput) (key : string) (v : json) : result AlertRuleInput :=
  let '(mkAlertRuleInput d m o t s e) := i in
  if key_is key "device_id" then x <-! decode_string d v; Ok (mkAlertRuleInput x m o t s e)
  else if key_is key "metric" then x <-! decode_string m v; Ok (mkAlertRuleInput d x o t s e)
  else if key_is key "operator" then x <-! decode_string o v; Ok (mkAlertRuleInput d m x t s e)
  else if key_is key "threshold" then x <-! decode_float t v; Ok (mkAlertRuleInput d m o x s e)
  else if key_is key "severity" then x <-! decode_string s v; Ok (mkAlertRuleInput d m o t x e)
  else if key_is key "enabled" then x <-! decode_bool_ptr v; Ok (mkAlertRuleInput d m o t s x)
  else Ok i.

Definition AckInput_field (i : AckInput) (key : string) (v : json) : result AckInput :=
  if key_is key "user_id" then x <-! decode_string (UserID i) v; Ok (mkAckInput x) else Ok i.

Definition Decode_AlertRuleInput (body : string) : result AlertRuleInput :=
  v <-! json_Decode body; decode_into AlertRuleInput_field zero_AlertRuleInput v.

Definition Decode_AckInput (body : string) : result AckInput :=
  v <-! json_Decode body; decode_into AckInput_field (mkAckInput "") v.

End Decode.

(** ** What a response carries *)

(** The value given to the JSON encoder, or the text of [http.Error]. *)
Inductive payload :=
| PError (message : string)            (* map[string]string{"error": message} *)
| PHealth                              (* map[string]string{"status": "ok"} *)
| PSites (l : list Site)
| PDevices (l : list Device)
| PDevice (d : Device)
| PPoints (l : list TelemetryPoint)
| PAlerts (l : list Alert)
| PAlert (a : Alert)
| PRules (l : list AlertRule)
| PRule (r : AlertRule)
| PText (s : string).

(** [encoding/json] refuses NaN and infinities. *)
Definition json_float (x : float64) : bool :=
  match x with S754_infinity _ | S754_nan => false | _ => true end.

(** [Time.MarshalJSON] refuses years outside 0 to 9999 (in UTC here). *)
Definition json_time (t : time) : bool :=
  bool_decide (-62167219200 * Second <= t < 253402300800 * Second).

Definition json_opt_time (t : option time) : bool :=
  match t with Some t => json_time t | None => true end.

Definition json_device (d : Device) : bool := json_opt_time (dev_LastSeenAt d).

Definition json_point (p : TelemetryPoint) : bool :=
  bool_decide (map_Forall (λ _ x, json_float x = true) (tp_Readings p)) &&
  json_time (tp_Ts p) && json_time (tp_ReceivedAt p).

Definition json_alert (a : Alert) : bool :=
  json_float (alert_TriggeredValue a) && json_time (alert_TriggeredAt a) &&
  json_opt_time (alert_AcknowledgedAt a) && json_opt_time (alert_ResolvedAt a).

Definition json_rule (r : AlertRule) : bool := json_float (rule_threshold r).

(** Whether [Encode] succeeds. *)
Definition encodable (v : payload) : bool :=
  match v with
  | PError _ | PHealth | PSites _ | PText _ => true
  | PDevices l => forallb json_device l
  | PDevice d => json_device d
  | PPoints l => forallb json_point l
  | PAlerts l => forallb json_alert l
  | PAlert a => json_alert a
  | PRules l => forallb json_rule l
  | PRule r => json_rule r
  end.
