(* ===== verification/TimeText.v ===== *)
(** * Instants as text

    [Time.MarshalJSON] in UTC, the location of the containers the services run in: RFC 3339
    with as many digits of the second as needed; and the proof that the RFC 3339 parser
    of [GoTime] reads the same instant again. *)

From S2P Require Import Prelude GoStd GoFloat GoTime Contract GoJson JsonText Decimal GoFormat Alerts Pg World Models.
Open Scope Z_scope.
Open Scope string_scope.
Open Scope list_scope.

(** ** The calendar *)

(** The year of a day since the first of January of year 0, from a guess that is not
    too early. *)
Fixpoint year_from (fuel : nat) (year d : Z) : Z :=
  match fuel with
  | O => year
  | S fuel' => if decide (days_before_year year <= d) then year else year_from fuel' (year - 1) d
  end.

(** Month and day of a day of [year]. *)
Fixpoint month_from (fuel : nat) (month year d : Z) : Z * Z :=
  match fuel with
  | O => (month, d + 1)
  | S fuel' =>
      if decide (d < daysIn month year) then (month, d + 1)
      else month_from fuel' (month + 1) year (d - daysIn month year)
  end.

(** Year, month, day, hour, minute, second and nanosecond in UTC. *)
Record clock_fields := mkClock { k_year : Z; k_month : Z; k_day : Z; k_hour : Z; k_min : Z; k_sec : Z; k_nsec : Z }.

Definition fields_of (t : time) : clock_fields :=
  let secs := t / Second in
  let d := secs / 86400 + days_before_year 1970 in
  let s := secs mod 86400 in
  let year := year_from 8 (d / 365) d in
  let '(month, day) := month_from 12 1 year (d - days_before_year year) in
  mkClock year month day (s / 3600) (s mod 3600 / 60) (s mod 60) (t mod Second).

(** The digits of a fraction of [n] digits without trailing zeros. *)
Fixpoint fraction_digits (n : nat) (ns : Z) : string :=
  match n with
  | O => ""
  | S n' => if decide (ns mod 10 = 0) then fraction_digits n' (ns / 10) else padded n ns ""
  end.

Definition fraction_text (ns : Z) : string :=
  if decide (ns = 0) then "" else String "." (fraction_digits 9 ns).

(** The fields in the layout time.RFC3339Nano, for years of four digits. *)
Definition clock_text (k : clock_fields) : string :=
  pad4 (k_year k) +:+ "-" +:+ pad2 (k_month k) +:+ "-" +:+ pad2 (k_day k) +:+ "T" +:+ pad2 (k_hour k) +:+ ":" +:+
  pad2 (k_min k) +:+ ":" +:+ pad2 (k_sec k) +:+ fraction_text (k_nsec k) +:+ "Z".

(** [t.UTC().Format(time.RFC3339Nano)] *)
Definition Format_RFC3339Nano (t : time) : string := clock_text (fields_of t).

Example format_times :
  Format_RFC3339Nano <$> [0; 1786190400 * Second + 120000000; 951827696 * Second + 1; -62167219200 * Second;
    253402300799 * Second + 999999999] =
  ["1970-01-01T00:00:00Z"; "2026-08-08T12:00:00.12Z"; "2000-02-29T12:34:56.000000001Z"; "0000-01-01T00:00:00Z";
   "9999-12-31T23:59:59.999999999Z"].
Proof. vm_compute. reflexivity. Qed.

(** ** The fields of an instant *)

Lemma days_before_month_range month year : 1 <= month <= 12 →
  0 <= days_before_month month year ∧
  days_before_month month year + daysIn month year <= (if isLeap year then 366 else 365).
Proof.
  intros Hm. assert (month ∈ [1; 2; 3; 4; 5; 6; 7; 8; 9; 10; 11; 12]) as Hin
    by (rewrite !elem_of_cons; lia). rewrite !elem_of_cons in Hin.
  unfold days_before_month, daysIn. destruct (isLeap year); destruct_or! Hin; subst; try (simpl; lia).
  all: by apply not_elem_of_nil in Hin.
Qed.

(** A year is as long as the days before the next one say. *)
Lemma year_length year :
  days_before_year (year + 1) = days_before_year year + (if isLeap year then 366 else 365).
Proof.
  unfold days_before_year, isLeap. case_bool_decide; Z.to_euclidean_division_equations; lia.
Qed.

Lemma days_before_year_mono y1 y2 : y1 <= y2 → days_before_year y1 <= days_before_year y2.
Proof. intros Hy. unfold days_before_year. Z.to_euclidean_division_equations; lia. Qed.

Lemma year_from_spec fuel year d :
  d < days_before_year (year + 1) → days_before_year (year - Z.of_nat fuel) <= d →
  let y := year_from fuel year d in days_before_year y <= d < days_before_year (y + 1) ∧ y <= year.
Proof.
  revert year. induction fuel as [|fuel IH]; intros year H1 H2; cbn [year_from].
  - rewrite Z.sub_0_r in H2. lia.
  - case_decide; [lia|]. destruct (IH (year - 1)) as [H3 H4].
    + replace (year - 1 + 1) with year by lia. lia.
    + by replace (year - 1 - Z.of_nat fuel) with (year - Z.of_nat (S fuel)) by lia.
    + cbv zeta in *. lia.
Qed.

(** Eight years down from the guess are enough until the year 10000. *)
Lemma year_guess d : 0 <= d < 3652425 →
  let y := year_from 8 (d / 365) d in days_before_year y <= d < days_before_year (y + 1) ∧ 0 <= y <= 9999.
Proof.
  intros Hd. destruct (year_from_spec 8 (d / 365) d) as [H1 H2].
  - unfold days_before_year. Z.to_euclidean_division_equations. lia.
  - unfold days_before_year. Z.to_euclidean_division_equations. lia.
  - cbv zeta. split; [done|]. set (y := year_from 8 (d / 365) d) in *. clearbody y. split.
    + destruct (decide (0 <= y)); [done|]. pose proof (days_before_year_mono (y + 1) 0 ltac:(lia)).
      change (days_before_year 0) with 0 in *. lia.
    + destruct (decide (y <= 9999)); [done|]. pose proof (days_before_year_mono 10000 y ltac:(lia)).
      change (days_before_year 10000) with 3652425 in *. lia.
Qed.

Lemma days_before_month_next month year : 1 <= month →
  days_before_month (month + 1) year = days_before_month month year + daysIn month year.
Proof.
  intros Hm. unfold days_before_month. replace (Z.to_nat (month + 1 - 1)) with (S (Z.to_nat (month - 1))) by lia.
  rewrite seq_S, foldr_app. cbn [foldr]. rewrite Z2Nat.inj_sub by lia.
  replace (1 + (Z.to_nat month - Z.to_nat 1))%nat with (Z.to_nat month) by lia. rewrite Z2Nat.id by lia.
  generalize (seq 1 (Z.to_nat month - Z.to_nat 1)). intros l. rewrite Z.add_0_r.
  induction l as [|x l IH]; cbn [foldr]; lia.
Qed.

Lemma month_from_spec year fuel : ∀ month d,
  1 <= month → month + Z.of_nat fuel = 13 → 0 <= d →
  d < days_before_month 13 year - days_before_month month year →
  let '(m, day) := month_from fuel month year d in
  month <= m <= 12 ∧ 1 <= day <= daysIn m year ∧
  days_before_month m year + (day - 1) = days_before_month month year + d.
Proof.
  induction fuel as [|fuel IH]; intros month d Hm Hf Hd Hlt; cbn [month_from].
  - replace month with 13 in Hlt by lia. lia.
  - case_decide; [lia|]. pose proof (days_before_month_next month year Hm) as Hn.
    specialize (IH (month + 1) (d - daysIn month year) ltac:(lia) ltac:(lia) ltac:(lia) ltac:(lia)).
    destruct (month_from fuel (month + 1) year _) as [m day]. lia.
Qed.

(** Fields in the ranges of the calendar and of the clock. *)
Definition valid_clock (k : clock_fields) : Prop :=
  0 <= k_year k <= 9999 ∧ 1 <= k_month k <= 12 ∧ 1 <= k_day k <= daysIn (k_month k) (k_year k) ∧
  0 <= k_hour k < 24 ∧ 0 <= k_min k < 60 ∧ 0 <= k_sec k < 60 ∧ 0 <= k_nsec k < Second.

Definition instant_of (k : clock_fields) : time :=
  Date (k_year k) (k_month k) (k_day k) (k_hour k) (k_min k) (k_sec k) (k_nsec k).

Lemma days_in_year year : days_before_month 13 year - days_before_month 1 year = if isLeap year then 366 else 365.
Proof. unfold days_before_month, daysIn. by destruct (isLeap year). Qed.

(** The days of the instants the encoder accepts. *)
Lemma json_time_days t :
  json_time t = true → 0 <= t / Second / 86400 + days_before_year 1970 < 3652425.
Proof.
  unfold json_time. rewrite bool_decide_eq_true. intros Ht.
  change (days_before_year 1970) with 719528. rewrite Z.div_div by done.
  pose proof (Z.div_le_lower_bound t (Second * 86400) (-719528)).
  pose proof (Z.div_lt_upper_bound t (Second * 86400) 2932897). unfold Second in *. lia.
Qed.

(** The fields are those of the instant. *)
Lemma fields_of_spec t : json_time t = true → valid_clock (fields_of t) ∧ instant_of (fields_of t) = t.
Proof.
  intros Ht%json_time_days. unfold fields_of. set (secs := t / Second) in *.
  pose proof (Z.mod_pos_bound secs 86400 ltac:(lia)) as Hs. pose proof (Z.div_mod secs 86400 ltac:(lia)) as Es.
  set (d := secs / 86400 + days_before_year 1970) in *. set (s := secs mod 86400) in *.
  destruct (year_guess d Ht) as [Hy Hyr]. set (year := year_from 8 (d / 365) d) in *.
  pose proof (month_from_spec year 12 1 (d - days_before_year year)) as Hm.
  rewrite days_in_year, year_length in *.
  destruct (month_from 12 1 year (d - days_before_year year)) as [month day].
  destruct Hm as (Hm & Hday & Ed); [lia..|]. change (days_before_month 1 year) with 0 in Ed.
  pose proof (Z.mod_pos_bound t Second ltac:(done)) as Hn. pose proof (Z.div_mod t Second ltac:(done)) as En.
  fold secs in En. unfold valid_clock, instant_of, Date. cbn [k_year k_month k_day k_hour k_min k_sec k_nsec].
  clearbody year s. split.
  - split_and!; try lia; Z.to_euclidean_division_equations; lia.
  - replace (days_before_year year + days_before_month month year + (day - 1) - days_before_year 1970) with
      (secs / 86400) by lia.
    rewrite En at 2. f_equal. rewrite (Z.mul_comm Second). f_equal.
    generalize dependent (secs / 86400). intros q ? ? ?. Z.to_euclidean_division_equations. lia.
Qed.

(** ** Reading the text back *)

Lemma fraction_padded n : ∀ left v acc ns,
  (n <= left)%nat → 0 <= v < 10 ^ Z.of_nat n →
  fraction left ns (padded n v acc) = fraction (left - n) (ns * 10 ^ Z.of_nat n + v) acc.
Proof.
  induction n as [|n IH]; intros left v acc ns Hn Hv; cbn [padded].
  - change (10 ^ Z.of_nat 0) with 1 in *. rewrite Nat.sub_0_r. f_equal. lia.
  - rewrite Nat2Z.inj_succ, Z.pow_succ_r in * by lia.
    rewrite IH by (lia || (split; [apply Z.div_pos; lia|apply Z.div_lt_upper_bound; lia])).
    destruct (left - n)%nat as [|k] eqn:Ek; [lia|]. cbn [fraction]. rewrite digit_val_char by apply mod10_range.
    replace (left - S n)%nat with k by lia. f_equal. pose proof (Z.div_mod v 10). lia.
Qed.

Lemma fraction_digits_spec n : ∀ ns, 0 < ns < 10 ^ Z.of_nat n → ∃ k v,
  fraction_digits n ns = padded (S k) v "" ∧ (S k <= n)%nat ∧ 0 <= v < 10 ^ Z.of_nat (S k) ∧
  ns = v * 10 ^ Z.of_nat (n - S k).
Proof.
  induction n as [|n IH]; intros ns Hns; cbn [fraction_digits]; [change (10 ^ Z.of_nat 0) with 1 in Hns; lia|].
  case_decide as Hm.
  - pose proof (Z.div_mod ns 10 ltac:(lia)) as E.
    rewrite Nat2Z.inj_succ, Z.pow_succ_r in Hns by lia.
    destruct (IH (ns / 10)) as (k & v & Ht & Hk & Hv & Ev); [lia|]. exists k, v. split_and!; try done; [lia..|].
    replace (S n - S k)%nat with (S (n - S k)) by lia. rewrite Nat2Z.inj_succ, Z.pow_succ_r by lia. lia.
  - exists n, ns. split_and!; try done; [lia..|]. rewrite Nat.sub_diag. change (10 ^ Z.of_nat 0) with 1. lia.
Qed.

Lemma fraction_text_read ns :
  0 <= ns < Second → optional_fraction (fraction_text ns +:+ "Z") = (ns, "Z").
Proof.
  intros Hns. unfold fraction_text. case_decide as Hz; [by subst|].
  destruct (fraction_digits_spec 9 ns) as (k & v & -> & Hk & Hv & ->); [unfold Second in *; lia|].
  rewrite string_cons_app, <- padded_app.
  assert (∃ b u, padded (S k) v "Z" = String b u ∧ is_digit b = true) as (b & u & E & Hb).
  { assert (∀ k v acc, (∃ b u, acc = String b u ∧ is_digit b = true) →
      ∃ b u, padded k v acc = String b u ∧ is_digit b = true) as Hp.
    { clear. induction k as [|k IH]; intros v acc Hacc; [done|]. cbn [padded]. apply IH. eexists _, _. split; [done|].
      unfold is_digit. by rewrite digit_val_char by apply mod10_range. }
    cbn [padded]. apply Hp. eexists _, _. split; [done|]. unfold is_digit. by rewrite digit_val_char by apply mod10_range. }
  rewrite E. unfold optional_fraction. unfold is_digit in Hb. destruct (digit_val b) as [d|]; [|done].
  rewrite decide_True by auto. rewrite <- E, fraction_padded by done. cbn [fraction]. f_equal.
Qed.

Lemma Parse_clock k : valid_clock k → Parse_RFC3339 (clock_text k) = Some (instant_of k).
Proof.
  intros (Hy & Hm & Hd & Hh & Hmi & Hs & Hn).
  assert (daysIn (k_month k) (k_year k) <= 31) by (unfold daysIn; repeat case_match; lia).
  unfold Parse_RFC3339, clock_text. rewrite year4_pad4 by done. cbn [mbind option_bind].
  repeat (first [rewrite lit_head | rewrite getnum_pad2 by lia | rewrite decide_False by lia];
    cbn [mbind option_bind]).
  rewrite fraction_text_read by done. change (zone "Z") with (Some 0). cbn [mbind option_bind].
  rewrite decide_False by lia. by rewrite Z.mul_0_l, Z.sub_0_r.
Qed.

(** An instant the encoder accepts is read back from its text. *)
Lemma Parse_Format t : json_time t = true → Parse_RFC3339 (Format_RFC3339Nano t) = Some t.
Proof.
  intros [Hk Ei]%fields_of_spec. unfold Format_RFC3339Nano. by rewrite Parse_clock, Ei.
Qed.

(** The text needs no escapes in JSON. *)
Definition time_char (a : ascii) : bool := is_digit a || bool_decide (a ∈ ["-"; "T"; ":"; "."; "Z"]%char).

Lemma time_char_pad2 n : 0 <= n < 100 → string_forallb time_char (pad2 n) = true.
Proof.
  intros Hn. unfold pad2. cbn [string_forallb]. unfold time_char, is_digit.
  rewrite !digit_val_char; [done|by apply mod10_range|].
  split; [apply Z.div_pos; lia|apply Z.div_lt_upper_bound; lia].
Qed.

Lemma time_char_fraction ns : 0 <= ns < Second → string_forallb time_char (fraction_text ns) = true.
Proof.
  intros Hns. unfold fraction_text. case_decide; [done|].
  destruct (fraction_digits_spec 9 ns) as (k & v & -> & _); [unfold Second in *; lia|].
  change (string_forallb time_char (padded (S k) v "") = true).
  eapply string_forallb_impl; [|by apply padded_digits]. intros a Ha. unfold time_char. by rewrite Ha.
Qed.

Lemma Format_chars t : json_time t = true → string_forallb time_char (Format_RFC3339Nano t) = true.
Proof.
  intros [Hk _]%fields_of_spec. unfold Format_RFC3339Nano. revert Hk. generalize (fields_of t). clear t.
  intros k (Hy & Hm & Hd & Hh & Hmi & Hs & Hn). unfold clock_text.
  assert (daysIn (k_month k) (k_year k) <= 31) by (unfold daysIn; repeat case_match; lia).
  unfold pad4. rewrite !string_forallb_app, time_char_fraction by done.
  pose proof (Z.mod_pos_bound (k_year k) 100 ltac:(lia)). pose proof (Z.div_mod (k_year k) 100 ltac:(lia)).
  rewrite !time_char_pad2 by lia. reflexivity.
Qed.
