(* ===== verification/Http.v ===== *)
(** * HTTP plumbing: [api/db.go], [api/metrics.go] and [withCORS] of [api/main.go]

    Requests, the response writer with the semantics of net/http (the first
    [WriteHeader] fixes status and headers), the decorator that records the
    status, the middleware around the handlers, and the outcomes that every listing
    handler has in common ([listing_outcome]). *)

From S2P Require Import Prelude GoStd Alerts Pg World Contract Shared Models.
From stdpp Require Import pretty.
Open Scope Z_scope.
Open Scope string_scope.
Open Scope list_scope.
Open Scope go_scope.

(** ** Requests and responses *)

Record Request := mkRequest {
  r_Method : string;
  r_Path : string;                        (* URL.EscapedPath() *)
  r_Query : gmap string (list string);    (* URL.Query() *)
  r_Header : gmap string string;          (* Header.Get, canonical keys *)
  r_RemoteAddr : string;
  r_Body : string;
  r_PathValue : gmap string string;       (* set by the router *)
  r_logger : option (option string);      (* the context's logger, by its
                                             correlation_id attribute *)
}.

(** [q.Get(key)] *)
Definition Query_Get (q : gmap string (list string)) (key : string) : string :=
  match q !! key with Some (x :: _) => x | _ => "" end.

Definition PathValue (r : Request) (key : string) : string := map_get "" (r_PathValue r) key.

Definition Header_Get (r : Request) (key : string) : string := map_get "" (r_Header r) key.

Definition with_logger (cid : option string) (r : Request) : Request :=
  mkRequest (r_Method r) (r_Path r) (r_Query r) (r_Header r) (r_RemoteAddr r) (r_Body r)
    (r_PathValue r) (Some cid).

Definition with_PathValue (m : gmap string string) (r : Request) : Request :=
  mkRequest (r_Method r) (r_Path r) (r_Query r) (r_Header r) (r_RemoteAddr r) (r_Body r) m (r_logger r).

(** [http.ResponseWriter]: the header map, what has been sent (status and the
    headers at that moment), the body, and the status recorded by a
    [statusWriter] around it, if there is one. *)
Record ResponseWriter := mkResponseWriter {
  w_header : gmap string string;
  w_sent : option (Z * gmap string string);
  w_body : list payload;
  w_status : option Z;
}.

Definition new_response : ResponseWriter := mkResponseWriter ∅ None [] None.

Definition Header_Set (k v : string) (w : ResponseWriter) : ResponseWriter :=
  mkResponseWriter (<[k := v]> (w_header w)) (w_sent w) (w_body w) (w_status w).

(** [statusWriter.WriteHeader] around [WriteHeader]. *)
Definition WriteHeader (status : Z) (w : ResponseWriter) : ResponseWriter :=
  mkResponseWriter (w_header w)
    (match w_sent w with Some s => Some s | None => Some (status, w_header w) end)
    (w_body w) ((λ _, status) <$> w_status w).

Definition Write (v : payload) (w : ResponseWriter) : ResponseWriter :=
  mkResponseWriter (w_header w)
    (match w_sent w with Some s => Some s | None => Some (200, w_header w) end)
    (w_body w ++ [v]) (w_status w).

Abbreviation Handler := (ResponseWriter → Request → prog World ResponseWriter).

(** The status the client sees; a handler that sends nothing means 200. *)
Definition status_of (w : ResponseWriter) : Z :=
  match w_sent w with Some (s, _) => s | None => 200 end.

Definition StatusOK : Z := 200.
Definition StatusCreated : Z := 201.
Definition StatusNoContent : Z := 204.
Definition StatusBadRequest : Z := 400.
Definition StatusNotFound : Z := 404.
Definition StatusConflict : Z := 409.
Definition StatusTooManyRequests : Z := 429.
Definition StatusInternalServerError : Z := 500.

(** ** api/db.go *)

(** An encoding failure after the header is only logged, by the default logger. *)
Definition writeJSON (w : ResponseWriter) (status : Z) (v : option payload) : prog World ResponseWriter :=
  let w := WriteHeader status (Header_Set "Content-Type" "application/json" w) in
  match v with
  | None => Ret w
  | Some p =>
      if encodable p then Ret (Write p w)
      else log_line "ERROR" None "encode response" ;; Ret w
  end.

Definition writeError (w : ResponseWriter) (status : Z) (message : string) : prog World ResponseWriter :=
  writeJSON w status (Some (PError message)).

(** [http.Error] *)
Definition http_Error (w : ResponseWriter) (message : string) (status : Z) : ResponseWriter :=
  Write (PText message)
    (WriteHeader status (Header_Set "X-Content-Type-Options" "nosniff"
       (Header_Set "Content-Type" "text/plain; charset=utf-8" w))).

(** ** api/metrics.go *)

(** The logger a handler uses: the context's, else the process's own. *)
Definition loggerFromContext (r : Request) (fallback : option string) : option string :=
  match r_logger r with Some l => l | None => fallback end.

(** [app.log(r)]; [App.logger] carries no correlation id. *)
Definition app_log (r : Request) : option string := loggerFromContext r None.

Section Http.
Context `{!PgLib, !Env}.

Definition instrument (pattern : string) (h : Handler) : Handler := λ w r,
  let '(method, path, _) := Cut pattern " "%char in
  start <- time_Now ;;
  sw <- h (mkResponseWriter (w_header w) (w_sent w) (w_body w) (Some StatusOK)) r ;;
  let key := (method, path, pretty (default StatusOK (w_status sw))) in
  act (λ s, (tt, set_httpRequests
         (<[key := default 0 (w_httpRequests s !! key) + 1]> (w_httpRequests s)) s)) ;;
  _ <- time_Now ;;   (* time.Since(start), for httpRequestDuration *)
  Ret (mkResponseWriter (w_header sw) (w_sent sw) (w_body sw) (w_status w)).

Definition withCorrelationID (h : Handler) : Handler := λ w r,
  id <- (if decide (Header_Get r "X-Request-Id" = "") then NewCorrelationID
         else Ret (Header_Get r "X-Request-Id")) ;;
  h (Header_Set "X-Request-Id" id w) (with_logger (Some id) r).

(** ** withCORS *)

Definition allowed_origins (env : gmap string string) : gmap string bool :=
  let raw := os_Getenv env "CORS_ALLOWED_ORIGINS" in
  let raw := if decide (raw = "") then "http://localhost:5173,http://127.0.0.1:5173" else raw in
  foldl (λ m o, <[TrimSpace o := true]> m) ∅ (Split raw ","%char).

Definition withCORS (env : gmap string string) (h : Handler) : Handler := λ w r,
  let origin := Header_Get r "Origin" in
  let w := if map_get false (allowed_origins env) origin
           then Header_Set "Vary" "Origin" (Header_Set "Access-Control-Allow-Origin" origin w)
           else w in
  let w := Header_Set "Access-Control-Allow-Methods" "GET, POST, PATCH, DELETE, OPTIONS" w in
  let w := Header_Set "Access-Control-Allow-Headers" "Content-Type" w in
  if decide (r_Method r = "OPTIONS") then Ret (WriteHeader StatusNoContent w)
  else h w r.

(** ** The guarantee of the plumbing *)

Lemma each_step_writeJSON w status v : each_step world_step (writeJSON w status v).
Proof. unfold writeJSON. solve_each_step. Qed.

Lemma each_step_writeError w status m : each_step world_step (writeError w status m).
Proof. apply each_step_writeJSON. Qed.

Lemma each_step_NewCorrelationID : each_step world_step NewCorrelationID.
Proof. quiet_step. Qed.

(** A handler all of whose steps have the guarantee. *)
Definition handler_ok (h : Handler) : Prop := ∀ w r, each_step world_step (h w r).

Lemma instrument_ok pattern h : handler_ok h → handler_ok (instrument pattern h).
Proof.
  intros Hh w r. unfold instrument. destruct (Cut pattern _) as [[method path] ?].
  apply each_step_bind; [apply each_step_time_Now|]. intros start.
  apply each_step_bind; [apply Hh|]. intros sw.
  apply each_step_bind; [quiet_step|]. solve_each_step.
Qed.

Lemma withCorrelationID_ok h : handler_ok h → handler_ok (withCorrelationID h).
Proof.
  intros Hh w r. unfold withCorrelationID.
  apply each_step_bind; [case_decide; [apply each_step_NewCorrelationID|done]|]. intros id. apply Hh.
Qed.

Lemma withCORS_ok env h : handler_ok h → handler_ok (withCORS env h).
Proof. intros Hh w r. unfold withCORS. case_decide; [done|]. apply Hh. Qed.

End Http.

#[export] Hint Resolve each_step_writeJSON each_step_writeError each_step_NewCorrelationID : sitewatch.

(** ** What a handler may do

    Below the routing, a request runs statements and logs with its own logger
    (an encoding failure with the default one); telemetry, streaks, devices,
    last-seen marks, limiters and counters are not its business. *)
Definition own_line (l : option string) (line : LogLine) : Prop :=
  l_correlation_id line = l ∨ line = mkLogLine "ERROR" None "encode response".

Record request_step (l : option string) (w w' : World) : Prop := {
  rq_telemetry : w_telemetry w' = w_telemetry w;
  rq_streaks : w_streaks w' = w_streaks w;
  rq_lastSeen : w_lastSeenSent w' = w_lastSeenSent w;
  rq_devices : devices (w_pg w') = devices (w_pg w);
  rq_counters : w_httpRequests w' = w_httpRequests w;
  rq_limiter : w_limiter w' = w_limiter w;
  rq_log : ∃ new, w_log w' = w_log w ++ new ∧ Forall (own_line l) new;
}.

#[global] Instance request_step_preorder l : PreOrder (request_step l).
Proof.
  split.
  - intros w. split; try done. exists []. by rewrite app_nil_r.
  - intros w1 w2 w3 [? ? ? ? ? ? (n1 & E1 & ?)] [? ? ? ? ? ? (n2 & E2 & ?)]. split; try congruence.
    exists (n1 ++ n2). rewrite E2, E1, app_assoc. split; [done|]. by apply Forall_app.
Qed.

Lemma each_request_run l {A} (p : prog World A) w :
  each_step (request_step l) p → request_step l w (run p w).2.
Proof.
  intros Hp. pose proof (each_step_run _ p w Hp) as Hs.
  induction Hs as [|w1 w2 w3 H12 _ IH]; [done|]. by etransitivity.
Qed.

Section RequestSteps.
Context `{!PgLib, !Env} (l : option string).

(** An action that only touches alerts, rules and the tick. *)
Lemma request_act {A} (f : World → A * World) :
  (∀ w, ∃ db, devices db = devices (w_pg w) ∧ (f w).2 = tick (set_pg db w)) → each_step (request_step l) (act f).
Proof.
  intros Hf. apply each_step_act. intros w. destruct (Hf w) as (db & Hd & ->).
  split; try done. exists []. by rewrite app_nil_r.
Qed.

Lemma request_pg_exec {A} (st : string → time → stmt A) :
  (∀ id now db, devices (st id now db).2 = devices db) → each_step (request_step l) (pg_exec st).
Proof.
  intros Hst. apply request_act. intros w. specialize (Hst (gen_random_uuid (w_tick w)) (now_at (w_tick w)) (w_pg w)).
  exists (exec_outcome (exec_fault (w_tick w)) (st (gen_random_uuid (w_tick w)) (now_at (w_tick w))) (w_pg w)).2.
  split; [by destruct (exec_fault (w_tick w))|]. cbv beta zeta. by destruct (exec_outcome _ _ _).
Qed.

Lemma request_tick {A} (f : World → A) : each_step (request_step l) (act (λ w, (f w, tick w))).
Proof. apply request_act. intros w. exists (w_pg w). by destruct w. Qed.

Lemma request_pg_query_ordered {A} (sel : (∀ X, list X → list X) → Pg → result (list A)) :
  each_step (request_step l) (pg_query_ordered sel).
Proof. apply request_tick. Qed.

Lemma request_mongo_find {A} (sel : (∀ X, list X → list X) → list TelemetryDoc → list A) :
  each_step (request_step l) (mongo_find sel).
Proof. apply request_tick. Qed.

Lemma request_pg_query_row {A} (sel : Pg → result A) : each_step (request_step l) (pg_query_row sel).
Proof. apply request_tick. Qed.

Lemma request_log level m : each_step (request_step l) (log_line level l m).
Proof.
  apply each_step_act. intros w. split; try done. eexists. split; [done|].
  apply Forall_singleton. by left.
Qed.

Lemma request_encode_log : each_step (request_step l) (log_line "ERROR" None "encode response").
Proof.
  apply each_step_act. intros w. split; try done. eexists. split; [done|].
  apply Forall_singleton. by right.
Qed.

Lemma request_writeJSON w status v : each_step (request_step l) (writeJSON w status v).
Proof.
  unfold writeJSON. destruct v as [p|]; [|done]. destruct (encodable p); [done|].
  apply each_step_bind; [apply request_encode_log|]. done.
Qed.

Lemma request_writeError w status m : each_step (request_step l) (writeError w status m).
Proof. apply request_writeJSON. Qed.

End RequestSteps.

#[export] Hint Resolve request_pg_query_ordered request_mongo_find
  request_pg_query_row request_log request_writeJSON request_writeError request_tick : sitewatch.

(** Headers handlers set themselves, the metrics handler of the Prometheus client (which may
    compress what it sends) included. *)
Definition own_headers : list string :=
  ["Content-Type"; "Content-Encoding"; "X-Content-Type-Options"; "Retry-After"; "Allow"; "Location"; "Connection"].

(** [rw] is [w0] after exactly one response has been sent on it: the headers of the
    middleware went out with it, a surrounding [statusWriter] has recorded the status
    that was sent, and at most one value was written as its body. *)
Definition reply_ok (w0 rw : ResponseWriter) : Prop :=
  (∀ k, k ∉ own_headers → w_header rw !! k = w_header w0 !! k) ∧
  (∃ body : option payload, w_body rw = w_body w0 ++ option_list body) ∧
  ∃ status hs, w_sent rw = Some (status, hs) ∧ w_status rw = (λ _, status) <$> w_status w0 ∧
    ∀ k, k ∉ own_headers → hs !! k = w_header w0 !! k.

Lemma header_set_other k k' v (m : gmap string string) :
  k' ∈ own_headers → k ∉ own_headers → <[k' := v]> m !! k = m !! k.
Proof. intros H1 H2. apply lookup_insert_ne. by intros ->. Qed.

Lemma reply_ok_status w0 rw : reply_ok w0 rw → w_status rw = (λ _, status_of rw) <$> w_status w0.
Proof. intros (_ & _ & status & hs & Es & -> & _). unfold status_of. by rewrite Es. Qed.

Lemma all_results_writeJSON w status v :
  w_sent w = None → all_results (reply_ok w) (writeJSON w status v).
Proof.
  intros Hs. unfold writeJSON.
  assert (∀ rw, w_header rw = <["Content-Type" := "application/json"]> (w_header w) →
    w_sent rw = Some (status, <["Content-Type" := "application/json"]> (w_header w)) →
    w_status rw = (λ _, status) <$> w_status w → (∃ body, w_body rw = w_body w ++ option_list body) →
    reply_ok w rw) as Hok.
  { intros rw E1 E2 E3 Eb. split; [|split; [done|eexists _, _; split_and!; [done|done|]]]; intros k Hk; rewrite ?E1;
      (apply header_set_other; [set_solver|done]). }
  destruct v as [p|]; [destruct (encodable p)|].
  - apply Hok; simpl; rewrite ?Hs; [done..|]. by exists (Some p).
  - apply all_results_bind. intros _. apply Hok; simpl; rewrite ?Hs; [done..|]. exists None. by rewrite app_nil_r.
  - apply Hok; simpl; rewrite ?Hs; [done..|]. exists None. by rewrite app_nil_r.
Qed.

(** A handler that answers every request once, within these limits. *)
Record handler_replies (h : Handler) : Prop := {
  hr_reply : ∀ w r, w_sent w = None → all_results (reply_ok w) (h w r);
  hr_steps : ∀ w r, each_step (request_step (app_log r)) (h w r);
}.

(** ** Listings

    The four listing handlers run one query, answer 500 when it or the reading of a row fails,
    and otherwise send what they have read. *)

Section Listings.
Context `{!Env}.

(** What the row loop makes of a result set: nothing when [Query] or the reading of a row
    fails, and only the first rows, without noticing, when the iteration breaks off. *)
Definition rows_shown {A} (f : QueryFault) (rows : list A) : option (list A) :=
  match f with
  | QueryOk => Some rows
  | QueryFails => None
  | RowsFail k => Some (take k rows)
  | ScanFails k => if decide (k < length rows)%nat then None else Some rows
  end.

(** The answer to a listing of which [shown] was read: all of it (or an empty body, where
    it has no JSON text), or the error. *)
Definition listing_answer {A} (v : list A → payload) (failed : string) (shown : option (list A))
    (rw : ResponseWriter) : Prop :=
  match shown with
  | Some rows => status_of rw = StatusOK ∧ w_body rw = if encodable (v rows) then [v rows] else []
  | None => status_of rw = StatusInternalServerError ∧ w_body rw = [PError failed]
  end.

(** The answer of a listing handler. *)
Definition listing_outcome {A} (sel : (∀ X, list X → list X) → Pg → result (list A)) (v : list A → payload)
    (failed : string) (w : World) (rw : ResponseWriter) (w' : World) : Prop :=
  w_pg w' = w_pg w ∧
  match sel (row_order (w_tick w)) (w_pg w) with
  | Ok rows => listing_answer v failed (rows_shown (query_fault (w_tick w)) rows) rw
  | Err _ => listing_answer v failed None rw
  end.

Lemma run_listing {A} (sel : (∀ X, list X → list X) → Pg → result (list A)) r what failed scanned v w :
  let '(rw, w') := run (bind (pg_query_ordered sel) (λ rows,
    match rows with
    | Err _ => bind (log_line "ERROR" (app_log r) what) (λ _, writeError new_response StatusInternalServerError failed)
    | Ok (rows, RowScanErr) =>
        bind (log_line "ERROR" (app_log r) scanned) (λ _, writeError new_response StatusInternalServerError failed)
    | Ok (rows, _) => writeJSON new_response StatusOK (Some (v rows))
    end)) w in
  listing_outcome sel v failed w rw w'.
Proof.
  rewrite run_bind. unfold pg_query_ordered, listing_outcome. rewrite run_act. cbn [fst snd].
  assert (∀ rows w1, w_pg w1 = w_pg w →
    let '(rw, w') := run (writeJSON new_response StatusOK (Some (v rows))) w1 in
    w_pg w' = w_pg w ∧ listing_answer v failed (Some rows) rw) as Hshow.
  { intros rows w1 Hw. unfold writeJSON, listing_answer. destruct (encodable (v rows)); [by simpl|by rewrite run_bind]. }
  destruct (sel _ _) as [rows|e]; [|by destruct (query_fault _); rewrite run_bind].
  destruct (query_fault (w_tick w)) as [| |k|k]; cbn [query_outcome rows_shown].
  - by apply Hshow.
  - by rewrite run_bind.
  - by apply Hshow.
  - case_decide; [by rewrite run_bind|by apply Hshow].
Qed.

End Listings.
