(* ===== verification/Response.v ===== *)
(** * Response bodies

    The text the JSON encoder writes for every value the handlers of [api] answer with:
    the struct tags of [api/models.go] through [json.NewEncoder(w).Encode] in [writeJSON]
    ([api/db.go]).  A class states what the encoder promises to a reader of each
    type; the instances discharge it, and the bodies inherit it. *)

From S2P Require Import Prelude GoStd GoFloat GoTime Contract GoJson JsonText Decimal Escape Rounding GoFormat.
From S2P Require Import Alerts Pg World Models TimeText Http.
Open Scope Z_scope.
Open Scope string_scope.
Open Scope list_scope.

(** ** Values of a type as JSON *)

Class Json (A : Type) := {
  to_json : A → json;
  of_json : json → option A;
  fits : A → bool;          (* the encoder accepts it and loses nothing *)
  nesting : nat;            (* how deep arrays and objects are nested in it *)
}.
Arguments nesting A {_}.

Class JsonLaws (A : Type) `{!Json A} : Prop := {
  json_printable d (x : A) : fits x = true → (nesting A <= d)%nat → printable escape d (to_json x) = true;
  json_reread (x : A) : fits x = true → reread escape (to_json x) = to_json x;
  of_to_json (x : A) : fits x = true → of_json (to_json x) = Some x;
}.

(** A type whose values are never written as null, so that a pointer to it may be. *)
Class NotNull (A : Type) `{!Json A} : Prop := not_null (x : A) : to_json x ≠ JNull.

(** *** Scalars *)

#[export] Instance string_json : Json string := {|
  to_json s := JStr (escape s) (to_valid s);
  of_json v := match v with JStr _ s => Some s | _ => None end;
  fits := valid_string;
  nesting := 0;
|}.

#[export] Instance float_json : Json float64 := {|
  to_json x := JNum (format_json_float x);
  of_json v := match v with JNum n => strconv_ParseFloat n | _ => None end;
  fits := is_number;
  nesting := 0;
|}.

#[export] Instance bool_json : Json bool := {|
  to_json := JBool;
  of_json v := match v with JBool b => Some b | _ => None end;
  fits _ := true;
  nesting := 0;
|}.

(** [Time.MarshalJSON] *)
#[export] Instance time_json : Json time := {|
  to_json t := JStr (Format_RFC3339Nano t) (Format_RFC3339Nano t);
  of_json v := match v with JStr _ s => Parse_RFC3339 s | _ => None end;
  fits := json_time;
  nesting := 0;
|}.

#[export] Instance string_laws : JsonLaws string.
Proof.
  split; cbn [to_json of_json fits string_json].
  - intros d s _ _. apply escaped_escape.
  - intros s _. cbn [reread]. by rewrite unquote_escape.
  - intros s Hs. by rewrite to_valid_id.
Qed.

#[export] Instance float_laws : JsonLaws float64.
Proof.
  split; cbn [to_json of_json fits float_json]; intros; by first [done | apply format_json_float_spec].
Qed.

#[export] Instance bool_laws : JsonLaws bool.
Proof. split; intros; [by destruct x|done|done]. Qed.

Lemma Format_safe t : json_time t = true → escape (Format_RFC3339Nano t) = Format_RFC3339Nano t ∧
  valid_string (Format_RFC3339Nano t) = true.
Proof.
  intros Ht%Format_chars. apply escape_safe. eapply string_forallb_impl; [|exact Ht]. clear.
  intros a. destruct a as [[] [] [] [] [] [] [] []]; intros H; try (by vm_compute in H); reflexivity.
Qed.

#[export] Instance time_laws : JsonLaws time.
Proof.
  split; cbn [to_json of_json fits time_json].
  - intros d t Ht _. cbn [printable]. destruct (Format_safe t Ht) as [<- _]. apply escaped_escape.
  - intros t Ht. destruct (Format_safe t Ht) as [E Hv]. cbn [reread]. f_equal.
    rewrite <- E at 1. by rewrite unquote_escape, to_valid_id.
  - intros t. apply Parse_Format.
Qed.

#[export] Instance string_not_null : NotNull string.
Proof. done. Qed.

#[export] Instance time_not_null : NotNull time.
Proof. done. Qed.

(** *** Pointers, slices and maps *)

Section Containers.
Context {A : Type} `{!Json A, !JsonLaws A}.

#[export] Instance ptr_json : Json (option A) := {|
  to_json p := match p with Some x => to_json x | None => JNull end;
  of_json v := match v with JNull => Some None | _ => Some <$> of_json v end;
  fits p := match p with Some x => fits x | None => true end;
  nesting := nesting A;
|}.

#[export] Instance ptr_laws : NotNull A → JsonLaws (option A).
Proof.
  intros Hnn. split; cbn [to_json of_json fits nesting ptr_json].
  - intros d [x|] Hx Hd; [by apply json_printable|done].
  - intros [x|] Hx; [by apply json_reread|done].
  - intros [x|] Hx; [|done]. pose proof (not_null x). rewrite of_to_json by done. by destruct (to_json x).
Qed.

#[export] Instance slice_json : Json (list A) := {|
  to_json l := JArr (map to_json l);
  of_json v := match v with JArr l => mapM of_json l | _ => None end;
  fits := forallb fits;
  nesting := S (nesting A);
|}.

#[export] Instance slice_laws : JsonLaws (list A).
Proof.
  split; cbn [to_json of_json fits nesting slice_json].
  - intros [|d] l Hl Hd; [lia|]. cbn [printable]. rewrite forallb_forall in *. intros v Hv.
    apply in_map_iff in Hv as (x & <- & Hx). apply json_printable; [by apply Hl|lia].
  - intros l Hl. cbn [reread]. f_equal. rewrite map_map. rewrite forallb_forall in Hl.
    apply map_ext_in. intros x Hx. apply json_reread. by apply Hl.
  - intros l Hl. induction l as [|x l IH]; [done|]. cbn [forallb map] in *. apply andb_true_iff in Hl as [Hx Hl].
    cbn [mapM]. by rewrite of_to_json, IH by done.
Qed.

(** Map keys are sorted by their bytes. *)
Definition by_key : relation (string * A) := λ p q, String.le p.1 q.1.

#[global] Instance by_key_dec p q : stdpp.base.Decision (by_key p q).
Proof. unfold by_key. apply _. Defined.

#[global] Instance by_key_total : Total by_key.
Proof. intros p q. apply (total String.le). Qed.

#[global] Instance by_key_trans : Transitive by_key.
Proof. intros p q r. unfold by_key. apply transitivity. Qed.

Definition sorted_members (m : gmap string A) : list (string * A) := merge_sort by_key (map_to_list m).

Definition member_to_json (kv : string * A) : string * json := (kv.1, to_json kv.2).
Definition member_of_json (kv : string * json) : option (string * A) := pair kv.1 <$> of_json kv.2.

#[export] Instance map_json : Json (gmap string A) := {|
  to_json m := JObj (map member_to_json (sorted_members m));
  of_json v := match v with JObj l => list_to_map ∘ reverse <$> mapM member_of_json l | _ => None end;
  fits m := bool_decide (map_Forall (λ k x, valid_string k && fits x = true) m);
  nesting := S (nesting A);
|}.

Lemma sorted_members_perm m : sorted_members m ≡ₚ map_to_list m.
Proof. apply merge_sort_Permutation. Qed.

Lemma sorted_members_sorted m : StronglySorted by_key (sorted_members m).
Proof. apply StronglySorted_merge_sort; apply _. Qed.

Lemma fits_members m :
  fits m = true → Forall (λ kv, valid_string kv.1 = true ∧ fits kv.2 = true) (sorted_members m).
Proof.
  cbn [fits map_json]. rewrite bool_decide_eq_true. intros Hm. rewrite sorted_members_perm.
  apply Forall_forall. intros [k x] Hkx%elem_of_map_to_list%Hm. by apply andb_true_iff in Hkx.
Qed.

Lemma member_read kv : fits kv.2 = true → member_of_json (member_to_json kv) = Some kv.
Proof.
  destruct kv as [k x]. cbn [fst snd]. intros Hx. unfold member_of_json, member_to_json. cbn [fst snd].
  by rewrite of_to_json.
Qed.

#[export] Instance map_laws : JsonLaws (gmap string A).
Proof.
  split; [intros [|d] m Hm%fits_members Hd|intros m Hm%fits_members|intros m Hm%fits_members];
    cbn [to_json of_json nesting map_json] in *; [lia|..].
  - cbn [printable]. apply forallb_forall. intros kv Hkv. apply in_map_iff in Hkv as (p & <- & Hp%list_elem_of_In).
    cbn [member_to_json fst snd]. rewrite Forall_forall in Hm. destruct (Hm p Hp) as [_ Hx].
    rewrite escaped_escape. apply json_printable; [done|lia].
  - cbn [reread]. f_equal. rewrite map_map. apply map_ext_in. intros p Hp%list_elem_of_In.
    rewrite Forall_forall in Hm. destruct (Hm p Hp) as [Hk Hx]. unfold member_to_json. cbn [fst snd].
    by rewrite unquote_escape, to_valid_id, json_reread.
  - assert (mapM member_of_json (map member_to_json (sorted_members m)) = Some (sorted_members m)) as ->.
    { induction Hm as [|kv l [_ Hx] _ IH]; [done|]. cbn [map mapM]. by rewrite member_read, IH. }
    cbn [fmap option_fmap option_map]. f_equal. unfold compose. rewrite <- (list_to_map_to_list m) at 2.
    apply list_to_map_proper; [|by rewrite reverse_Permutation, sorted_members_perm].
    rewrite reverse_Permutation, sorted_members_perm. apply NoDup_fst_map_to_list.
Qed.

End Containers.

(** *** Structs *)

(** The members of a struct, one for every field with its tag; a reader takes the last of
    a name. *)
Fixpoint member (k : string) (l : list (string * json)) : option json :=
  match l with
  | [] => None
  | (k', v) :: l => match member k l with
                    | Some v' => Some v'
                    | None => if String.eqb k' k then Some v else None
                    end
  end.

Definition get {A} `{!Json A} (k : string) (l : list (string * json)) : option A := v ← member k l; of_json v.

(** [omitempty] on a string *)
Definition omit_empty (k s : string) : list (string * json) := if decide (s = "") then [] else [(k, to_json s)].

Definition get_omitted (k : string) (l : list (string * json)) : option string :=
  match member k l with Some v => of_json v | None => Some "" end.

Definition json_object {A} (read : list (string * json) → option A) (v : json) : option A :=
  match v with JObj l => read l | _ => None end.

Definition Site_members (s : Site) : list (string * json) :=
  [("id", to_json (site_ID s)); ("name", to_json (site_Name s)); ("type", to_json (site_Type s))] ++
    omit_empty "location" (site_Location s).

#[export] Instance site_json : Json Site := {|
  to_json s := JObj (Site_members s);
  of_json := json_object (λ l,
    id ← get "id" l; name ← get "name" l; type ← get "type" l; location ← get_omitted "location" l;
    Some (mkSite id name type location));
  fits s := fits (site_ID s) && fits (site_Name s) && fits (site_Type s) && fits (site_Location s);
  nesting := 1;
|}.

Definition Device_members (d : Device) : list (string * json) :=
  [("id", to_json (dev_ID d)); ("site_id", to_json (dev_SiteID d)); ("name", to_json (dev_Name d));
    ("type", to_json (dev_Type d)); ("last_seen_at", to_json (dev_LastSeenAt d))].

#[export] Instance device_json : Json Device := {|
  to_json d := JObj (Device_members d);
  of_json := json_object (λ l,
    id ← get "id" l; site ← get "site_id" l; name ← get "name" l; type ← get "type" l; seen ← get "last_seen_at" l;
    Some (mkDevice id site name type seen));
  fits d := fits (dev_ID d) && fits (dev_SiteID d) && fits (dev_Name d) && fits (dev_Type d) && fits (dev_LastSeenAt d);
  nesting := 1;
|}.

Definition TelemetryPoint_members (p : TelemetryPoint) : list (string * json) :=
  [("device_id", to_json (tp_DeviceID p)); ("readings", to_json (tp_Readings p));
    ("ts", to_json (tp_Ts p)); ("received_at", to_json (tp_ReceivedAt p))].

#[export] Instance point_json : Json TelemetryPoint := {|
  to_json p := JObj (TelemetryPoint_members p);
  of_json := json_object (λ l,
    id ← get "device_id" l; readings ← get "readings" l; ts ← get "ts" l; received ← get "received_at" l;
    Some (mkTelemetryPoint id readings ts received));
  fits p := fits (tp_DeviceID p) && fits (tp_Readings p) && fits (tp_Ts p) && fits (tp_ReceivedAt p);
  nesting := 2;
|}.

Definition AlertRule_members (r : AlertRule) : list (string * json) :=
  [("id", to_json (rule_id r)); ("device_id", to_json (rule_DeviceID r));
    ("metric", to_json (rule_metric r)); ("operator", to_json (rule_operator r));
    ("threshold", to_json (rule_threshold r)); ("severity", to_json (rule_severity r));
    ("enabled", to_json (rule_Enabled r))].

#[export] Instance rule_json : Json AlertRule := {|
  to_json r := JObj (AlertRule_members r);
  of_json := json_object (λ l,
    id ← get "id" l; device ← get "device_id" l; metric ← get "metric" l; operator ← get "operator" l;
    threshold ← get "threshold" l; severity ← get "severity" l; enabled ← get "enabled" l;
    Some (mkAlertRule id device metric operator threshold severity enabled));
  fits r := fits (rule_id r) && fits (rule_DeviceID r) && fits (rule_metric r) && fits (rule_operator r) &&
    fits (rule_threshold r) && fits (rule_severity r) && fits (rule_Enabled r);
  nesting := 1;
|}.

Definition Alert_members (a : Alert) : list (string * json) :=
  [("id", to_json (alert_ID a)); ("alert_rule_id", to_json (alert_AlertRuleID a));
    ("device_id", to_json (alert_DeviceID a)); ("triggered_value", to_json (alert_TriggeredValue a));
    ("severity", to_json (alert_Severity a)); ("status", to_json (alert_Status a));
    ("triggered_at", to_json (alert_TriggeredAt a)); ("acknowledged_at", to_json (alert_AcknowledgedAt a));
    ("acknowledged_by", to_json (alert_AcknowledgedBy a)); ("resolved_at", to_json (alert_ResolvedAt a));
    ("resolved_by", to_json (alert_ResolvedBy a))].

#[export] Instance alert_json : Json Alert := {|
  to_json a := JObj (Alert_members a);
  of_json := json_object (λ l,
    id ← get "id" l; rule ← get "alert_rule_id" l; device ← get "device_id" l; value ← get "triggered_value" l;
    severity ← get "severity" l; status ← get "status" l; triggered ← get "triggered_at" l;
    ack_at ← get "acknowledged_at" l; ack_by ← get "acknowledged_by" l;
    res_at ← get "resolved_at" l; res_by ← get "resolved_by" l;
    Some (mkAlert id rule device value severity status triggered ack_at ack_by res_at res_by));
  fits a := fits (alert_ID a) && fits (alert_AlertRuleID a) && fits (alert_DeviceID a) &&
    fits (alert_TriggeredValue a) && fits (alert_Severity a) && fits (alert_Status a) && fits (alert_TriggeredAt a) &&
    fits (alert_AcknowledgedAt a) && fits (alert_AcknowledgedBy a) && fits (alert_ResolvedAt a) && fits (alert_ResolvedBy a);
  nesting := 1;
|}.

Lemma object_printable d l :
  Forall (λ kv, printable escape d kv.2 = true) l → printable escape (S d) (JObj l) = true.
Proof.
  intros Hl. cbn [printable]. apply forallb_forall. intros kv Hkv%list_elem_of_In.
  rewrite Forall_forall in Hl. by rewrite escaped_escape, Hl.
Qed.

Lemma object_reread l :
  Forall (λ kv, valid_string kv.1 = true ∧ reread escape kv.2 = kv.2) l → reread escape (JObj l) = JObj l.
Proof.
  intros Hl. cbn [reread]. f_equal. rewrite <- (map_id l) at 2. apply map_ext_in. intros [k v] Hkv%list_elem_of_In.
  rewrite Forall_forall in Hl. destruct (Hl _ Hkv) as [Hk Hv]. cbn [fst snd] in *.
  by rewrite unquote_escape, to_valid_id, Hv.
Qed.

Lemma omit_empty_printable d k s : fits s = true → Forall (λ kv, printable escape d kv.2 = true) (omit_empty k s).
Proof.
  intros Hs. unfold omit_empty. case_decide; [done|]. apply Forall_singleton. apply json_printable; [done|simpl; lia].
Qed.

Lemma omit_empty_reread k s :
  valid_string k = true → fits s = true →
  Forall (λ kv, valid_string kv.1 = true ∧ reread escape kv.2 = kv.2) (omit_empty k s).
Proof.
  intros Hk Hs. unfold omit_empty. case_decide; [done|]. apply Forall_singleton. split; [done|by apply json_reread].
Qed.

(** The laws of a struct follow from those of its fields. *)
Ltac fields Hx := repeat match type of Hx with _ && _ = true => apply andb_true_iff in Hx as [Hx ?] end.

Ltac nesting_lia :=
  repeat match goal with
  | |- context [nesting ?A] => let n := eval vm_compute in (nesting A) in change (nesting A) with n
  | H : context [nesting ?A] |- _ => let n := eval vm_compute in (nesting A) in change (nesting A) with n in H
  end; lia.

Ltac struct_laws instance members :=
  split;
  [ intros [|d] x Hx Hd; [nesting_lia|]; cbn [fits instance] in Hx; fields Hx; apply object_printable; unfold members;
    rewrite ?Forall_app; repeat split; repeat constructor;
    first [by apply omit_empty_printable | apply json_printable; [assumption|nesting_lia]]
  | intros x Hx; cbn [fits instance] in Hx; fields Hx; apply object_reread; unfold members;
    rewrite ?Forall_app; repeat split; repeat constructor;
    first [by apply omit_empty_reread | apply json_reread; assumption]
  | intros x Hx; cbn [fits instance] in Hx; fields Hx; cbn [to_json of_json instance json_object]; unfold members;
    unfold get; cbn [member app String.eqb Ascii.eqb Bool.eqb];
    cbn [mbind option_bind]; rewrite ?of_to_json by assumption; cbn [mbind option_bind]; try by destruct x ].

#[export] Instance device_laws : JsonLaws Device.
Proof. struct_laws device_json Device_members. Qed.

#[export] Instance point_laws : JsonLaws TelemetryPoint.
Proof. struct_laws point_json TelemetryPoint_members. Qed.

#[export] Instance rule_laws : JsonLaws AlertRule.
Proof. struct_laws rule_json AlertRule_members. Qed.

#[export] Instance alert_laws : JsonLaws Alert.
Proof. struct_laws alert_json Alert_members. Qed.

#[export] Instance site_laws : JsonLaws Site.
Proof.
  struct_laws site_json Site_members. unfold get_omitted, omit_empty. destruct x as [id name type location].
  cbn [site_ID site_Name site_Type site_Location] in *. case_decide as Hl.
  - subst. cbn [member app String.eqb Ascii.eqb Bool.eqb mbind option_bind].
    by rewrite !of_to_json by assumption.
  - cbn [member app String.eqb Ascii.eqb Bool.eqb mbind option_bind]. by rewrite !of_to_json by assumption.
Qed.

(** ** Bodies *)

(** What [writeJSON] is given to encode; [http.Error] and the router write plain text. *)
Definition payload_json (v : payload) : option json :=
  match v with
  | PError message => Some (JObj [("error", to_json message)])
  | PHealth => Some (JObj [("status", to_json "ok")])
  | PSites l => Some (to_json l)
  | PDevices l => Some (to_json l)
  | PDevice d => Some (to_json d)
  | PPoints l => Some (to_json l)
  | PAlerts l => Some (to_json l)
  | PAlert a => Some (to_json a)
  | PRules l => Some (to_json l)
  | PRule r => Some (to_json r)
  | PText _ => None
  end.

(** [json.NewEncoder(w).Encode(v)]: the value and a newline. *)
Definition Encode (v : payload) : option string :=
  (λ j, print_json escape j +:+ String "010" "") <$> payload_json v.

(** Strings are UTF-8 and numbers in canonical form, as the databases hold them, and the
    encoder accepts the value. *)
Definition fits_payload (v : payload) : bool :=
  match v with
  | PError message => fits message
  | PHealth => true
  | PSites l => fits l
  | PDevices l => fits l
  | PDevice d => fits d
  | PPoints l => fits l
  | PAlerts l => fits l
  | PAlert a => fits a
  | PRules l => fits l
  | PRule r => fits r
  | PText _ => false
  end.

(** What a client that knows the endpoint makes of a body. *)
Inductive shape := SError | SHealth | SSites | SDevices | SDevice | SPoints | SAlerts | SAlert | SRules | SRule | SText.

Definition shape_of (v : payload) : shape :=
  match v with
  | PError _ => SError | PHealth => SHealth | PSites _ => SSites | PDevices _ => SDevices | PDevice _ => SDevice
  | PPoints _ => SPoints | PAlerts _ => SAlerts | PAlert _ => SAlert | PRules _ => SRules | PRule _ => SRule
  | PText _ => SText
  end.

Definition read_payload (s : shape) (v : json) : option payload :=
  match s with
  | SError => PError <$> json_object (get "error") v
  | SHealth => status ← json_object (get "status") v; if decide (status = "ok") then Some PHealth else None
  | SSites => PSites <$> of_json v
  | SDevices => PDevices <$> of_json v
  | SDevice => PDevice <$> of_json v
  | SPoints => PPoints <$> of_json v
  | SAlerts => PAlerts <$> of_json v
  | SAlert => PAlert <$> of_json v
  | SRules => PRules <$> of_json v
  | SRule => PRule <$> of_json v
  | SText => None
  end.

Definition read_body (s : shape) (body : string) : option payload :=
  match @json_Unmarshal go_text body with
  | Ok v => read_payload s v
  | Err _ => None
  end.

Example site_without_location :
  Encode (PSites [mkSite "s" "<A&B>" "building" ""; mkSite "t" "T" "factory" "Oslo"]) =
  Some (requote "[{'id':'s','name':'\u003cA\u0026B\u003e','type':'building'},{'id':'t','name':'T','type':'factory','location':'Oslo'}]"
    +:+ String "010" "").
Proof. vm_compute. reflexivity. Qed.

Example point_text :
  Encode (PPoints [mkTelemetryPoint "d" {["t" := float_of_decimal false 248 (-1); "a" := S754_zero true]} 0
    (1786190400 * Second + 5 * Millisecond)]) =
  Some (requote "[{'device_id':'d','readings':{'a':-0,'t':24.8},'ts':'1970-01-01T00:00:00Z','received_at':'2026-08-08T12:00:00.005Z'}]"
    +:+ String "010" "").
Proof. vm_compute. reflexivity. Qed.

(** *** What fits is encoded *)

Lemma fits_time t : fits t = true → json_opt_time t = true.
Proof. by destruct t. Qed.

Lemma number_json x : fits x = true → json_float x = true.
Proof. by destruct x. Qed.

Lemma forallb_weaken {A} (p q : A → bool) l : (∀ x, p x = true → q x = true) → forallb p l = true → forallb q l = true.
Proof. intros Hpq. rewrite !forallb_forall. eauto. Qed.

Lemma fits_device d : fits d = true → json_device d = true.
Proof. cbn [fits device_json]. intros Hd. fields Hd. by apply fits_time. Qed.

Lemma fits_rule r : fits r = true → json_rule r = true.
Proof. cbn [fits rule_json]. intros Hr. fields Hr. by apply number_json. Qed.

Lemma fits_alert a : fits a = true → json_alert a = true.
Proof.
  cbn [fits alert_json]. intros Ha. fields Ha. unfold json_alert.
  rewrite number_json, !fits_time by assumption. rewrite !andb_true_r. assumption.
Qed.

Lemma fits_point p : fits p = true → json_point p = true.
Proof.
  cbn [fits point_json]. intros Hp. fields Hp. unfold json_point. rewrite !andb_true_iff. split_and!; try assumption.
  match goal with H : fits (tp_Readings p) = true |- _ => cbn [fits map_json] in H; revert H end.
  rewrite !bool_decide_eq_true. intros Hm k x Hx%Hm. apply andb_true_iff in Hx as [_ Hx]. by apply number_json.
Qed.

Lemma fits_encodable v : fits_payload v = true → encodable v = true.
Proof.
  destruct v; cbn [fits_payload encodable]; try done;
    first [apply fits_device | apply fits_alert | apply fits_rule | idtac].
  all: cbn [fits slice_json]; apply forallb_weaken; eauto using fits_device, fits_point, fits_alert, fits_rule.
Qed.

(** *** Reading a body back *)

Lemma json_Unmarshal_printed v :
  printable escape maxNestingDepth v = true →
  @json_Unmarshal go_text (print_json escape v +:+ String "010" "") = Ok (reread escape v).
Proof.
  intros Hv. unfold json_Unmarshal. change (@json_scan go_text) with scan_json.
  by rewrite scan_print_whole by done.
Qed.

(** Far below the scanner's limit. *)
Lemma shallow n : (n <= 8)%nat → (n <= maxNestingDepth)%nat.
Proof. intros Hn. assert (8 <= maxNestingDepth)%nat by (apply Nat.leb_le; vm_compute; reflexivity). lia. Qed.

Lemma read_value {A} `{JsonLaws A} (x : A) :
  fits x = true → (nesting A <= 8)%nat →
  @json_Unmarshal go_text (print_json escape (to_json x) +:+ String "010" "") = Ok (to_json x) ∧
  of_json (to_json x) = Some x.
Proof.
  intros Hx Hd. rewrite json_Unmarshal_printed by (apply json_printable; [done|by apply shallow]).
  by rewrite json_reread, of_to_json.
Qed.

Lemma read_encoded v body : fits_payload v = true → Encode v = Some body → read_body (shape_of v) body = Some v.
Proof.
  intros Hv Hb. unfold Encode, read_body in *.
  destruct v; cbn [payload_json fits_payload shape_of read_payload fmap option_fmap option_map] in *;
    simplify_eq; try reflexivity.
  1: { rewrite json_Unmarshal_printed.
    - rewrite object_reread by (repeat constructor; by apply json_reread). cbn [json_object get].
      unfold get. cbn [member String.eqb Ascii.eqb Bool.eqb mbind option_bind]. by rewrite of_to_json.
    - apply (object_printable 9999). repeat constructor. apply json_printable; [done|nesting_lia]. }
  all: match goal with H : fits ?x = true |- _ => destruct (read_value x H) as [-> E] end;
    [nesting_lia|]; cbn [read_payload]; by rewrite E.
Qed.

(** C21: Response bodies.  Whatever value a handler answers with (strings in UTF-8, numbers that are
    finite float64 values, times of years 0 to 9999, as deep and as long as it is), the
    encoder accepts it, its text is one JSON document followed by a newline, and a
    client that reads it by the names of the struct tags gets exactly the value back:
    every string with its quotes, control characters and HTML, every float64 to the
    last bit, every instant to the nanosecond, and null for the pointers that are
    nil. *)
Theorem response_roundtrip v body :
  fits_payload v = true → Encode v = Some body → encodable v = true ∧ read_body (shape_of v) body = Some v.
Proof. intros Hv Hb. split; [by apply fits_encodable|by apply read_encoded]. Qed.

(** ** Witnesses *)

(** An acknowledged alert, with text that needs escapes and a value of many digits. *)
Definition shown_alert : Alert :=
  mkAlert "a" "r" "d" (float_of_decimal true 123456789 (-30)) (requote "'<critical>'" +:+ String "010" (EncodeRune 8232))
    "acknowledged" (1786190400 * Second) (Some (1786190400 * Second + 1)) (Some "ops@example.com") None None.

Lemma response_roundtrip_witness :
  encodable (PAlerts [shown_alert]) = true ∧
  read_body SAlerts (default "" (Encode (PAlerts [shown_alert]))) = Some (PAlerts [shown_alert]).
Proof. apply (response_roundtrip (PAlerts [shown_alert])); vm_compute; reflexivity. Defined.
