(* ===== verification/Stored.v ===== *)
(** * What is stored can be shown

    The invariant of the two databases that every row, and all of a reading but its
    instants, fits the encoder of the responses ([Response]); each SQL statement and
    the whole of [process] keep it. *)

From S2P Require Import Prelude GoStd GoFloat GoTime Alerts Pg World Contract GoJson Escape Rounding Scanned Fixtures Shared Store.
From S2P Require Import Process Payload Models TimeText Response.
Open Scope Z_scope.
Open Scope string_scope.
Open Scope list_scope.
Open Scope go_scope.

(** ** What the outside delivers

    The server takes and makes text of its encoding only (UTF-8), and the clocks show
    years of four digits. *)
Class TextLaws `{!PgLib, !Env} : Prop := {
  uuid_in_text s u : uuid_in s = Some u → valid_string u = true;
  text_in_text s : text_in s = true → valid_string s = true;
  generated_text n : valid_string (gen_random_uuid n) = true;
  clock_json n : json_time (now_at n) = true;
}.

(** ** The invariant *)

(** Every row can be shown. *)
Record db_fits (db : Pg) : Prop := {
  fit_sites : map_Forall (λ id s, fits (site_of_row (id, s)) = true) (sites db);
  fit_devices : map_Forall (λ id d, fits (device_of_row (id, d)) = true) (devices db);
  fit_rules : map_Forall (λ id r, fits (alert_rule_of_row (id, r)) = true) (alert_rules db);
  fit_alerts : map_Forall (λ id a, fits (alert_of_row (id, a)) = true) (alerts db);
}.

(** A stored reading: its text and numbers; its instants are whatever the publisher
    sent. *)
Definition doc_fits (d : TelemetryDoc) : Prop := valid_string (t_device_id d) = true ∧ sound_map (t_readings d).

Definition world_fits (w : World) : Prop := db_fits (w_pg w) ∧ Forall doc_fits (w_telemetry w).

(** A statement that keeps it, and what it returns. *)
Definition stmt_fits {A} (st : stmt A) (R : A → Prop) : Prop :=
  ∀ db, db_fits db → db_fits (st db).2 ∧ match (st db).1 with Ok x => R x | Err _ => True end.

(** ** Text and numbers of the tables *)

Lemma severity_text s : severity_check s = true → valid_string s = true.
Proof. unfold severity_check. rewrite bool_decide_eq_true. intros [->|[->|[]%elem_of_nil]%elem_of_cons]%elem_of_cons; reflexivity. Qed.

Lemma status_valid s : valid_string (status_text s) = true.
Proof. by destruct s. Qed.

Lemma numeric_number x : is_number x = true → is_number (pg_numeric x) = true.
Proof. by destruct x. Qed.

Lemma timestamptz_json t : json_time t = true → json_time (pg_timestamptz t) = true.
Proof.
  unfold json_time, pg_timestamptz, Second. rewrite !bool_decide_eq_true. Z.to_euclidean_division_equations. lia.
Qed.

(** Splits what is known of a struct, and what is to be shown. *)
Ltac row_fits :=
  repeat match goal with H : context [fits _ = true] |- _ => progress simpl in H end; simpl;
  repeat match goal with H : _ && _ = true |- _ => apply andb_true_iff in H as [H ?] end;
  rewrite ?andb_true_iff; split_and!;
  eauto using severity_text, status_valid, numeric_number, timestamptz_json.

Section Statements.
Context `{!PgLib, !Env, !TextLaws}.

Hint Resolve uuid_in_text text_in_text generated_text clock_json : core.

Lemma set_alert_fits id a db :
  db_fits db → fits (alert_of_row (id, a)) = true → db_fits (set_alerts <[id := a]> db).
Proof. intros [] Ha. split; simpl; [done..|]. by apply map_Forall_insert_2. Qed.

Lemma set_rule_fits id r db :
  db_fits db → fits (alert_rule_of_row (id, r)) = true → db_fits (set_alert_rules <[id := r]> db).
Proof. intros [] Hr. split; simpl; [done..| |done]. by apply map_Forall_insert_2. Qed.

Lemma fits_insert_alert n rid did v sev at_ :
  is_number v = true → json_time at_ = true → stmt_fits (insert_alert (gen_random_uuid n) rid did v sev at_) (λ _, True).
Proof.
  intros Hv Hat db Hdb. unfold insert_alert, fail.
  destruct (uuid_in rid) as [r|] eqn:Er, (uuid_in did) as [d|] eqn:Ed; try done.
  destruct (severity_check sev) eqn:Es; [|done]. cbn [negb]. repeat case_decide; try done.
  split; [|done]. apply set_alert_fits; [done|]. row_fits.
Qed.

Lemma fits_auto_resolve at_ rid : json_time at_ = true → stmt_fits (auto_resolve_alerts at_ rid) (λ _, True).
Proof.
  intros Hat db Hdb. unfold auto_resolve_alerts, fail. destruct (uuid_in rid) as [r|]; [|done]. split; [|done].
  destruct Hdb as [? ? ? Ha]. split; simpl; [done..|]. intros id a.
  rewrite lookup_fmap. intros (b & Hb%Ha & ->)%fmap_Some. case_match; [|done]. unfold auto_resolve_row. row_fits.
Qed.

Lemma fits_update_last_seen at_ did : json_time at_ = true → stmt_fits (update_last_seen at_ did) (λ _, True).
Proof.
  intros Hat db Hdb. unfold update_last_seen, fail. destruct (uuid_in did) as [d|]; [|done]. split; [|done].
  destruct Hdb as [? Hd ? ?]. split; simpl; [done| |done..]. apply map_Forall_alter; [done|].
  intros x Hx. row_fits.
Qed.

Definition shown_alert_row (p : string * AlertRow) : Prop := fits (alert_of_row p) = true.
Definition shown_rule_row (p : string * AlertRuleRow) : Prop := fits (alert_rule_of_row p) = true.

Lemma fits_transition from upd n id uid :
  (∀ u i a, valid_string u = true → shown_alert_row (i, a) → shown_alert_row (i, upd (now_at n) u a)) →
  stmt_fits (transition_stmt from upd (now_at n) id uid) shown_alert_row.
Proof.
  intros Hupd db Hdb. unfold transition_stmt, fail.
  destruct (uuid_in id) as [i|], (uuid_in uid) as [u|] eqn:Eu; try done.
  destruct (alerts db !! i) as [a|] eqn:Ea; [|done]. repeat case_decide; try done.
  assert (shown_alert_row (i, upd (now_at n) u a)) by (apply Hupd; [by eauto|by apply (fit_alerts _ Hdb)]).
  split; [by apply set_alert_fits|done].
Qed.

Lemma ack_fits n u i a :
  valid_string u = true → shown_alert_row (i, a) → shown_alert_row (i, ack_row (now_at n) u a).
Proof. unfold shown_alert_row, ack_row. intros Hu Ha. row_fits. Qed.

Lemma resolve_fits n u i a :
  valid_string u = true → shown_alert_row (i, a) → shown_alert_row (i, resolve_row (now_at n) u a).
Proof. unfold shown_alert_row, resolve_row. intros Hu Ha. row_fits. Qed.

Lemma fits_insert_rule n did m o t s e :
  is_number t = true → stmt_fits (insert_rule (gen_random_uuid n) did m o t s e) shown_rule_row.
Proof.
  intros Ht db Hdb. unfold insert_rule, fail. destruct (uuid_in did) as [d|] eqn:Ed; [|done].
  destruct (forallb text_in [m; o; s]) eqn:E; [|done]. cbn [negb forallb] in *. fields E.
  destruct (negb (operator_check o && severity_check s)); [done|]. repeat case_decide; try done.
  assert (shown_rule_row (gen_random_uuid n, mkAlertRuleRow d m o (pg_numeric t) s e)) by (unfold shown_rule_row; row_fits).
  split; [by apply set_rule_fits|done].
Qed.

Lemma fits_update_rule id m o t s e :
  is_number t = true → stmt_fits (update_rule id m o t s e) shown_rule_row.
Proof.
  intros Ht db Hdb. unfold update_rule, fail. destruct (uuid_in id) as [i|] eqn:Ei; [|done].
  destruct (forallb text_in [m; o; s]) eqn:E; [|done]. cbn [negb forallb] in *. fields E.
  destruct (alert_rules db !! i) as [r|] eqn:Er; [|done].
  destruct (negb (operator_check o && severity_check s)); [done|].
  pose proof (fit_rules _ Hdb i r Er) as Hr. cbn beta in Hr.
  assert (shown_rule_row (i, mkAlertRuleRow (ar_device_id r) m o (pg_numeric t) s e)) by (unfold shown_rule_row; row_fits).
  split; [by apply set_rule_fits|done].
Qed.

Lemma fits_delete_rule id : stmt_fits (delete_rule id) (λ _, True).
Proof.
  intros db Hdb. unfold delete_rule, fail. destruct (uuid_in id) as [i|]; [|done].
  destruct (alert_rules db !! i); [|done]. case_decide; [done|]. split; [|done].
  destruct Hdb as [? ? Hr ?]. split; simpl; [done..| |done]. by apply map_Forall_delete.
Qed.

End Statements.

(** ** Actions *)

Notation keeping := (keeps world_fits).

Section Actions.
Context `{!PgLib, !Env, !TextLaws}.

(** An action that touches neither database. *)
Lemma keeping_quiet {A} (f : World → A * World) (Q : A → Prop) :
  (∀ w, w_pg (f w).2 = w_pg w ∧ w_telemetry (f w).2 = w_telemetry w ∧ Q (f w).1) → keeping (act f) Q.
Proof. intros Hf. apply keeps_act. intros w [Hd Ht]. destruct (Hf w) as (E1 & E2 & HQ). by split; [split; rewrite ?E1, ?E2|]. Qed.

Lemma keeping_time_Now : keeping time_Now (λ t, json_time t = true).
Proof. apply keeping_quiet. intros w. split_and!; [done..|]. apply clock_json. Qed.

Lemma keeping_log level cid m : keeping (log_line level cid m) (λ _, True).
Proof. by apply keeping_quiet. Qed.

Lemma keeping_NewCorrelationID : keeping NewCorrelationID (λ _, True).
Proof. by apply keeping_quiet. Qed.

Lemma keeping_pg_exec {A} (st : string → time → stmt A) (R : A → Prop) :
  (∀ n, stmt_fits (st (gen_random_uuid n) (now_at n)) R) →
  keeping (pg_exec st) (λ r, match r with Ok x => R x | Err _ => True end).
Proof.
  intros Hst. apply keeps_act. intros w [Hd Ht].
  destruct (Hst (w_tick w) _ Hd) as [Hd' HR]. unfold exec_outcome.
  destruct (exec_fault (w_tick w)); simpl; [|done|]; destruct (st _ _ _) as [r db]; done.
Qed.

(** The rows the loop sees are rows of the statement. *)
Definition rows_of {A} (R : A → Prop) (r : result (list A * rows_end)) : Prop :=
  match r with Ok (rows, _) => Forall R rows | Err _ => True end.

Lemma query_outcome_rows {A} (R : A → Prop) fault rows : Forall R rows → rows_of R (query_outcome fault rows).
Proof.
  intros Hr. destruct fault as [| |k|k]; simpl; [done|done| |]; [by apply Forall_take|].
  case_decide; [by apply Forall_take|done].
Qed.

Lemma keeping_pg_query {A} (sel : Pg → result (list A)) : keeping (pg_query sel) (λ _, True).
Proof. by apply keeping_quiet. Qed.

Lemma keeping_pg_query_ordered {A} (sel : (∀ X, list X → list X) → Pg → result (list A)) (R : A → Prop) :
  (∀ (ord : ∀ X, list X → list X) db rows, (∀ X (l : list X), ord X l ≡ₚ l) → db_fits db →
    sel ord db = Ok rows → Forall R rows) →
  keeping (pg_query_ordered sel) (rows_of R).
Proof.
  intros Hsel. apply keeps_act. intros w [Hd Ht]. split; [done|]. simpl.
  destruct (sel _ _) as [rows|e] eqn:E; [|by destruct (query_fault _)].
  apply query_outcome_rows. eapply Hsel; [|exact Hd|exact E]. apply row_order_perm.
Qed.

Lemma keeping_pg_query_row {A} (sel : Pg → result A) (R : A → Prop) :
  (∀ db x, db_fits db → sel db = Ok x → R x) →
  keeping (pg_query_row sel) (λ r, match r with Ok x => R x | Err _ => True end).
Proof.
  intros Hsel. apply keeps_act. intros w [Hd Ht]. split; [done|]. simpl.
  destruct (query_fault _); simpl; try done. all: destruct (sel _) eqn:E; eauto.
Qed.

Lemma keeping_mongo_find {A} (sel : (∀ X, list X → list X) → list TelemetryDoc → list A) (R : A → Prop) :
  (∀ (ord : ∀ X, list X → list X) docs, (∀ X (l : list X), ord X l ≡ₚ l) → Forall doc_fits docs →
    Forall R (sel ord docs)) →
  keeping (mongo_find sel) (rows_of R).
Proof.
  intros Hsel. apply keeps_act. intros w [Hd Ht]. split; [done|]. simpl. apply query_outcome_rows, Hsel; [|done].
  apply row_order_perm.
Qed.

Lemma keeping_mongo_insert_one doc : doc_fits doc → keeping (mongo_insert_one doc) (λ _, True).
Proof.
  intros Hdoc. apply keeps_act. intros w [Hd Ht]. split; [|done].
  assert (Forall doc_fits (w_telemetry w ++ [doc])) by (apply Forall_app; split; [done|by apply Forall_singleton]).
  by destruct (exec_fault (w_tick w)).
Qed.

End Actions.

(** One action after the other, when the result of the first does not matter. *)
Lemma keeping_seq {A B} (p : prog World A) (k : A → prog World B) (P : A → Prop) (Q : B → Prop) :
  keeping p P → (∀ a, keeping (k a) Q) → keeping (bind p k) Q.
Proof. intros Hp Hk. eapply keeps_bind; [exact Hp|]. intros a _. apply Hk. Qed.

(** ** The ingestion service *)

(** The values of decisions are readings. *)
Lemma EvaluateRules_values rules readings active streaks N ds (P : float64 → Prop) :
  map_Forall (λ _ x, P x) readings → Forall (λ d, P (rd_Value d)) ds →
  Forall (λ d, P (rd_Value d)) (EvaluateRules rules readings active streaks N ds).1.
Proof.
  intros Hr. revert streaks ds. induction rules as [|r rules IH]; intros streaks ds Hds; cbn [EvaluateRules]; [done|].
  destruct (readings !! rule_Metric r) as [v|] eqn:E; [|by apply IH]. apply IH, Forall_app. split; [done|].
  unfold decide_rule. repeat case_match; repeat constructor; exact (Hr _ _ E).
Qed.

Section Ingestion.
Context `{!PgLib, !Env, !TextLaws}.

Lemma keeping_ApplyDecisions d ds at_ :
  json_time at_ = true → Forall (λ x, is_number (rd_Value x) = true) ds → keeping (ApplyDecisions d ds at_) (λ _, True).
Proof.
  intros Hat Hds. induction Hds as [|x ds Hx Hds IH]; cbn [ApplyDecisions]; [done|].
  destruct (rd_Decision x); [exact IH|..].
  all: eapply keeping_seq; [apply keeping_pg_exec; intros n; by apply fits_insert_alert || by apply fits_auto_resolve|].
  all: by intros [].
Qed.

Lemma keeping_retry d ds at_ :
  json_time at_ = true → Forall (λ x, is_number (rd_Value x) = true) ds →
  keeping (applyDecisionsWithRetry d ds at_) (λ _, True).
Proof.
  intros Hat Hds. unfold applyDecisionsWithRetry. generalize (100 * Millisecond), NetError. generalize maxAttempts.
  induction n as [|n IH]; intros b e; cbn [retry_loop]; [done|].
  eapply keeping_seq; [by apply keeping_ApplyDecisions|]. intros [|e']; [done|].
  destruct n; [apply IH|]. eapply keeping_seq; [by apply (keeping_quiet _ (λ _, True))|]. intros _. apply IH.
Qed.

Lemma keeping_MaybeUpdateLastSeen d at_ : json_time at_ = true → keeping (MaybeUpdateLastSeen d at_) (λ _, True).
Proof.
  intros Hat. unfold MaybeUpdateLastSeen. eapply keeping_seq.
  { apply (keeping_quiet _ (λ _, True)). intros w. by destruct (lastSeen_section _ _ _). }
  intros []; [|done]. eapply keeping_seq; [apply keeping_pg_exec; intros n; by apply fits_update_last_seen|].
  by intros [].
Qed.

Lemma keeping_report cid ds : keeping (report_decisions cid ds) (λ _, True).
Proof.
  induction ds as [|d ds IH]; cbn [report_decisions]; [done|].
  eapply keeping_seq; [by apply (keeping_quiet _ (λ _, True))|]. intros _.
  eapply keeping_seq; [apply keeping_log|]. by intros _.
Qed.

Lemma keeping_process_message N cid msg : message_sound msg → keeping (process_message N cid msg) (λ _, True).
Proof.
  intros (Hd & Hs & Ht & Hr). unfold process_message. apply (keeping_seq _ _ (λ _, True)).
  { unfold WriteTelemetry. eapply keeps_bind; [apply keeping_time_Now|]. intros now _.
    eapply keeping_seq; [by apply keeping_mongo_insert_one|]. by intros []. }
  intros [|]; [|done]. eapply keeps_bind; [apply keeping_time_Now|]. intros now Hnow.
  eapply keeping_seq; [by apply keeping_MaybeUpdateLastSeen|]. intros r.
  apply (keeping_seq _ _ (λ _, True)); [destruct r; [done|apply keeping_log]|]. intros _.
  apply (keeping_seq _ _ (λ _, True)); [eapply keeping_seq; [apply keeping_pg_query|by intros [[? []]|]]|].
  intros [rules|]; [|done]. case_decide; [done|].
  apply (keeping_seq _ _ (λ _, True)); [eapply keeping_seq; [apply keeping_pg_query|by intros [[? []]|]]|].
  intros [active|]; [|done].
  eapply keeps_bind.
  { apply (keeping_quiet _ (Forall (λ x, is_number (rd_Value x) = true))). intros w.
    pose proof (EvaluateRules_values rules (Readings msg) active (w_streaks w) N [] (λ x, is_number x = true)) as Hv.
    unfold Evaluate. destruct (EvaluateRules _ _ _ _ _ _) as [ds t]. split_and!; [done..|]. apply Hv; [|done].
    intros k x Hx. by apply Hr in Hx as [_ ?]. }
  intros ds Hds. case_decide; [done|]. eapply keeping_seq; [by apply keeping_retry|].
  intros [|]; [|done]. eapply keeping_seq; [apply keeping_report|]. done.
Qed.

Lemma validate_sound j msg : @validate go_text j = Ok msg → message_sound msg.
Proof.
  unfold validate. destruct (parseTopic _) as [[s d]|]; [|done].
  destruct (parseTelemetryMessage _) as [m|] eqn:E; [|done]. case_decide; [done|]. intros [= ->].
  by eapply accepted_message_sound.
Qed.

Lemma keeping_handle_job N j : keeping (@handle_job go_text _ _ N j) (λ _, True).
Proof.
  unfold handle_job. eapply keeping_seq; [by apply (keeping_quiet _ (λ _, True))|]. intros _.
  eapply keeping_seq; [apply keeping_time_Now|]. intros start. apply (keeping_seq _ _ (λ _, True)).
  - unfold process. eapply keeping_seq; [apply keeping_NewCorrelationID|]. intros cid.
    destruct (validate j) as [msg|] eqn:E; [|done]. by apply keeping_process_message, (validate_sound j).
  - intros r. eapply keeping_seq; [apply keeping_time_Now|]. intros _. destruct r; [done|]. apply keeping_log.
Qed.

End Ingestion.
