(* ===== verification/Mux.v ===== *)
(** * http.ServeMux

    The dispatch of the standard library's router, for the patterns the services
    register: "METHOD /path", with GET also serving HEAD, or "/path" for any method;
    "{id}" stands for one segment and a trailing slash for a whole subtree. *)

From S2P Require Import Prelude GoStd Alerts Pg World Contract Models Http.
Open Scope Z_scope.
Open Scope string_scope.
Open Scope list_scope.

(** ** Paths *)

Definition StatusMovedPermanently : Z := 301.
Definition StatusMethodNotAllowed : Z := 405.

(** [path.Clean] on the segments of a rooted path. *)
Definition clean_segment (acc : list string) (s : string) : list string :=
  if decide (s = "" ∨ s = ".") then acc
  else if decide (s = "..") then removelast acc
  else acc ++ [s].

Definition ends_with_slash (s : string) : bool :=
  match last (Split s slash) with Some "" => true | _ => false end.

(** [cleanPath] of net/http. *)
Definition cleanPath (p : string) : string :=
  if decide (p = "") then "/"
  else
    let p := match p with String a _ => if decide (a = slash) then p else "/" +:+ p | _ => p end in
    let np := "/" +:+ GoStd.Join (foldl clean_segment [] (Split p slash)) slash in
    if ends_with_slash p && negb (bool_decide (np = "/")) then np +:+ "/" else np.

Definition hex_val (a : ascii) : option nat :=
  let n := nat_of_ascii a in
  if decide (48 <= n <= 57)%nat then Some (n - 48)%nat
  else if decide (65 <= n <= 70)%nat then Some (n - 55)%nat
  else if decide (97 <= n <= 102)%nat then Some (n - 87)%nat
  else None.

(** [url.PathUnescape] *)
Fixpoint unescape (s : string) : option string :=
  match s with
  | EmptyString => Some ""
  | String "%" (String a (String b s')) =>
      x ← hex_val a; y ← hex_val b; t ← unescape s';
      Some (String (ascii_of_nat (16 * x + y)) t)
  | String "%" _ => None
  | String a s' => String a <$> unescape s'
  end.

(** A wildcard's value: unescaped, or the text itself if that fails. *)
Definition PathUnescape (s : string) : string := default s (unescape s).

(** ** Patterns *)

(** A pattern's segments against a path's: "{id}" matches one non-empty segment, a
    final empty segment everything below.  Literal segments are compared as they come: a
    request that escapes a letter of one (which net/http undoes first) is no match here. *)
Fixpoint match_segments (pat path : list string) (vals : gmap string string) : option (gmap string string) :=
  match pat, path with
  | [], [] => Some vals
  | p :: pat', x :: path' =>
      if decide (p = "" ∧ pat' = []) then Some vals
      else if decide (p = "{id}") then
        if decide (x = "") then None else match_segments pat' path' (<["id" := PathUnescape x]> vals)
      else if decide (p = x) then match_segments pat' path' vals
      else None
  | _, _ => None
  end.

Definition pattern_method (pattern : string) : string :=
  match Cut pattern " "%char with (m, _, true) => m | _ => "" end.
Definition pattern_path (pattern : string) : string :=
  match Cut pattern " "%char with (_, p, true) => p | _ => pattern end.

Definition is_subtree (pattern : string) : bool := ends_with_slash (pattern_path pattern).

Definition match_path (pattern path : string) : option (gmap string string) :=
  match_segments (Split (pattern_path pattern) slash) (Split path slash) ∅.

Definition method_serves (pattern method : string) : bool :=
  bool_decide (pattern_method pattern = method) ||
  (bool_decide (pattern_method pattern = "GET") && bool_decide (method = "HEAD")) ||
  bool_decide (pattern_method pattern = "").

Definition match_route (pattern method path : string) : option (gmap string string) :=
  if method_serves pattern method then match_path pattern path else None.

(** The more specific of two patterns that match the same path: an exact one, or the
    deeper of two subtrees. *)
Definition segments (pattern : string) : nat := length (Split (pattern_path pattern) slash).
Definition more_specific (q p : string) : bool :=
  is_subtree p && (negb (is_subtree q) || bool_decide (segments p < segments q)%nat).

Fixpoint find_route (table : list (string * Handler)) (method path : string)
    : option (string * Handler * gmap string string) :=
  match table with
  | [] => None
  | (pattern, h) :: table' =>
      match match_route pattern method path, find_route table' method path with
      | Some vals, Some (q, k, v) =>
          if more_specific q pattern then Some (q, k, v) else Some (pattern, h, vals)
      | Some vals, None => Some (pattern, h, vals)
      | None, found => found
      end
  end.

(** [exactMatch]: a subtree pattern matches its own root exactly. *)
Definition exact_match (pattern path : string) : bool :=
  negb (is_subtree pattern) ||
  (ends_with_slash path && bool_decide (segments pattern = length (Split path slash))).

Definition finds_exactly (table : list (string * Handler)) (method path : string) : bool :=
  match find_route table method path with Some (p, _, _) => exact_match p path | None => false end.

(** [matchOrRedirect]: "/tree" without a pattern of its own is sent to "/tree/". *)
Definition slash_redirect (table : list (string * Handler)) (method path : string) : bool :=
  negb (finds_exactly table method path) && negb (ends_with_slash path) &&
  finds_exactly table method (path +:+ "/").

(** The methods some pattern serves on this path, sorted. *)
Definition matchingMethods (table : list (string * Handler)) (path : string) : list string :=
  filter (λ m, existsb (λ ph : string * Handler,
            method_serves ph.1 m && bool_decide (is_Some (match_path ph.1 path))) table = true)
    ["DELETE"; "GET"; "HEAD"; "PATCH"; "POST"].

Fixpoint join_comma (l : list string) : string :=
  match l with [] => "" | [x] => x | x :: xs => x +:+ ", " +:+ join_comma xs end.

(** ** Serving *)

(** [http.Redirect] with 301: the link is only sent in answer to GET. *)
Definition Redirect (w : ResponseWriter) (r : Request) (url : string) : ResponseWriter :=
  let w := Header_Set "Location" url w in
  let w := if decide (r_Method r = "GET" ∨ r_Method r = "HEAD")
           then Header_Set "Content-Type" "text/html; charset=utf-8" w else w in
  let w := WriteHeader StatusMovedPermanently w in
  if decide (r_Method r = "GET") then Write (PText "Moved Permanently") w else w.

(** [ServeMux.ServeHTTP], which dispatches on the escaped path. *)
Definition ServeMux (table : list (string * Handler)) : Handler := λ w r,
  let path := if decide (r_Method r = "CONNECT") then r_Path r else cleanPath (r_Path r) in
  if decide (r_Path r = "*") then Ret (WriteHeader StatusBadRequest (Header_Set "Connection" "close" w))
  else if slash_redirect table (r_Method r) path then Ret (Redirect w r (path +:+ "/"))
  else if decide (path ≠ r_Path r) then Ret (Redirect w r path)
  else
    match find_route table (r_Method r) path with
    | Some (pattern, h, vals) => h w (with_PathValue vals r)
    | None =>
        match matchingMethods table path with
        | [] => Ret (http_Error w "404 page not found" StatusNotFound)
        | ms => Ret (http_Error (Header_Set "Allow" (join_comma ms) w) "Method Not Allowed"
                       StatusMethodNotAllowed)
        end
    end.

(** [http.Server], as far as the services configure it. *)
Record http_Server := mkServer {
  srv_Addr : string;
  srv_Handler : Handler;
  srv_ReadHeaderTimeout : Z;
}.

(** ** Matching *)

Lemma find_route_In table method path pattern h vals :
  find_route table method path = Some (pattern, h, vals) →
  (pattern, h) ∈ table ∧ match_route pattern method path = Some vals.
Proof.
  induction table as [|[p k] table IH]; simpl; [done|].
  destruct (match_route p method path) as [v|] eqn:E,
    (find_route table method path) as [[[q k'] v']|]; [case_match| | |done];
    intros [= -> -> ->].
  1,4: destruct (IH eq_refl); split; [by right|done].
  all: split; [by left|done].
Qed.

Lemma find_route_None table method path pattern h :
  find_route table method path = None → (pattern, h) ∈ table → match_route pattern method path = None.
Proof.
  induction table as [|[p k] table IH]; simpl; [by intros _ ?%not_elem_of_nil|].
  destruct (match_route p method path) eqn:E.
  - by repeat case_match.
  - intros Hf [[= -> ->]|Hin]%elem_of_cons; [done|by apply IH].
Qed.

(** A path no method has a route for. *)
Lemma matchingMethods_nil table path :
  (∀ method, find_route table method path = None) → matchingMethods table path = [].
Proof.
  intros Hf. unfold matchingMethods.
  destruct (filter _ _) as [|m ms] eqn:E; [done|]. exfalso.
  assert (m ∈ m :: ms) as Hm by by left. rewrite <- E in Hm. apply list_elem_of_filter in Hm as [Hex _].
  apply existsb_exists in Hex as ([p h] & Hin%list_elem_of_In & Hs). cbn [fst] in Hs.
  apply andb_true_iff in Hs as [Hs [v Hv]%bool_decide_eq_true].
  pose proof (find_route_None _ _ _ _ _ (Hf m) Hin) as Hn. unfold match_route in Hn. by rewrite Hs, Hv in Hn.
Qed.

(** Where the answer of the router comes from: one of its own replies, or a handler
    of the table. *)
Lemma ServeMux_cases table (P : prog World ResponseWriter → Prop) w r :
  (∀ url, P (Ret (Redirect w r url))) →
  (∀ k v m s, k ∈ ["Connection"; "Allow"] → s ≠ StatusOK →
     P (Ret (WriteHeader s (Header_Set k v w))) ∧ P (Ret (http_Error (Header_Set k v w) m s)) ∧
     P (Ret (http_Error w m s))) →
  (∀ p h vals, (p, h) ∈ table → match_route p (r_Method r) (r_Path r) = Some vals →
     P (h w (with_PathValue vals r))) →
  P (ServeMux table w r).
Proof.
  intros Hred Hown Hh. unfold ServeMux.
  generalize (if decide (r_Method r = "CONNECT") then r_Path r else cleanPath (r_Path r)). intros path.
  case_decide.
  { apply (Hown "Connection" "close" "" StatusBadRequest); [set_solver|done]. }
  case_match; [apply Hred|]. case_decide as Hp; [apply Hred|]. subst path.
  destruct (find_route _ _ _) as [[[p h] vals]|] eqn:E.
  - apply find_route_In in E as [Hin Hm]. by eapply Hh.
  - destruct (matchingMethods _ _) as [|m ms].
    + apply (Hown "Allow" "" "404 page not found" StatusNotFound); [set_solver|done].
    + apply (Hown "Allow" _ "Method Not Allowed" StatusMethodNotAllowed); [set_solver|done].
Qed.

Lemma Split_inj s t c : Split s c = Split t c → s = t.
Proof. intros E. rewrite <-(Join_Split s c), <-(Join_Split t c). by rewrite E. Qed.

Lemma Split_snoc s c : Split (s +:+ String c "") c = Split s c ++ [""].
Proof.
  induction s as [|a s IH]; simpl; [by rewrite decide_True|]. rewrite IH.
  case_decide; [done|]. destruct (Split s c) eqn:E; [by apply Split_not_nil in E|done].
Qed.

Lemma ends_with_slash_snoc s : ends_with_slash (s +:+ "/") = true.
Proof. unfold ends_with_slash. change "/" with (String slash ""). by rewrite Split_snoc, last_snoc. Qed.

(** A pattern without wildcard and trailing slash matches itself only. *)
Lemma match_segments_literal pat segs vals :
  "{id}" ∉ pat → last pat ≠ Some "" →
  match_segments pat segs vals = if decide (segs = pat) then Some vals else None.
Proof.
  revert segs. induction pat as [|p pat IH]; intros [|x segs] Hid Hl; cbn [match_segments].
  - by rewrite decide_True.
  - by rewrite decide_False.
  - by rewrite decide_False.
  - apply not_elem_of_cons in Hid as [Hp Hid]. rewrite decide_False by (intros [-> ->]; done).
    rewrite (decide_False (P := p = "{id}")) by done. case_decide as E.
    + subst x. rewrite IH by (try done; by destruct pat). apply decide_ext. naive_solver.
    + rewrite decide_False; [done|]. naive_solver.
Qed.

(** A subtree pattern matches everything below its directory. *)
Lemma match_segments_subtree pre segs vals :
  "{id}" ∉ pre → match_segments (pre ++ [""]) segs vals =
    if decide (pre = take (length pre) segs ∧ (length pre < length segs)%nat) then Some vals else None.
Proof.
  revert segs. induction pre as [|p pre IH]; intros [|x segs] Hid; cbn [match_segments app length take].
  - rewrite decide_False; [done|]. intros [_ Hl]. simpl in Hl. lia.
  - rewrite !decide_True; [done|split; [done|simpl; lia]|done].
  - by rewrite decide_False by (intros [? _]; done).
  - apply not_elem_of_cons in Hid as [Hp Hid].
    rewrite decide_False by (intros [_ E]; by destruct pre).
    rewrite (decide_False (P := p = "{id}")) by done. case_decide as E.
    + subst x. rewrite IH by done. apply decide_ext. simpl. split; intros [E ?]; split;
        try lia; congruence || (by injection E).
    + rewrite decide_False; [done|]. intros [E' _]. naive_solver.
Qed.

Lemma match_route_any_method pattern method path :
  pattern_method pattern = "" → match_route pattern method path = match_path pattern path.
Proof. intros E. unfold match_route, method_serves. rewrite E. by rewrite !orb_true_r. Qed.

Lemma match_path_literal pattern path :
  "{id}" ∉ Split (pattern_path pattern) slash → is_subtree pattern = false →
  match_path pattern path = if decide (path = pattern_path pattern) then Some ∅ else None.
Proof.
  intros Hid Hs. unfold match_path. rewrite match_segments_literal; [|done|].
  - apply decide_ext. split; [apply Split_inj|by intros ->].
  - unfold is_subtree, ends_with_slash in Hs. by intros E; rewrite E in Hs.
Qed.

(** A whole path below a directory. *)
Definition HasPrefix (s prefix : string) : bool := String.prefix prefix s.

Lemma prefix_app p s : String.prefix p s = true ↔ ∃ t, s = p +:+ t.
Proof.
  revert s. induction p as [|a p IH]; intros s; simpl.
  { split; [by exists s|]. by destruct s. }
  destruct s as [|b s]; [split; [done|by intros []]|].
  change (String.prefix (String a p) (String b s)) with
    (if ascii_dec a b then String.prefix p s else false).
  destruct (ascii_dec a b) as [->|Hab].
  - rewrite IH. split; intros [t E]; exists t; [by rewrite E|by injection E].
  - split; [done|]. intros [t [= E _]]. congruence.
Qed.
