(* ===== verification/ApiAlerts.v ===== *)
(** * The alert endpoints: [api/alerts.go]

    Listing with its dynamically built query, and the two transitions of an
    alert's life cycle. *)

From S2P Require Import Prelude GoStd Alerts Pg World Contract Fixtures Models Http.
From stdpp Require Import pretty.
Open Scope Z_scope.
Open Scope string_scope.
Open Scope list_scope.
Open Scope go_scope.

(** ** Query parameters *)

Definition parseIntParam (q : gmap string (list string)) (key : string) (def max : Z) : Z :=
  match default [] (q !! key) with
  | [] => def
  | raw :: _ =>
      if decide (raw = "") then def
      else match Atoi raw with
           | None => def
           | Some n => if decide (n < 0) then def else if decide (n > max) then max else n
           end
  end.

(** ** Building the listing's query *)

(** A query argument. *)
Inductive arg := AText (s : string) | AInt (n : Z).

(** The condition on one column, with the number of its placeholder. *)
Inductive column := d_site_id_col | a_status_col | a_device_id_col.

Definition column_text (c : column) : string :=
  match c with
  | d_site_id_col => "d.site_id"
  | a_status_col => "a.status"
  | a_device_id_col => "a.device_id"
  end.

(** What the builder accumulates: [joins], [conditions] and [args]. *)
Record Builder := mkBuilder {
  b_joins : list string;
  b_conditions : list (column * nat);
  b_args : list arg;
}.

Definition join_devices : string := "JOIN devices d ON d.id = a.device_id".

(** [args = append(args, v); conditions = append(..., "<col> = $" + len(args))] *)
Definition add_condition (c : column) (v : string) (b : Builder) : Builder :=
  let args := b_args b ++ [AText v] in
  mkBuilder (b_joins b) (b_conditions b ++ [(c, length args)]) args.

Definition add_join (j : string) (b : Builder) : Builder :=
  mkBuilder (b_joins b ++ [j]) (b_conditions b) (b_args b).

(** The three [if] blocks. *)
Definition build_filters (q : gmap string (list string)) : Builder :=
  let b := mkBuilder [] [] [] in
  let siteID := Query_Get q "site_id" in
  let b := if decide (siteID ≠ "") then add_condition d_site_id_col siteID (add_join join_devices b) else b in
  let status := Query_Get q "status" in
  let b := if decide (status ≠ "") then add_condition a_status_col status b else b in
  let deviceID := Query_Get q "device_id" in
  if decide (deviceID ≠ "") then add_condition a_device_id_col deviceID b else b.

(** The finished query: the filters, and the placeholders of LIMIT and OFFSET. *)
Record ListQuery := mkListQuery {
  lq_joins : list string;
  lq_conditions : list (column * nat);
  lq_limit : nat;
  lq_offset : nat;
  lq_args : list arg;
}.

Definition build_query (q : gmap string (list string)) : ListQuery :=
  let b := build_filters q in
  let limit := parseIntParam q "limit" 50 500 in
  let offset := parseIntParam q "offset" 0 1000000 in
  let args1 := b_args b ++ [AInt limit] in
  let args2 := args1 ++ [AInt offset] in
  mkListQuery (b_joins b) (b_conditions b) (length args1) (length args2) args2.

Definition select_alerts_text : string :=
  "SELECT a.id, a.alert_rule_id, a.device_id, a.triggered_value, a.severity, a.status, " +:+
  "a.triggered_at, a.acknowledged_at, a.acknowledged_by, a.resolved_at, a.resolved_by FROM alerts a".

Definition placeholder (n : nat) : string := "$" +:+ pretty n.

Definition condition_text (c : column * nat) : string := column_text c.1 +:+ " = " +:+ placeholder c.2.

(** The loop that prefixes WHERE to the first condition and AND to the others. *)
Fixpoint conditions_text (i : nat) (cs : list (column * nat)) : string :=
  match cs with
  | [] => ""
  | c :: cs' =>
      (match i with O => " WHERE " | S _ => " AND " end) +:+ condition_text c +:+ conditions_text (S i) cs'
  end.

(** The text sent to the server (white space of the literal apart). *)
Definition query_text (lq : ListQuery) : string :=
  select_alerts_text +:+ foldr (λ j s, " " +:+ j +:+ s) "" (lq_joins lq) +:+
  conditions_text 0 (lq_conditions lq) +:+ " ORDER BY a.triggered_at DESC" +:+
  " LIMIT " +:+ placeholder (lq_limit lq) +:+ " OFFSET " +:+ placeholder (lq_offset lq).

(** ** What the server answers *)

(** The argument of placeholder [$n]. *)
Definition arg_of (args : list arg) (n : nat) : option arg :=
  match n with O => None | S k => args !! k end.

(** The text argument of a condition, converted to the column's type. *)
Definition condition_value `{!PgLib} (args : list arg) (c : column * nat) : result string :=
  match arg_of args c.2 with
  | Some (AText s) =>
      match c.1 with
      | a_status_col => if text_in s then Ok s else Err (PgError character_not_in_repertoire)
      | _ => match uuid_in s with
             | Some u => Ok u
             | None => Err (PgError invalid_text_representation)
             end
      end
  | _ => Err (PgError "42P02")
  end.

Definition column_of (db : Pg) (a : AlertRow) (c : column) : option string :=
  match c with
  | d_site_id_col => d_site_id <$> devices db !! al_device_id a
  | a_status_col => Some (status_text (al_status a))
  | a_device_id_col => Some (al_device_id a)
  end.

(** All conditions converted, or the first conversion error. *)
Fixpoint condition_values `{!PgLib} (args : list arg) (cs : list (column * nat))
    : result (list (column * string)) :=
  match cs with
  | [] => Ok []
  | c :: cs' =>
      v <-! condition_value args c;
      vs <-! condition_values args cs';
      Ok ((c.1, v) :: vs)
  end.

Definition matches (db : Pg) (vs : list (column * string)) (a : AlertRow) : bool :=
  forallb (λ cv, bool_decide (column_of db a cv.1 = Some cv.2)) vs.

Definition int_arg (args : list arg) (n : nat) : option nat :=
  match arg_of args n with
  | Some (AInt z) => Some (Z.to_nat z)
  | _ => None
  end.

(** ORDER BY a.triggered_at DESC *)
Definition newer_first (p1 p2 : string * AlertRow) : Prop := al_triggered_at p2.2 <= al_triggered_at p1.2.

#[global] Instance newer_first_dec : RelDecision newer_first.
Proof. intros p1 p2. unfold newer_first. apply _. Defined.
#[global] Instance newer_first_total : Total newer_first.
Proof. intros p1 p2. unfold newer_first. lia. Qed.
#[global] Instance newer_first_trans : Transitive newer_first.
Proof. intros p1 p2 p3. unfold newer_first. lia. Qed.

(** The query run by the server, visiting rows in the order [ord] makes. *)
Definition execute_list `{!PgLib} (lq : ListQuery) (ord : ∀ X, list X → list X) (db : Pg)
    : result (list (string * AlertRow)) :=
  vs <-! condition_values (lq_args lq) (lq_conditions lq);
  match int_arg (lq_args lq) (lq_limit lq), int_arg (lq_args lq) (lq_offset lq) with
  | Some limit, Some offset =>
      let rows := filter (λ p, matches db vs p.2 = true) (map_to_list (alerts db)) in
      Ok (take limit (drop offset (merge_sort newer_first (ord _ rows))))
  | _, _ => Err (PgError "42P02")
  end.

Section Handlers.
Context `{!GoText, !PgLib, !Env}.

Definition listAlerts : Handler := λ w r,
  rows <- pg_query_ordered (execute_list (build_query (r_Query r))) ;;
  match rows with
  | Err _ =>
      log_line "ERROR" (app_log r) "query alerts" ;;
      writeError w StatusInternalServerError "failed to list alerts"
  | Ok (rows, RowScanErr) =>
      log_line "ERROR" (app_log r) "scan alert" ;;
      writeError w StatusInternalServerError "failed to list alerts"
  | Ok (rows, _) => writeJSON w StatusOK (Some (PAlerts (alert_of_row <$> rows)))
  end.

(** [transitionSpec]; [ts_query] is the UPDATE statement, as a function of the
    server's clock and its two arguments. *)
Record transitionSpec := mkTransitionSpec {
  fromStatuses : list Status;
  conflictMsg : string;
  ts_query : time → string → string → stmt (string * AlertRow);
}.

Definition transitionAlert (w : ResponseWriter) (r : Request) (spec : transitionSpec)
    : prog World ResponseWriter :=
  let id := PathValue r "id" in
  match Decode_AckInput (r_Body r) with
  | Err _ => writeError w StatusBadRequest "user_id is required"
  | Ok body =>
      if decide (UserID body = "") then writeError w StatusBadRequest "user_id is required"
      else
        res <- pg_exec (λ _ now, ts_query spec now id (UserID body)) ;;
        match res with
        | Ok row => writeJSON w StatusOK (Some (PAlert (alert_of_row row)))
        | Err err =>
            if errors_Is_NoRows err then
              found <- pg_query_row (alert_exists id) ;;
              let exists_ := match found with Ok b => b | Err _ => false end in
              if negb exists_ then writeError w StatusNotFound "alert not found"
              else writeError w StatusConflict (conflictMsg spec)
            else
              log_line "ERROR" (app_log r) "transition alert" ;;
              writeError w StatusInternalServerError "failed to update alert"
        end
  end.

Definition acknowledgeAlert : Handler := λ w r,
  transitionAlert w r (mkTransitionSpec [open]
    "alert is not open (already acknowledged or resolved)"
    (λ now id uid, transition_stmt [open] ack_row now id uid)).

Definition resolveAlert : Handler := λ w r,
  transitionAlert w r (mkTransitionSpec [open; acknowledged]
    "alert is already resolved"
    (λ now id uid, transition_stmt [open; acknowledged] resolve_row now id uid)).

(** ** Guarantees *)

Lemma listAlerts_ok : handler_ok listAlerts.
Proof. intros w r. unfold listAlerts. solve_each_step. Qed.

Lemma transitionAlert_ok w r spec :
  (∀ now id uid db, Pg_ok db → stmt_guarantee db (ts_query spec now id uid db).2) →
  each_step world_step (transitionAlert w r spec).
Proof.
  intros Hs. unfold transitionAlert. destruct (Decode_AckInput _) as [body|]; [|apply each_step_writeJSON].
  case_decide; [apply each_step_writeJSON|].
  apply each_step_bind; [apply each_step_pg_exec; intros ????; by apply Hs|]. solve_each_step.
Qed.

Lemma acknowledgeAlert_ok : handler_ok acknowledgeAlert.
Proof. intros w r. apply transitionAlert_ok. intros ?????. by apply acknowledge_guarantee. Qed.

Lemma resolveAlert_ok : handler_ok resolveAlert.
Proof. intros w r. apply transitionAlert_ok. intros ?????. by apply resolve_guarantee. Qed.

End Handlers.

(** ** Properties *)

Lemma parseIntParam_bounds q key def max :
  0 <= def <= max → 0 <= parseIntParam q key def max <= max.
Proof.
  intros Hd. unfold parseIntParam.
  destruct (default [] (q !! key)) as [|raw l]; [lia|]. case_decide; [lia|].
  destruct (Atoi raw) as [n|]; [|lia]. repeat case_decide; lia.
Qed.

(** [parseIntParam] is total and clamped: for a default within the bounds the
    result lies between 0 and [max]; a missing, empty, malformed, overflowing or
    negative parameter means the default, and any other is cut at [max]. *)
Theorem parseIntParam_spec q key def max :
  0 <= def <= max →
  0 <= parseIntParam q key def max <= max ∧
  parseIntParam q key def max =
    match Atoi (Query_Get q key) with
    | Some n => if decide (0 <= n) then Z.min n max else def
    | None => def
    end.
Proof.
  intros Hd. split; [by apply parseIntParam_bounds|]. unfold parseIntParam, Query_Get.
  destruct (q !! key) as [[|raw l]|]; simpl; [lia| |lia].
  case_decide as Hr; [subst; simpl; lia|].
  destruct (Atoi raw) as [n|]; [|lia].
  repeat case_decide; lia.
Qed.

Lemma parseIntParam_spec_witness :
  0 <= parseIntParam {["limit" := ["100000"]]} "limit" 50 500 <= 500.
Proof. apply (parseIntParam_spec {["limit" := ["100000"]]} "limit" 50 500). lia. Defined.

(** The filter a request asks for. *)
Definition given (v : string) (P : string → Prop) : Prop := v = "" ∨ P v.

Definition wanted `{!PgLib} (q : gmap string (list string)) (db : Pg) (a : AlertRow) : Prop :=
  given (Query_Get q "site_id") (λ s, ∃ u, uuid_in s = Some u ∧
    d_site_id <$> devices db !! al_device_id a = Some u) ∧
  given (Query_Get q "status") (λ s, status_text (al_status a) = s) ∧
  given (Query_Get q "device_id") (λ s, uuid_in s = Some (al_device_id a)).

Section ListFacts.
Context `{!PgLib}.

(** The placeholders the builder hands out refer to the arguments it appended. *)
Lemma arg_of_snoc args v n : (0 < n <= length args)%nat → arg_of (args ++ v) n = arg_of args n.
Proof. intros ?. destruct n; [lia|]. simpl. apply lookup_app_l. lia. Qed.

Lemma arg_of_last args v : arg_of (args ++ [v]) (length (args ++ [v])) = Some v.
Proof. rewrite length_app, Nat.add_1_r. simpl. by apply list_lookup_middle. Qed.

(** The values of the conditions, computed from the request. *)
Definition wanted_values (q : gmap string (list string)) : result (list (column * string)) :=
  let text (v : string) (c : column) : result (list (column * string)) :=
    if decide (v = "") then Ok [] else
    match c with
    | a_status_col => if text_in v then Ok [(c, v)] else Err (PgError character_not_in_repertoire)
    | _ => match uuid_in v with
           | Some u => Ok [(c, u)]
           | None => Err (PgError invalid_text_representation)
           end
    end in
  v1 <-! text (Query_Get q "site_id") d_site_id_col;
  v2 <-! text (Query_Get q "status") a_status_col;
  v3 <-! text (Query_Get q "device_id") a_device_id_col;
  Ok (v1 ++ v2 ++ v3).

Lemma if_not_empty {A} (s : string) (a b : A) :
  (if decide (s ≠ "") then a else b) = (if decide (s = "") then b else a).
Proof. by repeat case_decide. Qed.

Lemma build_query_values q :
  condition_values (lq_args (build_query q)) (lq_conditions (build_query q)) = wanted_values q.
Proof.
  unfold wanted_values, build_query, build_filters, add_condition, add_join.
  generalize (parseIntParam q "limit" 50 500) (parseIntParam q "offset" 0 1000000).
  generalize (Query_Get q "site_id") (Query_Get q "status") (Query_Get q "device_id").
  intros s1 s2 s3 z1 z2.
  rewrite !if_not_empty.
  destruct (decide (s1 = "")), (decide (s2 = "")), (decide (s3 = ""));
    unfold condition_values, condition_value; cbn; repeat destruct (uuid_in _); repeat destruct (text_in _); reflexivity.
Qed.

Lemma build_query_limit q :
  let lq := build_query q in
  int_arg (lq_args lq) (lq_limit lq) = Some (Z.to_nat (parseIntParam q "limit" 50 500)) ∧
  int_arg (lq_args lq) (lq_offset lq) = Some (Z.to_nat (parseIntParam q "offset" 0 1000000)).
Proof.
  unfold build_query, int_arg. cbn [lq_args lq_limit lq_offset]. generalize (b_args (build_filters q)).
  intros args. split; [|by rewrite arg_of_last].
  rewrite arg_of_snoc by (rewrite length_app; simpl; lia). by rewrite arg_of_last.
Qed.

Lemma wanted_values_matches q vs db a :
  wanted_values q = Ok vs → matches db vs a = true ↔ wanted q db a.
Proof.
  unfold wanted_values, wanted, given, matches.
  generalize (Query_Get q "site_id") (Query_Get q "status") (Query_Get q "device_id").
  intros s1 s2 s3 Hv. assert (∀ s, column_of db a a_status_col = Some s ↔ status_text (al_status a) = s) as Hst
    by (split; [by intros [= ->] | by intros <-]).
  assert (∀ s, column_of db a a_device_id_col = Some s ↔ Some s = Some (al_device_id a)) as Hdv
    by (split; by intros [= ->]).
  repeat case_decide; simpl in Hv; simplify_eq/=; repeat (case_match; simplify_eq/=);
    rewrite ?andb_true_iff, ?bool_decide_eq_true, ?Hst, ?Hdv; naive_solver.
Qed.

(** The filters the server can convert: the others make the whole query fail. *)
Definition filters_ok (q : gmap string (list string)) : Prop :=
  given (Query_Get q "site_id") (λ s, is_Some (uuid_in s)) ∧
  given (Query_Get q "status") (λ s, text_in s = true) ∧
  given (Query_Get q "device_id") (λ s, is_Some (uuid_in s)).

Lemma wanted_values_Ok q : (∃ vs, wanted_values q = Ok vs) ↔ filters_ok q.
Proof.
  unfold wanted_values, filters_ok, given.
  generalize (Query_Get q "site_id") (Query_Get q "status") (Query_Get q "device_id").
  intros s1 s2 s3. destruct (decide (s1 = "")), (decide (s2 = "")), (decide (s3 = "")); cbn;
    repeat (case_match; simplify_eq/=); split; intros; destruct_and?; destruct_or?;
    repeat match goal with H : ∃ _, _ |- _ => destruct H end; simplify_eq;
    try (by eexists); split_and!; by eauto.
Qed.

End ListFacts.

(** The page the server answers the built query with. *)
Lemma execute_list_page `{!PgLib} q (ord : ∀ X, list X → list X) db :
  (∀ X (l : list X), ord X l ≡ₚ l) →
  match execute_list (build_query q) ord db with
  | Ok rows =>
      filters_ok q ∧ ∃ l, NoDup l ∧ Sorted newer_first l ∧
        (∀ i a, (i, a) ∈ l ↔ alerts db !! i = Some a ∧ wanted q db a) ∧
        rows = take (Z.to_nat (parseIntParam q "limit" 50 500))
                 (drop (Z.to_nat (parseIntParam q "offset" 0 1000000)) l) ∧
        (length rows <= 500)%nat
  | Err e => ¬ filters_ok q
  end.
Proof.
  intros Hord. unfold execute_list. destruct (build_query_limit q) as [El Eo].
  pose proof (wanted_values_Ok q) as Hok.
  rewrite build_query_values, El, Eo. destruct (wanted_values q) as [vs|e] eqn:Ev.
  - split; [by apply Hok; eexists|].
    set (rows := filter _ _). exists (merge_sort newer_first (ord _ rows)).
    destruct (sorted_listing newer_first rows (ord _ rows)) as (Hn & Hs & He);
      [apply Hord|apply NoDup_filter, NoDup_map_to_list|].
    split_and!; [done|done|intros i a| done |].
    + rewrite He. unfold rows. rewrite list_elem_of_filter, elem_of_map_to_list. simpl.
      rewrite (wanted_values_matches q vs) by done. naive_solver.
    + destruct (parseIntParam_bounds q "limit" 50 500) as [_ ?]; [lia|].
      rewrite length_take. lia.
  - intros Hf. apply Hok in Hf as [vs [=]].
Qed.

(** The listing.  For every combination of filters the dynamically built query
    (joins, numbered placeholders, arguments) selects exactly the alerts that
    satisfy all given filters, newest first, and returns the page that [limit]
    (default 50, at most 500) and [offset] ask for, each alert at most once; it
    fails exactly for a site or device that is not a uuid, or a status that is not
    text for the server. *)
Theorem listAlerts_page `{!PgLib} q (ord : ∀ X, list X → list X) db :
  (∀ X (l : list X), ord X l ≡ₚ l) →
  match execute_list (build_query q) ord db with
  | Ok rows =>
      filters_ok q ∧ ∃ l, NoDup l ∧ Sorted newer_first l ∧
        (∀ i a, (i, a) ∈ l ↔ alerts db !! i = Some a ∧ wanted q db a) ∧
        rows = take (Z.to_nat (parseIntParam q "limit" 50 500))
                 (drop (Z.to_nat (parseIntParam q "offset" 0 1000000)) l) ∧
        (length rows <= 500)%nat
  | Err e => ¬ filters_ok q
  end.
Proof. apply execute_list_page. Qed.


(** The shape of the built query, from the presence of the three filters. *)
Definition filters_shape (no_site no_status no_device : bool) : list string * list (column * nat) * nat :=
  let n1 := if no_site then 0%nat else 1%nat in
  let n2 := if no_status then n1 else S n1 in
  let n3 := if no_device then n2 else S n2 in
  (if no_site then [] else [join_devices],
   (if no_site then [] else [(d_site_id_col, n1)]) ++ (if no_status then [] else [(a_status_col, n2)]) ++
   (if no_device then [] else [(a_device_id_col, n3)]), n3).

Definition is_empty (s : string) : bool := if decide (s = "") then true else false.

Lemma is_empty_ext s1 s2 : (s1 = "" ↔ s2 = "") → is_empty s1 = is_empty s2.
Proof. unfold is_empty. intros E. repeat case_decide; naive_solver. Qed.

Lemma build_filters_shape q :
  (b_joins (build_filters q), b_conditions (build_filters q), length (b_args (build_filters q))) =
  filters_shape (is_empty (Query_Get q "site_id")) (is_empty (Query_Get q "status"))
    (is_empty (Query_Get q "device_id")).
Proof.
  unfold build_filters, add_condition, add_join, is_empty.
  generalize (Query_Get q "site_id") (Query_Get q "status") (Query_Get q "device_id").
  intros s1 s2 s3. rewrite !if_not_empty.
  by destruct (decide (s1 = "")), (decide (s2 = "")), (decide (s3 = "")).
Qed.

(** C40: No text of the request enters the SQL: the query sent to the server depends
    only on which filters are present, and carries exactly one argument per
    placeholder. *)
Theorem query_text_no_user_input q1 q2 :
  (∀ key, key ∈ ["site_id"; "status"; "device_id"] → Query_Get q1 key = "" ↔ Query_Get q2 key = "") →
  query_text (build_query q1) = query_text (build_query q2) ∧
  snd <$> lq_conditions (build_query q1) = seq 1 (length (lq_conditions (build_query q1))) ∧
  length (lq_args (build_query q1)) = (length (lq_conditions (build_query q1)) + 2)%nat.
Proof.
  intros Hkeys.
  pose proof (build_filters_shape q1) as E1. pose proof (build_filters_shape q2) as E2.
  rewrite <- (is_empty_ext _ _ (Hkeys "site_id" ltac:(set_solver))) in E2.
  rewrite <- (is_empty_ext _ _ (Hkeys "status" ltac:(set_solver))) in E2.
  rewrite <- (is_empty_ext _ _ (Hkeys "device_id" ltac:(set_solver))) in E2.
  unfold build_query, query_text. cbn [lq_joins lq_conditions lq_limit lq_offset lq_args].
  rewrite !length_app. cbn [length]. split.
  - rewrite <- E1 in E2. injection E2 as -> -> ->. done.
  - clear E2. revert E1. generalize (is_empty (Query_Get q1 "site_id")).
    generalize (is_empty (Query_Get q1 "status")) (is_empty (Query_Get q1 "device_id")).
    intros b2 b3 b1 [= _ -> ->]. by destruct b1, b2, b3.
Qed.

Lemma query_text_no_user_input_witness :
  query_text (build_query {["status" := ["open"]]}) =
  query_text (build_query {["status" := ["' OR 1=1 --"]]}).
Proof.
  apply (query_text_no_user_input {["status" := ["open"]]} {["status" := ["' OR 1=1 --"]]}).
  intros key Hkey. assert (key = "site_id" ∨ key = "status" ∨ key = "device_id") as [->|[->| ->]] by set_solver;
    vm_compute; intuition congruence.
Defined.

(** ** Transitions *)

(** The two transitions: statuses they start from, the row they make, and the
    handler. *)
Inductive Transition := Acknowledge | Resolve.

Definition from_statuses (t : Transition) : list Status :=
  match t with Acknowledge => [open] | Resolve => [open; acknowledged] end.
Definition new_row (t : Transition) : time → string → AlertRow → AlertRow :=
  match t with Acknowledge => ack_row | Resolve => resolve_row end.
Definition transition_handler `{!GoText, !PgLib, !Env} (t : Transition) : Handler :=
  match t with Acknowledge => acknowledgeAlert | Resolve => resolveAlert end.
Definition conflict_message (t : Transition) : string :=
  match t with
  | Acknowledge => "alert is not open (already acknowledged or resolved)"
  | Resolve => "alert is already resolved"
  end.

(** The answer of a transition, from how its UPDATE ends and whether the lookup after it
    works: status, message or alert, and tables. *)
Definition transition_answer `{!PgLib} (t : Transition) (ef : ExecFault) (lookup : bool) (now : time)
    (id uid : string) (db : Pg) : Z * payload * Pg :=
  let failed db := (StatusInternalServerError, PError "failed to update alert", db) in
  match uuid_in id, uuid_in uid with
  | Some aid, Some u =>
      match alerts db !! aid with
      | Some a =>
          if decide (al_status a ∈ from_statuses t) then
            let row := new_row t now u a in
            let db' := set_alerts <[aid := row]> db in
            if decide (users db !! u = None) then failed db else
            match ef with
            | ExecOk => (StatusOK, PAlert (alert_of_row (aid, row)), db')
            | FailBefore => failed db
            | FailAfter => failed db'
            end
          else if decide (ef ≠ ExecOk) then failed db
          else if lookup then (StatusConflict, PError (conflict_message t), db)
          else (StatusNotFound, PError "alert not found", db)
      | None =>
          if decide (ef ≠ ExecOk) then failed db else (StatusNotFound, PError "alert not found", db)
      end
  | _, _ => failed db
  end.

Section TransitionFacts.
Context `{!GoText, !PgLib, !Env}.

Lemma transition_handler_eq t w r :
  transition_handler t w r = transitionAlert w r
    (mkTransitionSpec (from_statuses t) (conflict_message t)
       (λ now id uid, transition_stmt (from_statuses t) (new_row t) now id uid)).
Proof. by destruct t. Qed.

(** After a transition out of [open] an alert is no longer open, after one to
    [resolved] it is resolved for good. *)
Lemma not_open_stays a a' : rtc alert_step a a' → al_status a ≠ open → al_status a' ≠ open.
Proof. induction 1 as [|a b c Hab _ IH]; [done|]. intros Hn. apply IH. by destruct Hab. Qed.

Lemma resolved_stays a a' : rtc alert_step a a' → al_status a = resolved → al_status a' = resolved.
Proof. intros Hs Hr. by rewrite (resolved_terminal a a' Hr Hs). Qed.

Lemma transition_stmt_Ok t now id uid db aid' row db' :
  transition_stmt (from_statuses t) (new_row t) now id uid db = (Ok (aid', row), db') →
  ∃ u a, uuid_in id = Some aid' ∧ uuid_in uid = Some u ∧ alerts db !! aid' = Some a ∧
    al_status a ∈ from_statuses t ∧ is_Some (users db !! u) ∧ row = new_row t now u a ∧
    db' = set_alerts <[aid' := row]> db.
Proof.
  unfold transition_stmt, fail. intros E.
  destruct (uuid_in id) as [aid|], (uuid_in uid) as [u|]; simplify_eq.
  destruct (alerts db !! aid) as [a|] eqn:Ha; [|done]. case_decide as Hin; [|done].
  case_decide as Hu; [done|]. simplify_eq. exists u, a. apply not_eq_None_Some in Hu. by split_and!.
Qed.

(** What the handler makes of the existence lookup. *)
Lemma run_lookup id w :
  run (pg_query_row (alert_exists id)) w =
  (match uuid_in id with
   | Some aid =>
       if decide (is_Some (alerts (w_pg w) !! aid))
       then if bool_decide (query_fault (w_tick w) = QueryOk) then Ok true
            else Err match query_fault (w_tick w) with ScanFails _ => ScanError | _ => NetError end
       else Err match query_fault (w_tick w) with QueryOk | ScanFails _ => ErrNoRows | _ => NetError end
   | None => Err match query_fault (w_tick w) with
                 | QueryOk | ScanFails _ => PgError invalid_text_representation | _ => NetError end
   end, tick w).
Proof.
  unfold pg_query_row, alert_exists. rewrite run_act.
  destruct (uuid_in id); [case_decide|]; by destruct (query_fault _).
Qed.

End TransitionFacts.

(** C14: The transition endpoints, completely, under every failure of their two statements.
    A body without a user id is a 400 and touches nothing.  Otherwise acknowledge and
    resolve answer exactly as [transition_answer] says for every alert, user and id: 200
    with the updated alert; 404 for an unknown alert; 409 for one in the wrong status, but
    404 when the lookup that tells the two apart fails; 500 for a malformed id or user, an
    unknown user, or an UPDATE that fails (whether it took effect or not).  They change that
    one alert or nothing. *)
Theorem transition_outcome `{!GoText, !PgLib, !Env} t r w :
  let '(rw, w') := run (transition_handler t new_response r) w in
  match Decode_AckInput (r_Body r) with
  | Ok (mkAckInput uid) =>
      if decide (uid = "") then
        status_of rw = StatusBadRequest ∧ w_body rw = [PError "user_id is required"] ∧ w' = w
      else
        let '(status, p, db) := transition_answer t (exec_fault (w_tick w))
          (bool_decide (query_fault (S (w_tick w)) = QueryOk))
          (now_at (w_tick w)) (PathValue r "id") uid (w_pg w) in
        status_of rw = status ∧ w_body rw = (if encodable p then [p] else []) ∧ w_pg w' = db
  | Err _ => status_of rw = StatusBadRequest ∧ w_body rw = [PError "user_id is required"] ∧ w' = w
  end.
Proof.
  rewrite transition_handler_eq. unfold transitionAlert. cbn [ts_query conflictMsg].
  destruct (Decode_AckInput (r_Body r)) as [[uid]|]; [|by simpl].
  cbn [UserID]. case_decide; [by simpl|].
  rewrite run_bind, run_pg_exec_any. unfold transition_answer, transition_stmt, fail, exec_outcome.
  destruct (uuid_in (PathValue r "id")) as [aid|] eqn:Eid; [|by destruct (exec_fault _)].
  destruct (uuid_in uid) as [u|]; [|by destruct (exec_fault _)].
  destruct (alerts (w_pg w) !! aid) as [a|] eqn:Ea; [case_decide as Hin; [case_decide|]|].
  - by destruct (exec_fault _).
  - destruct (exec_fault _); cbn [fst snd]; [|by simpl..]. unfold writeJSON.
    destruct (encodable _) eqn:Ep; [by simpl|]. by rewrite run_bind.
  - destruct (exec_fault _); cbn [fst snd errors_Is_NoRows]; [|by rewrite decide_True by done..].
    rewrite decide_False by naive_solver. rewrite run_bind, run_lookup, Eid by done.
    simpl w_pg. simpl w_tick. rewrite Ea, decide_True by (by eexists). by case_bool_decide.
  - destruct (exec_fault _); cbn [fst snd errors_Is_NoRows]; [|by rewrite decide_True by done..].
    rewrite decide_False by naive_solver. rewrite run_bind, run_lookup, Eid by done.
    simpl w_pg. by rewrite Ea, decide_False by (by intros []).
Qed.

(** C15: Concurrent requests cannot both succeed on one alert.  Once an acknowledge has
    returned a row, then in every later state the tables can reach (whatever
    other workers and requests did in between) no acknowledge of that alert
    returns a row again; once a resolve has, neither does; the later UPDATE
    matches nothing and the alert still exists, which is the 409 case. *)
Theorem transition_succeeds_once `{!PgLib} t t2 now now2 id uid uid2 db row db1 db2 :
  transition_stmt (from_statuses t) (new_row t) now id uid db = (Ok row, db1) →
  (t = Acknowledge → t2 = Acknowledge) →
  alerts_evolve db1 db2 →
  uuid_in uid2 ≠ None →
  transition_stmt (from_statuses t2) (new_row t2) now2 id uid2 db2 = (Err ErrNoRows, db2) ∧
  alert_exists id db2 = Ok true.
Proof.
  intros Hst Ht Hev Hu2. destruct row as [aid row].
  apply transition_stmt_Ok in Hst as (u & a & Hid & Hu & Ha & Hin & _ & -> & ->).
  destruct (Hev aid (new_row t now u a)) as (a2 & Ha2 & Hs); [simpl; by rewrite lookup_insert_eq|].
  assert (al_status a2 ∉ from_statuses t2) as Hnot.
  { destruct t.
    - rewrite (Ht eq_refl). apply not_open_stays in Hs; [|done]. set_solver.
    - apply resolved_stays in Hs; [|done]. rewrite Hs. destruct t2; simpl; set_solver. }
  unfold transition_stmt, alert_exists. rewrite Hid. destruct (uuid_in uid2); [|done].
  rewrite Ha2, decide_False by done. rewrite decide_True by (by eexists). done.
Qed.

(** The existence lookup behind a 409 ignores its own failure: when the lookup
    query fails, a transition of an alert that exists in the wrong status is
    answered 404 "alert not found" instead of 409 or 500. *)
Theorem failed_lookup_is_404 `{!GoText, !PgLib, !Env} t r w aid a uid u :
  exec_fault (w_tick w) = ExecOk → query_fault (S (w_tick w)) = QueryFails →
  Decode_AckInput (r_Body r) = Ok (mkAckInput uid) → uid ≠ "" → uuid_in uid = Some u →
  uuid_in (PathValue r "id") = Some aid → alerts (w_pg w) !! aid = Some a →
  al_status a ∉ from_statuses t →
  let '(rw, w') := run (transition_handler t new_response r) w in
  status_of rw = StatusNotFound ∧ w_body rw = [PError "alert not found"] ∧ w_pg w' = w_pg w.
Proof.
  intros Hex Hqf Hbody Huid Hu Hid Ha Hst. rewrite transition_handler_eq. unfold transitionAlert.
  cbn [ts_query conflictMsg]. rewrite Hbody. cbn [UserID]. rewrite decide_False by done.
  rewrite run_bind, run_pg_exec by done. cbn [fst snd].
  unfold transition_stmt, fail, pg_query_row. rewrite Hid, Hu, Ha, decide_False by done.
  cbn [fst snd errors_Is_NoRows]. rewrite run_bind, run_act. simpl w_tick. rewrite Hqf. by simpl.
Qed.

(** An interrupted listing is reported as complete: when the result set breaks off
    after [k] rows, [listAlerts] never looks at [rows.Err()] and answers 200 with
    the first [k] alerts. *)
Theorem interrupted_listing_is_200 `{!PgLib, !Env} r w k rows :
  query_fault (w_tick w) = RowsFail k →
  execute_list (build_query (r_Query r)) (row_order (w_tick w)) (w_pg w) = Ok rows →
  encodable (PAlerts (alert_of_row <$> take k rows)) = true →
  let '(rw, w') := run (listAlerts new_response r) w in
  status_of rw = StatusOK ∧ w_body rw = [PAlerts (alert_of_row <$> take k rows)] ∧ w_log w' = w_log w.
Proof.
  intros Hq Hrows He. unfold listAlerts, pg_query_ordered. rewrite run_bind, run_act, Hrows, Hq.
  cbn [query_outcome fst snd]. unfold writeJSON. rewrite He. by simpl.
Qed.

(** ** Witnesses *)

(** Bodies are user ids. *)
Definition ack_GoText : GoText := {|
  json_scan s := Some (JObj [("user_id", JStr s s)], "");
  ParseFloat _ := None;
  time_UnmarshalText _ := None;
  time_Parse_RFC3339 _ := None;
|}.

Definition ack_request : Request :=
  mkRequest "POST" "/alerts/alert-1/acknowledge" ∅ ∅ "10.0.0.1:999" operator_user
    {["id" := "alert-1"]} None.

Lemma transition_succeeds_once_witness :
  let st := @transition_stmt fx_PgLib (from_statuses Acknowledge) (new_row Acknowledge) 5 "alert-1" operator_user in
  (st (st (one_alert false)).2).1 = Err ErrNoRows.
Proof.
  cbv zeta. set (db1 := (@transition_stmt fx_PgLib _ _ _ _ _ (one_alert false)).2).
  rewrite (proj1 (@transition_succeeds_once fx_PgLib Acknowledge Acknowledge 5 5 "alert-1"
    operator_user operator_user (one_alert false) ("alert-1", ack_row 5 operator_user (fx_alert false))
    db1 db1 eq_refl (λ _, eq_refl) (alerts_evolve_refl db1) ltac:(discriminate))).
  reflexivity.
Defined.

Lemma failed_lookup_is_404_witness :
  status_of (run (@transition_handler ack_GoText fx_PgLib unreadable_Env Acknowledge new_response ack_request)
    (fresh_world (one_alert true))).1 = StatusNotFound.
Proof.
  pose proof (@failed_lookup_is_404 ack_GoText fx_PgLib unreadable_Env Acknowledge ack_request
    (fresh_world (one_alert true)) "alert-1" (fx_alert true) operator_user operator_user) as Hp.
  destruct (run _ _) as [rw w']. apply Hp; try reflexivity; [discriminate|].
  simpl. by intros ?%list_elem_of_singleton.
Defined.

(** The connection is lost after the first row. *)
Definition cut_Env : Env := fx_Env (λ _, ExecOk) (λ _, RowsFail 0).

Lemma interrupted_listing_is_200_witness :
  status_of (run (@listAlerts fx_PgLib cut_Env new_response ack_request) (fresh_world (one_alert false))).1
  = StatusOK.
Proof.
  pose proof (@interrupted_listing_is_200 fx_PgLib cut_Env ack_request (fresh_world (one_alert false))
    0 [("alert-1", fx_alert false)]) as Hp.
  destruct (run _ _) as [rw w']. apply Hp; vm_compute; reflexivity.
Defined.

(** The page of the open alerts of one site. *)
Definition site_query : gmap string (list string) :=
  {["site_id" := [bangkok]; "status" := ["open"]]}.

Lemma listAlerts_page_witness :
  match @execute_list fx_PgLib (build_query site_query) (λ _ l, l) (one_alert false) with
  | Ok rows => (length rows <= 500)%nat
  | Err _ => False
  end.
Proof.
  pose proof (@listAlerts_page fx_PgLib site_query (λ _ l, l) (one_alert false) (λ X l, reflexivity l)) as Hp.
  assert (is_Some (match @execute_list fx_PgLib (build_query site_query) (λ _ l, l) (one_alert false) with
    Ok rows => Some rows | Err _ => None end)) as [rows E] by (vm_compute; by eexists).
  destruct (execute_list _ _ _) as [rows'|e]; [|done].
  destruct Hp as (_ & l & _ & _ & _ & _ & Hl). exact Hl.
Defined.
