(* ===== verification/ApiRules.v ===== *)
(** * The alert-rule endpoints: [api/alert_rules.go]

    One definition per handler, and the complete outcome of each that writes: the
    status, the tables afterwards, and which inputs lead there. *)

From S2P Require Import Prelude GoStd Alerts Pg World Contract Fixtures Models Http.
Open Scope Z_scope.
Open Scope string_scope.
Open Scope list_scope.
Open Scope go_scope.

Definition postgresForeignKeyViolation : string := "23503".

(** [enabled := true; if in.Enabled != nil { enabled = *in.Enabled }] *)
Definition enabled_of (i : AlertRuleInput) : bool := default true (in_Enabled i).

Section Handlers.
Context `{!GoText, !PgLib, !Env}.

(** ORDER BY metric *)
Definition by_metric (p1 p2 : string * AlertRuleRow) : Prop :=
  text_le (ar_metric p1.2) (ar_metric p2.2) = true.

#[global] Instance by_metric_dec : RelDecision by_metric.
Proof. intros p1 p2. unfold by_metric. apply _. Defined.
#[global] Instance by_metric_total : Total by_metric.
Proof. intros p1 p2. apply text_le_total. Qed.

(** SELECT ... FROM alert_rules [WHERE device_id = $1] ORDER BY metric *)
Definition select_rules (deviceID : string) (ord : ∀ X, list X → list X) (db : Pg)
    : result (list (string * AlertRuleRow)) :=
  if decide (deviceID ≠ "") then
    match uuid_in deviceID with
    | Some did =>
        Ok (merge_sort by_metric (ord _
              (filter (λ p, ar_device_id p.2 = did) (map_to_list (alert_rules db)))))
    | None => Err (PgError invalid_text_representation)
    end
  else Ok (merge_sort by_metric (ord _ (map_to_list (alert_rules db)))).

Definition listAlertRules : Handler := λ w r,
  let deviceID := Query_Get (r_Query r) "device_id" in
  rows <- pg_query_ordered (select_rules deviceID) ;;
  match rows with
  | Err _ =>
      log_line "ERROR" (app_log r) "query alert_rules" ;;
      writeError w StatusInternalServerError "failed to list alert rules"
  | Ok (rows, RowScanErr) =>
      log_line "ERROR" (app_log r) "scan alert_rule" ;;
      writeError w StatusInternalServerError "failed to list alert rules"
  | Ok (rows, _) => writeJSON w StatusOK (Some (PRules (alert_rule_of_row <$> rows)))
  end.

Definition createAlertRule : Handler := λ w r,
  match Decode_AlertRuleInput (r_Body r) with
  | Err _ => writeError w StatusBadRequest "invalid request body"
  | Ok i =>
      if decide (in_DeviceID i = "" ∨ in_Metric i = "" ∨ in_Operator i = "" ∨ in_Severity i = "")
      then writeError w StatusBadRequest "device_id, metric, operator, threshold, severity are required"
      else
        res <- pg_exec (λ newid _, insert_rule newid (in_DeviceID i) (in_Metric i) (in_Operator i)
                                     (in_Threshold i) (in_Severity i) (enabled_of i)) ;;
        match res with
        | Err _ =>
            log_line "ERROR" (app_log r) "insert alert_rule" ;;
            writeError w StatusBadRequest
              "failed to create alert rule (check device_id, operator, severity)"
        | Ok row => writeJSON w StatusCreated (Some (PRule (alert_rule_of_row row)))
        end
  end.

Definition updateAlertRule : Handler := λ w r,
  let id := PathValue r "id" in
  match Decode_AlertRuleInput (r_Body r) with
  | Err _ => writeError w StatusBadRequest "invalid request body"
  | Ok i =>
      res <- pg_exec (λ _ _, update_rule id (in_Metric i) (in_Operator i) (in_Threshold i)
                               (in_Severity i) (enabled_of i)) ;;
      match res with
      | Err err =>
          if errors_Is_NoRows err then writeError w StatusNotFound "alert rule not found"
          else
            log_line "ERROR" (app_log r) "update alert_rule" ;;
            writeError w StatusBadRequest "failed to update alert rule"
      | Ok row => writeJSON w StatusOK (Some (PRule (alert_rule_of_row row)))
      end
  end.

Definition deleteAlertRule : Handler := λ w r,
  let id := PathValue r "id" in
  res <- pg_exec (λ _ _, delete_rule id) ;;
  match res with
  | Err err =>
      if decide (errors_As_PgError err = Some postgresForeignKeyViolation) then
        writeError w StatusConflict "alert rule still has alerts referencing it"
      else
        log_line "ERROR" (app_log r) "delete alert_rule" ;;
        writeError w StatusInternalServerError "failed to delete alert rule"
  | Ok RowsAffected =>
      if decide (RowsAffected = 0) then writeError w StatusNotFound "alert rule not found"
      else writeJSON w StatusNoContent None
  end.

(** ** Guarantees *)

Lemma listAlertRules_ok : handler_ok listAlertRules.
Proof. intros w r. unfold listAlertRules. solve_each_step. Qed.

Lemma createAlertRule_ok : handler_ok createAlertRule.
Proof.
  intros w r. unfold createAlertRule. destruct (Decode_AlertRuleInput _) as [i|]; [|apply each_step_writeJSON].
  case_decide; [apply each_step_writeJSON|].
  apply each_step_bind; [apply each_step_pg_exec; intros ????; by apply insert_rule_guarantee|].
  solve_each_step.
Qed.

Lemma updateAlertRule_ok : handler_ok updateAlertRule.
Proof.
  intros w r. unfold updateAlertRule. destruct (Decode_AlertRuleInput _) as [i|]; [|apply each_step_writeJSON].
  apply each_step_bind; [apply each_step_pg_exec; intros ????; by apply update_rule_guarantee|].
  solve_each_step.
Qed.

Lemma deleteAlertRule_ok : handler_ok deleteAlertRule.
Proof.
  intros w r. unfold deleteAlertRule.
  apply each_step_bind; [apply each_step_pg_exec; intros ????; by apply delete_rule_guarantee|].
  solve_each_step.
Qed.

End Handlers.

(** ** Properties *)

(** The row of an input, and whether the schema accepts it. *)
Definition row_of_input (did : string) (i : AlertRuleInput) : AlertRuleRow :=
  mkAlertRuleRow did (in_Metric i) (in_Operator i) (pg_numeric (in_Threshold i)) (in_Severity i)
    (enabled_of i).

Definition input_texts `{!PgLib} (i : AlertRuleInput) : bool :=
  forallb text_in [in_Metric i; in_Operator i; in_Severity i].

Definition input_checks (i : AlertRuleInput) : bool :=
  operator_check (in_Operator i) && severity_check (in_Severity i).

(** The row a new rule would have, if the schema accepts it for a device that exists. *)
Definition accepted_row `{!PgLib} (db : Pg) (i : AlertRuleInput) : option AlertRuleRow :=
  match uuid_in (in_DeviceID i) with
  | Some did =>
      if bool_decide (is_Some (devices db !! did)) && input_texts i && input_checks i
      then Some (row_of_input did i) else None
  | None => None
  end.

(** C24: Creating a rule, completely, under every failure of its INSERT.  A body that does not
    parse, or lacks one of device, metric, operator and severity, is a 400 and touches
    nothing; a threshold may be missing and counts as 0, although the message of that 400
    calls it required.  Otherwise, when the device exists, the texts are text for the server
    and operator and severity are among those the schema allows, the row of the body (enabled
    unless it says otherwise) is stored under a new id and sent back with 201; in every other
    case, a failed INSERT included, the answer is a 400 with the one message for all of them,
    and the tables are as they were, unless the INSERT took effect before it failed. *)
Theorem createAlertRule_outcome `{!GoText, !PgLib, !Env} r w :
  let newid := gen_random_uuid (w_tick w) in
  alert_rules (w_pg w) !! newid = None →
  let '(rw, w') := run (createAlertRule new_response r) w in
  let refused msg := status_of rw = StatusBadRequest ∧ w_body rw = [PError msg] in
  let check := "failed to create alert rule (check device_id, operator, severity)" in
  match Decode_AlertRuleInput (r_Body r) with
  | Err _ => refused "invalid request body" ∧ w' = w
  | Ok i =>
      if decide (in_DeviceID i = "" ∨ in_Metric i = "" ∨ in_Operator i = "" ∨ in_Severity i = "")
      then refused "device_id, metric, operator, threshold, severity are required" ∧ w' = w
      else
        match accepted_row (w_pg w) i with
        | Some row =>
            let stored := set_alert_rules <[newid := row]> (w_pg w) in
            let sent := PRule (alert_rule_of_row (newid, row)) in
            match exec_fault (w_tick w) with
            | ExecOk => status_of rw = StatusCreated ∧ w_pg w' = stored ∧
                w_body rw = (if encodable sent then [sent] else [])
            | FailBefore => refused check ∧ w_pg w' = w_pg w
            | FailAfter => refused check ∧ w_pg w' = stored
            end
        | None => refused check ∧ w_pg w' = w_pg w
        end
  end.
Proof.
  intros newid Hnew. unfold createAlertRule.
  destruct (Decode_AlertRuleInput (r_Body r)) as [i|e]; [|by simpl].
  case_decide as Hmiss; [by simpl|].
  rewrite run_bind, run_pg_exec_any. unfold insert_rule, fail, accepted_row, exec_outcome. fold newid.
  destruct (uuid_in (in_DeviceID i)) as [did|]; [|by destruct (exec_fault _)].
  fold (input_texts i) (input_checks i).
  destruct (input_texts i); cbn [negb]; [|rewrite andb_false_r; by destruct (exec_fault _)].
  destruct (input_checks i); cbn [negb]; [|rewrite andb_false_r; by destruct (exec_fault _)].
  rewrite Hnew, decide_False by (by intros []). rewrite !andb_true_r.
  case_decide as Hd; [rewrite Hd, bool_decide_eq_false_2 by (by intros []); by destruct (exec_fault _)|].
  rewrite bool_decide_eq_true_2 by (by apply not_eq_None_Some).
  destruct (exec_fault _); [|by simpl..]. cbn [fst snd]. unfold writeJSON, row_of_input.
  destruct (encodable _); [by simpl|by rewrite run_bind].
Qed.



(** The rule listing: every rule of the requested device, or every rule without
    the parameter, exactly once, ordered by metric; only a malformed device id
    makes the query fail. *)
Theorem select_rules_exact `{!PgLib} deviceID (ord : ∀ X, list X → list X) db :
  (∀ X (l : list X), ord X l ≡ₚ l) →
  match select_rules deviceID ord db with
  | Ok rows =>
      NoDup rows ∧ Sorted by_metric rows ∧
      ∀ id r, (id, r) ∈ rows ↔ alert_rules db !! id = Some r ∧
        (deviceID = "" ∨ uuid_in deviceID = Some (ar_device_id r))
  | Err e => deviceID ≠ "" ∧ uuid_in deviceID = None
  end.
Proof.
  intros Hord.
  unfold select_rules. case_decide as Hd.
  - destruct (uuid_in deviceID) as [did|]; [|done].
    set (l := filter (λ p, ar_device_id p.2 = did) (map_to_list (alert_rules db))).
    destruct (sorted_listing by_metric l (ord _ l)) as (Hn & Hs & He);
      [apply Hord|apply NoDup_filter, NoDup_map_to_list|].
    split_and!; [done|done|]. intros id r. rewrite He. unfold l. rewrite list_elem_of_filter, elem_of_map_to_list. simpl.
    naive_solver.
  - destruct (sorted_listing by_metric (map_to_list (alert_rules db)) (ord _ (map_to_list (alert_rules db))))
      as (Hn & Hs & He); [apply Hord|apply NoDup_map_to_list|].
    split_and!; [done|done|]. intros id r. rewrite He, elem_of_map_to_list.
    assert (deviceID = "") by (by destruct (decide (deviceID = ""))). naive_solver.
Qed.

(** The rule listing, on every branch: 500 when the device is no uuid; otherwise, of exactly the
    rules of the device asked for (all of them without [device_id]), by metric, what the fault
    of the query lets be read ([rows_shown], [listing_answer]). *)
Theorem listAlertRules_outcome `{!PgLib, !Env} r w :
  let q := Query_Get (r_Query r) "device_id" in
  let answer := listing_answer (λ rows, PRules (alert_rule_of_row <$> rows)) "failed to list alert rules" in
  let '(rw, w') := run (listAlertRules new_response r) w in
  w_pg w' = w_pg w ∧
  (q ≠ "" ∧ uuid_in q = None → answer None rw) ∧
  (q = "" ∨ is_Some (uuid_in q) → ∃ rows,
     NoDup rows ∧ Sorted by_metric rows ∧
     (∀ id rule, (id, rule) ∈ rows ↔ alert_rules (w_pg w) !! id = Some rule ∧
        (q = "" ∨ uuid_in q = Some (ar_device_id rule))) ∧
     answer (rows_shown (query_fault (w_tick w)) rows) rw).
Proof.
  intros q answer. pose proof (run_listing (select_rules q) r "query alert_rules" "failed to list alert rules" "scan alert_rule"
    (λ rows, PRules (alert_rule_of_row <$> rows)) w : let '(rw, w') := run (listAlertRules new_response r) w in _) as Hl.
  pose proof (select_rules_exact q (row_order (w_tick w)) (w_pg w) (row_order_perm _)) as Hs.
  destruct (run _ w) as [rw w']. destruct Hl as [Hw Hl]. split; [done|].
  destruct (select_rules _ _ _) as [rows|e] eqn:Es.
  - split; [|intros _; destruct Hs as (? & ? & ?); by exists rows]. intros [Hq Hn].
    unfold select_rules in Es. by rewrite decide_True, Hn in Es.
  - destruct Hs as [Hq Hn]. split; [done|]. rewrite Hn. by intros [?|[? ?]].
Qed.

(** ** Witnesses *)

(** Bodies are thresholds of a rule for one device. *)
Definition rule_GoText : GoText := {|
  json_scan s := Some (JObj [("device_id", JStr temp_sensor_01 temp_sensor_01);
    ("metric", JStr "temperature_c" "temperature_c"); ("operator", JStr "gt" "gt");
    ("threshold", JNum s); ("severity", JStr "warning" "warning")], "");
  ParseFloat s := float_of_Z <$> Atoi s;
  time_UnmarshalText _ := None;
  time_Parse_RFC3339 _ := None;
|}.

Definition rule_request (method body id : string) : Request :=
  mkRequest method ("/alert-rules/" +:+ id) ∅ ∅ "10.0.0.1:999" body {["id" := id]} None.

Definition rule_input (threshold : Z) : AlertRuleInput :=
  mkAlertRuleInput temp_sensor_01 "temperature_c" "gt" (float_of_Z threshold) "warning" None.


(** What a POST without a threshold creates. *)
Definition no_threshold_GoText : GoText := {|
  json_scan s := Some (JObj [("device_id", JStr temp_sensor_01 temp_sensor_01);
    ("metric", JStr "temperature_c" "temperature_c"); ("operator", JStr "gt" "gt");
    ("severity", JStr "warning" "warning")], "");
  ParseFloat s := None;
  time_UnmarshalText _ := None;
  time_Parse_RFC3339 _ := None;
|}.

Lemma createAlertRule_outcome_witness :
  let '(rw, w') := run (@createAlertRule rule_GoText fx_PgLib quiet_Env new_response (rule_request "POST" "30" ""))
    (fresh_world init_sql) in
  status_of rw = StatusCreated ∧
  w_body rw = [PRule (alert_rule_of_row (@gen_random_uuid quiet_Env 0, row_of_input temp_sensor_01 (rule_input 30)))].
Proof.
  pose proof (@createAlertRule_outcome rule_GoText fx_PgLib quiet_Env (rule_request "POST" "30" "")
    (fresh_world init_sql) eq_refl) as Hp.
  destruct (run _ _) as [rw w']. vm_compute in Hp. destruct Hp as (Hs & _ & Hb).
  split; [exact Hs|]. etransitivity; [exact Hb|vm_compute; reflexivity].
Defined.

(** A threshold is not required: without one the rule compares with 0. *)
Example missing_threshold_is_zero :
  let '(rw, w') := run (@createAlertRule no_threshold_GoText fx_PgLib quiet_Env new_response (rule_request "POST" "" ""))
    (fresh_world init_sql) in
  status_of rw = StatusCreated ∧
  (ar_threshold <$> alert_rules (w_pg w') !! @gen_random_uuid quiet_Env 0) = Some (float_of_Z 0).
Proof. vm_compute. split; reflexivity. Qed.



Lemma select_rules_exact_witness :
  match @select_rules fx_PgLib "" (λ _ l, l) init_sql with
  | Ok rows => NoDup rows
  | Err _ => False
  end.
Proof.
  pose proof (@select_rules_exact fx_PgLib "" (λ _ l, l) init_sql (λ X l, reflexivity l)) as Hp.
  destruct (select_rules _ _ _); [apply Hp|by destruct Hp].
Defined.
