(* ===== verification/ApiDevices.v ===== *)
(** * The read endpoints: [api/devices.go] and [api/sites.go]

    Sites, devices, and the telemetry page with its MongoDB query and the in-place
    reversal of the result. *)

From S2P Require Import Prelude GoStd Alerts Pg World Contract Fixtures Models Http.
Open Scope Z_scope.
Open Scope string_scope.
Open Scope list_scope.
Open Scope go_scope.

(** ** Reversing a slice in place *)

(** [for i, j := 0, len(points)-1; i < j; i, j = i+1, j-1 { swap }]; an index out of
    range would panic ([None]). *)
Fixpoint reverse_loop {A} (fuel : nat) (i j : Z) (points : list A) : option (list A) :=
  match fuel with
  | O => None
  | S fuel' =>
      if decide (i < j) then
        match points !! Z.to_nat i, points !! Z.to_nat j with
        | Some x, Some y =>
            reverse_loop fuel' (i + 1) (j - 1) (<[Z.to_nat i := y]> (<[Z.to_nat j := x]> points))
        | _, _ => None
        end
      else Some points
  end.

(** Half as many rounds as there are points are enough. *)
Definition reverse_in_place {A} (points : list A) : option (list A) :=
  reverse_loop (S (length points / 2)) 0 (Z.of_nat (length points) - 1) points.

Lemma reverse_loop_spec {A} (m : list A) : ∀ fuel a b,
  (length m / 2 < fuel)%nat →
  reverse_loop fuel (Z.of_nat (length a)) (Z.of_nat (length a + length m) - 1) (a ++ m ++ b) =
  Some (a ++ reverse m ++ b).
Proof.
  remember (length m) as n eqn:Hn. revert m Hn.
  induction n as [n IH] using lt_wf_ind; intros m Hn fuel a b Hf.
  destruct fuel as [|fuel]; [lia|]. cbn [reverse_loop].
  destruct m as [|x m]; [rewrite decide_False by (simpl in *; lia); done|].
  destruct m as [|y m _] using rev_ind; [rewrite decide_False by (simpl in *; lia); done|].
  cbn [length] in Hn. rewrite length_app in Hn. cbn [length] in Hn.
  rewrite decide_True by lia. rewrite Nat2Z.id.
  replace (Z.to_nat (Z.of_nat (length a + n) - 1)) with (length (a ++ x :: m)) by (rewrite length_app; simpl; lia).
  assert (a ++ (x :: m ++ [y]) ++ b = (a ++ x :: m) ++ y :: b) as E by (by rewrite <- !app_assoc; simpl; rewrite <- app_assoc).
  assert ((a ++ (x :: m ++ [y]) ++ b) !! length a = Some x) as -> by (by simpl; apply list_lookup_middle).
  rewrite E at 1. rewrite list_lookup_middle by done. cbv iota.
  rewrite E, insert_app_r_alt, Nat.sub_diag by lia. simpl.
  rewrite <- app_assoc, insert_app_r_alt, Nat.sub_diag by lia. simpl.
  replace (Z.of_nat (length a) + 1) with (Z.of_nat (length (a ++ [y]))) by (rewrite length_app; simpl; lia).
  replace (a ++ y :: m ++ x :: b) with ((a ++ [y]) ++ m ++ x :: b) by (by rewrite <- app_assoc).
  replace (Z.of_nat (length a + n) - 1 - 1) with (Z.of_nat (length (a ++ [y]) + (n - 2)) - 1)
    by (rewrite length_app; simpl; lia).
  rewrite (IH (n - 2)%nat).
  - rewrite reverse_cons, reverse_snoc, <- !app_assoc. done.
  - lia.
  - lia.
  - subst n. replace (S (length m + 1) - 2)%nat with (length m) by lia.
    replace (S (length m + 1)) with (length m + 1 * 2)%nat in Hf by lia.
    rewrite Nat.div_add in Hf by done. lia.
Qed.

Lemma reverse_in_place_eq {A} (l : list A) : reverse_in_place l = Some (reverse l).
Proof.
  unfold reverse_in_place. pose proof (reverse_loop_spec l (S (length l / 2)) [] []) as Hr.
  simpl in Hr. rewrite !app_nil_r in Hr. apply Hr. lia.
Qed.

Section Handlers.
Context `{!GoText, !PgLib, !Env}.

(** ** Sites and devices *)

(** ORDER BY name *)
Definition site_by_name (p1 p2 : string * SiteRow) : Prop := text_le (s_name p1.2) (s_name p2.2) = true.
Definition device_by_name (p1 p2 : string * DeviceRow) : Prop := text_le (d_name p1.2) (d_name p2.2) = true.

#[global] Instance site_by_name_dec : RelDecision site_by_name.
Proof. intros p1 p2. unfold site_by_name. apply _. Defined.
#[global] Instance device_by_name_dec : RelDecision device_by_name.
Proof. intros p1 p2. unfold device_by_name. apply _. Defined.
#[global] Instance device_by_name_total : Total device_by_name.
Proof. intros p1 p2. apply text_le_total. Qed.
#[global] Instance site_by_name_total : Total site_by_name.
Proof. intros p1 p2. apply text_le_total. Qed.

#[global] Instance device_by_name_trans : Transitive device_by_name.
Proof. intros p1 p2 p3. apply text_le_trans. Qed.
#[global] Instance site_by_name_trans : Transitive site_by_name.
Proof. intros p1 p2 p3. apply text_le_trans. Qed.

Definition select_sites (ord : ∀ X, list X → list X) (db : Pg) : result (list (string * SiteRow)) :=
  Ok (merge_sort site_by_name (ord _ (map_to_list (sites db)))).

(** SELECT ... FROM devices [WHERE site_id = $1] ORDER BY name *)
Definition select_devices (siteID : string) (ord : ∀ X, list X → list X) (db : Pg)
    : result (list (string * DeviceRow)) :=
  if decide (siteID ≠ "") then
    match uuid_in siteID with
    | Some sid =>
        Ok (merge_sort device_by_name (ord _
              (filter (λ p, d_site_id p.2 = sid) (map_to_list (devices db)))))
    | None => Err (PgError invalid_text_representation)
    end
  else Ok (merge_sort device_by_name (ord _ (map_to_list (devices db)))).

(** SELECT ... FROM devices WHERE id = $1 *)
Definition select_device (id : string) (db : Pg) : result (string * DeviceRow) :=
  match uuid_in id with
  | Some did => match devices db !! did with Some d => Ok (did, d) | None => Err ErrNoRows end
  | None => Err (PgError invalid_text_representation)
  end.

Definition listSites : Handler := λ w r,
  rows <- pg_query_ordered select_sites ;;
  match rows with
  | Err _ =>
      log_line "ERROR" (app_log r) "query sites" ;;
      writeError w StatusInternalServerError "failed to list sites"
  | Ok (rows, RowScanErr) =>
      log_line "ERROR" (app_log r) "scan site" ;;
      writeError w StatusInternalServerError "failed to list sites"
  | Ok (rows, _) => writeJSON w StatusOK (Some (PSites (site_of_row <$> rows)))
  end.

Definition listDevices : Handler := λ w r,
  rows <- pg_query_ordered (select_devices (Query_Get (r_Query r) "site_id")) ;;
  match rows with
  | Err _ =>
      log_line "ERROR" (app_log r) "query devices" ;;
      writeError w StatusInternalServerError "failed to list devices"
  | Ok (rows, RowScanErr) =>
      log_line "ERROR" (app_log r) "scan device" ;;
      writeError w StatusInternalServerError "failed to list devices"
  | Ok (rows, _) => writeJSON w StatusOK (Some (PDevices (device_of_row <$> rows)))
  end.

Definition getDevice : Handler := λ w r,
  row <- pg_query_row (select_device (PathValue r "id")) ;;
  match row with
  | Err _ => writeError w StatusNotFound "device not found"
  | Ok row => writeJSON w StatusOK (Some (PDevice (device_of_row row)))
  end.

(** ** Telemetry *)

Definition parseTimeParam (r : Request) (key : string) : option time :=
  let raw := Query_Get (r_Query r) key in
  if decide (raw = "") then None else time_Parse_RFC3339 raw.

Definition telemetry_limit (r : Request) : Z :=
  let raw := Query_Get (r_Query r) "limit" in
  if decide (raw ≠ "") then
    match ParseInt raw 64 with
    | Some n => if decide (n > 0 ∧ n <= 1000) then n else 100
    | None => 100
    end
  else 100.

(** The filter document: device_id, and ts with $gte and $lte where given; the
    bounds are sent as BSON datetimes. *)
Definition in_range (from to : option time) (t : time) : Prop :=
  match from with Some f => bson_datetime f <= t | None => True end ∧
  match to with Some u => t <= bson_datetime u | None => True end.

#[global] Instance in_range_dec from to t : stdpp.base.Decision (in_range from to t).
Proof. unfold in_range. destruct from, to; apply _. Defined.

(** sort {ts: -1} *)
Definition newest_first (d1 d2 : TelemetryDoc) : Prop := t_ts d2 <= t_ts d1.

#[global] Instance newest_first_dec : RelDecision newest_first.
Proof. intros d1 d2. unfold newest_first. apply _. Defined.
#[global] Instance newest_first_total : Total newest_first.
Proof. intros d1 d2. unfold newest_first. lia. Qed.
#[global] Instance newest_first_trans : Transitive newest_first.
Proof. intros d1 d2 d3. unfold newest_first. lia. Qed.

Definition find_telemetry (deviceID : string) (from to : option time) (limit : Z)
    (ord : ∀ X, list X → list X) (docs : list TelemetryDoc) : list TelemetryDoc :=
  take (Z.to_nat limit) (merge_sort newest_first (ord _
    (filter (λ d, t_device_id d = deviceID ∧ in_range from to (t_ts d)) docs))).

(** The deferred [cursor.Close]. *)
Definition cursor_Close (r : Request) : prog World unit :=
  failed <- act (λ w, (bool_decide (exec_fault (w_tick w) ≠ ExecOk), tick w)) ;;
  if (failed : bool) then log_line "WARN" (app_log r) "close telemetry_raw cursor" else Ret tt.

Definition getDeviceTelemetry : Handler := λ w r,
  let deviceID := PathValue r "id" in
  let limit := telemetry_limit r in
  res <- mongo_find (find_telemetry deviceID (parseTimeParam r "from") (parseTimeParam r "to") limit) ;;
  match res with
  | Err _ =>
      log_line "ERROR" (app_log r) "query telemetry_raw" ;;
      writeError w StatusInternalServerError "failed to query telemetry"
  | Ok (docs, RowScanErr) =>
      log_line "ERROR" (app_log r) "decode telemetry_raw" ;;
      w' <- writeError w StatusInternalServerError "failed to query telemetry" ;;
      cursor_Close r ;;
      Ret w'
  | Ok (docs, _) =>
      let points := point_of_doc <$> docs in
      match reverse_in_place points with
      | Some points =>
          w' <- writeJSON w StatusOK (Some (PPoints points)) ;;
          cursor_Close r ;;
          Ret w'
      | None => Ret w   (* index out of range *)
      end
  end.

End Handlers.

(** ** Guarantees *)

Section Guarantees.
Context `{!GoText, !PgLib, !Env}.

Lemma listSites_ok : handler_ok listSites.
Proof. intros w r. unfold listSites. solve_each_step. Qed.

Lemma listDevices_ok : handler_ok listDevices.
Proof. intros w r. unfold listDevices. solve_each_step. Qed.

Lemma getDevice_ok : handler_ok getDevice.
Proof. intros w r. unfold getDevice. solve_each_step. Qed.

Lemma each_step_cursor_Close r : each_step world_step (cursor_Close r).
Proof. unfold cursor_Close. apply each_step_bind; [quiet_step|]. solve_each_step. Qed.

Lemma getDeviceTelemetry_ok : handler_ok getDeviceTelemetry.
Proof.
  pose proof each_step_cursor_Close. intros w r. unfold getDeviceTelemetry. solve_each_step.
Qed.

Lemma cursor_Close_pg r w :
  w_pg (run (cursor_Close r) w).2 = w_pg w ∧ w_telemetry (run (cursor_Close r) w).2 = w_telemetry w.
Proof.
  unfold cursor_Close. rewrite run_bind, run_act. cbn [fst snd]. by case_bool_decide.
Qed.

Lemma telemetry_limit_range r : 1 <= telemetry_limit r <= 1000.
Proof. unfold telemetry_limit. repeat case_match; lia. Qed.

Lemma run_cursor_Close_body (rw : ResponseWriter) r w :
  (run (bind (cursor_Close r) (λ _, Ret rw)) w).1 = rw ∧
  w_pg (run (bind (cursor_Close r) (λ _, Ret rw)) w).2 = w_pg w.
Proof. rewrite run_bind. destruct (cursor_Close_pg r w) as [Hp _]. by cbn [run fst snd]. Qed.


(** The page the query selects, newest first, and what it leaves out. *)
Lemma find_telemetry_spec dev from to limit (ord : ∀ X, list X → list X) docs :
  (∀ X (l : list X), ord X l ≡ₚ l) →
  let page := find_telemetry dev from to limit ord docs in
  ∃ rest,
    page ++ rest ≡ₚ filter (λ d, t_device_id d = dev ∧ in_range from to (t_ts d)) docs ∧
    StronglySorted newest_first page ∧ (length page <= Z.to_nat limit)%nat ∧
    (rest ≠ [] → length page = Z.to_nat limit) ∧
    (∀ d d', d ∈ page → d' ∈ rest → t_ts d' <= t_ts d).
Proof.
  intros Hord. unfold find_telemetry. set (l := filter _ docs).
  exists (drop (Z.to_nat limit) (merge_sort newest_first (ord _ l))).
  pose proof (StronglySorted_merge_sort newest_first (ord _ l)) as Hs.
  rewrite <- (take_drop (Z.to_nat limit) (merge_sort newest_first (ord _ l))) in Hs.
  pose proof Hs as Hs'. apply StronglySorted_app in Hs' as (Hcross & Hpage & _).
  split_and!; [|done| | |intros d d' ??; by apply (Hcross d d')].
  - rewrite take_drop. etransitivity; [apply merge_sort_Permutation|apply Hord].
  - rewrite length_take. lia.
  - intros Hne. rewrite length_take.
    assert (length (drop (Z.to_nat limit) (merge_sort newest_first (ord _ l))) ≠ 0%nat)
      by (by intros ?%nil_length_inv). rewrite length_drop in *. lia.
Qed.

End Guarantees.

(** ** Properties *)

(** The in-place reversal loop of [getDeviceTelemetry] never indexes out of range
    and reverses the slice, for every length. *)
Theorem reverse_in_place_reverses {A} (l : list A) : reverse_in_place l = Some (reverse l).
Proof. apply reverse_in_place_eq. Qed.

(** C27: The telemetry page.  When the query works, the answer is 200 with at most
    [limit] (1 to 1000, default 100) points, in chronological order; they are the
    device's readings within the requested range, each stored document once, and
    if some are left out the page is full and they are older than every point of
    it. *)
Theorem getDeviceTelemetry_page `{!GoText, !PgLib, !Env} r w :
  query_fault (w_tick w) = QueryOk →
  let '(rw, w') := run (getDeviceTelemetry new_response r) w in
  status_of rw = StatusOK ∧ w_pg w' = w_pg w ∧ 1 <= telemetry_limit r <= 1000 ∧
  ∃ docs rest,
    (encodable (PPoints (point_of_doc <$> docs)) = true → w_body rw = [PPoints (point_of_doc <$> docs)]) ∧
    StronglySorted (flip newest_first) docs ∧
    docs ++ rest ≡ₚ filter (λ d, t_device_id d = PathValue r "id" ∧
      in_range (parseTimeParam r "from") (parseTimeParam r "to") (t_ts d)) (w_telemetry w) ∧
    (length docs <= Z.to_nat (telemetry_limit r))%nat ∧
    (rest ≠ [] → length docs = Z.to_nat (telemetry_limit r)) ∧
    (∀ d d', d ∈ docs → d' ∈ rest → t_ts d' <= t_ts d).
Proof.
  intros Hq. unfold getDeviceTelemetry, mongo_find. rewrite run_bind, run_act, Hq. cbn [query_outcome fst snd].
  destruct (find_telemetry_spec (PathValue r "id") (parseTimeParam r "from") (parseTimeParam r "to")
    (telemetry_limit r) (row_order (w_tick w)) (w_telemetry w) (row_order_perm (w_tick w)))
    as (rest & Hp & Hs & Hl & Hf & Hc).
  set (page := find_telemetry _ _ _ _ _ _) in *.
  rewrite reverse_in_place_eq, <- fmap_reverse, run_bind.
  assert (∃ rw w1, run (writeJSON new_response StatusOK (Some (PPoints (point_of_doc <$> reverse page)))) (tick w)
      = (rw, w1) ∧ status_of rw = StatusOK ∧ w_pg w1 = w_pg w ∧
      (encodable (PPoints (point_of_doc <$> reverse page)) = true →
       w_body rw = [PPoints (point_of_doc <$> reverse page)])) as (rw & w1 & -> & Hst & Hpg & Hbody).
  { unfold writeJSON. destruct (encodable _); [by eexists _, _|].
    rewrite run_bind. eexists _, _. by split_and!. }
  cbn [fst snd]. destruct (run_cursor_Close_body rw r w1) as [E1 E2].
  destruct (run (bind (cursor_Close r) _) w1) as [rw' w']. cbn [fst snd] in *. subst rw'.
  split_and!; [done|congruence|apply telemetry_limit_range..|].
  exists (reverse page), rest. split_and!; [done| | | | |].
  - apply Sorted_StronglySorted; [intros d1 d2 d3; unfold flip, newest_first; lia|].
    apply Sorted_reverse. by apply StronglySorted_Sorted.
  - by rewrite reverse_Permutation.
  - by rewrite length_reverse.
  - by rewrite length_reverse.
  - intros d d' Hd. rewrite elem_of_reverse in Hd. by apply Hc.
Qed.


(** The same for the sites: all of them, ordered by name. *)
Theorem listSites_outcome `{!PgLib, !Env} r w :
  let '(rw, w') := run (listSites new_response r) w in
  w_pg w' = w_pg w ∧ ∃ rows,
    rows ≡ₚ map_to_list (sites (w_pg w)) ∧ StronglySorted site_by_name rows ∧
    listing_answer (λ rows, PSites (site_of_row <$> rows)) "failed to list sites"
      (rows_shown (query_fault (w_tick w)) rows) rw.
Proof.
  pose proof (run_listing select_sites r "query sites" "failed to list sites" "scan site"
    (λ rows, PSites (site_of_row <$> rows)) w : let '(rw, w') := run (listSites new_response r) w in _) as Hl.
  destruct (run _ w) as [rw w']. destruct Hl as [Hw Hl]. split; [done|]. unfold select_sites in Hl.
  eexists. split_and!; [|by apply StronglySorted_merge_sort; apply _|exact Hl].
  by rewrite merge_sort_Permutation, row_order_perm.
Qed.

(** [getDevice] answers 404 "device not found", and logs nothing, for every
    database error, not only for a device that does not exist. *)
Theorem getDevice_error_is_404 `{!PgLib, !Env} r w :
  let '(rw, w') := run (getDevice new_response r) w in
  w_pg w' = w_pg w ∧
  ((query_fault (w_tick w) = QueryOk ∧ status_of rw = StatusOK ∧
    ∃ did d, uuid_in (PathValue r "id") = Some did ∧ devices (w_pg w) !! did = Some d) ∨
   (status_of rw = StatusNotFound ∧ w_log w' = w_log w)).
Proof.
  unfold getDevice, pg_query_row. rewrite run_bind, run_act. cbn [fst snd].
  destruct (query_fault (w_tick w)) eqn:Eq; [|by split; [|right]..|].
  - unfold select_device. destruct (uuid_in (PathValue r "id")) as [did|]; [|by split; [|right]].
    destruct (devices (w_pg w) !! did) as [d|] eqn:Ed; [|by split; [|right]].
    unfold writeJSON. destruct (encodable _); [|rewrite run_bind]; (split; [done|]); left;
      (split_and!; [done|done|by exists did, d]).
  - destruct (select_device _ _); by split; [|right].
Qed.

(** ** Witnesses *)

(** Three readings of one device, received out of order. *)
Definition reading (ts : Z) : TelemetryDoc :=
  mkTelemetryDoc temp_sensor_01 bangkok "temp_sensor" {["temperature_c" := float_of_Z 20]} ts ts.

Definition telemetry_request : Request :=
  mkRequest "GET" "/devices/d/telemetry" {["limit" := ["2"]]} ∅ "10.0.0.1:999" "" {["id" := temp_sensor_01]} None.

Lemma getDeviceTelemetry_page_witness :
  status_of (run (@getDeviceTelemetry wit_GoText quiet_Env new_response telemetry_request)
    (set_telemetry [reading 2000000; reading 1000000; reading 3000000] (fresh_world init_sql))).1 = StatusOK.
Proof.
  pose proof (@getDeviceTelemetry_page wit_GoText fx_PgLib quiet_Env telemetry_request
    (set_telemetry [reading 2000000; reading 1000000; reading 3000000] (fresh_world init_sql)) eq_refl) as Hp.
  destruct (run _ _) as [rw w']. exact (proj1 Hp).
Defined.
