(* ===== verification/RateLimit.v ===== *)
(** * The per-IP rate limiter: [api/ratelimit.go]

    [golang.org/x/time/rate] is third-party code: a limiter is known by the times
    of the calls made on it, and its decision is a parameter.  What is modelled
    and proved is the bookkeeping around it: which limiter a request is charged
    to, under concurrency and eviction. *)

From S2P Require Import Prelude GoStd Alerts Pg World Contract Shared Models Http Fixtures.
Open Scope Z_scope.
Open Scope string_scope.
Open Scope list_scope.
Open Scope go_scope.

(** [Limiter.Allow]: rate, burst, the times of the earlier calls on this limiter,
    the time of this one. *)
Class RateLib := rate_Allow : float64 → Z → list time → time → bool.

Record ipRateLimiter := mkIPRateLimiter {
  rps : float64;
  burst : Z;
}.

Definition newIPRateLimiter (rps : float64) (burst : Z) : ipRateLimiter := mkIPRateLimiter rps burst.

(** The map [make(map[string]*visitor)], and no limiter allocated. *)
Definition no_visitors : LimiterState := mkLimiterState ∅ [].

(** ** The critical sections *)

(** [allow] up to [l.mu.Unlock()]: the limiter of the IP, allocated if needed. *)
Definition lock_section (ip : string) (now : time) (st : LimiterState) : nat * LimiterState :=
  match visitors st !! ip with
  | Some v =>
      (v_limiter v, mkLimiterState (<[ip := mkVisitor (v_limiter v) now]> (visitors st)) (limiters st))
  | None =>
      let p := length (limiters st) in
      (p, mkLimiterState (<[ip := mkVisitor p now]> (visitors st)) (limiters st ++ [[]]))
  end.

(** One tick of [cleanupLoop]. *)
Definition cleanup (now maxIdle : time) (st : LimiterState) : LimiterState :=
  mkLimiterState (filter (λ p, ¬ time_Sub now (v_lastSeen p.2) > maxIdle) (visitors st)) (limiters st).

Section RateLimit.
Context `{!GoText, !RateLib, !PgLib, !Env}.

(** [limiter.Allow()] on the limiter at [p]. *)
Definition call_limiter (l : ipRateLimiter) (p : nat) (now : time) (st : LimiterState) : bool * LimiterState :=
  let calls := default [] (limiters st !! p) in
  (rate_Allow (rps l) (burst l) calls now,
   mkLimiterState (visitors st) (<[p := calls ++ [now]]> (limiters st))).

Definition allow (l : ipRateLimiter) (ip : string) : prog World bool :=
  limiter <- act (λ w, let '(p, st) := lock_section ip (now_at (w_tick w)) (w_limiter w) in
                       (p, tick (set_limiter st w))) ;;
  act (λ w, let '(b, st) := call_limiter l limiter (now_at (w_tick w)) (w_limiter w) in
            (b, tick (set_limiter st w))).

(** [cleanupLoop] until [done]: one round per value received from the ticker. *)
Fixpoint cleanupLoop (ticks : list time) (maxIdle : time) : prog World unit :=
  match ticks with
  | [] => Ret tt
  | now :: ticks' =>
      act (λ w, (tt, set_limiter (cleanup now maxIdle (w_limiter w)) w)) ;;
      cleanupLoop ticks' maxIdle
  end.

Definition clientIP (r : Request) : string :=
  match SplitHostPort (r_RemoteAddr r) with
  | Some (host, _) => host
  | None => r_RemoteAddr r
  end.

Definition withRateLimit (l : ipRateLimiter) (fallback : option string) (h : Handler) : Handler := λ w r,
  ok <- allow l (clientIP r) ;;
  if negb ok then
    log_line "WARN" (loggerFromContext r fallback) "rate limit exceeded" ;;
    Ret (http_Error (Header_Set "Retry-After" "1" w) "rate limit exceeded" StatusTooManyRequests)
  else h w r.

Definition rateLimitFromEnv (env : gmap string string) : ipRateLimiter :=
  let raw := os_Getenv env "RATE_LIMIT_RPS" in
  let rps := if decide (raw ≠ "") then
               match ParseFloat raw with
               | Some n => if float_lt (S754_zero false) n then n else float_of_Z 20
               | None => float_of_Z 20
               end
             else float_of_Z 20 in
  let raw := os_Getenv env "RATE_LIMIT_BURST" in
  let burst := if decide (raw ≠ "") then
                 match Atoi raw with
                 | Some n => if decide (n > 0) then n else 40
                 | None => 40
                 end
               else 40 in
  newIPRateLimiter rps burst.

Lemma each_step_allow l ip : each_step world_step (allow l ip).
Proof.
  unfold allow. apply each_step_bind.
  - apply each_step_act. intros w. destruct (lock_section _ _ _).
    apply world_step_quiet; simpl; done || lia.
  - intros p. quiet_step.
Qed.

Lemma each_step_cleanupLoop ticks maxIdle : each_step world_step (cleanupLoop ticks maxIdle).
Proof.
  induction ticks as [|now ticks IH]; cbn [cleanupLoop]; [done|].
  apply each_step_bind; [quiet_step|done].
Qed.

Lemma withRateLimit_ok l fb h : handler_ok h → handler_ok (withRateLimit l fb h).
Proof.
  pose proof each_step_allow as Ha. intros Hh w r. unfold withRateLimit.
  apply each_step_bind; [apply Ha|]. intros []; simpl; [apply Hh|]. solve_each_step.
Qed.

End RateLimit.

(** ** Interleaved calls *)

(** An atomic action of some request or of the clean-up goroutine. *)
Inductive event :=
| ELock (ip : string) (now : time)
| ECall (p : nat) (now : time)
| ECleanup (now maxIdle : time).

(** What it returns. *)
Inductive outcome := OLimiter (p : nat) | ODecision (b : bool) | ONone.

Section Events.
Context `{!RateLib} (l : ipRateLimiter).

Definition event_step (e : event) (st : LimiterState) : outcome * LimiterState :=
  match e with
  | ELock ip now => let '(p, st') := lock_section ip now st in (OLimiter p, st')
  | ECall p now => let '(b, st') := call_limiter l p now st in (ODecision b, st')
  | ECleanup now maxIdle => (ONone, cleanup now maxIdle st)
  end.

(** The trace of a sequence of events. *)
Fixpoint event_run (evs : list event) (st : LimiterState) : list (event * outcome) * LimiterState :=
  match evs with
  | [] => ([], st)
  | e :: evs' =>
      let '(o, st1) := event_step e st in
      let '(tr, st2) := event_run evs' st1 in
      ((e, o) :: tr, st2)
  end.

(** The times of the calls a trace makes on limiter [p]. *)
Definition calls_on (p : nat) (tr : list (event * outcome)) : list time :=
  omap (λ eo, match eo.1 with ECall p' now => if decide (p' = p) then Some now else None | _ => None end) tr.

(** [owner] tells for which IP each limiter was allocated. *)
Definition owned (owner : list string) (st : LimiterState) : Prop :=
  length owner = length (limiters st) ∧
  ∀ ip v, visitors st !! ip = Some v → owner !! v_limiter v = Some ip.

(** A lock section returns a limiter of its own IP, and owners stay. *)
Lemma event_step_owned owner e st :
  owned owner st →
  ∃ more, owned (owner ++ more) (event_step e st).2 ∧
    ∀ ip now p, e = ELock ip now → (event_step e st).1 = OLimiter p → (owner ++ more) !! p = Some ip.
Proof.
  intros [Hlen Hown]. destruct e as [ip now|p now|now maxIdle]; simpl.
  - unfold lock_section. destruct (visitors st !! ip) as [v|] eqn:Ev.
    + exists []. rewrite app_nil_r. split; [split; [done|]|].
      * intros ip' v'. simpl. rewrite lookup_insert. case_decide; [|by apply Hown].
        intros [= <-]. subst. simpl. by apply Hown.
      * intros ip' now' p [= <- _] [= <-]. by apply Hown.
    + exists [ip]. split; [split; simpl; [rewrite !length_app; simpl; lia|]|].
      * intros ip' v'. rewrite lookup_insert. case_decide as E.
        -- intros [= <-]. subst. simpl. rewrite <- Hlen. by apply list_lookup_middle.
        -- intros Hv. apply lookup_app_l_Some. by apply Hown.
      * intros ip' now' p [= <- _] [= <-]. simpl. rewrite <- Hlen. by apply list_lookup_middle.
  - exists []. rewrite app_nil_r. split; [|done]. split; simpl; [by rewrite length_insert|done].
  - exists []. rewrite app_nil_r. split; [|done]. split; simpl; [done|].
    intros ip v [Hv _]%map_lookup_filter_Some. by apply Hown.
Qed.

Lemma event_run_owned evs owner st :
  owned owner st →
  ∃ more, owned (owner ++ more) (event_run evs st).2 ∧
    ∀ ip now p, (ELock ip now, OLimiter p) ∈ (event_run evs st).1 → (owner ++ more) !! p = Some ip.
Proof.
  revert owner st. induction evs as [|e evs IH]; intros owner st Ho; simpl.
  { exists []. rewrite app_nil_r. split; [done|]. intros ??? Hin. by apply not_elem_of_nil in Hin. }
  destruct (event_step_owned owner e st Ho) as (m1 & Ho1 & Hl1).
  destruct (event_step e st) as [o st1]. simpl in *.
  destruct (IH _ _ Ho1) as (m2 & Ho2 & Hl2). destruct (event_run evs st1) as [tr st2]. simpl in *.
  exists (m1 ++ m2). rewrite app_assoc. split; [done|].
  intros ip now p [[= <- <-]|Hin]%elem_of_cons; [|by eapply Hl2].
  apply lookup_app_l_Some. by eapply Hl1.
Qed.

Lemma event_run_app evs1 evs2 st :
  event_run (evs1 ++ evs2) st =
  ((event_run evs1 st).1 ++ (event_run evs2 (event_run evs1 st).2).1,
   (event_run evs2 (event_run evs1 st).2).2).
Proof.
  revert st. induction evs1 as [|e evs1 IH]; intros st; simpl; [by destruct (event_run evs2 st)|].
  destruct (event_step e st) as [o st1]. rewrite IH. by destruct (event_run evs1 st1).
Qed.

Lemma event_run_length evs st : length (event_run evs st).1 = length evs.
Proof.
  revert st. induction evs as [|e evs IH]; intros st; simpl; [done|].
  destruct (event_step e st) as [o st1]. specialize (IH st1).
  destruct (event_run evs st1). simpl in *. by rewrite IH.
Qed.

(** An entry of the trace is a step from the state its prefix leads to. *)
Lemma event_run_split evs st tr1 e o tr2 :
  (event_run evs st).1 = tr1 ++ (e, o) :: tr2 →
  ∃ evs1 evs2, evs = evs1 ++ e :: evs2 ∧ (event_run evs1 st).1 = tr1 ∧
    (event_step e (event_run evs1 st).2).1 = o.
Proof.
  intros E. pose proof (event_run_length evs st) as Hlen. rewrite E, length_app in Hlen. simpl in Hlen.
  pose proof (take_drop (length tr1) evs) as Hev.
  assert (length (drop (length tr1) evs) ≠ 0%nat) as Hd by (rewrite length_drop; lia).
  destruct (drop (length tr1) evs) as [|e' evs2]; [done|].
  rewrite <- Hev, event_run_app in E. cbn [fst] in E.
  apply app_inj_1 in E as [Htr E]; [|rewrite event_run_length, length_take; lia].
  cbn [event_run] in E. destruct (event_step e' _) as [o' st1] eqn:Es.
  destruct (event_run evs2 st1). simpl in E. injection E as -> -> _.
  exists (take (length tr1) evs), evs2. by rewrite Es.
Qed.

(** A request calls only limiters a lock section has returned to it. *)
Definition calls_returned (tr : list (event * outcome)) : Prop :=
  ∀ tr1 p now o tr2, tr = tr1 ++ (ECall p now, o) :: tr2 →
    ∃ ip t, (ELock ip t, OLimiter p) ∈ tr1.

Lemma calls_returned_prefix tr1 tr2 : calls_returned (tr1 ++ tr2) → calls_returned tr1.
Proof.
  intros Hc t1 p now o t2 ->. apply (Hc t1 p now o (t2 ++ tr2)). by rewrite <- app_assoc.
Qed.

Lemma no_visitors_owned : owned [] no_visitors.
Proof. split; [done|]. intros ip v. simpl. by rewrite lookup_empty. Qed.

Lemma lock_in_range evs ip t p :
  (ELock ip t, OLimiter p) ∈ (event_run evs no_visitors).1 →
  (p < length (limiters (event_run evs no_visitors).2))%nat.
Proof.
  destruct (event_run_owned evs [] no_visitors no_visitors_owned) as (owner & [Hlen _] & Hl).
  intros Hin%Hl. rewrite <- Hlen. by eapply lookup_lt_Some.
Qed.

Lemma lock_section_calls ip now st p :
  default [] (limiters (lock_section ip now st).2 !! p) = default [] (limiters st !! p).
Proof.
  unfold lock_section. destruct (visitors st !! ip) as [v|]; simpl; [done|].
  destruct (decide (p < length (limiters st))%nat).
  - by rewrite lookup_app_l.
  - rewrite lookup_app_r by lia. rewrite (lookup_ge_None_2 (limiters st)) by lia.
    by destruct (p - length (limiters st))%nat.
Qed.

(** Every limiter remembers exactly the calls the trace made on it. *)
Lemma event_run_calls evs p :
  calls_returned (event_run evs no_visitors).1 →
  default [] (limiters (event_run evs no_visitors).2 !! p) = calls_on p (event_run evs no_visitors).1.
Proof.
  induction evs as [|e evs IH] using rev_ind; [done|].
  rewrite event_run_app. pose proof (λ ip t q, lock_in_range evs ip t q) as Hlt.
  destruct (event_run evs no_visitors) as [tr st]. cbn [fst snd event_run] in *.
  destruct (event_step e st) as [o st1] eqn:Es. cbn [fst snd]. intros Hc.
  specialize (IH (calls_returned_prefix _ _ Hc)).
  unfold calls_on in *. rewrite omap_app, <- IH.
  destruct e as [ip now|q now|now maxIdle]; simpl in *; simplify_eq; [|..|by rewrite app_nil_r].
  - pose proof (lock_section_calls ip now st p) as El. destruct (lock_section ip now st) as [q st2].
    simplify_eq. by rewrite app_nil_r.
  - destruct (Hc tr q now _ [] eq_refl) as (ip & t & Hin). specialize (Hlt _ _ _ Hin).
    simpl. case_decide as Hq.
    + subst. by rewrite list_lookup_insert_eq.
    + rewrite list_lookup_insert_ne by done. by rewrite app_nil_r.
Qed.

End Events.

(** ** Properties *)

(** C29: Isolation.  However the lock sections and limiter calls of any requests and the
    rounds of the clean-up interleave, two clients never share a limiter, and
    every decision is the library's decision on exactly the earlier calls made on
    that same limiter: one client's traffic cannot use up another's budget. *)
Theorem per_ip_isolation `{!RateLib} (l : ipRateLimiter) evs :
  let tr := (event_run l evs no_visitors).1 in
  calls_returned tr →
  (∀ ip1 ip2 t1 t2 p, (ELock ip1 t1, OLimiter p) ∈ tr → (ELock ip2 t2, OLimiter p) ∈ tr → ip1 = ip2) ∧
  (∀ tr1 p now o tr2, tr = tr1 ++ (ECall p now, o) :: tr2 →
     o = ODecision (rate_Allow (rps l) (burst l) (calls_on p tr1) now)).
Proof.
  intros tr Hc. split.
  - intros ip1 ip2 t1 t2 p Hin1 Hin2.
    destruct (event_run_owned l evs [] no_visitors no_visitors_owned) as (owner & _ & Hl).
    pose proof (Hl _ _ _ Hin1). pose proof (Hl _ _ _ Hin2). congruence.
  - intros tr1 p now o tr2 E. unfold tr in *. rewrite E in Hc.
    destruct (event_run_split l evs _ _ _ _ _ E) as (evs1 & evs2 & -> & <- & <-).
    apply calls_returned_prefix in Hc. simpl. by rewrite event_run_calls.
Qed.

(** Clean-up.  A round at [now] evicts exactly the visitors whose last request is
    more than [maxIdle] ago and keeps every other one with its limiter; no
    limiter's past is altered. *)
Theorem cleanup_exact now maxIdle st ip v :
  min_int64 <= maxIdle < max_int64 →
  limiters (cleanup now maxIdle st) = limiters st ∧
  (visitors (cleanup now maxIdle st) !! ip = Some v ↔
   visitors st !! ip = Some v ∧ now - v_lastSeen v <= maxIdle).
Proof.
  intros Hm. split; [done|]. unfold cleanup. simpl. rewrite map_lookup_filter_Some. simpl.
  rewrite time_Sub_gt by done. split; intros [? ?]; (split; [done|lia]).
Qed.

(** The middleware.  A request over its budget is answered 429 with Retry-After,
    logged once with the request's own logger, and reaches neither the router nor
    a database; a request within budget is exactly its handler's, after the
    limiter's bookkeeping. *)
Theorem withRateLimit_outcome `{!RateLib, !PgLib, !Env} l fb h rw r w :
  w_sent rw = None →
  let '(ok, w1) := run (allow l (clientIP r)) w in
  w_pg w1 = w_pg w ∧ w_log w1 = w_log w ∧ w_httpRequests w1 = w_httpRequests w ∧
  if ok then run (withRateLimit l fb h rw r) w = run (h rw r) w1
  else
    let '(rw', w') := run (withRateLimit l fb h rw r) w in
    status_of rw' = StatusTooManyRequests ∧ w_header rw' !! "Retry-After" = Some "1" ∧
    w_pg w' = w_pg w ∧ w_httpRequests w' = w_httpRequests w ∧
    w_log w' = w_log w ++ [mkLogLine "WARN" (loggerFromContext r fb) "rate limit exceeded"].
Proof.
  intros Hs. unfold withRateLimit. rewrite run_bind.
  assert (∀ w1, (run (allow l (clientIP r)) w).2 = w1 → w_pg w1 = w_pg w ∧ w_log w1 = w_log w ∧
    w_httpRequests w1 = w_httpRequests w) as Hsame.
  { intros w1 <-. unfold allow. rewrite run_bind, !run_act.
    destruct (lock_section (clientIP r) _ _) as [p st]. cbn [fst snd].
    by destruct (call_limiter l p _ _). }
  destruct (run (allow l (clientIP r)) w) as [[] w1]; cbn [fst snd negb];
    destruct (Hsame w1 eq_refl) as (E1 & E2 & E3); (split; [done|]); (split; [done|]); (split; [done|]);
    [done|].
  rewrite run_bind. simpl. unfold status_of. simpl. rewrite Hs, E2. split_and!; try done.
  rewrite lookup_insert_ne by done. rewrite lookup_insert_ne by done. by rewrite lookup_insert_eq.
Qed.

(** The client of a request is its network address without the port, for IPv4 and
    bracketed IPv6 alike; no header of the request has any influence. *)
Theorem clientIP_spec r host port :
  has_char ":" port = false → has_char "[" port = false → has_char "]" port = false →
  has_char "[" host = false → has_char "]" host = false →
  (has_char ":" host = false → r_RemoteAddr r = host +:+ String ":" port → clientIP r = host) ∧
  (r_RemoteAddr r = String "[" (host +:+ String "]" (String ":" port)) → clientIP r = host).
Proof.
  intros Hp1 Hp2 Hp3 Hh1 Hh2. unfold clientIP, SplitHostPort. split.
  - intros Hh0 ->. rewrite CutLast_app by done.
    assert (has_char "[" (host +:+ String ":" port) = false) as Hb by (by rewrite has_char_app, Hh1).
    assert (has_char "]" (host +:+ String ":" port) = false) as Hc by (by rewrite has_char_app, Hh2).
    rewrite Hh0, Hb, Hc. destruct (host +:+ String ":" port) as [|a s] eqn:E; [done|].
    destruct (decide (a = "["%char)) as [->|Ha]; [by simpl in Hb|].
    destruct a as [[] [] [] [] [] [] [] []]; by simpl.
  - intros ->.
    assert (String "[" (host +:+ String "]" (String ":" port)) =
      (String "[" (host +:+ "]")) +:+ String ":" port) as E.
    { change (String "[" (host +:+ ("]" +:+ String ":" port)) = String "[" ((host +:+ "]") +:+ String ":" port)).
      by rewrite append_assoc. }
    rewrite E at 1. rewrite CutLast_app by done. cbv iota.
    rewrite Cut_app by done. cbn [negb]. rewrite decide_False, decide_True by done.
    rewrite has_char_app, Hh1. simpl. by rewrite Hp2, Hp3.
Qed.

(** Whatever the environment holds, the limiter's settings are usable: a positive
    rate (never NaN) and a positive burst. *)
Theorem rateLimitFromEnv_usable `{!GoText} env :
  float_lt (S754_zero false) (rps (rateLimitFromEnv env)) = true ∧
  0 < burst (rateLimitFromEnv env) <= max_int64.
Proof.
  unfold rateLimitFromEnv, newIPRateLimiter. simpl. split.
  - repeat (case_match; try done).
  - assert (0 < 40 <= max_int64) by (unfold max_int64; lia).
    case_decide; [|lia]. destruct (Atoi _) as [n|] eqn:E; [|lia].
    apply Atoi_range in E. unfold in_int64 in E. case_decide; lia.
Qed.

(** ** Witnesses *)

(** A token bucket refilled with 20 tokens a second, in units of a nano-token. *)
Definition bucket_step (burst : Z) (s : Z * time) (now : time) : bool * (Z * time) :=
  let tokens := Z.min (burst * Second) (s.1 + 20 * Z.max 0 (now - s.2)) in
  if decide (Second <= tokens) then (true, (tokens - Second, now)) else (false, s).

Definition fx_RateLib : RateLib := λ _ burst calls now,
  (bucket_step burst (foldl (λ s t, (bucket_step burst s t).2) (burst * Second, zero_time) calls) now).1.

Definition two_clients : list event :=
  [ELock "10.0.0.1" 0; ELock "10.0.0.2" 0; ECall 0 0; ECall 0 0; ECall 1 0].

Lemma per_ip_isolation_witness :
  @rate_Allow fx_RateLib (float_of_Z 20) 1 [0] 0 = false ∧
  ODecision true = ODecision (@rate_Allow fx_RateLib (float_of_Z 20) 1 [] 0).
Proof.
  split; [vm_compute; reflexivity|].
  apply (@per_ip_isolation fx_RateLib (mkIPRateLimiter (float_of_Z 20) 1) two_clients) with
    (tr1 := [(ELock "10.0.0.1" 0, OLimiter 0); (ELock "10.0.0.2" 0, OLimiter 1);
             (ECall 0 0, ODecision true); (ECall 0 0, ODecision false)]) (p := 1%nat) (now := 0) (tr2 := []).
  - vm_compute. intros tr1 p now o tr2 E.
    do 2 (destruct tr1 as [|? tr1]; [discriminate E|]; injection E as <- E).
    destruct tr1 as [|? tr1]; [injection E as <- <- <-; exists "10.0.0.1", 0; set_solver|injection E as <- E].
    destruct tr1 as [|? tr1]; [injection E as <- <- <-; exists "10.0.0.1", 0; set_solver|injection E as <- E].
    destruct tr1 as [|? tr1]; [injection E as <- <- <-; exists "10.0.0.2", 0; set_solver|injection E as <- E].
    destruct tr1; discriminate E.
  - vm_compute. reflexivity.
Defined.

Lemma cleanup_exact_witness :
  visitors (cleanup (20 * Minute) (10 * Minute)
    (mkLimiterState {["10.0.0.1" := mkVisitor 0 (15 * Minute)]} [[15 * Minute]])) !! "10.0.0.1" =
  Some (mkVisitor 0 (15 * Minute)).
Proof.
  apply (cleanup_exact (20 * Minute) (10 * Minute)
    (mkLimiterState {["10.0.0.1" := mkVisitor 0 (15 * Minute)]} [[15 * Minute]]) "10.0.0.1").
  - vm_compute. split; [intros [=]|reflexivity].
  - split; [reflexivity|]. vm_compute. intros [=].
Defined.

Lemma withRateLimit_outcome_witness :
  w_pg (run (@allow fx_RateLib quiet_Env (mkIPRateLimiter (float_of_Z 20) 1) "10.0.0.1")
    (fresh_world init_sql)).2 = init_sql.
Proof.
  pose proof (@withRateLimit_outcome fx_RateLib fx_PgLib quiet_Env (mkIPRateLimiter (float_of_Z 20) 1) None
    (λ w _, Ret w) new_response (mkRequest "GET" "/" ∅ ∅ "10.0.0.1:999" "" ∅ None) (fresh_world init_sql)
    eq_refl) as Hp.
  change (clientIP _) with "10.0.0.1" in Hp.
  destruct (run _ _) as [ok w1]. exact (proj1 Hp).
Defined.

Lemma clientIP_spec_witness :
  clientIP (mkRequest "GET" "/" ∅ {["X-Forwarded-For" := "1.2.3.4"]} "[::1]:50000" "" ∅ None) = "::1".
Proof.
  apply (clientIP_spec (mkRequest "GET" "/" ∅ {["X-Forwarded-For" := "1.2.3.4"]} "[::1]:50000" "" ∅ None)
    "::1" "50000"); reflexivity.
Defined.
