(* ===== verification/RateBudget.v ===== *)
(** * How much of the API one client gets

    [RateLimit] proves that a client's requests are charged to limiters of its own; here
    the documented behaviour of a token bucket is added, as a law of the library, and
    bounds the requests of a client across the evictions of [cleanupLoop]. *)

From S2P Require Import Prelude GoStd GoFloat Alerts Pg World Contract Shared Models Http Fixtures RateLimit.
Open Scope Z_scope.
Open Scope string_scope.
Open Scope list_scope.

(** ** The law of the token bucket *)

(** [n] tokens are refilled in [dt] nanoseconds at [r] tokens a second. *)
Definition refilled (n : Z) (r : float64) (dt : Z) : Prop :=
  match r with
  | S754_finite false m e => n * (Second * 2 ^ Z.max 0 (- e)) <= Z.pos m * 2 ^ Z.max 0 e * dt
  | S754_infinity false => True
  | _ => n <= 0
  end.

(** The number of times between [s] and [t]. *)
Definition count_in (s t : time) (l : list time) : Z :=
  Z.of_nat (length (filter (λ u, s <= u <= t) l)).

(** The calls that are allowed, after those of [past]. *)
Fixpoint admitted `{!RateLib} (r : float64) (b : Z) (past calls : list time) : list time :=
  match calls with
  | [] => []
  | u :: calls' => (if rate_Allow r b past u then [u] else []) ++ admitted r b (past ++ [u]) calls'
  end.

(** The documentation of [rate.Limiter]: a bucket of size [b], initially full and refilled at
    rate [r] tokens per second, so over any interval no more than the burst and the refill
    of that interval. *)
Class RateLaw `{!RateLib} : Prop := rate_law r b calls s t :
  0 < b → float_lt (S754_zero false) r = true → StronglySorted Z.le calls → s <= t →
  refilled (count_in s t (admitted r b [] calls) - b) r (t - s).

(** ** The trace of one client *)

Definition ev_time (e : event) : time :=
  match e with ELock _ now | ECall _ now | ECleanup now _ => now end.

(** Clock readings do not go back; only the value a ticker has sent may be old by the time
    it is received. *)
Definition later (e1 e2 : event) : Prop :=
  match e2 with ECleanup _ _ => True | _ => ev_time e1 <= ev_time e2 end.

Definition idle_after (M : time) (e : event) : Prop :=
  match e with ECleanup _ maxIdle => maxIdle = M | _ => True end.

(** A request calls the limiter it has been handed at most [D] ago. *)
Definition prompt (D : Z) (tr : list (event * outcome)) : Prop :=
  ∀ tr1 p u o tr2, tr = tr1 ++ (ECall p u, o) :: tr2 →
    ∃ ip t, (ELock ip t, OLimiter p) ∈ tr1 ∧ u <= t + D.

(** Limiter [p] was handed to [ip]. *)
Definition handed (ip : string) (p : nat) (tr : list (event * outcome)) : bool :=
  existsb (λ eo, match eo with
                 | (ELock ip' _, OLimiter p') => bool_decide (ip' = ip ∧ p' = p)
                 | _ => false
                 end) tr.

(** The times of the allowed calls on the limiters [f] selects. *)
Definition allowed_on (f : nat → bool) (tr : list (event * outcome)) : list time :=
  omap (λ eo, match eo with
              | (ECall p u, ODecision true) => if f p then Some u else None
              | _ => None
              end) tr.

(** The admitted requests of a client, by the time of their limiter call. *)
Definition admitted_of (ip : string) (tr : list (event * outcome)) : list time :=
  allowed_on (λ p, handed ip p tr) tr.

Lemma handed_spec ip p tr : handed ip p tr = true ↔ ∃ t, (ELock ip t, OLimiter p) ∈ tr.
Proof.
  unfold handed. rewrite existsb_exists. split.
  - intros ([e o] & Hin & He). destruct e as [ip' t| |]; try done. destruct o as [p'| |]; try done.
    apply bool_decide_eq_true in He as [-> ->]. exists t. by apply list_elem_of_In.
  - intros [t Hin]. exists (ELock ip t, OLimiter p). split; [by apply list_elem_of_In|].
    by apply bool_decide_eq_true.
Qed.

Section Budget.
Context `{!RateLib} (l : ipRateLimiter).

(** The decisions of a trace on one limiter are those of its calls. *)
Lemma admitted_snoc r b past calls u :
  admitted r b past (calls ++ [u]) =
  admitted r b past calls ++ (if rate_Allow r b (past ++ calls) u then [u] else []).
Proof.
  revert past. induction calls as [|v calls IH]; intros past; simpl; [by rewrite !app_nil_r|].
  by rewrite IH, <- !app_assoc.
Qed.

Lemma allowed_on_calls evs p :
  calls_returned (event_run l evs no_visitors).1 →
  allowed_on (λ q, bool_decide (q = p)) (event_run l evs no_visitors).1 =
  admitted (rps l) (burst l) [] (calls_on p (event_run l evs no_visitors).1).
Proof.
  induction evs as [|e evs IH] using rev_ind; [done|].
  rewrite event_run_app. pose proof (event_run_calls l evs p) as Hcalls.
  destruct (event_run l evs no_visitors) as [tr st]. cbn [fst snd event_run] in *.
  destruct (event_step l e st) as [o st1] eqn:Es. cbn [fst snd]. intros Hc.
  pose proof (calls_returned_prefix _ _ Hc) as Hc1. specialize (IH Hc1). specialize (Hcalls Hc1).
  unfold calls_on, allowed_on in *. rewrite !omap_app, IH.
  destruct e as [ip now|q now|now maxIdle]; simpl in *.
  - destruct (lock_section ip now st). simplify_eq. simpl. by rewrite !app_nil_r.
  - simplify_eq. destruct (decide (q = p)) as [->|Hq].
    + rewrite bool_decide_eq_true_2, Hcalls, admitted_snoc by done. simpl.
      set (X := omap _ tr). by destruct (rate_Allow (rps l) (burst l) X now).
    + rewrite bool_decide_eq_false_2, !app_nil_r by done.
      by destruct (rate_Allow _ _ _ now); rewrite app_nil_r.
  - simplify_eq. simpl. by rewrite !app_nil_r.
Qed.

(** ** One limiter at a time *)

(** Every limiter handed to a client is its current one, or has been evicted after the client
    was idle for more than [M]. *)
Definition current_or_idle (M : time) (tr : list (event * outcome)) (st : LimiterState) : Prop :=
  ∀ ip t p, (ELock ip t, OLimiter p) ∈ tr →
    (∃ v, visitors st !! ip = Some v ∧ v_limiter v = p ∧ t <= v_lastSeen v) ∨
    (∃ e o, (e, o) ∈ tr ∧ t + M < ev_time e).

Lemma event_step_current M e st tr :
  min_int64 <= M < max_int64 → idle_after M e →
  (∀ e' o', (e', o') ∈ tr → later e' e) →
  current_or_idle M tr st →
  current_or_idle M (tr ++ [(e, (event_step l e st).1)]) (event_step l e st).2.
Proof.
  intros HM Hidle Hlater Hcur ip t p Hin. apply elem_of_app in Hin as [Hin|Hin].
  - destruct (Hcur ip t p Hin) as [(v & Hv & Hp & Ht)|(e' & o' & Hin' & Ht)];
      [|right; exists e', o'; split; [by apply elem_of_app; left|done]].
    destruct e as [ip' now|q now|now maxIdle]; simpl.
    + left. pose proof (Hlater _ _ Hin) as Hle. cbn [later ev_time] in Hle.
      unfold lock_section. destruct (decide (ip' = ip)) as [->|Hne].
      * rewrite Hv. simpl. exists (mkVisitor (v_limiter v) now). by rewrite lookup_insert_eq.
      * exists v. destruct (visitors st !! ip'); simpl; by rewrite lookup_insert_ne.
    + left. by exists v.
    + simpl in Hidle. subst maxIdle. destruct (decide (now - v_lastSeen v <= M)) as [Hk|Hk].
      * left. exists v. split; [|done]. unfold cleanup. simpl. apply map_lookup_filter_Some. simpl.
        rewrite time_Sub_gt by done. split; [done|lia].
      * right. exists (ECleanup now M), ONone. split; [apply elem_of_app; right; by left|]. simpl. lia.
  - apply list_elem_of_singleton in Hin. injection Hin as <- Ho. left. simpl in *.
    unfold lock_section in *. destruct (visitors st !! ip) as [v|]; simpl in *; injection Ho as ->;
      (eexists; split; [apply lookup_insert_eq|]; by split).
Qed.

Definition clock (evs : list event) : Prop := StronglySorted later evs.

Lemma event_run_events evs st : (event_run l evs st).1.*1 = evs.
Proof.
  revert st. induction evs as [|e evs IH]; intros st; simpl; [done|].
  destruct (event_step l e st) as [o st1]. specialize (IH st1). destruct (event_run l evs st1).
  simpl in *. by f_equal.
Qed.

Lemma event_run_earlier evs e st e' o' :
  clock (evs ++ [e]) → (e', o') ∈ (event_run l evs st).1 → later e' e.
Proof.
  intros Hc Hin. apply StronglySorted_app in Hc as (Hc & _ & _). apply Hc; [|by left].
  rewrite <- (event_run_events evs st). by apply (list_elem_of_fmap_2 fst _ (e', o')).
Qed.

Lemma event_run_current M evs :
  min_int64 <= M < max_int64 → Forall (idle_after M) evs → clock evs →
  current_or_idle M (event_run l evs no_visitors).1 (event_run l evs no_visitors).2.
Proof.
  intros HM. induction evs as [|e evs IH] using rev_ind; intros HF Hc.
  { intros ip t p Hin. by apply not_elem_of_nil in Hin. }
  apply Forall_app in HF as [HF He]. rewrite Forall_singleton in He.
  pose proof (λ e' o', event_run_earlier evs e no_visitors e' o' Hc) as Hl.
  apply StronglySorted_app in Hc as (_ & Hc & _). specialize (IH HF Hc).
  rewrite event_run_app. destruct (event_run l evs no_visitors) as [tr st]. cbn [fst snd event_run] in *.
  pose proof (event_step_current M e st tr HM He Hl IH) as Hn.
  by destruct (event_step l e st).
Qed.

(** Two limiters of one client are handed out more than [M] apart. *)
Lemma limiters_apart M evs tr1 ip t2 p2 tr2 t1 p1 :
  min_int64 <= M < max_int64 → Forall (idle_after M) evs → clock evs →
  (event_run l evs no_visitors).1 = tr1 ++ (ELock ip t2, OLimiter p2) :: tr2 →
  (ELock ip t1, OLimiter p1) ∈ tr1 → p1 ≠ p2 → t1 + M < t2.
Proof.
  intros HM HF Hc E Hin Hne.
  destruct (event_run_split l evs _ _ _ _ _ E) as (evs1 & evs2 & -> & <- & Ho).
  apply Forall_app in HF as [HF _].
  assert (clock (evs1 ++ [ELock ip t2])) as Hc1.
  { change (ELock ip t2 :: evs2) with ([ELock ip t2] ++ evs2) in Hc. rewrite app_assoc in Hc.
    by apply StronglySorted_app in Hc as (_ & Hc & _). }
  pose proof Hc1 as (_ & Hc2 & _)%StronglySorted_app.
  destruct (event_run_current M evs1 HM HF Hc2 ip t1 p1 Hin) as [(v & Hv & Hp & _)|(e & o & Hin' & Ht)].
  - simpl in Ho. unfold lock_section in Ho. rewrite Hv in Ho. simpl in Ho. congruence.
  - pose proof (event_run_earlier _ _ _ _ _ Hc1 Hin') as Hl. cbn [later ev_time] in Hl. lia.
Qed.

Lemma same_limiter M evs ip t1 p1 t2 p2 :
  min_int64 <= M < max_int64 → Forall (idle_after M) evs → clock evs →
  (ELock ip t1, OLimiter p1) ∈ (event_run l evs no_visitors).1 →
  (ELock ip t2, OLimiter p2) ∈ (event_run l evs no_visitors).1 →
  t1 - t2 <= M → t2 - t1 <= M → p1 = p2.
Proof.
  intros HM HF Hc H1 H2 Hd1 Hd2. destruct (decide (p1 = p2)) as [|Hne]; [done|].
  pose proof H2 as (tr1 & tr2 & E)%list_elem_of_split.
  rewrite E in H1. apply elem_of_app in H1 as [H1|[H1|H1]%elem_of_cons].
  - pose proof (limiters_apart M evs _ _ _ _ _ _ _ HM HF Hc E H1 Hne). lia.
  - congruence.
  - apply list_elem_of_split in H1 as (tr3 & tr4 & ->).
    rewrite app_comm_cons, app_assoc in E.
    pose proof (limiters_apart M evs _ _ _ _ _ t2 p2 HM HF Hc E) as Ha.
    specialize (Ha ltac:(apply elem_of_app; right; by left) ltac:(done)). lia.
Qed.

End Budget.

(** ** Counting *)

Lemma calls_on_sorted p (tr : list (event * outcome)) :
  clock tr.*1 → StronglySorted Z.le (calls_on p tr).
Proof.
  unfold calls_on. induction tr as [|[e o] tr IH]; [by constructor|]. cbn [fmap list_fmap fst].
  intros [Hs Hl]%StronglySorted_inv. specialize (IH Hs). cbn [omap list_omap fst].
  destruct e as [| p' now |]; simpl; try done. case_decide; [|done]. constructor; [done|].
  apply Forall_forall. intros u Hu%list_elem_of_omap. destruct Hu as ([e' o'] & Hin & He).
  rewrite Forall_forall in Hl. specialize (Hl e').
  destruct e' as [| p'' now' |]; simpl in He; try done. case_decide; [|done]. injection He as ->.
  apply (Hl (list_elem_of_fmap_2 fst _ _ Hin)).
Qed.

Lemma allowed_on_mono (f g : nat → bool) s t tr :
  (∀ p u, (ECall p u, ODecision true) ∈ tr → f p = true → s <= u <= t → g p = true) →
  count_in s t (allowed_on f tr) <= count_in s t (allowed_on g tr).
Proof.
  unfold count_in, allowed_on. induction tr as [|[e o] tr IH]; intros Hfg; [done|].
  assert (∀ p u, (ECall p u, ODecision true) ∈ tr → f p = true → s <= u <= t → g p = true) as Hfg'.
  { intros p u Hin. apply Hfg. by right. }
  specialize (IH Hfg'). cbn [omap list_omap]. destruct e as [|p u|]; try done. destruct o as [|[]|]; try done.
  specialize (Hfg p u ltac:(by left)). destruct (f p).
  - rewrite filter_cons. destruct (decide (s <= u <= t)) as [Hu|Hu].
    + rewrite (Hfg eq_refl Hu), filter_cons_True by done. simpl. lia.
    + destruct (g p); [rewrite filter_cons_False by done|]; done.
  - destruct (g p); [|done]. rewrite filter_cons. case_decide; simpl; lia.
Qed.

Lemma refilled_mono n1 n2 r dt : n1 <= n2 → refilled n2 r dt → refilled n1 r dt.
Proof.
  unfold refilled. destruct r as [s|s| |s m e]; try lia; [by destruct s; [lia|]|].
  destruct s; [lia|]. assert (0 < 2 ^ Z.max 0 (- e)) by (apply Z.pow_pos_nonneg; lia).
  unfold Second. nia.
Qed.

Lemma prompt_returned D tr : prompt D tr → calls_returned tr.
Proof. intros Hp tr1 p u o tr2 E. destruct (Hp _ _ _ _ _ E) as (ip & t & Hin & _). by exists ip, t. Qed.

(** The budget of a client while [cleanupLoop] cannot have replaced its limiter. *)
Lemma client_budget `{!RateLib, !RateLaw} l evs M D ip s W :
  0 < burst l → float_lt (S754_zero false) (rps l) = true →
  min_int64 <= M < max_int64 → Forall (idle_after M) evs → clock evs →
  let tr := (event_run l evs no_visitors).1 in
  prompt D tr → 0 <= W → 0 <= D → W + D <= M →
  refilled (count_in s (s + W) (admitted_of ip tr) - burst l) (rps l) W.
Proof.
  intros Hb Hr HM HF Hc tr Hprompt HW HD HWD.
  assert (∀ p u o, (ECall p u, o) ∈ tr → handed ip p tr = true →
    ∃ t, (ELock ip t, OLimiter p) ∈ tr ∧ t <= u <= t + D) as Hlock.
  { intros p u o (tr1 & tr2 & E)%list_elem_of_split [t' Ht']%handed_spec.
    destruct (Hprompt _ _ _ _ _ E) as (ip' & t & Hin & Hu).
    destruct (event_run_owned l evs [] no_visitors no_visitors_owned) as (owner & _ & Hown).
    assert ((ELock ip' t, OLimiter p) ∈ tr) as Hin' by (rewrite E; apply elem_of_app; by left).
    pose proof (Hown _ _ _ Hin') as H1. pose proof (Hown _ _ _ Ht') as H2.
    assert (ip' = ip) as -> by congruence. exists t. split; [done|]. split; [|done].
    destruct (event_run_split l evs _ _ _ _ _ E) as (evs1 & evs2 & Hev & Htr1 & _).
    rewrite <- Htr1 in Hin. eapply (event_run_earlier l evs1 (ECall p u) _ _ _ _ Hin).
    Unshelve. rewrite Hev in Hc. change (ECall p u :: evs2) with ([ECall p u] ++ evs2) in Hc.
    rewrite app_assoc in Hc. by apply StronglySorted_app in Hc as (_ & ? & _). }
  destruct (filter (λ u, s <= u <= s + W) (admitted_of ip tr)) as [|u us] eqn:Ef.
  - unfold count_in. rewrite Ef. apply (refilled_mono _ 0); [simpl; lia|].
    unfold refilled. destruct (rps l) as [[]|[]| |[] m e]; try done. nia.
  - assert (u ∈ admitted_of ip tr ∧ s <= u <= s + W) as [Hu' Hu].
    { assert (u ∈ u :: us) as Hin by (by left). rewrite <- Ef in Hin. by apply list_elem_of_filter in Hin as [??]. }
    apply list_elem_of_omap in Hu' as ([e o] & Hin & He). destruct e as [|p v|]; try done.
    destruct o as [|[]|]; try done. destruct (handed ip p tr) eqn:Hh; [|done]. injection He as ->.
    destruct (Hlock p u _ Hin Hh) as (t & Ht & Htu).
    apply (refilled_mono _ (count_in s (s + W) (allowed_on (λ q, bool_decide (q = p)) tr) - burst l)).
    + apply Z.sub_le_mono_r, allowed_on_mono. intros q v Hq Hhq Hv. apply bool_decide_eq_true.
      destruct (Hlock q v _ Hq Hhq) as (t' & Ht' & Htv).
      by apply (same_limiter l M evs ip t' q t p); try done; lia.
    + unfold tr. rewrite allowed_on_calls by (by eapply prompt_returned).
      replace W with (s + W - s) at 2 by lia. apply rate_law; [done|done| |lia].
      apply calls_on_sorted. by rewrite event_run_events.
Qed.

(** ** Properties *)

(** C30: The budget of a client.  With the settings of any environment and the idle time of
    [main], however requests and clean-up rounds interleave: in any interval at least one
    request's delay shorter than ten minutes, a client gets no more requests admitted
    than the burst and what the rate refills in that interval; no eviction gives a
    client a second bucket in that time. *)
Theorem client_budget_survives_cleanup `{!GoText, !RateLib, !RateLaw} env evs D ip s W :
  let l := rateLimitFromEnv env in
  let tr := (event_run l evs no_visitors).1 in
  Forall (idle_after (10 * Minute)) evs → clock evs → prompt D tr →
  0 <= W → 0 <= D → W + D <= 10 * Minute →
  refilled (count_in s (s + W) (admitted_of ip tr) - burst l) (rps l) W.
Proof.
  intros l tr HF Hc Hp HW HD HWD. destruct (rateLimitFromEnv_usable env) as [Hr Hb].
  apply (client_budget l evs (10 * Minute) D); try done. apply Hb.
Qed.

(** ** Witnesses *)

(** An exact token bucket: units per token and units refilled per nanosecond. *)
Definition bucket_units (r : float64) : option (Z * Z) :=
  match r with
  | S754_finite false m e => Some (Second * 2 ^ Z.max 0 (- e), Z.pos m * 2 ^ Z.max 0 e)
  | _ => None
  end.

(** One call: whether it is allowed, and the units left and the time of the call. *)
Definition take_token (K R b : Z) (s : Z * time) (now : time) : bool * (Z * time) :=
  let units := Z.min (b * K) (s.1 + R * (now - s.2)) in
  if decide (K <= units) then (true, (units - K, now)) else (false, (units, now)).

Definition bucket_after (K R b : Z) (s : Z * time) (calls : list time) : Z * time :=
  foldl (λ s t, (take_token K R b s t).2) s calls.

Definition bucket_RateLib : RateLib := λ r b calls now,
  match bucket_units r with
  | Some (K, R) => (take_token K R b (bucket_after K R b (b * K, hd now calls) calls) now).1
  | None => match r with S754_infinity false => true | _ => false end
  end.

Section Bucket.
Context (K R b : Z) (HK : 0 < K) (HR : 0 <= R) (Hb : 0 < b).

(** The allowed calls from a state of the bucket. *)
Fixpoint bucket_run (st : Z * time) (calls : list time) : list time :=
  match calls with
  | [] => []
  | u :: calls' =>
      let '(ok, st') := take_token K R b st u in
      (if ok : bool then [u] else []) ++ bucket_run st' calls'
  end.

Lemma count_in_cons s t u l :
  count_in s t (u :: l) = (if decide (s <= u <= t) then 1 else 0) + count_in s t l.
Proof. unfold count_in. rewrite filter_cons. case_decide; cbn [length]; lia. Qed.

Lemma count_in_after s t l : Forall (λ u, t < u) l → count_in s t l = 0.
Proof.
  induction 1 as [|u l Hu _ IH]; [done|]. rewrite count_in_cons, decide_False by lia. lia.
Qed.

Lemma bucket_run_Forall (P : time → Prop) calls : ∀ st, Forall P calls → Forall P (bucket_run st calls).
Proof.
  induction calls as [|u calls IH]; intros st; [done|]. intros [Hu Hc]%Forall_cons. cbn [bucket_run].
  destruct (take_token K R b st u) as [[] st']; [constructor; [done|]|]; by apply IH.
Qed.

Lemma take_token_units units last u :
  0 <= units → last <= u →
  let '(ok, st) := take_token K R b (units, last) u in
  ∃ units', 0 <= units' <= b * K ∧ units' <= units + R * (u - last) ∧ st.2 = u ∧
    0 <= st.1 ∧ st.1 + (if ok then K else 0) = units'.
Proof.
  intros Hu Hl. unfold take_token. cbn [fst snd]. set (units' := Z.min _ _).
  assert (0 <= units' <= b * K ∧ units' <= units + R * (u - last)) as [H1 H2] by (subst units'; nia).
  case_decide; exists units'; simpl; split_and!; lia.
Qed.

(** Within the interval: what is left in the bucket and the refill. *)
Lemma bucket_run_within s t : ∀ calls units last,
  StronglySorted Z.le calls → Forall (λ u, last <= u) calls → 0 <= units →
  K * count_in s t (bucket_run (units, last) calls) <= units + R * Z.max 0 (t - last).
Proof.
  induction calls as [|u calls IH]; intros units last Hs Hl Hu; [unfold count_in; simpl; nia|].
  apply StronglySorted_inv in Hs as [Hs Hu']. pose proof Hl as [Hl1 _]%Forall_cons.
  destruct (decide (t < u)) as [Ht|Ht].
  { rewrite count_in_after; [nia|]. apply bucket_run_Forall. constructor; [done|].
    eapply Forall_impl; [exact Hu'|]. simpl. lia. }
  pose proof (take_token_units units last u Hu Hl1) as Hstep. cbn [bucket_run].
  destruct (take_token K R b (units, last) u) as [ok [units1 u']]. cbn [fst snd] in Hstep.
  destruct Hstep as (units' & _ & Hle & -> & H1 & H2). pose proof (IH units1 u Hs Hu' H1) as Hi.
  destruct ok; cbn [app]; [rewrite count_in_cons; case_decide|]; nia.
Qed.

Lemma bucket_run_budget s t : s <= t → ∀ calls units last,
  StronglySorted Z.le calls → Forall (λ u, last <= u) calls → 0 <= units →
  K * count_in s t (bucket_run (units, last) calls) <= b * K + R * (t - s).
Proof.
  intros Hst. induction calls as [|u calls IH]; intros units last Hs Hl Hu; [unfold count_in; simpl; nia|].
  pose proof Hs as [Hs' Hu']%StronglySorted_inv. pose proof Hl as [Hl1 _]%Forall_cons.
  pose proof (take_token_units units last u Hu Hl1) as Hstep. cbn [bucket_run].
  destruct (take_token K R b (units, last) u) as [ok [units1 u']]. cbn [fst snd] in Hstep.
  destruct Hstep as (units' & Hcap & _ & -> & H1 & H2).
  destruct (decide (u < s)) as [Hus|Hus].
  - assert (count_in s t ((if ok then [u] else []) ++ bucket_run (units1, u) calls) =
      count_in s t (bucket_run (units1, u) calls)) as ->; [|by apply IH].
    destruct ok; [|done]. cbn [app]. rewrite count_in_cons, decide_False by lia. lia.
  - pose proof (bucket_run_within s t calls units1 u Hs' Hu' H1) as Hw.
    destruct (decide (t < u)) as [Htu|Htu].
    + rewrite count_in_after; [nia|]. apply Forall_app. split; [destruct ok; by repeat constructor|].
      apply bucket_run_Forall. eapply Forall_impl; [exact Hu'|]. simpl. lia.
    + destruct ok; cbn [app]; [rewrite count_in_cons; case_decide|]; nia.
Qed.

End Bucket.

Lemma bucket_admitted r b K R z : bucket_units r = Some (K, R) → ∀ calls past,
  (∀ x, head (past ++ calls) = Some x → x = z) →
  @admitted bucket_RateLib r b past calls = bucket_run K R b (bucket_after K R b (b * K, z) past) calls.
Proof.
  intros Hr. induction calls as [|u calls IH]; intros past Hz; [done|]. cbn [admitted bucket_run].
  assert (hd u past = z) as E by (destruct past; by apply Hz).
  rewrite IH by (intros x; rewrite <- app_assoc; apply Hz). unfold bucket_after. rewrite foldl_app. cbn [foldl].
  unfold rate_Allow, bucket_RateLib. rewrite Hr, E. unfold bucket_after.
  by destruct (take_token K R b _ u).
Qed.

#[export] Instance bucket_RateLaw : @RateLaw bucket_RateLib.
Proof.
  intros r b calls s t Hb Hr Hs Hst. destruct r as [s'|s'| |s' m e]; try done; [by destruct s'|].
  destruct s'; [done|]. unfold refilled.
  rewrite (bucket_admitted (S754_finite false m e) b _ _ (hd 0 calls) eq_refl)
    by (by destruct calls; simpl; congruence).
  set (K := Second * 2 ^ Z.max 0 (- e)). set (R := Z.pos m * 2 ^ Z.max 0 e).
  assert (0 < K) as HK by (apply Z.mul_pos_pos; [done|apply Z.pow_pos_nonneg; lia]).
  assert (0 <= R) as HR by (apply Z.mul_nonneg_nonneg; [done|apply Z.pow_nonneg; lia]).
  pose proof (bucket_run_budget K R b HK HR Hb s t Hst calls (b * K) (hd 0 calls) Hs) as Hbound.
  assert (Forall (λ u, hd 0 calls <= u) calls) as Hhd.
  { destruct calls as [|u calls]; [done|]. apply StronglySorted_inv in Hs as [_ Hs]. by constructor. }
  specialize (Hbound Hhd ltac:(nia)). simpl bucket_after. nia.
Qed.

(** Prompt requests, as a function of the trace. *)
Fixpoint promptb (D : Z) (seen tr : list (event * outcome)) : bool :=
  match tr with
  | [] => true
  | eo :: tr' =>
      match eo.1 with
      | ECall p u => existsb (λ eo', match eo' with
          | (ELock _ t, OLimiter p') => bool_decide (p' = p ∧ u <= t + D)
          | _ => false end) seen
      | _ => true
      end && promptb D (seen ++ [eo]) tr'
  end.

Lemma promptb_sound D tr : promptb D [] tr = true → prompt D tr.
Proof.
  assert (∀ tr seen, promptb D seen tr = true → ∀ tr1 p u o tr2, tr = tr1 ++ (ECall p u, o) :: tr2 →
    ∃ ip t, (ELock ip t, OLimiter p) ∈ seen ++ tr1 ∧ u <= t + D) as H.
  { clear tr. induction tr as [|eo tr IH]; intros seen Hp tr1 p u o tr2 E; [by destruct tr1|].
    cbn [promptb] in Hp. apply andb_true_iff in Hp as [Hc Hp]. destruct tr1 as [|eo1 tr1]; simplify_eq/=.
    - apply existsb_exists in Hc as ([e o'] & Hin & He). destruct e as [ip t| |]; try done.
      destruct o' as [p'| |]; try done. apply bool_decide_eq_true in He as [-> Ht].
      exists ip, t. rewrite app_nil_r. split; [by apply list_elem_of_In|done].
    - destruct (IH _ Hp _ _ _ _ _ eq_refl) as (ip & t & Hin & Ht). exists ip, t.
      by rewrite <- app_assoc in Hin. }
  intros Hp tr1 p u o tr2 E. apply (H tr [] Hp tr1 p u o tr2 E).
Qed.

(** One token a second and a burst of one; the second request comes too early. *)
Definition tight_env : gmap string string := {["RATE_LIMIT_RPS" := "1"; "RATE_LIMIT_BURST" := "1"]}.

Definition tight_events : list event :=
  [ELock "10.0.0.1" 0; ECall 0 0; ECleanup (5 * Minute) (10 * Minute);
   ELock "10.0.0.1" (5 * Minute); ECall 0 (5 * Minute);
   ELock "10.0.0.1" (5 * Minute + 1); ECall 0 (5 * Minute + 2)].

Lemma client_budget_survives_cleanup_witness :
  let l := @rateLimitFromEnv wit_GoText tight_env in
  let tr := (@event_run bucket_RateLib l tight_events no_visitors).1 in
  count_in (5 * Minute) (5 * Minute + 2) (admitted_of "10.0.0.1" tr) = 1 ∧
  refilled (count_in (5 * Minute) (5 * Minute + 2) (admitted_of "10.0.0.1" tr) - burst l) (rps l) 2.
Proof.
  intros l tr. split; [vm_compute; reflexivity|].
  apply (@client_budget_survives_cleanup wit_GoText bucket_RateLib bucket_RateLaw tight_env tight_events 1
    "10.0.0.1" (5 * Minute) 2).
  - repeat constructor.
  - repeat (constructor; [|repeat (constructor; [vm_compute; (discriminate || exact I)|]); constructor]). constructor.
  - apply promptb_sound. vm_compute. reflexivity.
  - lia.
  - lia.
  - vm_compute. discriminate.
Defined.
