(* ===== verification/Server.v ===== *)
(** * The API server: [routes] and the handler chain of [api/main.go]

    The route table (dispatched by [Mux]), the middleware around it, and the properties of the whole service, alone and next to the ingestion
    workers. *)

From S2P Require Import Prelude GoStd Alerts Pg World Contract Shared Store Process Pool Fixtures.
From S2P Require Import Models Http Mux ApiAlerts ApiRules ApiDevices RateLimit.
From stdpp Require Import pretty.
Open Scope Z_scope.
Open Scope string_scope.
Open Scope list_scope.
Open Scope go_scope.

(** [promhttp.HandlerFor] with the default options, third-party: it answers every request
    once, with the text of the counters, compressed (and then with a Content-Encoding) if
    the request accepts that; the text is the body with the encoding undone. *)
Class PromLib := {
  promhttp_serve : World → Request → ResponseWriter → ResponseWriter;
  promhttp_reply : ∀ s r w, w_sent w = None → reply_ok w (promhttp_serve s r w);
  promhttp_text : ∀ s r w, ∃ text, w_body (promhttp_serve s r w) = w_body w ++ [PText text];
}.

(** ** The routes *)

Section Server.
Context `{!GoText, !RateLib, !PromLib, !PgLib, !Env}.

Definition healthz : Handler := λ w r, writeJSON w StatusOK (Some PHealth).

Definition metrics_handler : Handler := λ w r,
  counters <- act (λ s, (s, s)) ;; Ret (promhttp_serve counters r w).

(** The patterns registered with [register], and their handlers. *)
Definition registered : list (string * Handler) :=
  [("GET /healthz", healthz);
   ("GET /sites", listSites);
   ("GET /devices", listDevices);
   ("GET /devices/{id}", getDevice);
   ("GET /devices/{id}/telemetry", getDeviceTelemetry);
   ("GET /alerts", listAlerts);
   ("POST /alerts/{id}/acknowledge", acknowledgeAlert);
   ("POST /alerts/{id}/resolve", resolveAlert);
   ("GET /alert-rules", listAlertRules);
   ("POST /alert-rules", createAlertRule);
   ("PATCH /alert-rules/{id}", updateAlertRule);
   ("DELETE /alert-rules/{id}", deleteAlertRule)].

Definition register (ph : string * Handler) : string * Handler := (ph.1, instrument ph.1 ph.2).

(** The table [routes] builds; [registry] tells whether one was given. *)
Definition route_table (registry : bool) : list (string * Handler) :=
  (if registry then [("GET /metrics", metrics_handler)] else []) ++ (register <$> registered).

Definition routes (registry : bool) : Handler := ServeMux (route_table registry).

(** The handler of the server [main] starts, from the process environment. *)
Definition api_handler (env : gmap string string) : Handler :=
  withCORS env (withCorrelationID (withRateLimit (rateLimitFromEnv env) None (routes true))).

(** One request, as a thread of the pool. *)
Definition serve (env : gmap string string) (r : Request) : prog World unit :=
  _ <- api_handler env new_response r ;; Ret tt.

(** ** Guarantees of every route *)

Lemma healthz_ok : handler_ok healthz.
Proof. intros w r. apply each_step_writeJSON. Qed.

Lemma registered_ok : Forall (λ ph, handler_ok ph.2) registered.
Proof.
  unfold registered. repeat (apply Forall_cons; split; [cbn [snd]|]); [..|done].
  all: auto using healthz_ok, listSites_ok, listDevices_ok, getDevice_ok, getDeviceTelemetry_ok,
    listAlerts_ok, acknowledgeAlert_ok, resolveAlert_ok, listAlertRules_ok, createAlertRule_ok,
    updateAlertRule_ok, deleteAlertRule_ok.
Qed.

Lemma route_table_ok registry : Forall (λ ph, handler_ok ph.2) (route_table registry).
Proof.
  apply Forall_app. split.
  - destruct registry; [|done]. apply Forall_singleton. intros w r.
    apply each_step_bind; [|done]. apply each_step_act. intros s.
    apply world_step_quiet; simpl; done || lia.
  - apply Forall_fmap. eapply Forall_impl; [apply registered_ok|]. intros [p h] Hh. by apply instrument_ok.
Qed.

Lemma ServeMux_ok table : Forall (λ ph, handler_ok ph.2) table → handler_ok (ServeMux table).
Proof.
  rewrite Forall_forall. intros HF w r. apply ServeMux_cases; [done|done|].
  intros p h vals Hin _. apply (HF _ Hin).
Qed.

Lemma api_handler_ok env : handler_ok (api_handler env).
Proof.
  apply withCORS_ok, withCorrelationID_ok, withRateLimit_ok, ServeMux_ok, route_table_ok.
Qed.

Lemma serve_ok env r : each_step world_step (serve env r).
Proof. unfold serve. apply each_step_bind; [apply api_handler_ok|]. done. Qed.

End Server.

(** ** Every route answers exactly once *)

Ltac solve_reply :=
  repeat (intros; first
    [ apply all_results_writeJSON; assumption
    | apply all_results_bind
    | match goal with |- all_results _ (match ?x with _ => _ end) => destruct x end ]).

(** The steps of a handler with one write statement. *)
Ltac solve_writer :=
  repeat match goal with
  | |- each_step _ (match ?x with _ => _ end) => destruct x
  | |- each_step _ (let _ := _ in _) => cbv zeta
  end;
  first
  [ apply each_step_bind; [|solve_each_step]; apply request_pg_exec; intros;
    first [apply transition_devices|apply insert_rule_devices|apply update_rule_devices|apply delete_rule_devices]
  | solve_each_step ].

Section Replies.
Context `{!GoText, !RateLib, !PromLib, !PgLib, !Env}.

Lemma healthz_replies : handler_replies healthz.
Proof. split; intros; unfold healthz; [solve_reply|solve_each_step]. Qed.

Lemma listSites_replies : handler_replies listSites.
Proof. split; intros; unfold listSites; [solve_reply|solve_each_step]. Qed.

Lemma listDevices_replies : handler_replies listDevices.
Proof. split; intros; unfold listDevices; [solve_reply|solve_each_step]. Qed.

Lemma getDevice_replies : handler_replies getDevice.
Proof. split; intros; unfold getDevice; [solve_reply|solve_each_step]. Qed.

Lemma request_cursor_Close r : each_step (request_step (app_log r)) (cursor_Close r).
Proof. unfold cursor_Close. apply each_step_bind; [apply request_tick|]. solve_each_step. Qed.

(** [writeJSON] and then the deferred close. *)
Lemma reply_then_close (w : ResponseWriter) status v r :
  w_sent w = None →
  all_results (reply_ok w) (w' <- writeJSON w status v ;; cursor_Close r ;; Ret w').
Proof.
  intros Hs. eapply all_results_bind_post; [by apply all_results_writeJSON|]. intros rw Hrw.
  by apply all_results_bind.
Qed.

Lemma getDeviceTelemetry_replies : handler_replies getDeviceTelemetry.
Proof.
  pose proof request_cursor_Close. split; intros w r; unfold getDeviceTelemetry.
  - intros Hs. apply all_results_bind. intros [[docs []]|]; rewrite ?reverse_in_place_eq;
      try by apply reply_then_close.
    + apply all_results_bind. intros _. by apply reply_then_close.
    + solve_reply.
  - solve_each_step.
Qed.

Lemma listAlerts_replies : handler_replies listAlerts.
Proof. split; intros; unfold listAlerts; [solve_reply|solve_each_step]. Qed.

Lemma acknowledgeAlert_replies : handler_replies acknowledgeAlert.
Proof. split; intros; unfold acknowledgeAlert, transitionAlert; [solve_reply|solve_writer]. Qed.

Lemma resolveAlert_replies : handler_replies resolveAlert.
Proof. split; intros; unfold resolveAlert, transitionAlert; [solve_reply|solve_writer]. Qed.

Lemma listAlertRules_replies : handler_replies listAlertRules.
Proof. split; intros; unfold listAlertRules; [solve_reply|solve_each_step]. Qed.

Lemma createAlertRule_replies : handler_replies createAlertRule.
Proof. split; intros; unfold createAlertRule; [solve_reply|solve_writer]. Qed.

Lemma updateAlertRule_replies : handler_replies updateAlertRule.
Proof. split; intros; unfold updateAlertRule; [solve_reply|solve_writer]. Qed.

Lemma deleteAlertRule_replies : handler_replies deleteAlertRule.
Proof. split; intros; unfold deleteAlertRule; [solve_reply|solve_writer]. Qed.

Lemma registered_replies : Forall (λ ph, handler_replies ph.2) registered.
Proof.
  unfold registered. repeat (apply Forall_cons; split; [cbn [snd]|]); [..|done].
  all: auto using healthz_replies, listSites_replies, listDevices_replies, getDevice_replies,
    getDeviceTelemetry_replies, listAlerts_replies, acknowledgeAlert_replies, resolveAlert_replies,
    listAlertRules_replies, createAlertRule_replies, updateAlertRule_replies, deleteAlertRule_replies.
Qed.

End Replies.

(** ** The whole chain *)

(** What a request does to the world outside its own statements: it logs with its
    own id, and leaves telemetry, streaks, devices and last-seen marks alone. *)
Record chain_step (l : option string) (w w' : World) : Prop := {
  cs_telemetry : w_telemetry w' = w_telemetry w;
  cs_streaks : w_streaks w' = w_streaks w;
  cs_lastSeen : w_lastSeenSent w' = w_lastSeenSent w;
  cs_devices : devices (w_pg w') = devices (w_pg w);
  cs_log : ∃ new, w_log w' = w_log w ++ new ∧ Forall (own_line l) new;
}.

#[global] Instance chain_step_preorder l : PreOrder (chain_step l).
Proof.
  split.
  - intros w. split; try done. exists []. by rewrite app_nil_r.
  - intros w1 w2 w3 [? ? ? ? (n1 & E1 & ?)] [? ? ? ? (n2 & E2 & ?)]. split; try congruence.
    exists (n1 ++ n2). rewrite E2, E1, app_assoc. split; [done|]. by apply Forall_app.
Qed.

Lemma request_chain l w w' : request_step l w w' → chain_step l w w'.
Proof. by intros [? ? ? ? _ _ ?]. Qed.

Lemma chain_same l w w' :
  w_telemetry w' = w_telemetry w → w_streaks w' = w_streaks w →
  w_lastSeenSent w' = w_lastSeenSent w → w_pg w' = w_pg w → w_log w' = w_log w → chain_step l w w'.
Proof. intros ? ? ? Ep E. split; [done..|by rewrite Ep|]. exists []. by rewrite E, app_nil_r. Qed.

Section Chain.
Context `{!GoText, !RateLib, !PromLib, !PgLib, !Env}.

Lemma each_chain_run l {A} (p : prog World A) w :
  each_step (chain_step l) p → chain_step l w (run p w).2.
Proof.
  intros Hp. pose proof (each_step_run _ p w Hp) as Hs.
  induction Hs as [|w1 w2 w3 H12 _ IH]; [done|]. by etransitivity.
Qed.

Lemma reply_ok_instrumented w rw :
  reply_ok (mkResponseWriter (w_header w) (w_sent w) (w_body w) (Some StatusOK)) rw →
  w_status w = None →
  reply_ok w (mkResponseWriter (w_header rw) (w_sent rw) (w_body rw) (w_status w)).
Proof.
  intros (Hh & Hb & status & hs & Es & Est & Hhs) Hn. split; [done|]. split; [done|].
  exists status, hs. split_and!; [done|simpl; by rewrite Hn|done].
Qed.

(** The routes are below no other [statusWriter]. *)
Definition plain_reply (h : Handler) : Prop :=
  ∀ w r, w_sent w = None → w_status w = None → all_results (reply_ok w) (h w r).

Lemma instrument_reply pattern h : handler_replies h → plain_reply (instrument pattern h).
Proof.
  intros [Hh _] w r Hs Hn. unfold instrument. destruct (Cut pattern _) as [[method path] ?].
  apply all_results_bind. intros start.
  eapply all_results_bind_post; [by apply Hh|]. intros sw Hsw.
  apply all_results_bind. intros _. apply all_results_bind. intros _. by apply reply_ok_instrumented.
Qed.

Lemma instrument_steps pattern h w r :
  handler_replies h → each_step (chain_step (app_log r)) (instrument pattern h w r).
Proof.
  intros [_ Hh]. unfold instrument. destruct (Cut pattern _) as [[method path] ?].
  apply each_step_bind; [apply each_step_act; intros s; by apply chain_same|]. intros start.
  apply each_step_bind; [eapply each_step_weaken; [apply request_chain|apply Hh]|]. intros sw.
  apply each_step_bind; [apply each_step_act; intros s; by apply chain_same|]. intros _.
  apply each_step_bind; [apply each_step_act; intros s; by apply chain_same|]. done.
Qed.

Lemma table_chain registry :
  Forall (λ ph, plain_reply ph.2 ∧ ∀ w r, each_step (chain_step (app_log r)) (ph.2 w r)) (route_table registry).
Proof.
  apply Forall_app. split.
  - destruct registry; [|done]. apply Forall_singleton. split.
    + intros w r Hs _. apply all_results_bind. intros counters. by apply promhttp_reply.
    + intros w r. apply each_step_bind; [|done]. apply each_step_act. intros s. by apply chain_same.
  - apply Forall_fmap. eapply Forall_impl; [apply registered_replies|]. intros [p h] Hh.
    split; [by apply instrument_reply|]. intros w r. by apply instrument_steps.
Qed.

Lemma reply_ok_sent w rw status hs :
  w_sent rw = Some (status, hs) → w_status w = None → w_status rw = None →
  (∀ k, k ∉ own_headers → w_header rw !! k = w_header w !! k) →
  (∀ k, k ∉ own_headers → hs !! k = w_header w !! k) →
  (∃ body, w_body rw = w_body w ++ option_list body) → reply_ok w rw.
Proof. intros ? Hn Hn' ? ? ?. split; [done|]. split; [done|]. exists status, hs. rewrite Hn, Hn'. by split_and!. Qed.

(** One value, or none. *)
Lemma one_body (l : list payload) v : ∃ body, l ++ [v] = l ++ option_list body.
Proof. by exists (Some v). Qed.

Lemma no_body (l : list payload) : ∃ body : option payload, l = l ++ option_list body.
Proof. exists None. by rewrite app_nil_r. Qed.

Ltac header_lemma :=
  first [ intros k Hk; simpl; rewrite ?header_set_other by (first [done | set_solver]); done
        | apply one_body | apply no_body ].

Lemma http_Error_reply w m status :
  w_sent w = None → w_status w = None → reply_ok w (http_Error w m status).
Proof.
  intros Hs Hn. eapply reply_ok_sent; [simpl; by rewrite Hs|done|simpl; by rewrite Hn|header_lemma..].
Qed.

Lemma Redirect_reply w r url :
  w_sent w = None → w_status w = None → reply_ok w (Redirect w r url).
Proof.
  intros Hs Hn. unfold Redirect. repeat case_decide; try naive_solver.
  all: eapply reply_ok_sent; [simpl; by rewrite Hs|done|simpl; by rewrite Hn|header_lemma..].
Qed.

Lemma ServeMux_reply registry : plain_reply (routes registry).
Proof.
  intros w r Hs Hn. apply (ServeMux_cases _ (all_results (reply_ok w))).
  - intros url. by apply Redirect_reply.
  - intros k v m s Hk _. split_and!.
    all: eapply reply_ok_sent; [simpl; by rewrite Hs|done|simpl; by rewrite Hn|..].
    all: first [ apply one_body | apply no_body
      | intros k' Hk'; simpl; rewrite ?header_set_other by (first [done | set_solver]); done ].
  - intros p h vals Hin _.
    pose proof (table_chain registry) as HF. rewrite Forall_forall in HF. by apply (HF _ Hin).
Qed.

Lemma ServeMux_steps registry w r : each_step (chain_step (app_log r)) (routes registry w r).
Proof.
  unfold routes. apply (ServeMux_cases _ (each_step (chain_step (app_log r)))); [done|done|]. intros p h vals Hin _.
  pose proof (table_chain registry) as HF. rewrite Forall_forall in HF.
  exact (proj2 (HF _ Hin) w (with_PathValue vals r)).
Qed.

Lemma withRateLimit_reply l h :
  plain_reply h → plain_reply (withRateLimit l None h).
Proof.
  intros Hh w r Hs Hn. unfold withRateLimit. apply all_results_bind. intros []; cbn [negb]; [by apply Hh|].
  apply all_results_bind. intros _.
  eapply reply_ok_sent; [simpl; by rewrite Hs|done|simpl; by rewrite Hn|header_lemma..].
Qed.

Lemma withRateLimit_steps l h :
  (∀ w r, each_step (chain_step (app_log r)) (h w r)) →
  ∀ w r, each_step (chain_step (app_log r)) (withRateLimit l None h w r).
Proof.
  intros Hh w r. unfold withRateLimit. apply each_step_bind.
  - unfold allow. apply each_step_bind; apply each_step_act || intros p; [|apply each_step_act].
    + intros s. destruct (lock_section _ _ _). by apply chain_same.
    + intros s. destruct (call_limiter _ _ _ _). by apply chain_same.
  - intros []; cbn [negb]; [apply Hh|]. apply each_step_bind; [|done].
    apply each_step_act. intros s. split; try done. eexists. split; [done|].
    apply Forall_singleton. by left.
Qed.

End Chain.

(** ** Properties *)

(** A schedule whose requests are requests to the API server. *)
Definition api_choice `{!GoText, !RateLib, !PromLib, !PgLib, !Env} (env : gmap string string) (ch : choice)
    : Prop :=
  match ch with
  | Pool.Request p => (∃ r, p = serve env r) ∨ ∃ ticks, p = cleanupLoop ticks (10 * Minute)
  | _ => True
  end.

(** C1: Safety of the whole system under every interleaving.  Whatever MQTT delivers,
    whatever HTTP requests arrive, however the actions of the workers, of the
    requests in flight and of the limiter's clean-up interleave, and whichever statements fail before or after
    taking effect: all schema constraints and the status/timestamp consistency of
    alerts hold, no alert disappears, each has only moved forward along open,
    acknowledged, resolved (rule, device, value, severity and trigger time
    unchanged, a resolved row frozen), and no telemetry or log line is lost. *)
Theorem system_safety `{!GoText, !RateLib, !PromLib, !PgLib, !Env} env queueSize debounceN workerCount
    w chs c' :
  Pg_ok (w_pg w) → Forall (api_choice env) chs →
  pool_run queueSize debounceN chs (pool_start w workerCount) = Some c' →
  safe_since w (p_world c').
Proof.
  intros Hok HF. apply pool_safe; [done|]. eapply Forall_impl; [exact HF|].
  intros [] Hch; try done. destruct Hch as [[r ->]|[ticks ->]]; [apply serve_ok|apply each_step_cleanupLoop].
Qed.

(** A CORS preflight is answered 204 by the outermost handler: it consumes no rate
    budget, reaches no route and touches no state at all. *)
Theorem preflight_is_free `{!GoText, !RateLib, !PromLib, !PgLib, !Env} env r w :
  r_Method r = "OPTIONS" →
  let '(rw, w') := run (api_handler env new_response r) w in
  w' = w ∧ status_of rw = StatusNoContent ∧ w_body rw = [].
Proof.
  intros Hm. unfold api_handler, withCORS. rewrite decide_True by done.
  by destruct (map_get false (allowed_origins env) _).
Qed.

(** C31: Every request but a preflight (served, throttled, unknown path or method, failing
    database) is answered exactly once, with at most one value as its body and with an
    X-Request-ID, the caller's own if it sent one.  That id is also the correlation id of every
    line the request logs, with one exception: the line "encode response" that [writeJSON]
    writes with the default logger carries no id, although docs/observability-design.md wants
    it on every line.  The answer names the allowed methods and headers whatever the Origin,
    and has Access-Control-Allow-Origin exactly when the Origin is on the allow-list, and
    then equal to it.  The request never touches telemetry, streaks, devices or last-seen
    marks. *)
Theorem every_response_tagged `{!GoText, !RateLib, !PromLib, !PgLib, !Env} env r w :
  r_Method r ≠ "OPTIONS" →
  let '(rw, w') := run (api_handler env new_response r) w in
  let origin := Header_Get r "Origin" in
  ∃ id status headers,
    (Header_Get r "X-Request-Id" ≠ "" → id = Header_Get r "X-Request-Id") ∧
    w_sent rw = Some (status, headers) ∧
    headers !! "X-Request-Id" = Some id ∧
    headers !! "Access-Control-Allow-Methods" = Some "GET, POST, PATCH, DELETE, OPTIONS" ∧
    headers !! "Access-Control-Allow-Headers" = Some "Content-Type" ∧
    headers !! "Access-Control-Allow-Origin" =
      (if map_get false (allowed_origins env) origin then Some origin else None) ∧
    (w_body rw = [] ∨ ∃ v, w_body rw = [v]) ∧
    chain_step (Some id) w w'.
Proof.
  intros Hm. unfold api_handler, withCORS. rewrite decide_False by done.
  set (w0 := Header_Set "Access-Control-Allow-Headers" "Content-Type" _).
  assert (w_sent w0 = None ∧ w_status w0 = None ∧ w_body w0 = [] ∧
    w_header w0 !! "Access-Control-Allow-Methods" = Some "GET, POST, PATCH, DELETE, OPTIONS" ∧
    w_header w0 !! "Access-Control-Allow-Headers" = Some "Content-Type" ∧
    w_header w0 !! "Access-Control-Allow-Origin" =
      (if map_get false (allowed_origins env) (Header_Get r "Origin")
       then Some (Header_Get r "Origin") else None)) as (Hs & Hn & Hb0 & Hmeth & Hhead & Ho)
    by (subst w0; destruct (map_get false _ _); split_and!; reflexivity).
  clearbody w0. unfold withCorrelationID. rewrite run_bind.
  set (p := if decide _ then NewCorrelationID else Ret _).
  assert ((Header_Get r "X-Request-Id" ≠ "" → (run p w).1 = Header_Get r "X-Request-Id") ∧
    ∀ l, chain_step l w (run p w).2) as [Hid Hp].
  { subst p. case_decide; (split; [done|]); intros l; [by apply chain_same|done]. }
  destruct (run p w) as [id w1]. cbn [fst snd] in *. clear p.
  set (w2 := Header_Set "X-Request-Id" id w0).
  pose proof (withRateLimit_reply (rateLimitFromEnv env) _ (ServeMux_reply true) w2
    (with_logger (Some id) r) Hs Hn) as Hreply.
  pose proof (withRateLimit_steps (rateLimitFromEnv env) _ (ServeMux_steps true) w2
    (with_logger (Some id) r)) as Hsteps.
  apply (all_results_run _ _ w1) in Hreply. apply (each_chain_run _ _ w1) in Hsteps.
  destruct (run _ w1) as [rw w']. cbn [fst snd] in *.
  destruct Hreply as (_ & [body Hb] & status & hs & Es & _ & Hhs).
  change (w_body w2) with (w_body w0) in Hb. rewrite Hb0 in Hb.
  exists id, status, hs. split_and!; [done|done| | | | | |].
  - rewrite Hhs by set_solver. simpl. by rewrite lookup_insert_eq.
  - rewrite Hhs by set_solver. simpl. by rewrite lookup_insert_ne.
  - rewrite Hhs by set_solver. simpl. by rewrite lookup_insert_ne.
  - rewrite Hhs by set_solver. simpl. by rewrite lookup_insert_ne.
  - destruct body as [v|]; [right; by exists v|by left].
  - etransitivity; [apply Hp|exact Hsteps].
Qed.

(** C32: Request metrics.  For every registered route, one request adds exactly one to
    exactly one counter, labelled with the route's method and pattern (never the
    raw path) and with the status code the client received. *)
Theorem metrics_count_responses `{!GoText, !RateLib, !PromLib, !PgLib, !Env} pattern h w r s :
  (pattern, h) ∈ registered → w_sent w = None →
  let '(rw, s') := run (instrument pattern h w r) s in
  let key := (pattern_method pattern, pattern_path pattern, pretty (status_of rw)) in
  w_httpRequests s' = <[key := default 0 (w_httpRequests s !! key) + 1]> (w_httpRequests s).
Proof.
  intros Hin Hs. pose proof registered_replies as HF. rewrite Forall_forall in HF.
  destruct (HF _ Hin) as [Hr Hst]. clear HF. cbn [snd] in *.
  unfold instrument, pattern_method, pattern_path.
  assert ((Cut pattern " "%char).2 = true) as Hcut.
  { revert Hin. clear. unfold registered. rewrite !elem_of_cons. intros Hin; destruct_or! Hin; try (by inversion Hin); simplify_eq; done. }
  destruct (Cut pattern " "%char) as [[method path] found]. cbn [fst snd] in *. subst found.
  rewrite run_bind. unfold time_Now. rewrite run_act. cbn [fst snd]. rewrite run_bind.
  set (w0 := mkResponseWriter _ _ _ _).
  pose proof (all_results_run _ _ (tick s) (Hr w0 r Hs)) as Hreply.
  pose proof (each_request_run _ _ (tick s) (Hst w0 r)) as Hsteps.
  destruct (run (h w0 r) (tick s)) as [sw s1]. cbn [fst snd] in *.
  rewrite run_bind, run_act. cbn [fst snd]. rewrite run_bind, run_act. cbn [fst snd run].
  rewrite (reply_ok_status _ _ Hreply). simpl. unfold status_of. simpl.
  by rewrite (rq_counters _ _ _ Hsteps).
Qed.

(** Two patterns that some request could match both. *)
Fixpoint segments_overlap (p q : list string) : bool :=
  match p, q with
  | [], [] => true
  | a :: p', b :: q' =>
      bool_decide (a = "" ∧ p' = []) || bool_decide (b = "" ∧ q' = []) ||
      (bool_decide (a = b) || bool_decide (a = "{id}") || bool_decide (b = "{id}")) && segments_overlap p' q'
  | _, _ => false
  end.

Definition methods_overlap (m n : string) : bool :=
  bool_decide (m = n ∨ (m = "GET" ∧ n = "HEAD") ∨ (m = "HEAD" ∧ n = "GET") ∨ m = "" ∨ n = "").

Definition patterns_overlap (p q : string) : bool :=
  methods_overlap (pattern_method p) (pattern_method q) &&
  segments_overlap (Split (pattern_path p) slash) (Split (pattern_path q) slash).

Lemma segments_overlap_complete p q path v1 v2 :
  is_Some (match_segments p path v1) → is_Some (match_segments q path v2) → segments_overlap p q = true.
Proof.
  revert q path v1 v2. induction p as [|a p IH]; intros [|b q] [|x path] v1 v2; simpl;
    try done; try by intros [].
  destruct (decide (a = "" ∧ p = [])) as [Ea|Ea]; [by rewrite bool_decide_true|].
  destruct (decide (b = "" ∧ q = [])) as [Eb|Eb]; [by rewrite (bool_decide_true (b = "" ∧ q = [])), orb_true_r|].
  intros H1 H2. assert ((a = x ∨ a = "{id}") ∧ ∃ v, is_Some (match_segments p path v)) as [Ha [v Hp]]
    by (repeat case_decide; by eauto || destruct H1).
  assert ((b = x ∨ b = "{id}") ∧ ∃ v, is_Some (match_segments q path v)) as [Hb [v' Hq]]
    by (repeat case_decide; by eauto || destruct H2).
  rewrite (IH _ _ _ _ Hp Hq), andb_true_r. rewrite !orb_true_iff, !bool_decide_eq_true.
  right. intuition congruence.
Qed.

Lemma patterns_overlap_complete p q method path :
  is_Some (match_route p method path) → is_Some (match_route q method path) → patterns_overlap p q = true.
Proof.
  unfold match_route, patterns_overlap, method_serves.
  intros H1 H2. case_match eqn:E1; [|by destruct H1]. case_match eqn:E2; [|by destruct H2].
  apply andb_true_iff. split; [|by eapply segments_overlap_complete].
  unfold methods_overlap. rewrite bool_decide_eq_true.
  rewrite !orb_true_iff, andb_true_iff, !bool_decide_eq_true in E1, E2. intuition congruence.
Qed.

(** No two different entries of a list of patterns overlap. *)
Definition no_overlap (l : list string) : bool :=
  forallb (λ i, forallb (λ j, bool_decide (i = j) ||
    negb (patterns_overlap (nth i l "") (nth j l ""))) (seq 0 (length l))) (seq 0 (length l)).

Lemma no_overlap_sound l i j p q :
  no_overlap l = true → l !! i = Some p → l !! j = Some q → patterns_overlap p q = true → i = j.
Proof.
  unfold no_overlap. rewrite forallb_forall. intros Hno Hi Hj Hov.
  specialize (Hno i). rewrite in_seq in Hno. pose proof (lookup_lt_Some _ _ _ Hi).
  pose proof (lookup_lt_Some _ _ _ Hj). specialize (Hno ltac:(lia)).
  rewrite forallb_forall in Hno. specialize (Hno j). rewrite in_seq in Hno. specialize (Hno ltac:(lia)).
  rewrite (nth_lookup_Some _ _ _ _ Hi), (nth_lookup_Some _ _ _ _ Hj), Hov, orb_false_r in Hno.
  by apply bool_decide_eq_true in Hno.
Qed.

(** The route table is unambiguous: no request matches two patterns, so dispatch
    does not depend on the order of registration. *)
Theorem routes_unambiguous `{!GoText, !RateLib, !PromLib, !PgLib, !Env} method path i j p q :
  (route_table true).*1 !! i = Some p → (route_table true).*1 !! j = Some q →
  is_Some (match_route p method path) → is_Some (match_route q method path) → i = j.
Proof.
  intros Hi Hj Hp Hq. apply (no_overlap_sound _ i j p q) in Hi; [done| |done|by eapply patterns_overlap_complete].
  vm_compute. reflexivity.
Qed.

(** ** Witnesses *)

Definition fx_PromLib : PromLib.
Proof.
  refine {| promhttp_serve s r w :=
    let w := Header_Set "Content-Type" "text/plain; version=0.0.4; charset=utf-8" w in
    let w := if decide (Header_Get r "Accept-Encoding" = "gzip")
             then Header_Set "Content-Encoding" "gzip" w else w in
    Write (PText "metrics") (WriteHeader StatusOK w) |}.
  - intros s r w Hs. cbv zeta. case_decide;
      (split; [intros k Hk; simpl; rewrite ?header_set_other by (first [done | set_solver]); done|]);
      (split; [apply one_body|]); simpl; rewrite Hs; eexists _, _; (split; [done|]); (split; [done|]);
      intros k Hk; rewrite ?header_set_other by (first [done | set_solver]); done.
  - intros s r w. exists "metrics". cbv zeta. by case_decide.
Defined.

Definition fx_serve (r : Request) : prog World unit :=
  @serve wit_GoText fx_RateLib fx_PromLib fx_PgLib quiet_Env ∅ r.

Definition fx_request (method path : string) : Request :=
  mkRequest method path ∅ {["X-Request-Id" := "req-1"]} "10.0.0.1:999" "" ∅ None.

(** A worker creates alerts while a listing is in flight. *)
Definition mixed_schedule : list choice :=
  [Pool.Request (fx_serve (fx_request "GET" "/alerts")); RunRequest 0; RunRequest 0] ++
  whole_job "33" 0 12 ++ [RunRequest 0; RunRequest 0; RunRequest 0].

Lemma system_safety_witness :
  safe_since (fresh_world init_sql) (p_world (wit_end 256 mixed_schedule)).
Proof.
  apply (@system_safety wit_GoText fx_RateLib fx_PromLib fx_PgLib quiet_Env ∅ 256 defaultDebounceBreaches
    (Z.to_nat defaultWorkerCount) (fresh_world init_sql) mixed_schedule).
  - exact init_sql_ok.
  - repeat first [apply Forall_nil; exact I | apply Forall_cons; split; [|]]; try exact I.
    left. by eexists.
  - unfold wit_end, wit_run. apply Some_default. vm_compute. reflexivity.
Defined.

Definition fx_answer (method path : string) : ResponseWriter * World :=
  run (@api_handler wit_GoText fx_RateLib fx_PromLib fx_PgLib quiet_Env ∅ new_response (fx_request method path))
    (fresh_world init_sql).

Lemma preflight_is_free_witness : (fx_answer "OPTIONS" "/alerts").2 = fresh_world init_sql.
Proof.
  pose proof (@preflight_is_free wit_GoText fx_RateLib fx_PromLib fx_PgLib quiet_Env ∅
    (fx_request "OPTIONS" "/alerts") (fresh_world init_sql) eq_refl) as Hp.
  fold (fx_answer "OPTIONS" "/alerts") in Hp. destruct (fx_answer _ _) as [rw w']. exact (proj1 Hp).
Defined.

Lemma every_response_tagged_witness : is_Some (w_sent (fx_answer "GET" "/nowhere").1).
Proof.
  pose proof (@every_response_tagged wit_GoText fx_RateLib fx_PromLib fx_PgLib quiet_Env ∅
    (fx_request "GET" "/nowhere") (fresh_world init_sql) ltac:(discriminate)) as Hp.
  fold (fx_answer "GET" "/nowhere") in Hp. destruct (fx_answer _ _) as [rw w'].
  destruct Hp as (id & status & hs & _ & Es & _). cbn [fst]. rewrite Es. by eexists.
Defined.

Lemma metrics_count_responses_witness :
  w_httpRequests (run (@instrument quiet_Env "GET /devices/{id}" (@getDevice fx_PgLib quiet_Env) new_response
    (with_PathValue {["id" := "nope"]} (fx_request "GET" "/devices/nope"))) (fresh_world init_sql)).2
    !! ("GET", "/devices/{id}", "404") = Some 1.
Proof.
  pose proof (@metrics_count_responses wit_GoText fx_RateLib fx_PromLib fx_PgLib quiet_Env "GET /devices/{id}"
    (@getDevice fx_PgLib quiet_Env) new_response
    (with_PathValue {["id" := "nope"]} (fx_request "GET" "/devices/nope")) (fresh_world init_sql)) as Hp.
  assert (status_of (run (@instrument quiet_Env "GET /devices/{id}" (@getDevice fx_PgLib quiet_Env) new_response
    (with_PathValue {["id" := "nope"]} (fx_request "GET" "/devices/nope"))) (fresh_world init_sql)).1 = 404)
    as E by (vm_compute; reflexivity).
  destruct (run _ _) as [rw s']. cbn [fst snd] in *. rewrite Hp.
  - rewrite E. vm_compute. reflexivity.
  - unfold registered. do 3 right. left.
  - reflexivity.
Defined.

Lemma routes_unambiguous_witness :
  is_Some (match_route "GET /devices/{id}/telemetry" "GET" "/devices/a1/telemetry") ∧
  ∀ i, (@route_table wit_GoText fx_PromLib fx_PgLib quiet_Env true).*1 !! i = Some "GET /devices/{id}/telemetry" →
    i = 5%nat.
Proof.
  split; [vm_compute; by eexists|]. intros i Hi.
  apply (@routes_unambiguous wit_GoText fx_RateLib fx_PromLib fx_PgLib quiet_Env
    "GET" "/devices/a1/telemetry" i 5 "GET /devices/{id}/telemetry" "GET /devices/{id}/telemetry" Hi);
    [reflexivity|vm_compute; by eexists..].
Defined.
