(* ===== verification/Readable.v ===== *)
(** * Every answer can be read

    What the handlers of the API answer with, and all they can answer with while the
    ingestion service writes and other requests run, is readable by the client: every
    body has a text that reads back as the value meant. *)

From S2P Require Import Prelude GoStd GoFloat GoTime Alerts Pg World Contract GoJson Escape Rounding Scanned Fixtures Shared Store.
From S2P Require Import Process Payload Pool Client Models TimeText Http Response Stored Mux ApiAlerts ApiRules ApiDevices RateLimit Server.
From stdpp Require Import pretty.
Open Scope Z_scope.
Open Scope string_scope.
Open Scope list_scope.
Open Scope go_scope.

#[local] Existing Instance go_text.

(** A body fits, or is plain text. *)
Definition readable (v : payload) : Prop :=
  match v with PText _ => True | _ => fits_payload v = true end.

(** Everything written is readable, and a 200 without a body is excused by [E]. *)
Definition answered (E : Prop) (rw : ResponseWriter) : Prop :=
  Forall readable (w_body rw) ∧ (status_of rw = StatusOK → w_body rw = [] → E).

(** A response nothing has been sent on. *)
Definition fresh (w : ResponseWriter) : Prop := w_sent w = None ∧ Forall readable (w_body w).

Definition answers (E : Prop) (h : Handler) : Prop := ∀ w r, fresh w → keeping (h w r) (answered E).

Lemma readable_written v body : Forall readable body → readable v → Forall readable (body ++ [v]) ∧ body ++ [v] ≠ [].
Proof. intros Hb Hv. split; [apply Forall_app; by repeat constructor|]. by intros []%app_eq_nil. Qed.

(** ** Sending a value *)

Section Sending.
Context `{!PgLib, !Env, !TextLaws} (E : Prop).

Lemma keeping_send w status v :
  fresh w → (encodable v = true → readable v) → (encodable v = false → E) →
  keeping (writeJSON w status (Some v)) (answered E).
Proof.
  intros [Hs Hb] Hv HE. unfold writeJSON. destruct (encodable v) eqn:Ee.
  - destruct (readable_written v _ Hb (Hv eq_refl)) as [Hr Hne]. apply keeps_Ret. split; [exact Hr|]. by intros _ ?%Hne.
  - eapply keeping_seq; [apply keeping_log|]. intros _. apply keeps_Ret. split; [exact Hb|]. intros _ _. by apply HE.
Qed.

(** What fits is sent. *)
Lemma keeping_send_fits w status v :
  fresh w → fits_payload v = true → keeping (writeJSON w status (Some v)) (answered E).
Proof.
  intros Hw Hv. apply keeping_send; [done|by intros _; destruct v|]. by rewrite fits_encodable.
Qed.

Lemma keeping_error w status m : fresh w → valid_string m = true → keeping (writeError w status m) (answered E).
Proof. intros Hw Hm. by apply keeping_send_fits. Qed.

Lemma keeping_log_error l w status what m :
  fresh w → valid_string m = true →
  keeping (log_line "ERROR" l what ;; writeError w status m) (answered E).
Proof. intros Hw Hm. eapply keeping_seq; [apply keeping_log|]. intros _. by apply keeping_error. Qed.

(** The shape of the listing handlers. *)
Lemma keeping_listing {A} (sel : (∀ X, list X → list X) → Pg → result (list A)) (R : A → Prop) (v : list A → payload)
    l w what failed scanned :
  fresh w → valid_string failed = true →
  (∀ (ord : ∀ X, list X → list X) db rows, (∀ X (l : list X), ord X l ≡ₚ l) → db_fits db →
    sel ord db = Ok rows → Forall R rows) →
  (∀ rows, Forall R rows → fits_payload (v rows) = true) →
  keeping (bind (pg_query_ordered sel) (λ rows,
    match rows with
    | Err _ => bind (log_line "ERROR" l what) (λ _, writeError w StatusInternalServerError failed)
    | Ok (rows, RowScanErr) => bind (log_line "ERROR" l scanned) (λ _, writeError w StatusInternalServerError failed)
    | Ok (rows, _) => writeJSON w StatusOK (Some (v rows))
    end)) (answered E).
Proof.
  intros Hw Hf Hsel Hv. eapply keeps_bind; [by apply (keeping_pg_query_ordered _ R)|].
  intros [[rows []]|e] Hrows; first [by apply keeping_log_error | by apply keeping_send_fits, Hv].
Qed.

End Sending.

(** ** The handlers *)

Lemma fits_rows {A B} `{!Json B} (f : A → B) rows :
  Forall (λ x, fits (f x) = true) rows → forallb fits (f <$> rows) = true.
Proof.
  intros Hr. apply forallb_forall. intros y (x & -> & Hx)%list_elem_of_In%list_elem_of_fmap.
  rewrite Forall_forall in Hr. by apply Hr.
Qed.

(** A stored reading that the encoder takes can be read. *)
Lemma doc_point_fits d : doc_fits d → json_point (point_of_doc d) = true → fits (point_of_doc d) = true.
Proof.
  intros [Hd Hr]. unfold json_point. cbn [point_of_doc tp_Readings tp_Ts tp_ReceivedAt].
  rewrite !andb_true_iff. intros [[_ Ht] Hrc]. cbn [fits point_json point_of_doc tp_DeviceID tp_Readings tp_Ts tp_ReceivedAt].
  rewrite !andb_true_iff. split_and!; try done. cbn [fits map_json]. apply bool_decide_eq_true.
  intros k x Hx. destruct (Hr k x Hx) as [Hk Hn]. cbn [fits float_json]. by rewrite Hk, Hn.
Qed.

Lemma doc_page_readable docs :
  Forall doc_fits docs → encodable (PPoints (point_of_doc <$> docs)) = true → readable (PPoints (point_of_doc <$> docs)).
Proof.
  intros Hd He. cbn [encodable readable fits_payload fits slice_json] in *. apply fits_rows, Forall_forall. intros d Hin.
  rewrite Forall_forall in Hd. apply doc_point_fits; [by apply Hd|]. rewrite forallb_forall in He.
  apply He, list_elem_of_In, list_elem_of_fmap_2, Hin.
Qed.

(** The threshold of a decoded rule is a number. *)
Lemma decoded_threshold body i : Decode_AlertRuleInput body = Ok i → is_number (in_Threshold i) = true.
Proof.
  unfold Decode_AlertRuleInput. destruct (json_Decode body) as [v|] eqn:Ev; [|done]. apply json_Decode_sound in Ev.
  apply (decode_into_keeps AlertRuleInput_field (λ i, is_number (in_Threshold i) = true)); [|done|done].
  intros [d m o t s e] k u z Ht Hu. unfold AlertRuleInput_field. intros H.
  repeat (match type of H with context [if ?b then _ else _] => destruct b end);
    try (apply result_bind_Ok in H as (x & Hx & H)); simplify_eq; try done.
  by eapply decode_float_number in Hx.
Qed.

(** Members of a listing are rows of its table. *)
Ltac from_table Hord :=
  let p := fresh "p" in intros p;
  rewrite ?merge_sort_Permutation, Hord, ?list_elem_of_filter; naive_solver.

Section Handlers.
Context `{!PgLib, !Env, !TextLaws}.

Lemma healthz_answers : answers False healthz.
Proof. intros w r Hw. by apply keeping_send_fits. Qed.

Lemma listSites_answers : answers False listSites.
Proof.
  intros w r Hw. apply (keeping_listing _ _ (λ p, fits (site_of_row p) = true)); [done|done| |exact (fits_rows _)].
  intros ord db rows Hord Hdb [= <-]. apply (map_Forall_members _ _ _ (fit_sites _ Hdb)). from_table Hord.
Qed.

Lemma listDevices_answers : answers False listDevices.
Proof.
  intros w r Hw. apply (keeping_listing _ _ (λ p, fits (device_of_row p) = true)); [done|done| |exact (fits_rows _)].
  intros ord db rows Hord Hdb. unfold select_devices.
  repeat case_match; intros [= <-]; apply (map_Forall_members _ _ _ (fit_devices _ Hdb)); from_table Hord.
Qed.

Lemma listAlertRules_answers : answers False listAlertRules.
Proof.
  intros w r Hw. apply (keeping_listing _ _ (λ p, fits (alert_rule_of_row p) = true)); [done|done| |exact (fits_rows _)].
  intros ord db rows Hord Hdb. unfold select_rules.
  repeat case_match; intros [= <-]; apply (map_Forall_members _ _ _ (fit_rules _ Hdb)); from_table Hord.
Qed.

Lemma listAlerts_answers : answers False listAlerts.
Proof.
  intros w r Hw. apply (keeping_listing _ _ shown_alert_row); [done|done| |exact (fits_rows _)].
  intros ord db rows Hord Hdb. unfold execute_list. destruct (condition_values _ _) as [vs|]; [|done].
  destruct (int_arg _ (lq_limit _)) as [n|]; [|done].
  destruct (int_arg _ (lq_offset _)) as [o|]; [|done]. intros [= <-].
  apply (map_Forall_members _ _ _ (fit_alerts _ Hdb)). intros p Hp%subseteq_take%subseteq_drop. revert p Hp. from_table Hord.
Qed.

Lemma getDevice_answers : answers False getDevice.
Proof.
  intros w r Hw. unfold getDevice. eapply keeps_bind.
  - apply (keeping_pg_query_row _ (λ p, fits (device_of_row p) = true)). intros db p Hdb. unfold select_device.
    destruct (uuid_in _) as [i|]; [|done]. destruct (devices db !! i) as [d|] eqn:E; [|done]. intros [= <-].
    exact (fit_devices _ Hdb i d E).
  - intros [p|e] Hp; [by apply keeping_send_fits|by apply keeping_error].
Qed.

Lemma transition_answers w r spec :
  fresh w → valid_string (conflictMsg spec) = true →
  (∀ n id uid, stmt_fits (ts_query spec (now_at n) id uid) shown_alert_row) →
  keeping (transitionAlert w r spec) (answered False).
Proof.
  intros Hw Hm Hst. unfold transitionAlert. destruct (Decode_AckInput _) as [body|]; [|by apply keeping_error].
  case_decide; [by apply keeping_error|]. eapply keeps_bind; [by apply (keeping_pg_exec _ shown_alert_row)|].
  intros [row|err] Hrow; [by apply keeping_send_fits|]. destruct (errors_Is_NoRows err); [|by apply keeping_log_error].
  eapply keeping_seq; [by apply (keeping_pg_query_row _ (λ _, True))|]. intros found.
  destruct found as [[]|]; by apply keeping_error.
Qed.

Lemma acknowledgeAlert_answers : answers False acknowledgeAlert.
Proof.
  intros w r Hw. apply transition_answers; [done|done|]. intros n id uid. apply fits_transition. intros. by apply ack_fits.
Qed.

Lemma resolveAlert_answers : answers False resolveAlert.
Proof.
  intros w r Hw. apply transition_answers; [done|done|]. intros n id uid. apply fits_transition. intros. by apply resolve_fits.
Qed.

Lemma createAlertRule_answers : answers False createAlertRule.
Proof.
  intros w r Hw. unfold createAlertRule. destruct (Decode_AlertRuleInput _) as [i|] eqn:Ei; [|by apply keeping_error].
  apply decoded_threshold in Ei. case_decide; [by apply keeping_error|].
  eapply keeps_bind; [apply (keeping_pg_exec _ shown_rule_row); intros n; by apply fits_insert_rule|].
  intros [row|err] Hrow; [by apply keeping_send_fits|by apply keeping_log_error].
Qed.

Lemma updateAlertRule_answers : answers False updateAlertRule.
Proof.
  intros w r Hw. unfold updateAlertRule. destruct (Decode_AlertRuleInput _) as [i|] eqn:Ei; [|by apply keeping_error].
  apply decoded_threshold in Ei.
  eapply keeps_bind; [apply (keeping_pg_exec _ shown_rule_row); intros n; by apply fits_update_rule|].
  intros [row|err] Hrow; [by apply keeping_send_fits|].
  destruct (errors_Is_NoRows err); [by apply keeping_error|by apply keeping_log_error].
Qed.

Lemma deleteAlertRule_answers : answers False deleteAlertRule.
Proof.
  intros w r Hw. unfold deleteAlertRule.
  eapply keeping_seq; [apply (keeping_pg_exec _ (λ _, True)); intros n; by apply fits_delete_rule|].
  intros [n|err].
  - case_decide; [by apply keeping_error|]. destruct Hw as [Hs Hb]. apply keeps_Ret. split; [done|].
    unfold status_of. simpl. by rewrite Hs.
  - case_decide; [by apply keeping_error|by apply keeping_log_error].
Qed.

Lemma keeping_cursor_Close r : keeping (cursor_Close r) (λ _, True).
Proof.
  unfold cursor_Close. apply (keeping_seq _ _ (λ _, True)); [by apply keeping_quiet|].
  intros []; [apply keeping_log|done].
Qed.

(** ... and then the deferred close. *)
Lemma keeping_then_close (p : prog World ResponseWriter) r Q :
  keeping p Q → keeping (w' <- p ;; cursor_Close r ;; Ret w') Q.
Proof.
  intros Hp. eapply keeps_bind; [exact Hp|]. intros w' Hw'. eapply keeping_seq; [apply keeping_cursor_Close|]. by intros _.
Qed.

Lemma getDeviceTelemetry_answers : answers True getDeviceTelemetry.
Proof.
  intros w r Hw. unfold getDeviceTelemetry. eapply keeps_bind.
  - apply (keeping_mongo_find _ doc_fits). intros ord docs Hord Hdocs. unfold find_telemetry.
    apply Forall_take. rewrite merge_sort_Permutation, Hord. apply Forall_forall. intros d [_ Hd]%list_elem_of_filter.
    rewrite Forall_forall in Hdocs. by apply Hdocs.
  - intros [[docs []]|e] Hdocs; rewrite ?reverse_in_place_eq, <- ?fmap_reverse.
    1,2: apply keeping_then_close, keeping_send; [done| |done]; apply doc_page_readable; by rewrite reverse_Permutation.
    + eapply keeping_seq; [apply keeping_log|]. intros _. by apply keeping_then_close, keeping_error.
    + by apply keeping_log_error.
Qed.

End Handlers.

(** ** The handler chain *)

Definition telemetry_pattern : string := "GET /devices/{id}/telemetry".

(** A request for the telemetry of a device. *)
Definition telemetry_request (r : Request) : Prop :=
  is_Some (match_route telemetry_pattern (r_Method r) (r_Path r)).

Section Chain.
Context `{!RateLib, !PromLib, !PgLib, !Env, !TextLaws}.

Lemma answered_weaken (E E' : Prop) rw : (E → E') → answered E rw → answered E' rw.
Proof. intros HE [Hr He]. split; [done|]. auto. Qed.

Lemma instrument_answers E pattern h : answers E h → answers E (instrument pattern h).
Proof.
  intros Hh w r [Hs Hb]. unfold instrument. destruct (Cut pattern _) as [[method path] ?].
  eapply keeping_seq; [apply keeping_time_Now|]. intros start.
  eapply keeps_bind; [by apply Hh|]. intros sw Hsw.
  eapply keeping_seq; [by apply (keeping_quiet _ (λ _, True))|]. intros _.
  eapply keeping_seq; [apply keeping_time_Now|]. by intros _.
Qed.

Lemma metrics_answers : answers False metrics_handler.
Proof.
  intros w r [Hs Hb]. unfold metrics_handler.
  eapply keeping_seq; [by apply (keeping_quiet _ (λ _, True))|]. intros counters.
  destruct (promhttp_text counters r w) as [text Et]. destruct (readable_written (PText text) _ Hb I) as [Hr Hne].
  apply keeps_Ret. split; rewrite Et; [done|]. by intros _ ?%Hne.
Qed.

Lemma registered_answers : Forall (λ ph, answers (ph.1 = telemetry_pattern) ph.2) registered.
Proof.
  unfold registered. repeat (apply Forall_cons; split; [cbn [fst snd]|]); [..|done].
  all: intros w r Hw; eapply keeps_weaken.
  all: first [ by apply healthz_answers | by apply listSites_answers | by apply listDevices_answers
    | by apply getDevice_answers | by apply getDeviceTelemetry_answers | by apply listAlerts_answers
    | by apply acknowledgeAlert_answers | by apply resolveAlert_answers | by apply listAlertRules_answers
    | by apply createAlertRule_answers | by apply updateAlertRule_answers | by apply deleteAlertRule_answers
    | intros rw; apply answered_weaken; done ].
Qed.

Lemma route_table_answers : Forall (λ ph, answers (ph.1 = telemetry_pattern) ph.2) (route_table true).
Proof.
  apply Forall_app. split.
  - apply Forall_singleton. intros w r Hw. eapply keeps_weaken; [by apply metrics_answers|].
    intros rw. by apply answered_weaken.
  - apply Forall_fmap. eapply Forall_impl; [apply registered_answers|]. intros [p h]. apply instrument_answers.
Qed.

(** The router's own answers. *)
Lemma answered_text E w m s : fresh w → answered E (http_Error w m s).
Proof.
  intros [Hs Hb]. destruct (readable_written (PText m) _ Hb I) as [Hr Hne]. split; [exact Hr|]. by intros _ ?%Hne.
Qed.

Lemma answered_header E w s : fresh w → s ≠ StatusOK → answered E (WriteHeader s w).
Proof. intros [Hs Hb] Hne. split; [done|]. unfold status_of. simpl. by rewrite Hs. Qed.

Lemma routes_answer w r : fresh w → keeping (routes true w r) (answered (telemetry_request r)).
Proof.
  intros Hw. apply (ServeMux_cases _ (λ p, keeping p (answered (telemetry_request r)))).
  - intros url. apply keeps_Ret. unfold Redirect.
    assert (∀ k v, fresh (Header_Set k v w)) as Hset by done.
    repeat case_decide; try by apply answered_header.
    all: destruct Hw as [Hs Hb]; destruct (readable_written (PText "Moved Permanently") _ Hb I) as [Hr Hne].
    all: split; [exact Hr|]; by intros _ ?%Hne.
  - intros k v m s _ Hne. split_and!; apply keeps_Ret; [by apply answered_header|by apply answered_text..].
  - intros p h vals Hin Hm. pose proof route_table_answers as HF. rewrite Forall_forall in HF.
    eapply keeps_weaken; [by apply (HF _ Hin)|]. intros rw. apply answered_weaken. cbn [fst].
    intros ->. by exists vals.
Qed.

Lemma keeping_allow l ip : keeping (allow l ip) (λ _, True).
Proof.
  unfold allow. eapply keeping_seq; [by apply (keeping_quiet _ (λ _, True)); intros w; destruct (lock_section _ _ _)|].
  intros p. apply keeping_quiet. intros w. by destruct (call_limiter _ _ _ _).
Qed.

Lemma api_handler_answers env r :
  keeping (api_handler env new_response r) (answered (telemetry_request r)).
Proof.
  unfold api_handler, withCORS. set (w0 := Header_Set _ _ _).
  assert (fresh w0) as Hw by (subst w0; by destruct (map_get false _ _)). clearbody w0.
  case_decide; [by apply keeps_Ret, answered_header|]. unfold withCorrelationID.
  eapply (keeping_seq _ _ (λ _, True)); [case_decide; [apply keeping_NewCorrelationID|done]|]. intros id.
  unfold withRateLimit. eapply keeping_seq; [apply keeping_allow|]. intros []; cbn [negb].
  - by apply (routes_answer (Header_Set "X-Request-Id" id w0) (with_logger (Some id) r)).
  - eapply keeping_seq; [apply keeping_log|]. intros _. by apply keeps_Ret, answered_text.
Qed.

Lemma serve_keeps env r : keeps_always world_fits (serve env r).
Proof. unfold serve. eapply keeping_seq; [apply api_handler_answers|]. done. Qed.

Lemma cleanupLoop_keeps ticks maxIdle : keeps_always world_fits (cleanupLoop ticks maxIdle).
Proof.
  unfold keeps_always. induction ticks as [|now ticks IH]; cbn [cleanupLoop]; [done|].
  eapply keeping_seq; [by apply (keeping_quiet _ (λ _, True))|]. done.
Qed.

Lemma api_choice_keeps env ch : api_choice env ch → choice_keeps world_fits ch.
Proof. destruct ch; simpl; try done. intros [[r ->]|[ticks ->]]; [apply serve_keeps|apply cleanupLoop_keeps]. Qed.

End Chain.

(** ** Properties *)

(** The value and its text, as a client that knows the endpoint reads it. *)
Definition reads_back (v : payload) : Prop :=
  match v with
  | PText _ => True
  | _ => ∃ body, Encode v = Some body ∧ read_body (shape_of v) body = Some v
  end.

Lemma readable_reads_back v : readable v → reads_back v.
Proof.
  intros Hv. destruct v as [m| |l|l|d|l|l|a|l|r|t]; try done; cbn [reads_back];
    eexists; (split; [reflexivity|]); by apply read_encoded.
Qed.

(** C9: Every answer of the running system can be read.  Start the two services on tables whose rows
    can be shown, let MQTT deliver whatever bytes it likes and any API requests run, let every
    statement fail before or after taking effect, and interleave the actions of workers,
    requests and clean-up in any way with those of one more request: every value in the body it is
    answered with has a text from which the client gets exactly that value back.  A 200
    comes without a body only to a request for the telemetry of a device (where a reading of a
    year no JSON time can carry may be in the way).  The server's text is UTF-8 and the clocks
    show years of four digits; the body is what the handlers write (net/http sends none of it
    for a HEAD request). *)
Theorem every_answer_readable `{!RateLib, !PromLib, !PgLib, !Env, !TextLaws}
    env queueSize debounceN workerCount w chs r rw c' :
  world_fits w → Forall (λ o, from_option (api_choice env) True o) chs →
  client_run queueSize debounceN chs (api_handler env new_response r) (pool_start w workerCount) = Some (rw, c') →
  Forall reads_back (w_body rw) ∧ (status_of rw = StatusOK → w_body rw = [] → telemetry_request r) ∧
  world_fits (p_world c').
Proof.
  intros Hw HF Hrun.
  assert (Forall (λ o, from_option (choice_keeps world_fits) True o) chs) as HK.
  { eapply Forall_impl; [exact HF|]. intros [ch|]; [apply api_choice_keeps|done]. }
  destruct (client_run_keeps queueSize debounceN world_fits (keeping_handle_job debounceN) (λ _ _ _ H, H) chs _ _ _ _ _
    HK (api_handler_answers env r) (pool_start_keeps world_fits w workerCount Hw) Hrun) as [[Hr He] Hc].
  split; [|split; [done|apply Hc]]. eapply Forall_impl; [exact Hr|]. apply readable_reads_back.
Qed.

(** ** Witnesses *)

(** A PostgreSQL that takes every UTF-8 text, and canonical uuids that are not empty. *)
Definition utf8_PgLib : PgLib.
Proof.
  refine {| uuid_in s := if decide (s ≠ "" ∧ valid_string s = true) then Some s else None;
            text_in := valid_string; text_le _ _ := true |}.
  - intros s u H. case_decide; simplify_eq. by rewrite decide_True.
  - auto.
  - auto.
Defined.

(** Generated ids by strokes, at noon of the 8th of August 2026. *)
Definition strokes (n : nat) : string := Nat.iter n (String "x") "".

Definition steady_Env : Env.
Proof.
  refine {| now_at _ := 1786190400 * Second; exec_fault _ := ExecOk; query_fault _ := QueryOk;
            gen_random_uuid n := "alert-" +:+ strokes n; row_order _ _ l := l; rand_Read _ := None |}; done.
Defined.

Lemma steady_laws : @TextLaws utf8_PgLib steady_Env.
Proof.
  split.
  - intros s u. cbn [uuid_in utf8_PgLib]. case_decide as Hs; [|done]. intros [= <-]. by destruct Hs.
  - done.
  - intros n. cbn [gen_random_uuid steady_Env]. induction n as [|n IH]; [reflexivity|]. exact IH.
  - intros n. reflexivity.
Defined.

(** A hot reading arrives and is handled while a client that lists the alerts waits for its
    query. *)
Definition hot_job : job := mkJob (telemetryTopic bangkok temp_sensor_01)
  (simulator_payload temp_sensor_01 bangkok "temp_sensor" [mkReading "temperature_c" 3300] doc_ts).

Definition waiting_client (n : nat) : list (option choice) :=
  replicate 3 None ++ [Some (Deliver hot_job); Some (Take 0)] ++ replicate n (Some (RunWorker 0)) ++ replicate 3 None.

Definition client_answer : ResponseWriter * Pool :=
  default (new_response, pool_start (fresh_world init_sql) 0)
    (@client_run go_text utf8_PgLib steady_Env 256 1 _ (waiting_client 12)
      (@api_handler go_text fx_RateLib fx_PromLib utf8_PgLib steady_Env ∅ new_response (fx_request "GET" "/alerts"))
      (pool_start (fresh_world init_sql) 1)).

Lemma seed_fits : world_fits (fresh_world init_sql).
Proof.
  split; [split|done]; (apply (bool_decide_unpack _); vm_compute; exact I).
Defined.

(** The client's query falls between the two inserts of the reading: one alert is shown. *)
Lemma every_answer_readable_witness :
  ∃ a, w_body client_answer.1 = [PAlerts [a]] ∧ Forall reads_back (w_body client_answer.1).
Proof.
  eexists. split; [vm_compute; reflexivity|].
  apply (@every_answer_readable fx_RateLib fx_PromLib utf8_PgLib steady_Env steady_laws ∅ 256 1 1
    (fresh_world init_sql) (waiting_client 12) (fx_request "GET" "/alerts") client_answer.1 client_answer.2).
  - exact seed_fits.
  - repeat first [apply Forall_nil; exact I | apply Forall_cons; split; [exact I|]].
  - rewrite <- surjective_pairing. unfold client_answer. apply Some_default. vm_compute. reflexivity.
Defined.
