(* ===== verification/System.v ===== *)
(** * The two services together

    [Server.system_safety] holds of every schedule.  Here are the guarantees that
    need more of the schedule: the API never activates a rule, so the invariant "at
    most one active alert per rule" depends on the workers alone ([Concurrent]); it
    holds while the messages of one device are handled one at a time, in particular
    with one worker.  That it fails again when a rule is deleted under a message is in
    [Deletion]. *)

From S2P Require Import Prelude GoStd Alerts Pg World Contract Shared Store Process Engine Pool Concurrent Fixtures.
From S2P Require Import Models Http Mux ApiAlerts ApiRules ApiDevices RateLimit Server.
Open Scope Z_scope.
Open Scope string_scope.
Open Scope list_scope.
Open Scope go_scope.

(** ** Requests that activate no rule *)

Section Gentle.
Context `{!Env}.

(** No alert appears, no rule disappears, new rules have generated ids. *)
Definition gentle_db (db db' : Pg) : Prop :=
  (∀ i, is_Some (alerts db' !! i) → is_Some (alerts db !! i)) ∧
  (∀ i, is_Some (alert_rules db !! i) → is_Some (alert_rules db' !! i)) ∧
  (∀ i, is_Some (alert_rules db' !! i) → is_Some (alert_rules db !! i) ∨ ∃ n, i = gen_random_uuid n).

Definition gentle (w w' : World) : Prop := gentle_db (w_pg w) (w_pg w').

Lemma gentle_same w w' : w_pg w' = w_pg w → gentle w w'.
Proof. unfold gentle. intros ->. split_and!; auto. Qed.

Lemma gentle_act {A} (f : World → A * World) :
  (∀ w, w_pg (f w).2 = w_pg w) → each_step gentle (act f).
Proof. intros Hf. apply each_step_act. intros w. by apply gentle_same. Qed.

Context `{!PgLib}.

Lemma gentle_pg_exec {A} (st : string → time → stmt A) :
  (∀ n now db, gentle_db db (st (gen_random_uuid n) now db).2) → each_step gentle (pg_exec st).
Proof.
  intros Hst. apply each_step_act. intros w. specialize (Hst (w_tick w) (now_at (w_tick w)) (w_pg w)).
  unfold exec_outcome. destruct (exec_fault (w_tick w)); simpl; [|by apply gentle_same|done].
  by destruct (st _ _ _).
Qed.

(** An alert that is active now was active before. *)
Lemma active_back a a' : rtc alert_step a a' → is_active a' = true → is_active a = true.
Proof.
  intros Hs. induction Hs as [|a b c Hab _ IH]; [done|]. intros Hc%IH.
  destruct Hab as [a now uid Ho|a now uid Ho|a at_ Ho]; unfold is_active in *; [|done..].
  by rewrite Ho.
Qed.

Lemma gentle_evolved w w' i a' :
  Pg_ok (w_pg w) → world_step w w' → gentle w w' → alerts (w_pg w') !! i = Some a' →
  ∃ a, alerts (w_pg w) !! i = Some a ∧ al_alert_rule_id a = al_alert_rule_id a' ∧
    al_device_id a = al_device_id a' ∧ (is_active a' = true → is_active a = true).
Proof.
  intros Hok Hw (Hal & _) Ha'. destruct (Hal i ltac:(by eexists)) as [a Ha].
  destruct (ws_pg _ _ Hw Hok) as (_ & Hev & _). destruct (Hev i a Ha) as (a2 & Ha2 & Hs). simplify_eq.
  destruct (alert_steps_immutable a a' Hs) as (E1 & E2 & _).
  exists a. split_and!; [done..|]. by apply active_back.
Qed.

Lemma dev_gentle w w' : uuids_fresh → world_step w w' → gentle w w' → dev_step None w w'.
Proof.
  intros [_ Hcan] Hw Hg Hinv. pose proof Hinv as [Hok Hone Hdc Hcn Hfr].
  pose proof (λ i a', gentle_evolved w w' i a' Hok Hw Hg) as Hback.
  destruct (ws_pg _ _ Hw Hok) as (Hok' & _ & Hkeep). destruct Hg as (Hal & Hstay & Hnew).
  assert (rules_stay (w_pg w) (w_pg w')) as Hst.
  { intros id r Hr. destruct (Hstay id ltac:(by eexists)) as [r' Hr']. exists r'. split; [done|]. by eapply Hkeep. }
  split; [split; [done| | | |]|split; [done|]].
  - intros i j a b (a0 & Ha & E1 & _ & Hact)%Hback (b0 & Hb & E2 & _ & Hbct)%Hback Hia Hib E.
    apply (Hone i j a0 b0); auto. congruence.
  - intros i a r' (a0 & Ha & E1 & E2 & _)%Hback Hr'.
    destruct (proj1 (ok_alert _ Hok i a0 Ha)) as [r Hr]. rewrite <- E1 in Hr'.
    rewrite (Hkeep _ _ _ Hr Hr'), <- E2. by eapply Hdc.
  - intros rid [?|[n ->]]%Hnew; auto.
  - intros n Hn. pose proof (ws_tick _ _ Hw). destruct (alerts (w_pg w') !! _) as [a|] eqn:E; [|done].
    destruct (Hback _ _ E) as (a0 & Ha & _). rewrite Hfr in Ha by lia. done.
  - intros rid (i & a & Ha & <- & Hact). left. destruct (Hback _ _ Ha) as (a0 & Ha0 & E1 & _ & Hb).
    exists i, a0. auto.
Qed.

End Gentle.

(** Statements on alerts and rules. *)
Section Statements.
Context `{!PgLib, !Env}.

Lemma gentle_db_refl db : gentle_db db db.
Proof. split_and!; auto. Qed.

Lemma gentle_set_alert db i a a' : alerts db !! i = Some a → gentle_db db (set_alerts <[i := a']> db).
Proof.
  intros Ha. split_and!; simpl; auto. intros k. rewrite lookup_insert. case_decide; subst; [|done]. by eexists.
Qed.

Lemma gentle_set_rule db i r :
  is_Some (alert_rules db !! i) ∨ (∃ n, i = gen_random_uuid n) →
  gentle_db db (set_alert_rules <[i := r]> db).
Proof.
  intros Hi. split_and!; simpl; auto; intros k; rewrite lookup_insert; case_decide; subst; auto.
Qed.

Lemma gentle_transition from upd now id uid db :
  gentle_db db (transition_stmt from upd now id uid db).2.
Proof.
  unfold transition_stmt, fail. destruct (uuid_in id) as [aid|], (uuid_in uid) as [u|];
    try apply gentle_db_refl. destruct (alerts db !! aid) as [a|] eqn:Ea; [|apply gentle_db_refl].
  repeat case_decide; try apply gentle_db_refl. by eapply gentle_set_alert.
Qed.

Lemma gentle_insert_rule n did m o t s e db :
  gentle_db db (insert_rule (gen_random_uuid n) did m o t s e db).2.
Proof.
  unfold insert_rule, fail. repeat (case_match; try apply gentle_db_refl).
  apply gentle_set_rule. right. by exists n.
Qed.

Lemma gentle_update_rule id m o t s e db : gentle_db db (update_rule id m o t s e db).2.
Proof.
  unfold update_rule, fail. destruct (uuid_in id) as [rid|]; [|apply gentle_db_refl].
  case_match; [apply gentle_db_refl|]. destruct (alert_rules db !! rid) as [r|] eqn:Er; [|apply gentle_db_refl].
  case_match; [apply gentle_db_refl|]. apply gentle_set_rule. left. by exists r.
Qed.

End Statements.

(** ** Every handler but the deletion of a rule *)

Section Handlers.
Context `{!GoText, !RateLib, !PromLib, !PgLib, !Env}.

Notation calm h := (∀ w r, each_step gentle (h w r)).

Lemma gentle_log_line l c m : each_step gentle (log_line l c m).
Proof. by apply gentle_act. Qed.
Lemma gentle_time_Now : each_step gentle time_Now.
Proof. by apply gentle_act. Qed.
Lemma gentle_pg_query_ordered {A} (sel : (∀ X, list X → list X) → Pg → result (list A)) :
  each_step gentle (pg_query_ordered sel).
Proof. by apply gentle_act. Qed.
Lemma gentle_pg_query_row {A} (sel : Pg → result A) : each_step gentle (pg_query_row sel).
Proof. by apply gentle_act. Qed.
Lemma gentle_mongo_find {A} (sel : (∀ X, list X → list X) → list TelemetryDoc → list A) :
  each_step gentle (mongo_find sel).
Proof. by apply gentle_act. Qed.
Lemma gentle_writeJSON w status v : each_step gentle (writeJSON w status v).
Proof.
  unfold writeJSON. destruct v as [p|]; [destruct (encodable p)|]; try done.
  apply each_step_bind; [apply gentle_log_line|done].
Qed.
Lemma gentle_writeError w status m : each_step gentle (writeError w status m).
Proof. apply gentle_writeJSON. Qed.
Lemma gentle_cursor_Close r : each_step gentle (cursor_Close r).
Proof.
  unfold cursor_Close. apply each_step_bind; [by apply gentle_act|].
  intros []; [apply gentle_log_line|done].
Qed.

Hint Resolve gentle_log_line gentle_time_Now gentle_pg_query_ordered gentle_pg_query_row gentle_mongo_find
  gentle_writeJSON gentle_writeError gentle_cursor_Close : sitewatch.

Lemma listSites_calm : calm listSites.
Proof. intros w r. unfold listSites. solve_each_step. Qed.
Lemma listDevices_calm : calm listDevices.
Proof. intros w r. unfold listDevices. solve_each_step. Qed.
Lemma getDevice_calm : calm getDevice.
Proof. intros w r. unfold getDevice. solve_each_step. Qed.
Lemma getDeviceTelemetry_calm : calm getDeviceTelemetry.
Proof. intros w r. unfold getDeviceTelemetry. solve_each_step. Qed.
Lemma listAlerts_calm : calm listAlerts.
Proof. intros w r. unfold listAlerts. solve_each_step. Qed.
Lemma listAlertRules_calm : calm listAlertRules.
Proof. intros w r. unfold listAlertRules. solve_each_step. Qed.

Lemma transition_calm t : calm (transition_handler t).
Proof.
  intros w r. destruct t; unfold transition_handler, acknowledgeAlert, resolveAlert, transitionAlert;
    (destruct (Decode_AckInput _) as [body|]; [|apply gentle_writeError]);
    (case_decide; [apply gentle_writeError|]); cbn [ts_query];
    (apply each_step_bind; [apply gentle_pg_exec; intros; apply gentle_transition|]); solve_each_step.
Qed.

Lemma createAlertRule_calm : calm createAlertRule.
Proof.
  intros w r. unfold createAlertRule. destruct (Decode_AlertRuleInput _) as [i|]; [|apply gentle_writeError].
  case_decide; [apply gentle_writeError|].
  apply each_step_bind; [apply gentle_pg_exec; intros; apply gentle_insert_rule|]. solve_each_step.
Qed.

Lemma updateAlertRule_calm : calm updateAlertRule.
Proof.
  intros w r. unfold updateAlertRule. destruct (Decode_AlertRuleInput _) as [i|]; [|apply gentle_writeError].
  apply each_step_bind; [apply gentle_pg_exec; intros; apply gentle_update_rule|]. solve_each_step.
Qed.

Lemma instrument_calm pattern h : calm h → calm (instrument pattern h).
Proof.
  intros Hh w r. unfold instrument. destruct (Cut pattern _) as [[method path] ?].
  apply each_step_bind; [apply gentle_time_Now|]. intros start.
  apply each_step_bind; [apply Hh|]. intros sw.
  apply each_step_bind; [by apply gentle_act|]. solve_each_step.
Qed.

Lemma table_calm :
  Forall (λ ph, pattern_method ph.1 ≠ "DELETE" → calm ph.2) (route_table true).
Proof.
  apply Forall_app. split.
  - apply Forall_singleton. intros _ w r. apply each_step_bind; [by apply gentle_act|done].
  - apply Forall_fmap, (Forall_impl (λ ph : string * Handler, pattern_method ph.1 ≠ "DELETE" → calm ph.2));
      [|intros [p h] Hh Hp; by apply instrument_calm, Hh].
    unfold registered. repeat (apply Forall_cons; split; [intros Hp|]); [..|done].
    all: try (by vm_compute in Hp); cbn [snd].
    all: first [exact listSites_calm|exact listDevices_calm|exact getDevice_calm|exact getDeviceTelemetry_calm
      |exact listAlerts_calm|exact (transition_calm Acknowledge)|exact (transition_calm Resolve)
      |exact listAlertRules_calm|exact createAlertRule_calm|exact updateAlertRule_calm
      |intros ??; apply gentle_writeJSON].
Qed.

Lemma ServeMux_calm w r : r_Method r ≠ "DELETE" → each_step gentle (routes true w r).
Proof.
  intros Hm. apply (ServeMux_cases _ (each_step gentle)); [done|done|]. intros p h vals Hin Hmt.
  pose proof table_calm as HF. rewrite Forall_forall in HF.
  apply (HF _ Hin). cbn [fst]. intros Hp. unfold match_route, method_serves in Hmt. rewrite Hp in Hmt.
  case_match eqn:E; [|done]. rewrite !orb_true_iff, andb_true_iff, !bool_decide_eq_true in E.
  naive_solver congruence.
Qed.

Lemma serve_calm env r : r_Method r ≠ "DELETE" → each_step gentle (serve env r).
Proof.
  intros Hm. unfold serve. apply each_step_bind; [|done]. unfold api_handler, withCORS, withCorrelationID.
  case_decide; [done|]. apply each_step_bind.
  { case_decide; [|done]. by apply gentle_act. }
  intros id. unfold withRateLimit. apply each_step_bind.
  - unfold allow. apply each_step_bind; [apply gentle_act; intros; by destruct (lock_section _ _ _)|].
    intros p. by apply gentle_act.
  - intros ok. destruct ok; simpl; [by apply ServeMux_calm|].
    apply each_step_bind; [apply gentle_log_line|done].
Qed.

Lemma cleanupLoop_calm ticks maxIdle : each_step gentle (cleanupLoop ticks maxIdle).
Proof.
  induction ticks as [|now ticks IH]; cbn [cleanupLoop]; [done|].
  apply each_step_bind; [by apply gentle_act|done].
Qed.

(** An API request that deletes no rule, or the limiter's clean-up. *)
Definition mild_choice (env : gmap string string) (ch : choice) : Prop :=
  match ch with
  | Pool.Request p =>
      (∃ r, r_Method r ≠ "DELETE" ∧ p = serve env r) ∨ ∃ ticks, p = cleanupLoop ticks (10 * Minute)
  | _ => True
  end.

Lemma mild_request_gentle env ch : uuids_fresh → mild_choice env ch → request_gentle ch.
Proof.
  intros Hu. destruct ch as [| | | | | |p| |]; simpl; try done. intros Hp.
  assert (each_step world_step p ∧ each_step gentle p) as [Hw Hg].
  { destruct Hp as [(r & Hm & ->)|[ticks ->]]; split;
      auto using serve_ok, serve_calm, each_step_cleanupLoop, cleanupLoop_calm. }
  eapply each_step_weaken; [|apply each_step_and; [exact Hw|exact Hg]].
  intros w w' [? ?]. by apply dev_gentle.
Qed.

End Handlers.

(** ** The invariant of docs/alert-engine.md under concurrency *)

Section Invariant.
Context `{!GoText, !RateLib, !PromLib, !PgLib, !Env}.

Lemma confined_invariant env queueSize debounceN workerCount w chs c' :
  (∀ n, exec_fault n = ExecOk) → uuids_fresh → serial_inv w → Forall (mild_choice env) chs →
  one_per_device queueSize debounceN chs (pool_start w workerCount) (replicate workerCount None) = true →
  pool_run queueSize debounceN chs (pool_start w workerCount) = Some c' →
  at_most_one_active (w_pg (p_world c')) ∧ device_coherent (w_pg (p_world c')).
Proof.
  intros Hex Hu Hinv HF Hone Hrun.
  destruct (confined_run queueSize debounceN Hex Hu chs _ c' _ (confined_start w workerCount Hinv))
    as [busy' Hc']; [|done..|].
  { eapply Forall_impl; [exact HF|]. intros ch. by apply mild_request_gentle. }
  split; apply (cf_inv _ _ Hc').
Qed.

End Invariant.

(** C5: Concurrency is harmless device by device.  From any consistent state with at most
    one active alert per rule, whatever MQTT delivers and however the workers
    interleave with each other, with API requests (of any kind but the deletion of a
    rule) and with the limiter's clean-up: as long as no worker takes a message of a
    device another worker is busy with, and no write fails, every rule keeps at most
    one active alert, on its own device.  Reads may fail at any point. *)
Theorem one_message_per_device_suffices `{!GoText, !RateLib, !PromLib, !PgLib, !Env}
    env queueSize debounceN workerCount w chs c' :
  (∀ n, exec_fault n = ExecOk) → uuids_fresh → serial_inv w → Forall (mild_choice env) chs →
  one_per_device queueSize debounceN chs (pool_start w workerCount) (replicate workerCount None) = true →
  pool_run queueSize debounceN chs (pool_start w workerCount) = Some c' →
  at_most_one_active (w_pg (p_world c')) ∧ device_coherent (w_pg (p_world c')).
Proof. apply confined_invariant. Qed.

(** C6: A single worker suffices: with INGESTION_WORKER_COUNT=1 the invariant "at most
    one active alert per rule" holds of every schedule of deliveries, API requests
    (but the deletion of a rule) and clean-up, while no write fails. *)
Theorem single_worker_suffices `{!GoText, !RateLib, !PromLib, !PgLib, !Env}
    env queueSize debounceN w chs c' :
  (∀ n, exec_fault n = ExecOk) → uuids_fresh → serial_inv w → Forall (mild_choice env) chs →
  pool_run queueSize debounceN chs (pool_start w 1) = Some c' →
  at_most_one_active (w_pg (p_world c')) ∧ device_coherent (w_pg (p_world c')).
Proof.
  intros Hex Hu Hinv HF. apply (confined_invariant env queueSize debounceN 1); [done..|].
  apply single_worker_one_per_device; [done|done|by apply confined_start|done|].
  eapply Forall_impl; [exact HF|]. intros ch. by apply mild_request_gentle.
Qed.

(** ** Witnesses *)

(** Two workers take the first two messages of a device in turn, an acknowledgement
    is in flight meanwhile. *)
Definition calm_schedule (second : nat) : list choice :=
  [Pool.Request (fx_serve (fx_request "POST" "/alerts/a-1/acknowledge")); RunRequest 0] ++
  whole_job "33" 0 18 ++ [RunRequest 0; RunRequest 0] ++ whole_job "33" second 11.

Definition calm_end (workerCount : nat) : Pool :=
  default (pool_start (fresh_world init_sql) workerCount)
    (@pool_run wit_GoText fx_PgLib quiet_Env 256 1 (calm_schedule (workerCount - 1)) (pool_start (fresh_world init_sql) workerCount)).

Lemma calm_schedule_mild second :
  Forall (@mild_choice wit_GoText fx_RateLib fx_PromLib fx_PgLib quiet_Env ∅) (calm_schedule second).
Proof.
  repeat first [apply Forall_nil; exact I | apply Forall_cons; split; [|]]; try exact I.
  left. exists (fx_request "POST" "/alerts/a-1/acknowledge"). split; [discriminate|reflexivity].
Qed.

Lemma one_message_per_device_suffices_witness :
  is_Some (active_alerts (w_pg (p_world (calm_end 2))) "rule-warn" !! 0%nat) ∧
  at_most_one_active (w_pg (p_world (calm_end 2))).
Proof.
  split; [vm_compute; by eexists|].
  apply (@one_message_per_device_suffices wit_GoText fx_RateLib fx_PromLib fx_PgLib quiet_Env ∅ 256 1 2
    (fresh_world init_sql) (calm_schedule 1) (calm_end 2)).
  - intros n. reflexivity.
  - exact quiet_Env_uuids.
  - exact init_sql_serial.
  - apply calm_schedule_mild.
  - vm_compute. reflexivity.
  - unfold calm_end. apply Some_default. vm_compute. reflexivity.
Defined.

Lemma single_worker_suffices_witness :
  is_Some (active_alerts (w_pg (p_world (calm_end 1))) "rule-warn" !! 0%nat) ∧
  at_most_one_active (w_pg (p_world (calm_end 1))).
Proof.
  split; [vm_compute; by eexists|].
  apply (@single_worker_suffices wit_GoText fx_RateLib fx_PromLib fx_PgLib quiet_Env ∅ 256 1
    (fresh_world init_sql) (calm_schedule 0) (calm_end 1)).
  - intros n. reflexivity.
  - exact quiet_Env_uuids.
  - exact init_sql_serial.
  - apply calm_schedule_mild.
  - unfold calm_end. apply Some_default. vm_compute. reflexivity.
Defined.
