(* ===== verification/Deletion.v ===== *)
(** * A rule deleted under a message

    The rules of a message are loaded before its decisions are written, in statements of
    their own.  What [applyDecisionsWithRetry] does when the API has deleted one of them in
    between, and a schedule of the whole system that gets there. *)

From S2P Require Import Prelude GoStd Alerts Pg World Contract Shared Store Process Engine Pool Fixtures.
From S2P Require Import Models Http Server.
Open Scope Z_scope.
Open Scope string_scope.
Open Scope list_scope.
Open Scope go_scope.

(** ** Counting the active alerts of a rule *)

Definition counted (rid : string) (a : AlertRow) : Prop := al_alert_rule_id a = rid ∧ is_active a = true.

#[global] Instance counted_dec rid a : stdpp.base.Decision (counted rid a).
Proof. unfold counted. apply _. Defined.

Lemma length_active_alerts db rid :
  length (active_alerts db rid) = length (filter (λ p, counted rid p.2) (map_to_list (alerts db))).
Proof. unfold active_alerts. by rewrite length_fmap. Qed.

(** One more open alert. *)
Lemma active_alerts_insert db newid a rid :
  alerts db !! newid = None → al_status a = open →
  length (active_alerts (set_alerts <[newid := a]> db) rid) =
    (length (active_alerts db rid) + if decide (al_alert_rule_id a = rid) then 1 else 0)%nat.
Proof.
  intros Hn Ho. rewrite !length_active_alerts. simpl.
  assert (counted rid a ↔ al_alert_rule_id a = rid) as E by (unfold counted, is_active; rewrite Ho; naive_solver).
  rewrite (map_to_list_insert _ _ _ Hn), filter_cons. simpl. repeat case_decide; simpl; try lia; naive_solver.
Qed.

(** Resolving the alerts of other rules. *)
Lemma active_alerts_resolve db at_ rid' rid :
  rid' ≠ rid → length (active_alerts (resolve_rule_alerts at_ rid' db) rid) = length (active_alerts db rid).
Proof.
  intros Hne. rewrite !length_active_alerts. unfold resolve_rule_alerts. simpl. rewrite map_to_list_fmap.
  induction (map_to_list (alerts db)) as [|[i a] l IH]; [done|]. rewrite fmap_cons, !filter_cons. simpl.
  assert (counted rid (if bool_decide (al_alert_rule_id a = rid') && is_active a then auto_resolve_row at_ a else a)
    ↔ counted rid a) as E.
  { destruct (bool_decide (al_alert_rule_id a = rid')) eqn:Er; [|done]. apply bool_decide_eq_true in Er.
    destruct (is_active a); [|done]. unfold counted. simpl. naive_solver. }
  repeat case_decide; simpl; try lia; naive_solver.
Qed.

Lemma two_active db rid : (2 <= length (active_alerts db rid))%nat → ¬ at_most_one_active db.
Proof.
  unfold active_alerts. rewrite length_fmap. set (P := λ p : string * AlertRow, _).
  pose proof (NoDup_map_fst_filter P (alerts db)) as Hnd.
  assert (∀ p, p ∈ filter P (map_to_list (alerts db)) → P p ∧ alerts db !! p.1 = Some p.2) as Hin.
  { intros [i a] [? Hp]%list_elem_of_filter. split; [done|]. by apply elem_of_map_to_list in Hp. }
  revert Hnd Hin. destruct (filter P _) as [|[i a] [|[j b] l]]; simpl; intros Hnd Hin Hlen Hone; try lia.
  destruct (Hin (i, a) ltac:(set_solver)) as [[Ra Aa] Ha]. destruct (Hin (j, b) ltac:(set_solver)) as [[Rb Ab] Hb].
  simpl in *. apply NoDup_cons in Hnd as [Hi _]. apply Hi.
  rewrite (Hone i j a b Ha Hb Aa Ab) by congruence. by left.
Qed.

(** ** One attempt *)

(** A decision the tables can take: for a rule that exists, with the id and the severity it
    was loaded with. *)
Definition writable `{!PgLib} (db : Pg) (d : RuleDecision) : Prop :=
  let r := rd_Rule d in
  uuid_in (rule_ID r) = Some (rule_ID r) ∧ is_Some (alert_rules db !! rule_ID r) ∧
  severity_check (rule_Severity r) = true.

(** A decision to alert for a rule that is gone. *)
Definition orphaned `{!PgLib} (db : Pg) (d : RuleDecision) : Prop :=
  let r := rd_Rule d in
  rd_Decision d = CreateAlert ∧ uuid_in (rule_ID r) = Some (rule_ID r) ∧
  alert_rules db !! rule_ID r = None ∧ severity_check (rule_Severity r) = true.

(** How many alerts of a rule the decisions create, and that they resolve none. *)
Definition creates (rid : string) (ds : list RuleDecision) : nat :=
  length (filter (λ d, rd_Decision d = CreateAlert ∧ rule_ID (rd_Rule d) = rid) ds).
Definition resolves_none (rid : string) (ds : list RuleDecision) : Prop :=
  Forall (λ d, rd_Decision d = AutoResolve → rule_ID (rd_Rule d) ≠ rid) ds.

Section Attempts.
Context `{!PgLib, !Env} (Hexec : ∀ n, exec_fault n = ExecOk) (Huuid : uuids_fresh).

Definition ids_fresh (w : World) : Prop :=
  ∀ n, (w_tick w <= n)%nat → alerts (w_pg w) !! gen_random_uuid n = None.

(** The decisions [ds] were written [k] times. *)
Record written (k : nat) (ds : list RuleDecision) (w w' : World) : Prop := {
  wr_rules : alert_rules (w_pg w') = alert_rules (w_pg w);
  wr_devices : devices (w_pg w') = devices (w_pg w);
  wr_fresh : ids_fresh w → ids_fresh w';
  wr_count : ∀ rid, resolves_none rid ds →
    length (active_alerts (w_pg w') rid) = (length (active_alerts (w_pg w) rid) + k * creates rid ds)%nat;
}.

Lemma ids_fresh_tick w : ids_fresh w → ids_fresh (tick w).
Proof. intros Hf n Hn. apply Hf. simpl in Hn. lia. Qed.

Lemma written_trans k ds w1 w2 w3 : written 1 ds w1 w2 → written k ds w2 w3 → written (S k) ds w1 w3.
Proof.
  intros [R1 D1 F1 C1] [R2 D2 F2 C2]. split; [congruence|congruence|auto|].
  intros rid Hr. rewrite C2, C1 by done. lia.
Qed.

Lemma writable_same db db' d : alert_rules db' = alert_rules db → writable db d → writable db' d.
Proof. unfold writable. by intros ->. Qed.

Lemma written_cons d ds w1 w2 w3 : written 1 [d] w1 w2 → written 1 ds w2 w3 → written 1 (d :: ds) w1 w3.
Proof.
  intros [R1 D1 F1 C1] [R2 D2 F2 C2]. split; [congruence|congruence|auto|].
  intros rid [Hd Hds]%Forall_cons. rewrite C2, C1 by (done || by apply Forall_singleton).
  unfold creates. rewrite !filter_cons. case_decide; simpl; lia.
Qed.

(** One insert into tables that take it. *)
Lemma insert_written dev did d at_ w :
  ids_fresh w → uuid_in dev = Some did → is_Some (devices (w_pg w) !! did) → writable (w_pg w) d →
  rd_Decision d = CreateAlert →
  let r := rd_Rule d in
  let p := run (pg_exec (λ newid _, insert_alert newid (rule_ID r) dev (rd_Value d) (rule_Severity r) at_)) w in
  p.1 = Ok tt ∧ written 1 [d] w p.2.
Proof.
  intros Hf Hdev Hdid (Hid & Hr & Hs) Hc. cbv zeta. rewrite run_pg_exec by done. cbn [fst snd].
  rewrite (insert_alert_Ok _ _ _ _ _ _ _ _ _ Hid Hdev Hs (Hf _ (le_n _)) Hr Hdid). cbn [fst snd].
  split; [done|]. split; [done|done| |].
  - intros _ n Hn. simpl in Hn |- *. rewrite lookup_insert_ne; [apply Hf; lia|].
    intros E%(proj1 Huuid). lia.
  - intros rid _. change (w_pg (tick (set_pg ?db w))) with db.
    rewrite active_alerts_insert by (done || by apply Hf). simpl. unfold creates. rewrite filter_cons.
    repeat case_decide; simpl; naive_solver lia.
Qed.

Lemma resolve_written d at_ w :
  writable (w_pg w) d → rd_Decision d = AutoResolve →
  let p := run (pg_exec (λ _ _, auto_resolve_alerts at_ (rule_ID (rd_Rule d)))) w in
  p.1 = Ok tt ∧ written 1 [d] w p.2.
Proof.
  intros (Hid & _ & _) Ha. cbv zeta. rewrite run_pg_exec by done. unfold auto_resolve_alerts. rewrite Hid. cbn [fst snd].
  split; [done|]. split; [done|done| |].
  - intros Hf n Hn. simpl in Hn |- *. rewrite lookup_fmap, Hf by lia. done.
  - unfold resolves_none. intros rid. rewrite Forall_singleton. intros Hr. change (w_pg (tick (set_pg ?db w))) with db.
    etransitivity; [apply (active_alerts_resolve (w_pg w) at_ (rule_ID (rd_Rule d)) rid); exact (Hr Ha)|].
    unfold creates. rewrite filter_cons, decide_False by naive_solver. simpl. lia.
Qed.

(** An attempt writes what comes before the orphaned decision, and reports it. *)
Lemma attempt_fails dev did ds d rest at_ w :
  ids_fresh w → uuid_in dev = Some did → is_Some (devices (w_pg w) !! did) →
  Forall (writable (w_pg w)) ds → orphaned (w_pg w) d →
  let p := run (ApplyDecisions dev (ds ++ d :: rest) at_) w in
  p.1 = Err (Wrapf ("insert alert for rule " +:+ rule_ID (rd_Rule d)) (PgError foreign_key_violation)) ∧
  written 1 ds w p.2.
Proof.
  intros Hf Hdev Hdid Hds Hd. revert w Hf Hdid Hds Hd. induction ds as [|x ds IH]; intros w Hf Hdid Hds Hd; cbv zeta.
  - destruct Hd as (Hc & Hid & Hgone & Hs). cbn [app ApplyDecisions]. rewrite Hc, run_bind, run_pg_exec by done.
    unfold insert_alert, fail. rewrite Hid, Hdev, Hs. cbn [negb].
    rewrite decide_False by (rewrite Hf by done; by intros []). rewrite decide_True by (by left). cbn [fst snd run].
    split; [done|]. split; [done|done|intros Hw; by apply ids_fresh_tick in Hw|].
    intros rid _. simpl. unfold creates. simpl. lia.
  - apply Forall_cons in Hds as [Hx Hds]. cbn [app ApplyDecisions].
    assert (∀ w1, written 1 [x] w w1 →
      let p := run (ApplyDecisions dev (ds ++ d :: rest) at_) w1 in
      p.1 = Err (Wrapf ("insert alert for rule " +:+ rule_ID (rd_Rule d)) (PgError foreign_key_violation)) ∧
      written 1 (x :: ds) w p.2) as Hrest.
    { intros w1 Hw1. pose proof Hw1 as [R1 D1 F1 _]. destruct (IH w1) as [E Hw2].
      - by apply F1.
      - by rewrite D1.
      - eapply Forall_impl; [exact Hds|]. intros y. by apply writable_same.
      - unfold orphaned in *. by rewrite R1.
      - split; [exact E|]. by eapply written_cons. }
    destruct (rd_Decision x) eqn:Ex.
    + apply Hrest. split; [done|done|done|]. intros rid _. unfold creates.
      rewrite filter_cons, decide_False by (rewrite Ex; naive_solver). simpl. lia.
    + destruct (insert_written dev did x at_ w Hf Hdev Hdid Hx Ex) as [E Hw1].
      rewrite run_bind. destruct (run (pg_exec _) w) as [res w1]. cbn [fst snd] in *. subst res. by apply Hrest.
    + destruct (resolve_written x at_ w Hx Ex) as [E Hw1].
      rewrite run_bind. destruct (run (pg_exec _) w) as [res w1]. cbn [fst snd] in *. subst res. by apply Hrest.
Qed.

(** The failure every attempt reports. *)
Definition orphan_error (d : RuleDecision) : error :=
  Wrapf ("insert alert for rule " +:+ rule_ID (rd_Rule d)) (PgError foreign_key_violation).

Lemma sleep_written k ds w1 w2 b : written k ds w1 w2 → written k ds w1 (run (time_Sleep b) w2).2.
Proof.
  intros [R D F C]. unfold time_Sleep. rewrite run_act. split; [done|done| |done].
  intros Hw1. by apply (ids_fresh_tick w2), F.
Qed.

(** All attempts that are left do the same. *)
Lemma retries_fail left dev did ds d rest at_ : ∀ b e w,
  ids_fresh w → uuid_in dev = Some did → is_Some (devices (w_pg w) !! did) →
  Forall (writable (w_pg w)) ds → orphaned (w_pg w) d →
  let p := run (retry_loop left b e dev (ds ++ d :: rest) at_) w in
  p.1 = Err (Wrapf "apply decisions after 3 attempts" (match left with O => e | S _ => orphan_error d end)) ∧
  written left ds w p.2.
Proof.
  induction left as [|left IH]; intros b e w Hf Hdev Hdid Hds Hd; cbv zeta; cbn [retry_loop].
  { split; [done|]. split; [done|done|done|]. intros rid _. cbn [run snd]. lia. }
  rewrite run_bind. destruct (attempt_fails dev did ds d rest at_ w Hf Hdev Hdid Hds Hd) as [E W].
  destruct (run (ApplyDecisions _ _ _) w) as [r w1]. cbn [fst snd] in E, W |- *. subst r. cbv iota. fold (orphan_error d).
  assert (∀ w2, written 1 ds w w2 → ∀ b',
    let p := run (retry_loop left b' (orphan_error d) dev (ds ++ d :: rest) at_) w2 in
    p.1 = Err (Wrapf "apply decisions after 3 attempts" (orphan_error d)) ∧ written (S left) ds w p.2) as Hrest.
  { intros w2 W2 b'. pose proof W2 as [R D F _]. destruct (IH b' (orphan_error d) w2) as [E W3].
    - by apply F.
    - done.
    - by rewrite D.
    - eapply Forall_impl; [exact Hds|]. intros y. by apply writable_same.
    - unfold orphaned in *. by rewrite R.
    - split; [by destruct left|]. by eapply written_trans. }
  destruct left as [|left]; [by apply Hrest|]. rewrite run_bind. apply Hrest. by apply sleep_written.
Qed.

End Attempts.

(** C8: The retry multiplies alerts when a rule has been deleted since it was loaded.  With no
    failure of the connection, if one decision of a message creates an alert for a rule that
    is gone, its insert violates a foreign key every time, and [applyDecisionsWithRetry]
    reports that after three attempts, each of which has inserted the alerts of the
    decisions before it again: three for each of them (and none for those after it), so
    that a rule among them, if no decision resolves its alerts, ends with at least three
    active ones.  A schedule of the whole system that gets there is
    [deletion_race_triples_alert]. *)
Theorem rule_deletion_triples_alert `{!PgLib, !Env} dev did ds d rest at_ w :
  (∀ n, exec_fault n = ExecOk) → uuids_fresh → ids_fresh w →
  uuid_in dev = Some did → is_Some (devices (w_pg w) !! did) →
  Forall (writable (w_pg w)) ds → orphaned (w_pg w) d →
  let '(r, w') := run (applyDecisionsWithRetry dev (ds ++ d :: rest) at_) w in
  r = Err (Wrapf "apply decisions after 3 attempts"
        (Wrapf ("insert alert for rule " +:+ rule_ID (rd_Rule d)) (PgError foreign_key_violation))) ∧
  ∀ rid, resolves_none rid ds →
    length (active_alerts (w_pg w') rid) = (length (active_alerts (w_pg w) rid) + 3 * creates rid ds)%nat ∧
    ((1 <= creates rid ds)%nat → ¬ at_most_one_active (w_pg w')).
Proof.
  intros Hex Hu Hf Hdev Hdid Hds Hd. unfold applyDecisionsWithRetry, maxAttempts.
  destruct (retries_fail Hex Hu 3 dev did ds d rest at_ (100 * Millisecond) NetError w Hf Hdev Hdid Hds Hd) as [E [_ _ _ C]].
  destruct (run (retry_loop _ _ _ _ _ _) w) as [r w']. cbn [fst snd] in E, C. split; [exact E|].
  intros rid Hr. specialize (C rid Hr). split; [exact C|]. intros Hc. apply (two_active _ rid). lia.
Qed.

(** ** How the system gets there *)

(** One worker, and a rule deleted between the load of the rules and the write of the
    decisions of a message. *)
Definition deletion_race : list choice :=
  whole_job "33" 0 12 ++ whole_job "33" 0 11 ++
  [Deliver (wit_job "33"); Take 0] ++ replicate 9 (RunWorker 0) ++
  [Pool.Request (fx_serve (fx_request "DELETE" "/alert-rules/rule-crit"))] ++ replicate 6 (RunRequest 0) ++
  replicate 11 (RunWorker 0) ++ [Finish 0].

Definition deletion_end : Pool :=
  default (pool_start (fresh_world init_sql) 1)
    (@pool_run wit_GoText fx_PgLib quiet_Env 256 3 deletion_race (pool_start (fresh_world init_sql) 1)).

(** With the default debounce, one worker and no failure, a request that deletes a rule while
    the third reading above its threshold is being handled leaves another rule of the
    device with three active alerts; the message is logged as failed. *)
Theorem deletion_race_triples_alert :
  @pool_run wit_GoText fx_PgLib quiet_Env 256 3 deletion_race (pool_start (fresh_world init_sql) 1) =
    Some deletion_end ∧
  length (active_alerts (w_pg (p_world deletion_end)) "rule-warn") = 3%nat ∧
  ¬ at_most_one_active (w_pg (p_world deletion_end)) ∧
  l_msg <$> last (w_log (p_world deletion_end)) = Some "failed to process message".
Proof.
  split; [unfold deletion_end; apply Some_default; vm_compute; reflexivity|].
  assert (length (active_alerts (w_pg (p_world deletion_end)) "rule-warn") = 3%nat) as E by (vm_compute; reflexivity).
  split; [exact E|]. split; [|vm_compute; reflexivity]. apply (two_active _ "rule-warn"). rewrite E. lia.
Qed.

(** ** Witness *)

(** The rule for critical temperatures is gone, the one for warnings is not. *)
Definition without_crit : World := fresh_world (set_alert_rules (delete "rule-crit") init_sql).

Lemma rule_deletion_triples_alert_witness :
  let d rid sev limit := mkRuleDecision (wit_rule rid sev limit) CreateAlert (float_of_Z 33) in
  let '(r, w') := run (@applyDecisionsWithRetry fx_PgLib quiet_Env temp_sensor_01
    ([d "rule-warn" "warning" 28] ++ d "rule-crit" "critical" 32 :: []) 0) without_crit in
  length (active_alerts (w_pg w') "rule-warn") = 3%nat.
Proof.
  cbv zeta.
  pose proof (@rule_deletion_triples_alert fx_PgLib quiet_Env temp_sensor_01 temp_sensor_01
    [mkRuleDecision (wit_rule "rule-warn" "warning" 28) CreateAlert (float_of_Z 33)]
    (mkRuleDecision (wit_rule "rule-crit" "critical" 32) CreateAlert (float_of_Z 33)) [] 0 without_crit) as Hp.
  destruct (run _ _) as [r w'].
  destruct Hp as [_ Hp]; [done|exact quiet_Env_uuids|intros n _; reflexivity|reflexivity| | | |].
  - by eexists.
  - apply Forall_singleton. split_and!; [reflexivity|by eexists|reflexivity].
  - split_and!; reflexivity.
  - destruct (Hp "rule-warn") as [E _]; [apply Forall_singleton; discriminate|]. rewrite E. vm_compute. reflexivity.
Defined.
