(* ===== verification/LastSeen.v ===== *)
(** * When devices.last_seen_at is written

    The debounce of [MaybeUpdateLastSeen] ([ingestion/store.go]) under concurrency: its
    critical section ends before the UPDATE runs, so between the two a worker holds a
    claim to write an instant.  Claims and writes of one device are followed through every
    interleaving of the workers with each other and with the API. *)

From S2P Require Import Prelude GoStd Alerts Pg World Contract Shared Store Process Engine Pool Fixtures.
From S2P Require Import Models Http Mux ApiAlerts ApiRules ApiDevices RateLimit Server.
Open Scope Z_scope.
Open Scope string_scope.
Open Scope list_scope.
Open Scope go_scope.

(** ** Instants that are a window apart *)

Definition apart (t t' : time) : Prop := lastSeenDebounce <= Z.abs (t' - t).

Lemma apart_sym t t' : apart t t' → apart t' t.
Proof. unfold apart. lia. Qed.

Notation spread := (ForallOrdPairs apart).

Lemma spread_perm l l' : l ≡ₚ l' → spread l → spread l'.
Proof.
  induction 1 as [|x l l' Hp IH|x y l|l l2 l3 _ IH1 _ IH2]; [done| | |auto].
  - intros Hs. inversion Hs as [|?? Hx Hl]; subst. constructor; [by rewrite <- Hp|auto].
  - intros Hs. inversion Hs as [|?? Hx Hl]; subst. inversion Hl as [|?? Hy Hl']; subst.
    apply Forall_cons in Hx as [Hxy Hx]. constructor; [|by constructor]. constructor; [by apply apart_sym|done].
Qed.

Lemma spread_sub l1 l2 : spread (l1 ++ l2) → spread l2.
Proof. induction l1 as [|x l1 IH]; [done|]. intros Hs. inversion Hs; subst. auto. Qed.

(** The microseconds of the column do not bring instants closer. *)
Lemma apart_timestamptz t t' : apart t t' → apart (pg_timestamptz t) (pg_timestamptz t').
Proof.
  unfold apart, pg_timestamptz, lastSeenDebounce, Second.
  pose proof (Z.div_mod t 1000 ltac:(done)). pose proof (Z.mod_pos_bound t 1000 ltac:(done)).
  pose proof (Z.div_mod t' 1000 ltac:(done)). pose proof (Z.mod_pos_bound t' 1000 ltac:(done)). lia.
Qed.

Lemma spread_lookup (l : list time) i j t t' :
  spread l → i ≠ j → l !! i = Some t → l !! j = Some t' → apart t t'.
Proof.
  intros Hs. revert i j. induction Hs as [|x l Hx Hs IH]; intros i j Hij Hi Hj; [done|].
  rewrite Forall_forall in Hx. destruct i as [|i], j as [|j]; [done|..]; simpl in *; simplify_eq.
  - apply Hx. by eapply list_elem_of_lookup_2.
  - apply apart_sym, Hx. by eapply list_elem_of_lookup_2.
  - eapply IH; [|done..]. congruence.
Qed.

(** ** What an action does to one device *)

Section Device.
Context (dev : string).

(** The mark in the process, and the column. *)
Definition mark (w : World) : option time := w_lastSeenSent w !! dev.
Definition column (w : World) : option time := devices (w_pg w) !! dev ≫= d_last_seen_at.

(** [moves w w' p p']: an action from [w] to [w'] by a thread that holds the claim [p] before
    and [p'] after it.  Claims may lapse (the UPDATE fails, or the device does not exist). *)
Inductive moves (w w' : World) : option time → option time → Prop :=
| mv_keep p : mark w' = mark w → column w' = column w → moves w w' p p
| mv_drop p : mark w' = mark w → column w' = column w → moves w w' p None
| mv_claim p t : (∀ last, mark w = Some last → at_least_a_window last t) → mark w' = Some t →
    column w' = column w → moves w w' p (Some t)
| mv_store t : mark w' = mark w → column w' = Some (pg_timestamptz t) → moves w w' (Some t) None.

Context (clock : time → Prop).

(** Every action of a program moves like that, and claims only instants of [clock]. *)
Fixpoint claims {A} (p : option time) (q : prog World A) : Prop :=
  match q with
  | Ret _ => True
  | Act f k => ∀ w, ∃ p', moves w (f w).2 p p' ∧ (∀ t, p' = Some t → p = Some t ∨ clock t) ∧ claims p' (k (f w).1)
  end.

Lemma moves_from w w' p p' : moves w w' None p' → moves w w' p p'.
Proof. inversion 1; subst; by constructor. Qed.

Lemma claims_weaken {A} p (q : prog World A) : claims None q → claims p q.
Proof.
  destruct q as [a|B f k]; [done|]. intros Hq w. destruct (Hq w) as (p' & Hm & Hc & Hk).
  exists p'. split; [by apply moves_from|]. split; [|done]. intros t Ht. destruct (Hc t Ht); [done|by right].
Qed.

Lemma claims_bind {A B} p (q : prog World A) (k : A → prog World B) :
  claims p q → (∀ a, claims None (k a)) → claims p (bind q k).
Proof.
  intros Hq Hk. revert p Hq. induction q as [a|C f r IH]; intros p Hq; [apply claims_weaken, Hk|].
  intros w. destruct (Hq w) as (p' & Hm & Hc & Hr). exists p'. split; [done|]. split; [done|]. by apply IH.
Qed.

(** Programs that have nothing to do with it. *)
Definition aside (w w' : World) : Prop := mark w' = mark w ∧ column w' = column w.

Lemma aside_intro w w' : w_lastSeenSent w' = w_lastSeenSent w → devices (w_pg w') = devices (w_pg w) → aside w w'.
Proof. unfold aside, mark, column. by intros -> ->. Qed.

Lemma claims_aside {A} (q : prog World A) : each_step aside q → claims None q.
Proof.
  induction q as [a|B f k IH]; [done|]. intros Hq w. destruct (Hq w) as [[Hm Hc] Hk].
  exists None. split; [by apply mv_keep|]. split; [done|]. by apply IH.
Qed.

Lemma claims_aside_bind {A B} (q : prog World A) (k : A → prog World B) :
  each_step aside q → (∀ a, claims None (k a)) → claims None (bind q k).
Proof. intros Hq. by apply claims_bind, claims_aside. Qed.

Lemma aside_act {A} (f : World → A * World) :
  (∀ w, w_lastSeenSent (f w).2 = w_lastSeenSent w ∧ devices (w_pg (f w).2) = devices (w_pg w)) →
  each_step aside (act f).
Proof. intros Hf. apply each_step_act. intros w. by apply aside_intro; apply Hf. Qed.

(** ** The threads of the ingestion service *)

Context `{!GoText, !PgLib, !Env} (canonical : uuid_in dev = Some dev).

Lemma aside_pg_exec {A} (st : string → time → stmt A) :
  (∀ id now db, devices (st id now db).2 !! dev ≫= d_last_seen_at = devices db !! dev ≫= d_last_seen_at) →
  each_step aside (pg_exec st).
Proof.
  intros Hst. apply each_step_act. intros w.
  specialize (Hst (gen_random_uuid (w_tick w)) (now_at (w_tick w)) (w_pg w)). cbv beta zeta. unfold exec_outcome.
  destruct (exec_fault (w_tick w)); [destruct (st _ _ _)| |]; by split.
Qed.

(** Other devices do not matter. *)
Lemma aside_MaybeUpdateLastSeen d at_ :
  d ≠ dev → uuid_in d ≠ Some dev → each_step aside (MaybeUpdateLastSeen d at_).
Proof.
  intros Hd Hu. unfold MaybeUpdateLastSeen. apply each_step_bind.
  - apply each_step_act. intros w. destruct (lastSeen_section _ _ _) as [due m] eqn:E. split; [|done].
    unfold lastSeen_section in E. injection E as _ <-. unfold mark. simpl. case_match; [|done].
    by rewrite lookup_insert_ne.
  - intros due. case_match; [done|]. apply each_step_bind; [|by intros []].
    apply aside_pg_exec. intros _ _ db. unfold update_last_seen, fail.
    destruct (uuid_in d) as [did|]; [|done]. simpl. by rewrite lookup_alter_ne by congruence.
Qed.

(** The UPDATE of the device itself. *)
Lemma update_column at_ w f :
  let w' := (tick (set_pg (exec_outcome f (update_last_seen at_ dev) (w_pg w)).2 w)) in
  mark w' = mark w ∧ (column w' = column w ∨ column w' = Some (pg_timestamptz at_)).
Proof.
  split; [done|]. unfold column. simpl. unfold exec_outcome, update_last_seen. rewrite canonical.
  destruct f; simpl; [|by left|]; rewrite lookup_alter, decide_True by done;
    (destruct (devices (w_pg w) !! dev); [by right|by left]).
Qed.

(** The section claims an instant, the UPDATE stores it. *)
Lemma claims_MaybeUpdateLastSeen d at_ :
  (uuid_in d = Some dev → d = dev) → clock at_ → claims None (MaybeUpdateLastSeen d at_).
Proof.
  intros Hone Hclock. destruct (decide (d = dev)) as [->|Hd].
  2: { apply claims_aside, aside_MaybeUpdateLastSeen; naive_solver. }
  unfold MaybeUpdateLastSeen. intros w. cbn [act bind].
  pose proof (lastSeen_due (w_lastSeenSent w) dev at_) as Hdue.
  destruct (lastSeen_section (w_lastSeenSent w) dev at_) as [due m] eqn:E. cbn [fst snd] in *.
  unfold lastSeen_section in E. injection E as Ed Em. rewrite Ed in Em. subst m. clear Ed. destruct due; cbn [negb].
  2: { exists None. split; [by apply mv_keep|]. by split. }
  exists (Some at_). split; [|split; [naive_solver|]].
  { apply mv_claim; [by apply Hdue| |done]. unfold mark. simpl. by rewrite lookup_insert_eq. }
  change (bind (Ret true) ?k) with (k true). cbn [negb].
  apply claims_bind; [|by intros []]. intros w1. exists None. split; [|by split].
  cbv beta zeta. destruct (update_column at_ w1 (exec_fault (w_tick w1))) as [Hm Hc].
  destruct (exec_outcome _ _ _) as [res db]. cbn [fst snd] in *.
  destruct Hc; [by apply mv_drop|by apply mv_store].
Qed.

Ltac aside_step := apply aside_act; intros; simpl; first [done | by case_match].

Lemma aside_log_line l c m : each_step aside (log_line l c m).
Proof. aside_step. Qed.
Lemma aside_pg_query {A} (sel : Pg → result (list A)) : each_step aside (pg_query sel).
Proof. aside_step. Qed.
Lemma aside_time_Sleep b : each_step aside (time_Sleep b).
Proof. aside_step. Qed.
Lemma aside_WriteTelemetry msg : each_step aside (WriteTelemetry msg).
Proof.
  unfold WriteTelemetry. apply each_step_bind; [aside_step|]. intros now.
  apply each_step_bind; [aside_step|by intros []].
Qed.

Lemma aside_LoadEnabledRules d : each_step aside (LoadEnabledRules d).
Proof. apply each_step_bind; [apply aside_pg_query|]. by intros [[? []]|]. Qed.
Lemma aside_LoadActiveRuleIDs d : each_step aside (LoadActiveRuleIDs d).
Proof. apply each_step_bind; [apply aside_pg_query|]. by intros [[? []]|]. Qed.

Lemma aside_ApplyDecisions d ds at_ : each_step aside (ApplyDecisions d ds at_).
Proof.
  induction ds as [|x ds IH]; cbn [ApplyDecisions]; [done|].
  destruct (rd_Decision x); [done|..]; (apply each_step_bind; [|by intros []]); apply aside_pg_exec; intros.
  - unfold insert_alert, fail. by repeat case_match.
  - unfold auto_resolve_alerts, fail. by repeat case_match.
Qed.

Lemma aside_applyDecisionsWithRetry d ds at_ : each_step aside (applyDecisionsWithRetry d ds at_).
Proof.
  unfold applyDecisionsWithRetry. generalize (100 * Millisecond), NetError. generalize maxAttempts.
  induction n as [|n IH]; intros b e; cbn [retry_loop]; [done|].
  apply each_step_bind; [apply aside_ApplyDecisions|]. intros [|e']; [done|].
  destruct n; [apply IH|]. apply each_step_bind; [apply aside_time_Sleep|]. intros _. apply IH.
Qed.

Lemma aside_report_decisions cid ds : each_step aside (report_decisions cid ds).
Proof.
  induction ds as [|d ds IH]; cbn [report_decisions]; [done|].
  apply each_step_bind; [aside_step|]. intros _. apply each_step_bind; [apply aside_log_line|]. by intros _.
Qed.

Context (Hclock : ∀ n, clock (now_at n)).

(** A message names the device, if at all, by its canonical id. *)
Definition one_spelling (j : job) : Prop :=
  ∀ msg, validate j = Ok msg → uuid_in (DeviceID msg) = Some dev → DeviceID msg = dev.

Lemma claims_handle_job N j : one_spelling j → claims None (handle_job N j).
Proof.
  intros Hj. unfold handle_job. apply claims_aside_bind; [aside_step|]. intros _.
  apply claims_aside_bind; [aside_step|]. intros _.
  apply claims_bind; [|intros res; apply claims_aside; apply each_step_bind; [aside_step|];
    intros _; destruct res; [done|apply aside_log_line]].
  unfold process. apply claims_aside_bind; [aside_step|]. intros cid.
  destruct (validate j) as [msg|e] eqn:Ev; [|done]. specialize (Hj msg Ev).
  unfold process_message. apply claims_aside_bind; [apply aside_WriteTelemetry|]. intros [|e]; [|done].
  intros w. exists None. split; [by apply mv_keep|]. split; [done|].
  cbn [fst]. change (bind (Ret ?a) ?k) with (k a). cbv beta.
  apply claims_bind; [by apply claims_MaybeUpdateLastSeen|]. intros res. apply claims_aside.
  apply each_step_bind; [destruct res; [done|apply aside_log_line]|]. intros _.
  apply each_step_bind; [apply aside_LoadEnabledRules|]. intros [rules|]; [|done]. case_decide; [done|].
  apply each_step_bind; [apply aside_LoadActiveRuleIDs|]. intros [active|]; [|done].
  apply each_step_bind; [apply aside_act; intros w'; by destruct (Evaluate _ _ _ _ _)|]. intros ds. case_decide; [done|].
  apply each_step_bind; [apply aside_applyDecisionsWithRetry|]. intros [|]; [|done].
  apply each_step_bind; [apply aside_report_decisions|done].
Qed.

End Device.

(** ** The threads of the API *)

Section Api.
Context `{!GoText, !RateLib, !PromLib, !PgLib, !Env} (dev : string).

Lemma aside_chain l w w' : chain_step l w w' → aside dev w w'.
Proof. intros [_ _ Hm Hd _]. by apply aside_intro. Qed.

Lemma aside_serve env r : each_step (aside dev) (serve env r).
Proof.
  unfold serve. apply each_step_bind; [|done]. unfold api_handler, withCORS. case_decide; [done|].
  unfold withCorrelationID. apply each_step_bind.
  { case_decide; [|done]. by apply aside_act. }
  intros id. eapply each_step_weaken; [apply aside_chain|].
  apply withRateLimit_steps. apply ServeMux_steps.
Qed.

Lemma aside_cleanupLoop ticks maxIdle : each_step (aside dev) (cleanupLoop ticks maxIdle).
Proof.
  induction ticks as [|now ticks IH]; cbn [cleanupLoop]; [done|].
  apply each_step_bind; [by apply aside_act|done].
Qed.

Lemma api_choice_aside env ch : api_choice env ch →
  match ch with Pool.Request p => each_step (aside dev) p | _ => True end.
Proof. destruct ch; try done. intros [[r ->]|[ticks ->]]; [apply aside_serve|apply aside_cleanupLoop]. Qed.

End Api.

(** ** Claims and writes of one device in a schedule *)

Section Schedules.
Context `{!GoText, !PgLib, !Env} (dev : string) (canonical : uuid_in dev = Some dev).
Context (queueSize : nat) (debounceN : Z).

Definition read_clock (t : time) : Prop := ∃ n, t = now_at n.

(** The values the column takes on, one for each step that changes it. *)
Definition written_by (w w' : World) : list time :=
  if decide (column dev w' = column dev w) then [] else option_list (column dev w').

Fixpoint column_writes (chs : list choice) (c : Pool) : option (list time) :=
  match chs with
  | [] => Some []
  | ch :: chs' =>
      match pool_step queueSize debounceN ch c with
      | Some c' => app (written_by (p_world c) (p_world c')) <$> column_writes chs' c'
      | None => None
      end
  end.

(** Instants claimed or written so far: apart, not beyond the mark, and readings of the
    clock. *)
Record held (w : World) (l : list time) : Prop := {
  hd_spread : spread l;
  hd_mark : Forall (λ t, ∃ m, mark dev w = Some m ∧ t <= m) l;
  hd_clock : Forall read_clock l;
}.

Lemma held_perm w l l' : l ≡ₚ l' → held w l → held w l'.
Proof. intros Hp [Hs Hm Hc]. split; [by eapply spread_perm|by rewrite <- Hp..]. Qed.

Lemma held_sub w l1 l2 : held w (l1 ++ l2) → held w l2.
Proof. intros [Hs [_ Hm]%Forall_app [_ Hc]%Forall_app]. split; [by eapply spread_sub|done..]. Qed.

Lemma held_same w w' l : mark dev w' = mark dev w → held w l → held w' l.
Proof. intros E [Hs Hm Hc]. split; [done|by rewrite E|done]. Qed.

Lemma held_claim w w' t l :
  (∀ last, mark dev w = Some last → at_least_a_window last t) → mark dev w' = Some t → read_clock t →
  held w l → held w' (t :: l).
Proof.
  intros Hlast Hm' Ht [Hs Hm Hc]. assert (Forall (λ x, t - x >= lastSeenDebounce) l) as Hb.
  { eapply Forall_impl; [exact Hm|]. intros x (m & Em & Hx). specialize (Hlast m Em). unfold at_least_a_window in Hlast. lia. }
  split; [constructor; [|done]| |by constructor].
  - eapply Forall_impl; [exact Hb|]. unfold apart. simpl. intros; lia.
  - constructor; [exists t; split; [done|lia]|]. eapply Forall_impl; [exact Hb|].
    unfold lastSeenDebounce, Second. simpl. intros x Hx. exists t. split; [done|lia].
Qed.

(** The claims of all workers but one. *)
Lemma omap_insert (ps : list (option time)) i p :
  ps !! i = Some p → ∃ rest, ∀ p', omap id (<[i := p']> ps) ≡ₚ option_list p' ++ rest.
Proof.
  intros Hi. exists (omap id (take i ps) ++ omap id (drop (S i) ps)). intros p'.
  rewrite insert_take_drop by (by eapply lookup_lt_Some). rewrite omap_app. simpl.
  destruct p' as [t|]; simpl; [|done]. by rewrite <- Permutation_middle.
Qed.

(** One action of worker [i]. *)
Lemma held_moves ps done_ w w' i p p' :
  ps !! i = Some p → moves dev w w' p p' → (∀ t, p' = Some t → p = Some t ∨ read_clock t) →
  held w (omap id ps ++ done_) →
  ∃ new, held w' (omap id (<[i := p']> ps) ++ done_ ++ new) ∧ written_by w w' = pg_timestamptz <$> new.
Proof.
  intros Hi Hmv Hc Hh. destruct (omap_insert ps i p Hi) as [rest Hr].
  assert (held w (option_list p ++ rest ++ done_)) as Hp.
  { eapply held_perm; [|exact Hh]. rewrite app_assoc. apply Permutation_app; [|done].
    rewrite <- Hr. by rewrite list_insert_id. }
  assert (∀ q new, held w' (option_list q ++ rest ++ done_ ++ new) →
    held w' (omap id (<[i := q]> ps) ++ done_ ++ new)) as Hgoal.
  { intros q new. apply held_perm. rewrite app_assoc. by apply Permutation_app; [symmetry|]. }
  unfold written_by. destruct Hmv as [p Hm Hcol|p Hm Hcol|p t Hlast Hm Hcol|t Hm Hcol].
  - exists []. rewrite Hcol, decide_True by done. split; [|done]. apply Hgoal. rewrite app_nil_r. by eapply held_same.
  - exists []. rewrite Hcol, decide_True by done. split; [|done]. apply Hgoal. rewrite app_nil_r.
    eapply held_same; [done|]. by eapply held_sub.
  - exists []. rewrite Hcol, decide_True by done. split; [|done]. apply Hgoal. rewrite app_nil_r.
    pose proof (held_sub _ _ _ Hp) as Hrest. simpl. destruct (Hc t eq_refl) as [->|Ht].
    + eapply held_claim; [done..| |done]. by pose proof (hd_clock _ _ Hp) as [? _]%Forall_cons.
    + by eapply held_claim.
  - rewrite Hcol. case_decide.
    + exists []. split; [|done]. apply Hgoal. rewrite app_nil_r. eapply held_same; [done|]. by eapply held_sub.
    + exists [t]. split; [|done]. apply Hgoal. eapply held_same; [done|]. eapply held_perm; [|exact Hp].
      simpl. rewrite app_assoc. by rewrite Permutation_cons_append.
Qed.

(** The invariant of a schedule. *)
Definition worker_claims (p : option time) (x : Worker) : Prop :=
  match x with Running q => claims dev read_clock p q | _ => True end.

Record claim_inv (ps : list (option time)) (done_ : list time) (c : Pool) : Prop := {
  ci_workers : Forall2 worker_claims ps (p_workers c);
  ci_requests : Forall (each_step (aside dev)) (p_requests c);
  ci_jobs : Forall (one_spelling dev) (p_jobs c);
  ci_held : held (p_world c) (omap id ps ++ done_);
}.

(** Messages name the device by its id, requests leave it alone. *)
Definition choice_spelled (ch : choice) : Prop :=
  match ch with
  | Deliver j => one_spelling dev j
  | Pool.Request p => each_step (aside dev) p
  | _ => True
  end.

Lemma written_same w w' : column dev w' = column dev w → written_by w w' = [].
Proof. intros E. unfold written_by. by rewrite decide_True. Qed.

(** A step of no worker. *)
Lemma claim_inv_same ps done_ c c' :
  Forall2 worker_claims ps (p_workers c') → Forall (each_step (aside dev)) (p_requests c') →
  Forall (one_spelling dev) (p_jobs c') → aside dev (p_world c) (p_world c') → held (p_world c) (omap id ps ++ done_) →
  ∃ ps' new, claim_inv ps' (done_ ++ new) c' ∧
    written_by (p_world c) (p_world c') = pg_timestamptz <$> new.
Proof.
  intros Hws Hrs Hjs [Hm Hc] Hh. exists ps, []. rewrite app_nil_r. split; [|by apply written_same].
  split; [done..|]. by eapply held_same.
Qed.

Lemma worker_idle ps ws i p x :
  Forall2 worker_claims ps ws → ps !! i = Some p → worker_claims p x → Forall2 worker_claims ps (<[i := x]> ws).
Proof. intros HF Hp Hx. rewrite <- (list_insert_id ps i p Hp). by apply Forall2_insert. Qed.

Lemma claim_step ps done_ ch c c' :
  choice_spelled ch → claim_inv ps done_ c → pool_step queueSize debounceN ch c = Some c' →
  ∃ ps' new, claim_inv ps' (done_ ++ new) c' ∧
    written_by (p_world c) (p_world c') = pg_timestamptz <$> new.
Proof.
  intros Hch [Hws Hrs Hjs Hh] Hstep.
  assert (∀ i x, p_workers c !! i = Some x → ∃ p, ps !! i = Some p ∧ worker_claims p x) as Hp
    by (intros i x Hx; destruct (Forall2_lookup_r _ _ _ _ _ Hws Hx) as (p & ? & ?); by exists p).
  assert (∀ w, aside dev w w) as Hrefl by done.
  destruct ch as [j|i|i|i| |i|q|i|i]; simpl in Hstep; simplify_eq.
  - unfold deliver. case_decide; apply claim_inv_same with (ps := ps); simpl; try done.
    apply Forall_app. by split; [|apply Forall_singleton].
  - destruct (p_workers c !! i) as [[]|] eqn:Ei, (p_jobs c) as [|j js] eqn:Ej; simplify_eq.
    apply Forall_cons in Hjs as [Hj Hjs]. destruct (Hp _ _ Ei) as (p & Hpi & _).
    apply claim_inv_same with (ps := ps); simpl; [|done..].
    eapply worker_idle; [done..|]. apply claims_weaken, claims_handle_job; [done| |done]. intros n. by exists n.
  - destruct (p_workers c !! i) as [[|[|B f k]|]|] eqn:Ei; simplify_eq.
    destruct (Hp _ _ Ei) as (p & Hpi & Hq). destruct (Hq (p_world c)) as (p' & Hmv & Hc & Hk).
    destruct (f (p_world c)) as [b w]. simplify_eq. cbn [fst snd] in *.
    destruct (held_moves ps done_ _ _ i p p' Hpi Hmv Hc Hh) as (new & Hh' & Hnew).
    exists (<[i := p']> ps), new. split; [|done]. split; simpl; [by apply Forall2_insert|done..].
  - destruct (p_workers c !! i) as [[|[|B f k]|]|] eqn:Ei; simplify_eq. destruct (Hp _ _ Ei) as (p & Hpi & _).
    apply claim_inv_same with (ps := ps); simpl; [by eapply worker_idle|done..].
  - by apply claim_inv_same with (ps := ps).
  - destruct (p_workers c !! i) as [[]|] eqn:Ei; simplify_eq. case_match; simplify_eq.
    destruct (Hp _ _ Ei) as (p & Hpi & _). apply claim_inv_same with (ps := ps); simpl; [by eapply worker_idle|done..].
  - apply claim_inv_same with (ps := ps); simpl; [done| |done..]. apply Forall_app. by split; [|apply Forall_singleton].
  - destruct (p_requests c !! i) as [[|B f k]|] eqn:Ei; simplify_eq.
    destruct (Forall_lookup_1 _ _ _ _ Hrs Ei (p_world c)) as [Ha Hk]. destruct (f (p_world c)) as [b w]. simplify_eq.
    apply claim_inv_same with (ps := ps); simpl; [done|by apply Forall_insert|done..].
  - destruct (p_requests c !! i) as [[|B f k]|] eqn:Ei; simplify_eq.
    apply claim_inv_same with (ps := ps); simpl; [done|by apply Forall_delete|done..].
Qed.

Lemma writes_spread chs : ∀ ps done_ c ts,
  Forall choice_spelled chs → claim_inv ps done_ c → column_writes chs c = Some ts →
  ∃ raw, ts = pg_timestamptz <$> raw ∧ spread (done_ ++ raw) ∧ Forall read_clock raw.
Proof.
  induction chs as [|ch chs IH]; intros ps done_ c ts HF Hinv Hrun; cbn [column_writes] in Hrun.
  - injection Hrun as <-. exists []. rewrite app_nil_r. split_and!; [done| |done].
    by eapply spread_sub, hd_spread, ci_held.
  - apply Forall_cons in HF as [Hch HF]. destruct (pool_step _ _ ch c) as [c1|] eqn:Es; [|done].
    destruct (column_writes chs c1) as [ts1|] eqn:Er; [|done]. injection Hrun as <-.
    destruct (claim_step ps done_ ch c c1 Hch Hinv Es) as (ps1 & new & Hinv1 & ->).
    destruct (IH ps1 (done_ ++ new) c1 ts1 HF Hinv1 Er) as (raw & -> & Hs & Hc).
    exists (new ++ raw). rewrite fmap_app, app_assoc. split_and!; [done|done|]. apply Forall_app. split; [|done].
    pose proof (hd_clock _ _ (ci_held _ _ _ Hinv1)) as Hk. rewrite !Forall_app in Hk. apply Hk.
Qed.

End Schedules.

(** ** Properties *)

(** A schedule whose messages name device [dev], if at all, by its canonical id. *)
Definition spelled `{!GoText, !PgLib} (dev : string) (ch : choice) : Prop :=
  match ch with Deliver j => one_spelling dev j | _ => True end.

(** C19: devices.last_seen_at is written at most once per window.  A call of
    [MaybeUpdateLastSeen] that is due (no mark yet, or one at least [lastSeenDebounce] old)
    moves the mark to its instant and stores exactly that instant, to the microsecond, in
    the row of the device, unless the UPDATE fails, which it reports (the mark stays moved);
    a call that is not due changes nothing.  And in every schedule of deliveries, workers, API requests and
    clean-up, whatever fails: although the UPDATE runs after the mutex is released, so that
    the writes of two workers may land in either order, any two values that the column of one
    device takes on are at least [lastSeenDebounce] (60 s) apart, and each is a reading of
    the clock.  The marks are kept by the id as it is spelled in the message; the schedule's
    messages spell the device's id the canonical way, as the simulator does. *)
Theorem last_seen_writes_spaced `{!GoText, !RateLib, !PromLib, !PgLib, !Env} dev :
  uuid_in dev = Some dev →
  (∀ at_ row s, devices (w_pg s) !! dev = Some row →
     let '(r, s') := run (MaybeUpdateLastSeen dev at_) s in
     let stored := <[dev := mkDeviceRow (d_site_id row) (d_name row) (d_type row)
                              (Some (pg_timestamptz at_))]> (devices (w_pg s)) in
     ((∀ last, w_lastSeenSent s !! dev = Some last → at_ - last >= lastSeenDebounce) →
        w_lastSeenSent s' = <[dev := at_]> (w_lastSeenSent s) ∧
        match exec_fault (S (w_tick s)) with
        | ExecOk => r = Ok tt ∧ devices (w_pg s') = stored
        | FailBefore => r = Err (Wrapf "update last_seen_at" NetError) ∧ w_pg s' = w_pg s
        | FailAfter => r = Err (Wrapf "update last_seen_at" NetError) ∧ devices (w_pg s') = stored
        end) ∧
     (∀ last, w_lastSeenSent s !! dev = Some last → at_ - last < lastSeenDebounce → r = Ok tt ∧ s' = tick s)) ∧
  (∀ env queueSize debounceN workerCount w chs ts,
     Forall (api_choice env) chs → Forall (spelled dev) chs →
     column_writes dev queueSize debounceN chs (pool_start w workerCount) = Some ts →
     (∀ i j t t', i ≠ j → ts !! i = Some t → ts !! j = Some t' → lastSeenDebounce <= Z.abs (t' - t)) ∧
     Forall (λ t, ∃ n, t = pg_timestamptz (now_at n)) ts).
Proof.
  intros Hdev. split.
  - intros at_ row s Hrow. pose proof (run_MaybeUpdateLastSeen dev at_ s) as Hrun.
    pose proof (lastSeen_due (w_lastSeenSent s) dev at_) as Hdue. unfold at_least_a_window in Hdue.
    destruct (lastSeen_section (w_lastSeenSent s) dev at_) as [due m] eqn:E. cbn [fst] in Hdue. cbv zeta in Hrun.
    rewrite Hrun. clear Hrun. unfold lastSeen_section in E. injection E as Ed Em. rewrite Ed in Em. subst m. clear Ed.
    destruct due.
    + specialize (proj1 Hdue eq_refl) as Hlast. cbn [w_tick tick set_lastSeenSent]. unfold exec_outcome, update_last_seen. rewrite Hdev.
      assert (∀ f, alter f dev (devices (w_pg s)) = <[dev := f row]> (devices (w_pg s))) as Halter
        by (intros f; apply map_eq; intros k; rewrite lookup_alter, lookup_insert; case_decide; subst; by rewrite ?Hrow).
      assert (∀ last, w_lastSeenSent s !! dev = Some last → at_ - last < lastSeenDebounce → False) as Hnot
        by (intros last Hl Hlt; specialize (Hlast last Hl); lia).
      destruct (exec_fault (S (w_tick s))); cbn; rewrite ?Halter;
        (split; [intros _; by split_and!|]); intros last Hl Hlt; by destruct (Hnot last Hl Hlt).
    + split; [intros Hlast; apply Hdue in Hlast; done|]. intros last Hl Hlt. split; [done|]. by destruct s.
  - intros env queueSize debounceN workerCount w chs ts Hapi Hsp Hrun.
    assert (Forall (choice_spelled dev) chs) as Hch.
    { apply Forall_forall. intros ch Hin. rewrite Forall_forall in Hapi, Hsp. specialize (Hapi ch Hin). specialize (Hsp ch Hin).
      apply (api_choice_aside dev) in Hapi. by destruct ch. }
    assert (omap id (replicate workerCount (None : option time)) = []) as Hnone
      by (clear; by induction workerCount).
    destruct (writes_spread dev Hdev queueSize debounceN chs (replicate workerCount None) [] (pool_start w workerCount) ts Hch)
      as (raw & -> & Hs & Hc); [|exact Hrun|].
    { split; simpl; [by apply Forall2_replicate|done|done|]. rewrite Hnone. split; constructor. }
    split.
    + intros i j t t' Hij Hi Hj. rewrite list_lookup_fmap in Hi, Hj.
      apply fmap_Some in Hi as (x & Hx & ->). apply fmap_Some in Hj as (y & Hy & ->).
      apply apart_timestamptz. by eapply spread_lookup.
    + apply Forall_fmap. eapply Forall_impl; [exact Hc|]. intros x [n ->]. by exists n.
Qed.

(** ** Witness *)

(** Worker 0 passes the section at 4 s and is overtaken by worker 1, which handles seven
    messages of the device before worker 0 runs its UPDATE. *)
Definition overtaken : list choice :=
  [Deliver (wit_job "33"); Take 0] ++ replicate 7 (RunWorker 0) ++
  concat (replicate 6 (whole_job "33" 1 11)) ++ whole_job "33" 1 12 ++ [RunWorker 0].

(** The fixtures take every text but the empty one for a canonical id. *)
Lemma fixtures_spelled dev ch : @spelled wit_GoText fx_PgLib dev ch.
Proof. destruct ch as [j| | | | | | | |]; try exact I. intros msg _. simpl. case_decide; [done|by intros [= ->]]. Qed.

(** The column goes from 70 s back to 4 s; the two are more than a window apart. *)
Lemma last_seen_writes_spaced_witness :
  @column_writes wit_GoText fx_PgLib quiet_Env temp_sensor_01 256 1000 overtaken (pool_start (fresh_world init_sql) 2) =
    Some [70 * Second; 4 * Second] ∧
  lastSeenDebounce <= Z.abs (4 * Second - 70 * Second).
Proof.
  assert (@column_writes wit_GoText fx_PgLib quiet_Env temp_sensor_01 256 1000 overtaken (pool_start (fresh_world init_sql) 2) =
    Some [70 * Second; 4 * Second]) as E by (vm_compute; reflexivity).
  split; [exact E|].
  destruct (@last_seen_writes_spaced wit_GoText fx_RateLib fx_PromLib fx_PgLib quiet_Env temp_sensor_01 eq_refl) as [_ Hp].
  destruct (Hp ∅ 256%nat 1000 2%nat (fresh_world init_sql) overtaken [70 * Second; 4 * Second]) as [Hapart _].
  - repeat first [apply Forall_nil; exact I | apply Forall_cons; split; [exact I|]].
  - apply Forall_true. intros ch. apply fixtures_spelled.
  - exact E.
  - by apply (Hapart 0%nat 1%nat).
Defined.
