(* ===== verification/Metrics.v ===== *)
(** * What the services report about themselves

    The metrics of [ingestion/metrics.go] and [api/metrics.go], the connection-pool
    collector of [shared/metrics.go], and the HTTP server the ingestion service
    exposes them on. *)

From S2P Require Import Prelude GoStd Alerts Pg World Contract Shared Models Http Mux Server Fixtures.
Open Scope Z_scope.
Open Scope string_scope.
Open Scope list_scope.
Open Scope go_scope.

(** ** Descriptors *)

(** [*prometheus.Desc]: name, help, variable label names, constant labels. *)
Record Desc := mkDesc {
  fqName : string;
  help : string;
  variableLabels : list string;
  constLabels : gmap string string;
}.

#[global] Instance Desc_eq_dec : EqDecision Desc.
Proof. solve_decision. Defined.

Inductive ValueType := CounterValue | GaugeValue | HistogramValue.

#[global] Instance ValueType_eq_dec : EqDecision ValueType.
Proof. solve_decision. Defined.

(** [prometheus.Metric] as [MustNewConstMetric] builds it. *)
Record Metric := mkMetric {
  m_desc : Desc;
  m_type : ValueType;
  m_value : float64;
}.

(** The collectors declared at package level, with the kind of each. *)
Definition ingestion_metrics : list (Desc * ValueType) :=
  [(mkDesc "sitewatch_ingestion_messages_received_total"
      "MQTT telemetry messages dequeued for processing." [] ∅, CounterValue);
   (mkDesc "sitewatch_ingestion_messages_dropped_total"
      "MQTT telemetry messages dropped because the job queue was full." [] ∅, CounterValue);
   (mkDesc "sitewatch_ingestion_message_processing_duration_seconds"
      "Time to fully process one telemetry message (Mongo write, Postgres update, alert evaluation)." [] ∅,
      HistogramValue);
   (mkDesc "sitewatch_ingestion_alert_decisions_total"
      "Alert engine decisions applied, by action." ["action"] ∅, CounterValue)].

Definition api_metrics : list (Desc * ValueType) :=
  [(mkDesc "sitewatch_api_http_requests_total"
      "HTTP requests handled, by method, route pattern, and status code." ["method"; "path"; "status"] ∅,
      CounterValue);
   (mkDesc "sitewatch_api_http_request_duration_seconds"
      "HTTP request latency, by method and route pattern." ["method"; "path"] ∅, HistogramValue)].

(** ** PostgresPoolCollector *)

(** What [pool.Stat()] answers: four int32 gauges and two int64 totals. *)
Record PoolStat := mkPoolStat {
  AcquiredConns : Z;
  IdleConns : Z;
  TotalConns : Z;
  MaxConns : Z;
  NewConnsCount : Z;
  AcquireCount : Z;
}.

(** The pool itself is represented by what it answers at the time of the scrape. *)
Record PostgresPoolCollector := mkPostgresPoolCollector {
  pool : World → PoolStat;
  subsystem : string;
  acquired : Desc;
  idle : Desc;
  total : Desc;
  maxConns : Desc;
  newConns : Desc;
  acquireCt : Desc;
}.

Definition NewPostgresPoolCollector (pool : World → PoolStat) (subsystem : string) : PostgresPoolCollector :=
  let labels : gmap string string := {["service" := subsystem]} in
  let desc name help := mkDesc ("sitewatch_postgres_pool_" +:+ name) help [] labels in
  mkPostgresPoolCollector pool subsystem
    (desc "acquired_conns" "Connections currently checked out by the application")
    (desc "idle_conns" "Connections idle in the pool")
    (desc "total_conns" "Total connections currently open (acquired + idle)")
    (desc "max_conns" "Configured maximum pool size")
    (desc "new_conns_total" "Cumulative connections established since pool creation")
    (desc "acquires_total" "Cumulative successful Acquire() calls").

(** The values sent on the channel, in order. *)
Definition Describe (c : PostgresPoolCollector) : list Desc :=
  [acquired c; idle c; total c; maxConns c; newConns c; acquireCt c].

Definition Collect (c : PostgresPoolCollector) (w : World) : list Metric :=
  let stat := pool c w in
  [mkMetric (acquired c) GaugeValue (float_of_Z (AcquiredConns stat));
   mkMetric (idle c) GaugeValue (float_of_Z (IdleConns stat));
   mkMetric (total c) GaugeValue (float_of_Z (TotalConns stat));
   mkMetric (maxConns c) GaugeValue (float_of_Z (MaxConns stat));
   mkMetric (newConns c) CounterValue (float_of_Z (NewConnsCount stat));
   mkMetric (acquireCt c) CounterValue (float_of_Z (AcquireCount stat))].

(** What each [main] registers besides the library's own collectors. *)
Definition ingestion_registry (pool : World → PoolStat) : list Desc :=
  ingestion_metrics.*1 ++ Describe (NewPostgresPoolCollector pool "ingestion").

Definition api_registry (pool : World → PoolStat) : list Desc :=
  api_metrics.*1 ++ Describe (NewPostgresPoolCollector pool "api").

(** ** newMetricsServer *)

(** net/http/pprof *)
Class PprofLib := {
  pprof_Index : Handler;
  pprof_Cmdline : Handler;
  pprof_Profile : Handler;
  pprof_Symbol : Handler;
  pprof_Trace : Handler;
}.

Definition dquote : string := String "034" "".

Section MetricsServer.
Context `{!PromLib, !PprofLib}.

(** [w.WriteHeader(http.StatusOK)] and the body, as bytes. *)
Definition healthz_text : Handler := λ w r,
  Ret (Write (PText ("{" +:+ dquote +:+ "status" +:+ dquote +:+ ":" +:+ dquote +:+ "ok" +:+ dquote +:+ "}"))
         (WriteHeader StatusOK w)).

Definition metrics_table : list (string * Handler) :=
  [("/healthz", healthz_text);
   ("/metrics", metrics_handler);
   ("/debug/pprof/", pprof_Index);
   ("/debug/pprof/cmdline", pprof_Cmdline);
   ("/debug/pprof/profile", pprof_Profile);
   ("/debug/pprof/symbol", pprof_Symbol);
   ("/debug/pprof/trace", pprof_Trace)].

Definition newMetricsServer (port : string) : http_Server :=
  mkServer (":" +:+ port) (ServeMux metrics_table) (5 * Second).

(** ** Dispatch *)

Lemma match_debug path :
  match_path "/debug/pprof/" path = if decide (HasPrefix path "/debug/pprof/" = true) then Some ∅ else None.
Proof.
  unfold match_path.
  change (Split (pattern_path "/debug/pprof/") slash) with (["" ; "debug"; "pprof"] ++ [""]).
  rewrite match_segments_subtree by set_solver. apply decide_ext. unfold HasPrefix. rewrite prefix_app. split.
  - intros [E Hl]. destruct (Split path slash) as [|s0 [|s1 [|s2 [|s3 segs]]]] eqn:Es; simpl in *; try lia.
    simplify_eq. exists (GoStd.Join (s3 :: segs) slash). by rewrite <-(Join_Split path slash), Es.
  - intros [t ->]. change ("/debug/pprof/" +:+ t) with
      ("" +:+ String slash ("debug" +:+ String slash ("pprof" +:+ String slash t))).
    rewrite !Split_prefix by done. split; [done|]. pose proof (Split_not_nil t slash).
    destruct (Split t slash); [done|]. simpl. lia.
Qed.

(** The pattern [find_route] selects, as a cascade. *)
Definition metrics_route (path : string) : option (string * Handler) :=
  if decide (path = "/healthz") then Some ("/healthz", healthz_text)
  else if decide (path = "/metrics") then Some ("/metrics", metrics_handler)
  else if decide (path = "/debug/pprof/cmdline") then Some ("/debug/pprof/cmdline", pprof_Cmdline)
  else if decide (path = "/debug/pprof/profile") then Some ("/debug/pprof/profile", pprof_Profile)
  else if decide (path = "/debug/pprof/symbol") then Some ("/debug/pprof/symbol", pprof_Symbol)
  else if decide (path = "/debug/pprof/trace") then Some ("/debug/pprof/trace", pprof_Trace)
  else if HasPrefix path "/debug/pprof/" then Some ("/debug/pprof/", pprof_Index)
  else None.

Lemma find_metrics_route method path :
  find_route metrics_table method path = (λ ph, (ph.1, ph.2, ∅)) <$> metrics_route path.
Proof.
  unfold metrics_table. cbn [find_route].
  rewrite !match_route_any_method by reflexivity. rewrite match_debug.
  rewrite !match_path_literal by (done || (vm_compute; set_solver)).
  repeat match goal with |- context [pattern_path ?p] => change (pattern_path p) with p end.
  unfold metrics_route.
  repeat match goal with
  | |- context [decide (path = ?p)] => destruct (decide (path = p)) as [->|_]; [reflexivity|]
  end.
  by destruct (HasPrefix path _).
Qed.

Definition metrics_paths : list string :=
  ["/healthz"; "/metrics"; "/debug/pprof/cmdline"; "/debug/pprof/profile"; "/debug/pprof/symbol";
   "/debug/pprof/trace"].

Lemma metrics_route_other path :
  path ∉ metrics_paths →
  metrics_route path = if HasPrefix path "/debug/pprof/" then Some ("/debug/pprof/", pprof_Index) else None.
Proof.
  unfold metrics_paths, metrics_route. intros Hn.
  repeat (rewrite decide_False by (intros ->; apply Hn; set_solver)). done.
Qed.

Lemma finds_metrics_exactly method path :
  finds_exactly metrics_table method path =
    bool_decide (path ∈ metrics_paths) ||
    (HasPrefix path "/debug/pprof/" && ends_with_slash path &&
     bool_decide (length (Split path slash) = 4%nat)).
Proof.
  unfold finds_exactly. rewrite find_metrics_route. case_bool_decide as Hin.
  - unfold metrics_paths in Hin. rewrite !elem_of_cons in Hin.
    destruct_or! Hin; subst; try done. by apply not_elem_of_nil in Hin.
  - rewrite metrics_route_other by done. destruct (HasPrefix path _); [|done].
    cbn [fmap option_fmap option_map fst]. unfold exact_match.
    change (negb (is_subtree "/debug/pprof/")) with false. cbn [orb andb]. f_equal. apply bool_decide_ext.
    change (segments "/debug/pprof/") with 4%nat. naive_solver.
Qed.

(** Only "/debug/pprof" is sent to its subtree. *)
Lemma metrics_redirects method path :
  slash_redirect metrics_table method path = bool_decide (path = "/debug/pprof").
Proof.
  unfold slash_redirect. rewrite !finds_metrics_exactly, ends_with_slash_snoc.
  rewrite (bool_decide_false (path +:+ "/" ∈ metrics_paths)).
  2: { unfold metrics_paths. rewrite !elem_of_cons. intros Hin.
       destruct_or! Hin; try (by apply not_elem_of_nil in Hin);
         pose proof (ends_with_slash_snoc path) as E; rewrite Hin in E; done. }
  change (path +:+ "/") with (path +:+ String slash ""). rewrite Split_snoc, length_app. cbn [length].
  case_bool_decide as Hp.
  { unfold metrics_paths in Hp. rewrite !elem_of_cons in Hp.
    destruct_or! Hp; try (by apply not_elem_of_nil in Hp); subst; reflexivity. }
  destruct (decide (path = "/debug/pprof")) as [->|Hne]; [reflexivity|].
  rewrite (bool_decide_false (path = _)) by done.
  destruct (HasPrefix (path +:+ _) _) eqn:Hpre; [|by rewrite andb_false_r].
  cbn [orb andb]. destruct (decide ((length (Split path slash) + 1)%nat = 4%nat)) as [Hl|Hl];
    [|by rewrite (bool_decide_false _ Hl), andb_false_r].
  exfalso. apply Hne.
  apply prefix_app in Hpre as [t E]. apply (Split_inj _ _ slash).
  assert (Split (path +:+ String slash "") slash = "" :: "debug" :: "pprof" :: Split t slash) as Es.
  { rewrite E. change ("/debug/pprof/" +:+ t) with
      ("" +:+ String slash ("debug" +:+ String slash ("pprof" +:+ String slash t))).
    by rewrite !Split_prefix. }
  rewrite Split_snoc in Es. destruct (Split path slash) as [|s0 [|s1 [|s2 [|]]]]; simpl in Hl; try lia.
  by simplify_eq/=.
Qed.

End MetricsServer.

(** ** Properties *)

(** The metrics server answers by path alone, whatever the method: the health check,
    the exposition, the four named profiles, the index for everything else below
    /debug/pprof/, a redirect to it from /debug/pprof, and 404 for any other path. *)
Theorem metrics_server_dispatch `{!PromLib, !PprofLib} port w r :
  r_Method r ≠ "CONNECT" → cleanPath (r_Path r) = r_Path r →
  srv_Handler (newMetricsServer port) w r =
    let path := r_Path r in
    let serve (h : Handler) := h w (with_PathValue ∅ r) in
    if decide (path = "/healthz") then serve healthz_text
    else if decide (path = "/metrics") then serve metrics_handler
    else if decide (path = "/debug/pprof/cmdline") then serve pprof_Cmdline
    else if decide (path = "/debug/pprof/profile") then serve pprof_Profile
    else if decide (path = "/debug/pprof/symbol") then serve pprof_Symbol
    else if decide (path = "/debug/pprof/trace") then serve pprof_Trace
    else if HasPrefix path "/debug/pprof/" then serve pprof_Index
    else if decide (path = "/debug/pprof") then Ret (Redirect w r "/debug/pprof/")
    else Ret (http_Error w "404 page not found" StatusNotFound).
Proof.
  intros Hm Hc. cbn [srv_Handler newMetricsServer]. unfold ServeMux.
  rewrite (decide_False (P := r_Method r = "CONNECT")) by done. rewrite Hc, metrics_redirects, find_metrics_route.
  rewrite (decide_False (P := r_Path r = "*")) by (intros E; by rewrite E in Hc).
  rewrite (decide_False (P := r_Path r ≠ r_Path r)) by naive_solver.
  unfold metrics_route. cbv zeta.
  repeat match goal with
  | |- context [decide (r_Path r = ?p)] =>
      lazymatch p with "/debug/pprof" => fail | _ => idtac end;
      destruct (decide (r_Path r = p)) as [->|?]; [done|]
  end.
  destruct (HasPrefix (r_Path r) _) eqn:Hpre.
  { case_bool_decide as E; [by rewrite E in Hpre|done]. }
  case_bool_decide as E; [by rewrite decide_True, E|]. rewrite decide_False by done. cbn [fmap option_fmap option_map].
  rewrite matchingMethods_nil; [done|]. intros method. rewrite find_metrics_route.
  rewrite metrics_route_other by (unfold metrics_paths; set_solver). by rewrite Hpre.
Qed.

(** A Prometheus metric name: letters, digits, underscores and colons, not starting
    with a digit. *)
Definition name_char (a : ascii) : bool :=
  let n := nat_of_ascii a in
  bool_decide ((65 <= n <= 90)%nat ∨ (97 <= n <= 122)%nat ∨ n = 95%nat ∨ n = 58%nat).

Definition valid_name (s : string) : bool :=
  match s with
  | EmptyString => false
  | String a s' =>
      name_char a && string_forallb (λ b, name_char b || match digit_val b with Some _ => true | None => false end) s'
  end.

Definition HasSuffix (s suffix : string) : bool :=
  bool_decide ((String.length suffix <= String.length s)%nat ∧
    String.substring (String.length s - String.length suffix) (String.length suffix) s = suffix).

(** The contract of a collector.  On every scrape, whatever the pool answers,
    [Collect] sends one value for each descriptor [Describe] announces, in that order,
    labelled with its service; the two cumulative values are the counters, and they
    are the ones whose name ends in _total. *)
Theorem pool_collector_contract pool service w :
  let c := NewPostgresPoolCollector pool service in
  m_desc <$> Collect c w = Describe c ∧
  NoDup (fqName <$> Describe c) ∧
  (m_value <$> Collect c w) = float_of_Z <$>
    [AcquiredConns (pool w); IdleConns (pool w); TotalConns (pool w); MaxConns (pool w);
     NewConnsCount (pool w); AcquireCount (pool w)] ∧
  ∀ m, m ∈ Collect c w →
    constLabels (m_desc m) !! "service" = Some service ∧
    (m_type m = CounterValue ↔ HasSuffix (fqName (m_desc m)) "_total" = true).
Proof.
  cbv zeta. split_and!; [done| |done|].
  - apply (bool_decide_unpack _). vm_compute. exact I.
  - intros m Hin. unfold Collect in Hin. rewrite !elem_of_cons in Hin.
    destruct_or! Hin; try (by apply not_elem_of_nil in Hin); subst m; split; try by rewrite lookup_insert_eq.
    all: cbn [m_type m_desc]; split; done || (intros Hs; vm_compute in Hs; done).
Qed.

(** Counters are the metrics named _total. *)
Definition counter_named (dt : Desc * ValueType) : Prop :=
  dt.2 = CounterValue ↔ HasSuffix (fqName dt.1) "_total" = true.

(** The descriptors each service registers meet the consistency criteria of the
    registry: every name is a valid metric name and no name occurs twice, so
    MustRegister cannot refuse them; exactly the counters are named _total; and no
    descriptor of one service equals one of the other, so series of the two services
    stay apart. *)
Theorem registries_consistent ping papi :
  (∀ d, d ∈ ingestion_registry ping ++ api_registry papi → valid_name (fqName d) = true) ∧
  NoDup (fqName <$> ingestion_registry ping) ∧ NoDup (fqName <$> api_registry papi) ∧
  Forall counter_named (ingestion_metrics ++ api_metrics) ∧
  ∀ d, d ∈ ingestion_registry ping → d ∉ api_registry papi.
Proof.
  split_and!.
  - apply Forall_forall. apply (bool_decide_unpack _). vm_compute. exact I.
  - apply (bool_decide_unpack _). vm_compute. exact I.
  - apply (bool_decide_unpack _). vm_compute. exact I.
  - repeat (apply Forall_cons; split; [by vm_compute|]). done.
  - apply Forall_forall. apply (bool_decide_unpack _). vm_compute. exact I.
Qed.

(** ** Witnesses *)

Definition fx_PprofLib : PprofLib := {|
  pprof_Index w r := Ret (Write (PText "index") w);
  pprof_Cmdline w r := Ret (Write (PText "cmdline") w);
  pprof_Profile w r := Ret (Write (PText "profile") w);
  pprof_Symbol w r := Ret (Write (PText "symbol") w);
  pprof_Trace w r := Ret (Write (PText "trace") w);
|}.

Lemma metrics_server_dispatch_witness :
  w_body (run (srv_Handler (@newMetricsServer fx_PromLib fx_PprofLib "8081") new_response
    (fx_request "POST" "/debug/pprof/goroutine")) (fresh_world init_sql)).1 = [PText "index"].
Proof.
  rewrite (@metrics_server_dispatch fx_PromLib fx_PprofLib "8081" new_response
    (fx_request "POST" "/debug/pprof/goroutine")).
  - reflexivity.
  - discriminate.
  - vm_compute. reflexivity.
Defined.
