(* ===== verification/Startup.v ===== *)
(** * Starting and stopping the two processes

    [LoadRootEnv] (shared/env.go), the connections and the index of shared/db.go, and
    the two [main] functions: what is opened in which order, what a failing step does,
    and how the processes end.  A [main] is a program over the process ([Host]): its
    environment and the trace of what it did to the outside. *)

From S2P Require Import Prelude GoStd Alerts Pg World Contract Shared Store Process Engine Pool Fixtures.
From S2P Require Import Models Http Mux ApiAlerts ApiRules ApiDevices RateLimit Server Metrics.
Open Scope Z_scope.
Open Scope string_scope.
Open Scope list_scope.
Open Scope go_scope.

(** ** The process and the libraries it calls *)

(** The fields of [pgxpool.Config] the code touches. *)
Record PoolConfig := mkPoolConfig {
  cfg_ConnString : string;
  cfg_MaxConns : Z;
}.

(** [options.Client().ApplyURI(uri).SetMaxPoolSize(n)] *)
Record MongoOptions := mkMongoOptions {
  mo_URI : string;
  mo_MaxPoolSize : Z;
}.

(** [mongo.IndexModel]: keys with their directions, and the name. *)
Record IndexModel := mkIndexModel {
  ix_Keys : list (string * Z);
  ix_Name : string;
}.

(** [mqtt.ClientOptions] as [main] sets them. *)
Record ClientOptions := mkClientOptions {
  mq_Broker : string;
  mq_ClientID : string;
  mq_AutoReconnect : bool;
}.

(** What a [main] does to the outside, in order. *)
Inductive event :=
| Logged (level msg : string)
| SignalsOn | SignalsOff                         (* signal.NotifyContext, stop() *)
| PgOpened (cfg : PoolConfig) | PgClosed
| MongoOpened (opts : MongoOptions) | MongoClosed
| IndexEnsured (db coll : string) (ix : IndexModel)
| Registered (descs : list Desc)
| MetricsStarted (addr : string) | MetricsStopped (timeout : Z)
| WorkersStarted (workers queueSize debounceN : Z)
| BrokerConnected (opts : ClientOptions) | BrokerDisconnected (quiesce : Z)
| Subscribed (filter : string) (qos : Z)
| CleanupStarted (interval maxIdle : Z) | CleanupStopped
| Listening (addr : string) (readHeaderTimeout : Z)
| SignalReceived
| ContextCancelled.                              (* the cancel of context.WithTimeout *)

Record Host := mkHost {
  h_env : gmap string string;
  h_trace : list event;
}.

(** How [main] ends: by returning, its deferred calls done, or by [os.Exit]. *)
Inductive exit := Returned | Exited (code : Z).

(** How [ListenAndServe] ends: [http.ErrServerClosed] or another error. *)
Inductive serve_end := ErrServerClosed | ServeError.

(** The libraries, by the outcome of each call.  godotenv documents that a variable
    that is already set is not overridden. *)
Class Outside := {
  runtime_Caller : option string;
  godotenv_Load : string → gmap string string → option error * gmap string string;
  godotenv_keeps : ∀ path env k v, env !! k = Some v → (godotenv_Load path env).2 !! k = Some v;
  pgxpool_ParseConfig : string → result PoolConfig;
  pgxpool_NewWithConfig : PoolConfig → result unit;
  pool_Stat : World → PoolStat;
  mongo_Connect : MongoOptions → result unit;
  mongo_CreateOne : string → string → IndexModel → result unit;
  mongo_Disconnect : option error;
  mqtt_Connect : ClientOptions → option error;
  mqtt_Subscribe : string → Z → option error;
  metrics_Shutdown : option error;
  ListenAndServe : string → serve_end;
}.

Definition emit (e : event) : prog Host unit := act (λ h, (tt, mkHost (h_env h) (h_trace h ++ [e]))).
Definition environ : prog Host (gmap string string) := act (λ h, (h_env h, h)).
Definition Getenv (key : string) : prog Host string := act (λ h, (os_Getenv (h_env h) key, h)).
Definition logged (level msg : string) : prog Host unit := emit (Logged level msg).

(** [defer d] before [body]: run when [body] returns, not when it exits. *)
Definition with_defer (d : prog Host unit) (body : prog Host exit) : prog Host exit :=
  o <- body ;;
  match o with
  | Returned => d ;; Ret Returned
  | Exited code => Ret (Exited code)
  end.

(** [logger.Error(msg, ...); os.Exit(1)] *)
Definition fatal (msg : string) : prog Host exit := logged "ERROR" msg ;; Ret (Exited 1).

Section Startup.
Context `{!Outside}.

(** ** Package shared *)

(** [filepath.Join(filepath.Dir(thisFile), "..", ".env")] for a rooted [thisFile]. *)
Definition root_env_path (thisFile : string) : string :=
  "/" +:+ GoStd.Join (foldl clean_segment [] (removelast (Split thisFile slash) ++ [".."; ".env"])) slash.

Definition LoadRootEnv : prog Host unit :=
  match runtime_Caller with
  | None => Ret tt
  | Some thisFile =>
      let path := root_env_path thisFile in
      err <- act (λ h, let '(err, env) := godotenv_Load path (h_env h) in (err, mkHost env (h_trace h))) ;;
      match err with
      | Some e => if errors_Is_NotExist e then Ret tt else logged "WARN" "could not load .env"
      | None => Ret tt
      end
  end.

Definition NewPostgresPool : prog Host (result unit) :=
  url <- Getenv "POSTGRES_URL" ;;
  match pgxpool_ParseConfig url with
  | Err e => Ret (Err (Wrapf "parse POSTGRES_URL" e))
  | Ok cfg =>
      env <- environ ;;
      let cfg := mkPoolConfig (cfg_ConnString cfg) (NewPostgresPool_MaxConns env) in
      match pgxpool_NewWithConfig cfg with
      | Err e => Ret (Err (Wrapf "connect postgres" e))
      | Ok _ => emit (PgOpened cfg) ;; Ret (Ok tt)
      end
  end.

Definition NewMongoClient : prog Host (result unit) :=
  env <- environ ;;
  let poolSize := NewMongoClient_poolSize env in
  url <- Getenv "MONGO_URL" ;;
  let opts := mkMongoOptions url poolSize in
  match mongo_Connect opts with
  | Err e => Ret (Err (Wrapf "connect mongo" e))
  | Ok _ => emit (MongoOpened opts) ;; Ret (Ok tt)
  end.

Definition telemetry_index : IndexModel := mkIndexModel [("device_id", 1); ("ts", -1)] "device_id_ts".

Definition EnsureTelemetryIndexes (dbName : string) : prog Host (result unit) :=
  match mongo_CreateOne dbName "telemetry_raw" telemetry_index with
  | Err e => Ret (Err (Wrapf "ensure telemetry_raw index" e))
  | Ok _ => emit (IndexEnsured dbName "telemetry_raw" telemetry_index) ;; Ret (Ok tt)
  end.

Definition disconnect_mongo : prog Host unit :=
  emit MongoClosed ;;
  match mongo_Disconnect with Some _ => logged "WARN" "mongo disconnect" | None => Ret tt end.

(** ** ingestion/main.go *)

Definition telemetry_filter : string := "sitewatch/+/+/telemetry".

(** [opts.OnConnect], run by the client after every (re)connection. *)
Definition on_connect : prog Host unit :=
  logged "INFO" "connected to broker, subscribing" ;;
  match mqtt_Subscribe telemetry_filter 1 with
  | Some _ => logged "ERROR" "subscribe failed"
  | None => emit (Subscribed telemetry_filter 1)
  end.

(** [opts.OnConnectionLost]; the client reconnects by itself. *)
Definition on_connection_lost : prog Host unit := logged "WARN" "mqtt connection lost".

Definition or_default (s fallback : string) : string := if decide (s = "") then fallback else s.

(** The goroutine of the metrics server. *)
Definition serve_metrics (addr : string) : prog Host unit :=
  logged "INFO" "metrics server starting" ;;
  match ListenAndServe addr with
  | ServeError => logged "ERROR" "metrics server stopped"
  | ErrServerClosed => Ret tt
  end.

(** After the stores are ready: metrics, workers, broker, and the wait for a signal. *)
Definition ingestion_serve : prog Host exit :=
  emit (Registered (ingestion_registry pool_Stat)) ;;
  port <- Getenv "INGESTION_PORT" ;;
  let metricsPort := or_default port "8081" in
  emit (MetricsStarted (":" +:+ metricsPort)) ;;
  env <- environ ;;
  let workerCount := intFromEnv env "INGESTION_WORKER_COUNT" defaultWorkerCount in
  let queueSize := intFromEnv env "INGESTION_QUEUE_SIZE" defaultQueueSize in
  let debounceN := intFromEnv env "ALERT_DEBOUNCE_BREACHES" defaultDebounceBreaches in
  emit (WorkersStarted workerCount queueSize debounceN) ;;
  logged "INFO" "worker pool started" ;;
  brokerURL <- Getenv "MQTT_BROKER_URL" ;;
  let opts := mkClientOptions brokerURL "sitewatch-ingestion" true in
  match mqtt_Connect opts with
  | Some _ => fatal "mqtt connect"
  | None =>
      emit (BrokerConnected opts) ;;
      emit SignalReceived ;;
      logged "INFO" "shutting down" ;;
      emit (BrokerDisconnected 250) ;;
      with_defer (emit ContextCancelled)
        (emit (MetricsStopped (5 * Second)) ;;
         match metrics_Shutdown with
         | Some _ => logged "WARN" "metrics server shutdown" ;; Ret Returned
         | None => Ret Returned
         end)
  end.

Definition ingestion_main : prog Host exit :=
  LoadRootEnv ;;
  emit SignalsOn ;;
  with_defer (emit SignalsOff)
    (pg <- NewPostgresPool ;;
     match pg with
     | Err _ => fatal "connect postgres"
     | Ok _ =>
         with_defer (emit PgClosed)
           (mongo <- NewMongoClient ;;
            match mongo with
            | Err _ => fatal "connect mongo"
            | Ok _ =>
                with_defer disconnect_mongo
                  (mongoDB <- Getenv "MONGO_DB" ;;
                   ix <- EnsureTelemetryIndexes mongoDB ;;
                   match ix with
                   | Err _ => fatal "ensure mongo indexes"
                   | Ok _ => ingestion_serve
                   end)
            end)
     end).

(** ** api/main.go *)

(** What remains once [ListenAndServe] has returned [e], up to the first [defer]. *)
Definition api_stopped (e : serve_end) : prog Host exit :=
  match e with
  | ErrServerClosed => Ret Returned
  | ServeError => fatal "server stopped"
  end.

Definition api_serve : prog Host exit :=
  emit (Registered (api_registry pool_Stat)) ;;
  emit (CleanupStarted Minute (10 * Minute)) ;;
  with_defer (emit CleanupStopped)
    (port <- Getenv "API_PORT" ;;
     let port := or_default port "8080" in
     logged "INFO" "api service starting" ;;
     emit (Listening (":" +:+ port) (5 * Second)) ;;
     api_stopped (ListenAndServe (":" +:+ port))).

Definition api_main : prog Host exit :=
  LoadRootEnv ;;
  emit SignalsOn ;;
  with_defer (emit SignalsOff)
    (pg <- NewPostgresPool ;;
     match pg with
     | Err _ => fatal "connect postgres"
     | Ok _ =>
         with_defer (emit PgClosed)
           (mongo <- NewMongoClient ;;
            match mongo with
            | Err _ => fatal "connect mongo"
            | Ok _ => with_defer disconnect_mongo api_serve
            end)
     end).

(** The rest of [main] after [ListenAndServe]: the error branch and the deferred calls. *)
Definition api_unwind (e : serve_end) : prog Host exit :=
  with_defer (emit SignalsOff) (with_defer (emit PgClosed)
    (with_defer disconnect_mongo (with_defer (emit CleanupStopped) (api_stopped e)))).

End Startup.

(** ** Brackets *)

Inductive resource := Signals | Postgres | Mongo | MetricsServer | Broker | Cleanup.

#[global] Instance resource_eq_dec : EqDecision resource.
Proof. solve_decision. Defined.

Definition opens (e : event) : option resource :=
  match e with
  | SignalsOn => Some Signals
  | PgOpened _ => Some Postgres
  | MongoOpened _ => Some Mongo
  | MetricsStarted _ => Some MetricsServer
  | BrokerConnected _ => Some Broker
  | CleanupStarted _ _ => Some Cleanup
  | _ => None
  end.

Definition closes (e : event) : option resource :=
  match e with
  | SignalsOff => Some Signals
  | PgClosed => Some Postgres
  | MongoClosed => Some Mongo
  | MetricsStopped _ => Some MetricsServer
  | BrokerDisconnected _ => Some Broker
  | CleanupStopped => Some Cleanup
  | _ => None
  end.

(** The environment a [main] reads after [LoadRootEnv]. *)
Definition loaded_env `{!Outside} (env : gmap string string) : gmap string string :=
  match runtime_Caller with
  | Some thisFile => (godotenv_Load (root_env_path thisFile) env).2
  | None => env
  end.

(** The pool and the client the two [main]s ask for, and the error they get. *)
Definition postgres_setup `{!Outside} (env : gmap string string) : result PoolConfig :=
  match pgxpool_ParseConfig (os_Getenv env "POSTGRES_URL") with
  | Err e => Err (Wrapf "parse POSTGRES_URL" e)
  | Ok cfg =>
      let cfg := mkPoolConfig (cfg_ConnString cfg) (NewPostgresPool_MaxConns env) in
      match pgxpool_NewWithConfig cfg with Err e => Err (Wrapf "connect postgres" e) | Ok _ => Ok cfg end
  end.

Definition mongo_setup `{!Outside} (env : gmap string string) : result MongoOptions :=
  let opts := mkMongoOptions (os_Getenv env "MONGO_URL") (NewMongoClient_poolSize env) in
  match mongo_Connect opts with Err e => Err (Wrapf "connect mongo" e) | Ok _ => Ok opts end.

(** The first step that fails, by the message it is logged with. *)
Definition stores_failure `{!Outside} (env : gmap string string) : option string :=
  match postgres_setup env, mongo_setup env with
  | Err _, _ => Some "connect postgres"
  | _, Err _ => Some "connect mongo"
  | _, _ => None
  end.

Definition broker_options (env : gmap string string) : ClientOptions :=
  mkClientOptions (os_Getenv env "MQTT_BROKER_URL") "sitewatch-ingestion" true.

Definition ingestion_failure `{!Outside} (env : gmap string string) : option string :=
  match stores_failure env with
  | Some m => Some m
  | None =>
      match mongo_CreateOne (os_Getenv env "MONGO_DB") "telemetry_raw" telemetry_index with
      | Err _ => Some "ensure mongo indexes"
      | Ok _ =>
          match mqtt_Connect (broker_options env) with
          | Some _ => Some "mqtt connect"
          | None => None
          end
      end
  end.

(** *** Running the parts *)

Lemma run_emit e h : run (emit e) h = (tt, mkHost (h_env h) (h_trace h ++ [e])).
Proof. reflexivity. Qed.

Lemma run_fatal m h : run (fatal m) h = (Exited 1, mkHost (h_env h) (h_trace h ++ [Logged "ERROR" m])).
Proof. reflexivity. Qed.

Lemma run_with_defer d body h :
  run (with_defer d body) h =
    match run body h with
    | (Returned, h') => (Returned, (run d h').2)
    | (Exited code, h') => (Exited code, h')
    end.
Proof.
  unfold with_defer. rewrite run_bind. destruct (run body h) as [[] h']; [|done].
  cbn [fst snd]. by rewrite run_bind.
Qed.

Lemma run_NewPostgresPool `{!Outside} env tr :
  run NewPostgresPool (mkHost env tr) =
    match postgres_setup env with
    | Ok cfg => (Ok tt, mkHost env (tr ++ [PgOpened cfg]))
    | Err e => (Err e, mkHost env tr)
    end.
Proof.
  unfold NewPostgresPool, postgres_setup, Getenv, environ. rewrite run_bind, run_act. cbn [fst snd h_env].
  destruct (pgxpool_ParseConfig _) as [cfg|e]; [|done]. rewrite run_bind, run_act. cbn [fst snd h_env].
  cbv zeta. by destruct (pgxpool_NewWithConfig _).
Qed.

Lemma run_NewMongoClient `{!Outside} env tr :
  run NewMongoClient (mkHost env tr) =
    match mongo_setup env with
    | Ok opts => (Ok tt, mkHost env (tr ++ [MongoOpened opts]))
    | Err e => (Err e, mkHost env tr)
    end.
Proof.
  unfold NewMongoClient, mongo_setup, Getenv, environ. rewrite run_bind, run_act. cbn [fst snd h_env].
  cbv zeta. rewrite run_bind, run_act. cbn [fst snd h_env]. by destruct (mongo_Connect _).
Qed.

Lemma run_LoadRootEnv `{!Outside} env :
  ∃ warn, run LoadRootEnv (mkHost env []) = (tt, mkHost (loaded_env env) warn) ∧
    (warn = [] ∨ warn = [Logged "WARN" "could not load .env"]).
Proof.
  unfold LoadRootEnv, loaded_env. destruct runtime_Caller as [thisFile|]; [|by exists []; auto].
  rewrite run_bind, run_act. cbn [h_env h_trace fst snd]. destruct (godotenv_Load _ env) as [[e|] env'].
  - cbn [fst snd]. destruct (errors_Is_NotExist e); [exists []|eexists]; auto.
  - exists []. auto.
Qed.

(** What the two [main]s have in common. *)
Definition with_stores `{!Outside} (body : prog Host exit) : prog Host exit :=
  LoadRootEnv ;;
  emit SignalsOn ;;
  with_defer (emit SignalsOff)
    (pg <- NewPostgresPool ;;
     match pg with
     | Err _ => fatal "connect postgres"
     | Ok _ =>
         with_defer (emit PgClosed)
           (mongo <- NewMongoClient ;;
            match mongo with
            | Err _ => fatal "connect mongo"
            | Ok _ => with_defer disconnect_mongo body
            end)
     end).

Definition close_stores `{!Outside} : list event :=
  [MongoClosed] ++ (if mongo_Disconnect then [Logged "WARN" "mongo disconnect"] else []) ++
  [PgClosed; SignalsOff].

(** Everything before the body: a warning about the .env file, signals, stores. *)
Definition boot_warning (warn : list event) : Prop :=
  warn = [] ∨ warn = [Logged "WARN" "could not load .env"].

Lemma run_with_stores `{!Outside} body env0 :
  let env := loaded_env env0 in
  ∃ warn, boot_warning warn ∧
    run (with_stores body) (mkHost env0 []) =
    match postgres_setup env, mongo_setup env with
    | Err _, _ => (Exited 1, mkHost env (warn ++ [SignalsOn; Logged "ERROR" "connect postgres"]))
    | Ok cfg, Err _ => (Exited 1, mkHost env (warn ++ [SignalsOn; PgOpened cfg; Logged "ERROR" "connect mongo"]))
    | Ok cfg, Ok opts =>
        match run body (mkHost env (warn ++ [SignalsOn; PgOpened cfg; MongoOpened opts])) with
        | (Returned, h) => (Returned, mkHost (h_env h) (h_trace h ++ close_stores))
        | (Exited code, h) => (Exited code, h)
        end
    end.
Proof.
  unfold with_stores. rewrite run_bind. destruct (run_LoadRootEnv env0) as (warn & -> & Hwarn).
  cbn [fst snd]. generalize (loaded_env env0). intros env. exists warn. split; [done|].
  rewrite run_bind, run_emit. cbn [snd h_env h_trace]. rewrite run_with_defer, run_bind, run_NewPostgresPool.
  destruct (postgres_setup env) as [cfg|e]; cbn [fst snd]; [|rewrite run_fatal; cbn [h_env h_trace]; by rewrite <- !app_assoc].
  rewrite run_with_defer, run_bind, run_NewMongoClient.
  destruct (mongo_setup env) as [opts|e]; cbn [fst snd]; [|rewrite run_fatal; cbn [h_env h_trace]; by rewrite <- !app_assoc].
  rewrite run_with_defer, <- !app_assoc. cbn [app].
  destruct (run body _) as [[|code] h]; [|done]. unfold disconnect_mongo. rewrite run_bind, run_emit.
  cbn [fst snd]. unfold close_stores. unfold logged. destruct mongo_Disconnect; rewrite ?run_emit; cbn [fst snd h_env h_trace run app];
    by rewrite <- !app_assoc.
Qed.

(** The body of the ingestion service. *)
Definition ingestion_body `{!Outside} : prog Host exit :=
  mongoDB <- Getenv "MONGO_DB" ;;
  ix <- EnsureTelemetryIndexes mongoDB ;;
  match ix with
  | Err _ => fatal "ensure mongo indexes"
  | Ok _ => ingestion_serve
  end.

Definition ingestion_events `{!Outside} (env : gmap string string) : list event :=
  [IndexEnsured (os_Getenv env "MONGO_DB") "telemetry_raw" telemetry_index;
   Registered (ingestion_registry pool_Stat);
   MetricsStarted (":" +:+ or_default (os_Getenv env "INGESTION_PORT") "8081");
   WorkersStarted (intFromEnv env "INGESTION_WORKER_COUNT" defaultWorkerCount)
     (intFromEnv env "INGESTION_QUEUE_SIZE" defaultQueueSize)
     (intFromEnv env "ALERT_DEBOUNCE_BREACHES" defaultDebounceBreaches);
   Logged "INFO" "worker pool started"].

Lemma run_ingestion_body `{!Outside} env tr :
  run ingestion_body (mkHost env tr) =
    match mongo_CreateOne (os_Getenv env "MONGO_DB") "telemetry_raw" telemetry_index with
    | Err _ => (Exited 1, mkHost env (tr ++ [Logged "ERROR" "ensure mongo indexes"]))
    | Ok _ =>
        match mqtt_Connect (broker_options env) with
        | Some _ => (Exited 1, mkHost env (tr ++ ingestion_events env ++ [Logged "ERROR" "mqtt connect"]))
        | None => (Returned, mkHost env (tr ++ ingestion_events env ++
            [BrokerConnected (broker_options env); SignalReceived; Logged "INFO" "shutting down";
             BrokerDisconnected 250; MetricsStopped (5 * Second)] ++
            (if metrics_Shutdown then [Logged "WARN" "metrics server shutdown"] else []) ++ [ContextCancelled]))
        end
    end.
Proof.
  unfold ingestion_body, Getenv. rewrite run_bind, run_act. cbn [fst snd h_env].
  rewrite run_bind. unfold EnsureTelemetryIndexes. destruct (mongo_CreateOne _ _ _); [|done].
  rewrite run_bind, run_emit. cbn [fst snd h_env h_trace run]. unfold ingestion_serve, environ, Getenv, logged.
  do 7 (rewrite run_bind, ?run_emit, ?run_act; cbn [fst snd h_env h_trace]; cbv zeta).
  fold (broker_options env). rewrite <- !app_assoc. destruct (mqtt_Connect _).
  - rewrite run_fatal. cbn [h_env h_trace]. by rewrite <- !app_assoc.
  - do 4 (rewrite run_bind, run_emit; cbn [fst snd h_env h_trace]).
    rewrite run_with_defer, run_bind, run_emit. cbn [fst snd h_env h_trace].
    destruct metrics_Shutdown; rewrite ?run_bind, ?run_emit; cbn [run fst snd h_env h_trace]; rewrite ?run_emit;
      cbn [run fst snd h_env h_trace]; by rewrite <- !app_assoc.
Qed.

(** Finds the place of an event in an explicit trace. *)
Ltac locate_event E pre :=
  destruct pre as [|? pre]; cbn [app] in E;
  [ first [ discriminate E | injection E as <- <- | injection E as <- <- <- ]
  | first [ discriminate E | injection E as <- E; locate_event E pre ] ].

Definition is_ERROR (e : event) : bool := match e with Logged "ERROR" _ => true | _ => false end.

(** C33: Start and end of the ingestion process, as its main goroutine runs (the goroutine of the
    metrics server and the callbacks of the broker client log on their own).  If a step fails (PostgreSQL, MongoDB, the
    index, the broker, in this order) the process exits with code 1, the failure
    being the last thing it logs and its only ERROR line, and closes nothing;
    otherwise it runs until the signal and returns after closing everything it
    opened, in reverse order.  In both cases the broker is contacted only once the
    stores are open, the index exists and at least one worker waits on the channel. *)
Theorem ingestion_main_outcome `{!Outside} env :
  let '(o, h) := run ingestion_main (mkHost env []) in
  let tr := h_trace h in
  match ingestion_failure (loaded_env env) with
  | Some m => o = Exited 1 ∧ last tr = Some (Logged "ERROR" m) ∧ omap closes tr = []
  | None => o = Returned ∧ omap opens tr = [Signals; Postgres; Mongo; MetricsServer; Broker] ∧
      omap closes tr = reverse (omap opens tr)
  end ∧
  length (filter is_ERROR tr) = (if ingestion_failure (loaded_env env) then 1 else 0)%nat ∧
  ∀ pre opts post, tr = pre ++ BrokerConnected opts :: post →
    Postgres ∈ omap opens pre ∧ Mongo ∈ omap opens pre ∧
    IndexEnsured (os_Getenv (loaded_env env) "MONGO_DB") "telemetry_raw" telemetry_index ∈ pre ∧
    ∃ n q d, WorkersStarted n q d ∈ pre ∧ 0 < n ∧ 0 < q ∧ 0 < d.
Proof.
  change ingestion_main with (with_stores ingestion_body).
  destruct (run_with_stores ingestion_body env) as (warn & Hwarn & ->).
  generalize (loaded_env env). clear env. intros env. unfold ingestion_failure, stores_failure.
  destruct (postgres_setup env) as [cfg|e]; [destruct (mongo_setup env) as [opts|e]|].
  1: rewrite run_ingestion_body; destruct (mongo_CreateOne _ _ _); [destruct (mqtt_Connect _)|].
  2: destruct metrics_Shutdown; unfold close_stores; destruct mongo_Disconnect.
  all: destruct Hwarn as [->| ->]; unfold ingestion_events; generalize (ingestion_registry pool_Stat);
    intros descs; cbn [h_env h_trace app].
  all: split; [by vm_compute|]; split; [by vm_compute|]; intros pre o post E.
  all: locate_event E pre.
  all: pose proof (intFromEnv_range env) as Hr; split_and!; [set_solver..|].
  all: eexists _, _, _; split; [repeat first [apply list_elem_of_here | apply list_elem_of_further]|]; split_and!; by apply Hr.
Qed.

(** *** The API process *)

Definition api_events `{!Outside} (env : gmap string string) : list event :=
  [Registered (api_registry pool_Stat); CleanupStarted Minute (10 * Minute);
   Logged "INFO" "api service starting";
   Listening (":" +:+ or_default (os_Getenv env "API_PORT") "8080") (5 * Second)].

(** What [main] does after [ListenAndServe] has returned [e]. *)
Definition unwind_events `{!Outside} (e : serve_end) : list event :=
  match e with
  | ErrServerClosed => CleanupStopped :: close_stores
  | ServeError => [Logged "ERROR" "server stopped"]
  end.

Definition unwind_code (e : serve_end) : exit :=
  match e with ErrServerClosed => Returned | ServeError => Exited 1 end.

Lemma run_api_unwind `{!Outside} e env tr :
  run (api_unwind e) (mkHost env tr) = (unwind_code e, mkHost env (tr ++ unwind_events e)).
Proof.
  unfold api_unwind, disconnect_mongo, logged. rewrite !run_with_defer.
  destruct e; cbn [api_stopped unwind_code unwind_events]; [|by rewrite run_fatal].
  cbn [run]. rewrite run_emit. cbn [fst snd h_env h_trace]. unfold close_stores. rewrite run_bind, run_emit.
  destruct mongo_Disconnect; cbn [run fst snd h_env h_trace]; rewrite !run_emit; cbn [fst snd h_env h_trace];
    by rewrite <- !app_assoc.
Qed.

Lemma run_api_serve `{!Outside} env tr :
  run api_serve (mkHost env tr) =
    match ListenAndServe (":" +:+ or_default (os_Getenv env "API_PORT") "8080") with
    | ErrServerClosed => (Returned, mkHost env (tr ++ api_events env ++ [CleanupStopped]))
    | ServeError => (Exited 1, mkHost env (tr ++ api_events env ++ [Logged "ERROR" "server stopped"]))
    end.
Proof.
  unfold api_serve, logged, Getenv. do 2 (rewrite run_bind, run_emit; cbn [fst snd h_env h_trace]).
  rewrite run_with_defer, run_bind, run_act. cbn [fst snd h_env h_trace]. cbv zeta.
  do 2 (rewrite run_bind, run_emit; cbn [fst snd h_env h_trace]).
  destruct (ListenAndServe _); cbn [api_stopped]; [cbn [run]; rewrite run_emit|rewrite run_fatal];
    cbn [fst snd h_env h_trace]; by rewrite <- !app_assoc.
Qed.

(** Start and end of the API process.  If PostgreSQL or MongoDB cannot be opened, or
    the listener fails, it exits with code 1, logs the failure last and closes
    nothing; if the server was closed it returns after stopping the limiter's
    clean-up, MongoDB, PostgreSQL and the signal handler, in reverse order of their
    start.  Requests are accepted only with the stores open and the clean-up running. *)
Theorem api_main_outcome `{!Outside} env0 :
  let env := loaded_env env0 in
  let '(o, h) := run api_main (mkHost env0 []) in
  let tr := h_trace h in
  match stores_failure env, ListenAndServe (":" +:+ or_default (os_Getenv env "API_PORT") "8080") with
  | Some m, _ => o = Exited 1 ∧ last tr = Some (Logged "ERROR" m) ∧ omap closes tr = []
  | None, ServeError => o = Exited 1 ∧ last tr = Some (Logged "ERROR" "server stopped") ∧ omap closes tr = []
  | None, ErrServerClosed => o = Returned ∧ omap opens tr = [Signals; Postgres; Mongo; Cleanup] ∧
      omap closes tr = reverse (omap opens tr)
  end ∧
  ∀ pre addr t post, tr = pre ++ Listening addr t :: post →
    omap opens pre = [Signals; Postgres; Mongo; Cleanup] ∧ 0 < t.
Proof.
  cbv zeta. change api_main with (with_stores api_serve).
  destruct (run_with_stores api_serve env0) as (warn & Hwarn & ->).
  generalize (loaded_env env0). clear env0. intros env. unfold stores_failure.
  destruct (postgres_setup env) as [cfg|e]; [destruct (mongo_setup env) as [opts|e]|].
  1: rewrite run_api_serve; destruct (ListenAndServe _).
  1: unfold close_stores; destruct mongo_Disconnect.
  all: destruct Hwarn as [->| ->]; unfold api_events; generalize (api_registry pool_Stat); intros descs;
    cbn [h_env h_trace app].
  all: split; [by vm_compute|]; intros pre addr t post E.
  all: locate_event E pre; done.
Qed.

(** ** Settings *)

(** A variable set in the process environment wins over the .env file: [LoadRootEnv]
    leaves it as it is, so every setting read from it is unaffected by the file, and
    whatever happens with the file the service goes on. *)
Theorem LoadRootEnv_keeps_environment `{!Outside} env key v fallback :
  env !! key = Some v →
  let '(_, h) := run LoadRootEnv (mkHost env []) in
  os_Getenv (h_env h) key = v ∧ intFromEnv (h_env h) key fallback = intFromEnv env key fallback.
Proof.
  intros Hk. destruct (run_LoadRootEnv env) as (warn & -> & _). cbn [h_env].
  assert (loaded_env env !! key = Some v) as Hl.
  { unfold loaded_env. destruct runtime_Caller; [by apply godotenv_keeps|done]. }
  unfold intFromEnv, os_Getenv, map_get. by rewrite Hl, Hk.
Qed.

(** ** The subscription *)

(** Matching of an MQTT topic name against a filter: "+" stands for one level, "#" for
    the rest. *)
Fixpoint topic_matches (filter topic : list string) : bool :=
  match filter, topic with
  | [], [] => true
  | f :: filter', t :: topic' =>
      bool_decide (f = "#" ∧ filter' = []) ||
      (bool_decide (f = "+" ∨ f = t) && topic_matches filter' topic')
  | _, _ => false
  end.

(** C36: The subscription and the parser agree: the broker delivers under [telemetry_filter]
    exactly the topics [parseTopic] accepts, so no delivered message is refused for its
    topic and no topic the parser knows is missed. *)
Theorem subscription_is_parseTopic topic :
  topic_matches (Split telemetry_filter slash) (Split topic slash) = true ↔
  ∃ s d, parseTopic topic = Ok (s, d).
Proof.
  change (Split telemetry_filter slash) with ["sitewatch"; "+"; "+"; "telemetry"]. unfold parseTopic.
  destruct (Split topic slash) as [|p0 [|p1 [|p2 [|p3 [|]]]]]; cbn [topic_matches].
  5: { rewrite !(bool_decide_false (_ ∧ _)) by naive_solver. cbn [orb].
       rewrite !(bool_decide_true ("+" = "+" ∨ _)) by auto. cbn [andb].
       rewrite !andb_true_iff, !bool_decide_eq_true.
       split; [intros ([|] & [|] & _); try done; subst; rewrite decide_False by naive_solver; eauto|].
       intros (s & d & H). case_decide as Hc; [done|].
       assert (p0 = "sitewatch" ∧ p3 = "telemetry") as [-> ->]
         by (split; apply dec_stable; naive_solver). auto. }
  all: rewrite ?(bool_decide_false (_ ∧ _)) by naive_solver; cbn [orb]; rewrite ?andb_false_r.
  all: split; [done|by intros (? & ? & ?)].
Qed.

(** ** Stopping the API *)

(** Where the goroutine that calls [server.Shutdown] is. *)
Inductive shutdown_pc := AwaitingSignal | Draining | Drained | TimedOut.

(** The main goroutine: in [ListenAndServe], or unwinding with these events left. *)
Inductive api_thread := Serving | Unwinding (e : serve_end) (rest : list event).

Record Api := mkApi {
  a_trace : list event;
  a_main : api_thread;
  a_shutdown : shutdown_pc;
  a_signalled : bool;
  a_world : World;
  a_requests : list (prog World unit);   (* connections being served *)
  a_code : option Z;                     (* the exit code, once the process is gone *)
}.

Definition exit_code (o : exit) : Z := match o with Returned => 0 | Exited n => n end.

(** One step of one goroutine.  [server.Shutdown] closes the listeners at once, which
    makes [ListenAndServe] return [ErrServerClosed], and then waits for the requests
    in flight, up to the deadline of its context; [main] returning ends the process. *)
Inductive api_step `{!Outside} : Api → Api → Prop :=
| step_accept tr sig w rs p :
    api_step (mkApi tr Serving AwaitingSignal sig w rs None)
             (mkApi tr Serving AwaitingSignal sig w (rs ++ [p]) None)
| step_request tr m sd sig w rs i B (f : World → B * World) k :
    rs !! i = Some (Act f k) →
    api_step (mkApi tr m sd sig w rs None) (mkApi tr m sd sig (f w).2 (<[i := k (f w).1]> rs) None)
| step_answered tr m sd sig w rs i :
    rs !! i = Some (Ret tt) →
    api_step (mkApi tr m sd sig w rs None) (mkApi tr m sd sig w (delete i rs) None)
| step_signal tr m sd sig w rs :
    api_step (mkApi tr m sd sig w rs None) (mkApi tr m sd true w rs None)
| step_shutdown tr m w rs :
    api_step (mkApi tr m AwaitingSignal true w rs None)
             (mkApi (tr ++ [SignalReceived; Logged "INFO" "shutting down"]) m Draining true w rs None)
| step_drained tr m sig w :
    api_step (mkApi tr m Draining sig w [] None) (mkApi (tr ++ [ContextCancelled]) m Drained sig w [] None)
| step_timeout tr m sig w rs :
    api_step (mkApi tr m Draining sig w rs None)
             (mkApi (tr ++ [Logged "ERROR" "shutdown"; ContextCancelled]) m TimedOut sig w rs None)
| step_closed tr sd sig w rs :
    sd ≠ AwaitingSignal →
    api_step (mkApi tr Serving sd sig w rs None)
             (mkApi tr (Unwinding ErrServerClosed (unwind_events ErrServerClosed)) sd sig w rs None)
| step_failed tr sig w rs :
    api_step (mkApi tr Serving AwaitingSignal sig w rs None)
             (mkApi tr (Unwinding ServeError (unwind_events ServeError)) AwaitingSignal sig w rs None)
| step_unwind tr e ev rest sd sig w rs :
    api_step (mkApi tr (Unwinding e (ev :: rest)) sd sig w rs None)
             (mkApi (tr ++ [ev]) (Unwinding e rest) sd sig w rs None)
| step_exit tr e sd sig w rs :
    api_step (mkApi tr (Unwinding e []) sd sig w rs None)
             (mkApi tr (Unwinding e []) sd sig w rs (Some (exit_code (unwind_code e)))).

(** The process once [api_main] is in [ListenAndServe]. *)
Definition api_serving (tr : list event) (w : World) : Api :=
  mkApi tr Serving AwaitingSignal false w [] None.

Record api_inv `{!Outside} (closed0 : list resource) (c : Api) : Prop := {
  ai_told : a_shutdown c ≠ AwaitingSignal → a_signalled c = true;
  ai_drained : a_shutdown c = Drained → a_requests c = [];
  ai_main : match a_main c with
            | Serving => omap closes (a_trace c) = closed0 ∧ a_code c = None
            | Unwinding e rest =>
                omap closes (a_trace c) ++ omap closes rest = closed0 ++ omap closes (unwind_events e) ∧
                (e = ErrServerClosed → a_shutdown c ≠ AwaitingSignal) ∧
                (a_code c = None ∨ a_code c = Some (exit_code (unwind_code e)) ∧ rest = [])
            end;
}.

Lemma api_inv_step `{!Outside} closed0 c c' : api_step c c' → api_inv closed0 c → api_inv closed0 c'.
Proof.
  intros Hstep [Htold Hdr Hm]. destruct Hstep; cbn [a_trace a_main a_shutdown a_signalled a_requests a_code] in *.
  all: split; cbn [a_trace a_main a_shutdown a_signalled a_requests a_code]; try done; try tauto.
  all: rewrite ?omap_app; cbn [omap list_omap closes]; rewrite ?app_nil_r.
  all: repeat case_match; try done; try naive_solver.
  all: rewrite <- app_assoc; destruct Hm as (E & ? & ?); rewrite <- E; cbn [omap list_omap].
  all: match goal with H : closes _ = _ |- _ => rewrite H end; auto.
Qed.

(** C34: Stopping the API.  Under every interleaving of the main goroutine, the shutdown
    goroutine and the requests in flight: the process ends with code 0 only after a
    signal, and then has stopped the clean-up, MongoDB, PostgreSQL and the signal
    handler, each once and in this order; it ends with code 1 otherwise, having closed
    nothing; and once [Shutdown] has drained the server no request is in flight. *)
Theorem api_stops_in_order `{!Outside} tr w c :
  rtc api_step (api_serving tr w) c →
  (a_code c = Some 0 → a_signalled c = true ∧
     omap closes (a_trace c) = omap closes tr ++ [Cleanup; Mongo; Postgres; Signals]) ∧
  (∀ n, a_code c = Some n → n ≠ 0 → n = 1 ∧ omap closes (a_trace c) = omap closes tr) ∧
  (a_shutdown c = Drained → a_requests c = []).
Proof.
  intros Hrun. assert (api_inv (omap closes tr) c) as [Htold Hdr Hm].
  { remember (api_serving tr w) as c0 eqn:E0.
    assert (api_inv (omap closes tr) c0) as Hinv by (subst; by split).
    clear E0. induction Hrun; [done|]. eauto using api_inv_step. }
  split_and!; [| |done]; destruct (a_main c) as [|e rest].
  - intros Hc. destruct Hm. congruence.
  - destruct Hm as (E & Hsd & [Hn|[Hc ->]]); [congruence|]. intros Hz. rewrite Hz in Hc.
    destruct e; [|done]. split; [auto|]. rewrite app_nil_r in E. rewrite E. f_equal.
    cbn [unwind_events]. unfold close_stores. by destruct mongo_Disconnect.
  - intros n Hc. destruct Hm. congruence.
  - intros n Hc Hne. destruct Hm as (E & Hsd & [Hn|[Hc' ->]]); [congruence|]. rewrite Hc in Hc'.
    destruct e; cbn in Hc'; simplify_eq. split; [done|]. by rewrite !app_nil_r in E.
Qed.

(** C35: Shutdown does not wait for requests.  [ListenAndServe] returns as soon as
    [Shutdown] begins, and nothing makes [main] wait for [Shutdown]: whatever requests
    are in flight when the signal arrives, the process may close the stores and end
    with code 0 without any of them advancing, the five seconds of grace unused. *)
Theorem shutdown_abandons_requests `{!Outside} tr sig w rs :
  ∃ c, rtc api_step (mkApi tr Serving AwaitingSignal sig w rs None) c ∧
    a_code c = Some 0 ∧ a_requests c = rs ∧ a_world c = w ∧ a_shutdown c = Draining ∧
    Postgres ∈ omap closes (a_trace c).
Proof.
  assert (∀ rest tr e sd w rs, rtc api_step (mkApi tr (Unwinding e rest) sd true w rs None)
    (mkApi (tr ++ rest) (Unwinding e []) sd true w rs None)) as Hunwind.
  { clear. induction rest as [|ev rest IH]; intros tr e sd w rs; [by rewrite app_nil_r|].
    rewrite (cons_middle ev tr rest), app_assoc. econstructor; [constructor|apply IH]. }
  eexists. split.
  { econstructor; [apply step_signal|]. econstructor; [apply step_shutdown|].
    econstructor; [by apply step_closed|]. etransitivity; [apply Hunwind|].
    econstructor; [apply step_exit|]. apply rtc_refl. }
  cbn. split_and!; try done. rewrite omap_app. unfold close_stores. destruct mongo_Disconnect; set_solver.
Qed.

(** ** Witnesses *)

(** Libraries all of whose calls succeed, with a .env file that sets one variable. *)
Definition fx_Outside : Outside.
Proof.
  refine {| runtime_Caller := Some "/src/shared/env.go";
            godotenv_Load path env := (None, env ∪ {["INGESTION_WORKER_COUNT" := "1"]});
            pgxpool_ParseConfig s := Ok (mkPoolConfig s 4);
            pgxpool_NewWithConfig _ := Ok tt;
            pool_Stat _ := mkPoolStat 0 0 0 10 0 0;
            mongo_Connect _ := Ok tt;
            mongo_CreateOne _ _ _ := Ok tt;
            mongo_Disconnect := None;
            mqtt_Connect _ := None;
            mqtt_Subscribe _ _ := None;
            metrics_Shutdown := None;
            ListenAndServe _ := ErrServerClosed |}.
  intros path env k v Hk. cbn. by apply lookup_union_Some_l.
Defined.

Lemma ingestion_main_outcome_witness :
  @ingestion_failure fx_Outside (@loaded_env fx_Outside ∅) = None ∧
  omap closes (h_trace (run (@ingestion_main fx_Outside) (mkHost ∅ [])).2) =
    [Broker; MetricsServer; Mongo; Postgres; Signals].
Proof.
  split; [reflexivity|]. pose proof (@ingestion_main_outcome fx_Outside ∅) as Hp.
  destruct (run _ _) as [o h]. change (@ingestion_failure fx_Outside _) with (@None string) in Hp.
  destruct Hp as ((_ & E & Ec) & _). cbn [snd]. rewrite Ec, E. reflexivity.
Defined.

Lemma LoadRootEnv_keeps_environment_witness :
  let env : gmap string string := {["INGESTION_WORKER_COUNT" := "8"]} in
  os_Getenv (h_env (run (@LoadRootEnv fx_Outside) (mkHost env [])).2) "INGESTION_WORKER_COUNT" = "8".
Proof.
  cbv zeta. pose proof (@LoadRootEnv_keeps_environment fx_Outside {["INGESTION_WORKER_COUNT" := "8"]}
    "INGESTION_WORKER_COUNT" "8" 4 eq_refl) as Hp.
  destruct (run _ _) as [u h]. exact (proj1 Hp).
Defined.

Lemma api_stops_in_order_witness :
  ∃ c, rtc (@api_step fx_Outside) (api_serving [] (fresh_world init_sql)) c ∧
    a_code c = Some 1 ∧ omap closes (a_trace c) = [].
Proof.
  eexists. split.
  { econstructor; [apply step_failed|]. econstructor; [apply step_unwind|].
    econstructor; [apply step_exit|]. apply rtc_refl. }
  split; [reflexivity|].
  apply (@api_stops_in_order fx_Outside [] (fresh_world init_sql)) with (n := 1).
  - econstructor; [apply step_failed|]. econstructor; [apply step_unwind|].
    econstructor; [apply step_exit|]. apply rtc_refl.
  - reflexivity.
  - discriminate.
Defined.
