(* ===== verification/EndToEnd.v ===== *)
(** * From a publisher to a reader

    The two services meet in the collection [telemetry_raw]: what [process] of the
    ingestion service stores is what [getDeviceTelemetry] of the API reads.  The first
    theorem follows a simulator's message from its text to the response of the API,
    the second a message no reader can be given. *)

From S2P Require Import Prelude GoStd GoFloat GoTime Alerts Pg World Contract GoJson Rounding Fixtures Shared Store Process Payload.
From S2P Require Import Models Escape TimeText Http Response ApiDevices.
Open Scope Z_scope.
Open Scope string_scope.
Open Scope list_scope.
Open Scope go_scope.

(** ** Instants a publisher can send *)

(** Four-digit years are in the range of [Time.MarshalJSON]. *)
Lemma json_time_instant c : valid_civil c = true → json_time (instant c) = true.
Proof.
  unfold valid_civil, json_time. rewrite !bool_decide_eq_true. intros (Hy & Hm & Hd & Hh & Hmi & Hs & Hms).
  pose proof (days_before_month_range (c_month c) (c_year c) Hm) as [Hm0 Hm1].
  pose proof (year_length (c_year c)) as Hl.
  pose proof (days_before_year_mono 0 (c_year c) ltac:(lia)) as H0.
  pose proof (days_before_year_mono (c_year c + 1) 10000 ltac:(lia)) as H1.
  change (days_before_year 0) with 0 in H0. change (days_before_year 10000) with 3652425 in H1.
  unfold instant, Date. change (days_before_year 1970) with 719528.
  unfold Millisecond, Second in *. lia.
Qed.

(** MongoDB keeps them exactly. *)
Lemma bson_datetime_instant c : bson_datetime (instant c) = instant c.
Proof.
  unfold bson_datetime, instant, Date. set (n := (_ * 60 + c_sec c)).
  replace (n * Second + c_msec c * Millisecond) with ((n * 1000 + c_msec c) * 1000000)
    by (unfold Second, Millisecond; lia).
  by rewrite Z.div_mul.
Qed.

(** ** The newest document of a device *)

(** [doc] is newer than every other document of its device. *)
Definition newest (doc : TelemetryDoc) (docs : list TelemetryDoc) : Prop :=
  Forall (λ d, t_device_id d = t_device_id doc → t_ts d < t_ts doc) docs.

(** It is the first document of every page without bounds on the time. *)
Lemma newest_heads_page doc docs dev limit (ord : ∀ X, list X → list X) :
  (∀ X (l : list X), ord X l ≡ₚ l) → 1 <= limit → t_device_id doc = dev → newest doc docs →
  ∃ page, find_telemetry dev None None limit ord (docs ++ [doc]) = doc :: page ∧
    ∀ d, d ∈ page → d ∈ docs ∧ t_device_id d = dev.
Proof.
  intros Hord Hl Hdev Hnew. unfold newest in Hnew. rewrite Forall_forall in Hnew.
  destruct (find_telemetry_spec dev None None limit ord (docs ++ [doc]) Hord) as (rest & Hp & Hs & _ & Hfull & Hc).
  set (page := find_telemetry _ _ _ _ _ _) in *.
  assert (∀ d, d ∈ page ++ rest → d = doc ∨ t_ts d < t_ts doc) as Hmem.
  { intros d Hd. rewrite Hp, list_elem_of_filter, elem_of_app, list_elem_of_singleton in Hd.
    destruct Hd as [[Hd _] [Hin|]]; [|by left]. right. apply Hnew; congruence. }
  assert (doc ∈ page ++ rest) as Hdoc.
  { rewrite Hp, list_elem_of_filter, elem_of_app, list_elem_of_singleton. by split_and!; [| |right]. }
  destruct page as [|d0 page'] eqn:Epage.
  { destruct rest as [|d rest]; [by apply not_elem_of_nil in Hdoc|]. specialize (Hfull ltac:(done)).
    cbn [length] in Hfull. lia. }
  assert (d0 = doc) as ->.
  { destruct (Hmem d0) as [|Hlt]; [set_solver|done|]. apply elem_of_app in Hdoc as [Hdoc|Hdoc].
    - apply elem_of_cons in Hdoc as [|Hdoc]; [done|]. apply StronglySorted_inv in Hs as [_ Hs].
      rewrite Forall_forall in Hs. specialize (Hs _ Hdoc). unfold newest_first in Hs. lia.
    - specialize (Hc d0 doc ltac:(set_solver) Hdoc). lia. }
  exists page'. split; [done|]. intros d Hd.
  assert (filter (λ d, t_device_id d = dev ∧ in_range None None (t_ts d)) (docs ++ [doc]) =
    filter (λ d, t_device_id d = dev ∧ in_range None None (t_ts d)) docs ++ [doc]) as E.
  { rewrite filter_app, filter_cons_True by (by repeat split). done. }
  rewrite E, (Permutation_app_comm _ [doc]) in Hp. apply Permutation_cons_inv in Hp.
  assert (d ∈ page' ++ rest) as Hin by set_solver. rewrite Hp, list_elem_of_filter in Hin. naive_solver.
Qed.

Section Path.
Context `{!GoText, !PgLib, !Env}.

(** What the endpoint answers, on a store that answers. *)
Lemma run_getDeviceTelemetry r w :
  query_fault (w_tick w) = QueryOk →
  (run (getDeviceTelemetry new_response r) w).1 =
  (run (writeJSON new_response StatusOK (Some (PPoints (point_of_doc <$> reverse
    (find_telemetry (PathValue r "id") (parseTimeParam r "from") (parseTimeParam r "to") (telemetry_limit r)
      (row_order (w_tick w)) (w_telemetry w)))))) (tick w)).1.
Proof.
  intros Hq. unfold getDeviceTelemetry, mongo_find. rewrite run_bind, run_act, Hq. cbn [query_outcome fst snd].
  rewrite reverse_in_place_eq, <- fmap_reverse, run_bind.
  destruct (run (writeJSON _ _ _) _) as [rw w1]. cbn [fst snd]. apply run_cursor_Close_body.
Qed.

(** What [process] stores when the insert works. *)
Lemma process_stores N j msg w :
  validate j = Ok msg → exec_fault (S (S (w_tick w))) = ExecOk →
  w_telemetry (run (process N j) w).2 = w_telemetry w ++ [telemetry_doc msg (now_at (S (w_tick w)))].
Proof.
  intros Hv He. rewrite run_process, Hv, run_process_message, run_WriteTelemetry. cbv zeta. simpl w_tick.
  rewrite He. set (w1 := set_telemetry _ _).
  by destruct (each_message_run _ _ w1 (message_after_telemetry N (run NewCorrelationID w).1 msg)) as [Ht _].
Qed.

End Path.

Lemma json_point_intro d :
  all_numbers (t_readings d) → json_time (t_ts d) = true → json_time (t_received_at d) = true →
  json_point (point_of_doc d) = true.
Proof.
  intros Hf Ht Hr. unfold json_point. cbn [point_of_doc tp_Readings tp_Ts tp_ReceivedAt].
  rewrite Ht, Hr, !andb_true_r. apply bool_decide_eq_true. eapply map_Forall_impl; [exact Hf|]. by intros _ [].
Qed.

Lemma encodable_page docs :
  Forall (λ d, json_point (point_of_doc d) = true) docs → encodable (PPoints (point_of_doc <$> docs)) = true.
Proof.
  intros Hd. apply forallb_forall. intros p Hp%list_elem_of_In%list_elem_of_fmap.
  destruct Hp as (d & -> & Hin). rewrite Forall_forall in Hd. by apply Hd.
Qed.

Lemma encodable_page_inv d docs :
  d ∈ docs → json_point (point_of_doc d) = false → encodable (PPoints (point_of_doc <$> docs)) = false.
Proof.
  intros Hin Hd. apply not_true_iff_false. intros H. cbn [encodable] in H. rewrite forallb_forall in H.
  rewrite H in Hd; [done|]. by apply list_elem_of_In, list_elem_of_fmap_2.
Qed.

(** ** Properties *)

(** From the publisher to the reader.  A message of the simulator (as in
    [simulator_message_valid]) whose insert works is what the API then shows as the
    last point of the device's telemetry page: 200, with exactly the readings and the
    instant of the publisher.  The hypotheses on the store say that its
    older documents of this device can be shown, too, and that the clock is within the years
    JSON can carry. *)
Theorem published_reading_is_readable `{!PgLib, !Env} N r w deviceId siteId type readings ts :
  plain deviceId = true → plain siteId = true → plain type = true →
  has_char slash siteId = false → has_char slash deviceId = false →
  deviceId ≠ "" → siteId ≠ "" → type ≠ "" → readings ≠ [] →
  forallb reading_ok readings = true → NoDup (map metric readings) → valid_civil ts = true →
  let received := bson_datetime (now_at (S (w_tick w))) in
  let w' := (run (@process go_text _ _ N
    (mkJob (telemetryTopic siteId deviceId) (simulator_payload deviceId siteId type readings ts))) w).2 in
  exec_fault (S (S (w_tick w))) = ExecOk → query_fault (w_tick w') = QueryOk →
  json_time received = true →
  Forall (λ d, t_device_id d = deviceId → json_point (point_of_doc d) = true ∧ t_ts d < instant ts) (w_telemetry w) →
  PathValue r "id" = deviceId → @parseTimeParam go_text r "from" = None → @parseTimeParam go_text r "to" = None →
  let rw := (run (@getDeviceTelemetry go_text _ new_response r) w').1 in
  status_of rw = StatusOK ∧
  ∃ older, Forall (λ d, d ∈ w_telemetry w ∧ t_device_id d = deviceId) older ∧ w_body rw =
    [PPoints ((point_of_doc <$> older) ++ [mkTelemetryPoint deviceId (readings_map readings) (instant ts) received])].
Proof.
  intros H1 H2 H3 H4 H5 H6 H7 H8 H9 H10 H11 H12 received w' He Hq Hrec Hold Hid Hfrom Hto.
  set (msg := mkTelemetryMessage deviceId siteId type (readings_map readings) (instant ts)).
  assert (w_telemetry w' = w_telemetry w ++ [telemetry_doc msg (now_at (S (w_tick w)))]) as Hdocs.
  { subst w'. apply process_stores; [|done]. by apply simulator_message_valid. }
  set (doc := telemetry_doc msg _) in Hdocs.
  assert (t_ts doc = instant ts) as Hts by apply bson_datetime_instant.
  assert (json_point (point_of_doc doc) = true) as Hdoc.
  { apply json_point_intro; [|by rewrite Hts; apply json_time_instant|done].
    by apply readings_map_finite. }
  cbv zeta. rewrite run_getDeviceTelemetry by done. rewrite Hfrom, Hto, Hid, Hdocs.
  destruct (newest_heads_page doc (w_telemetry w) deviceId (@telemetry_limit r) (row_order (w_tick w'))
    (row_order_perm (w_tick w'))) as (page & -> & Hpage); [apply telemetry_limit_range|done| |].
  { unfold newest. rewrite Hts. eapply Forall_impl; [exact Hold|]. naive_solver. }
  rewrite reverse_cons. unfold writeJSON. rewrite encodable_page.
  - split; [done|]. exists (reverse page). split.
    + apply Forall_forall. intros d Hd%elem_of_reverse%Hpage. exact Hd.
    + rewrite fmap_app. cbn [fmap list_fmap]. unfold point_of_doc at 2. by rewrite Hts.
  - apply Forall_app. split; [|by repeat constructor].
    apply Forall_forall. intros d [Hin Hd]%elem_of_reverse%Hpage. rewrite Forall_forall in Hold. by apply Hold.
Qed.

Lemma ascii_valid_string s : string_forallb (λ a, bool_decide (nat_of_ascii a < 128)%nat) s = true → valid_string s = true.
Proof.
  induction s as [|a s IH]; [done|]. cbn [string_forallb]. rewrite andb_true_iff, bool_decide_eq_true.
  intros [Ha Hs]. cbn [valid_string]. rewrite decide_True by done. by apply IH.
Qed.

Lemma plain_valid_string s : plain s = true → valid_string s = true.
Proof.
  intros Hs. apply ascii_valid_string. eapply string_forallb_impl; [|exact Hs]. intros a.
  unfold plain_char. rewrite !bool_decide_eq_true. lia.
Qed.

Lemma readings_map_fits readings : forallb reading_ok readings = true → fits (readings_map readings) = true.
Proof.
  intros Hr. pose proof (readings_map_finite _ Hr) as Hf. cbn [fits map_json]. rewrite bool_decide_eq_true.
  intros k x Hx. apply andb_true_iff. split; [|exact (Hf k x Hx)]. unfold readings_map in Hx.
  apply elem_of_list_to_map_2, list_elem_of_In, in_map_iff in Hx as (r & [= <- _] & Hin).
  rewrite forallb_forall in Hr. specialize (Hr r Hin). unfold reading_ok in Hr. rewrite !andb_true_iff in Hr.
  destruct Hr as [[Hp _] _]. by apply plain_valid_string.
Qed.

(** C20: From the publisher's bytes to the reader's bytes.  Let a message of the simulator (as in
    [simulator_message_valid]) be inserted, with an instant later than those of all documents
    of its device stored before (one that arrives out of order is not the last point), and let
    a request then ask for the telemetry of that device without [from] and [to].  If the query
    works, the answer is 200, its body is JSON text, and a client that reads that text gets
    older points of the page and, last, exactly the readings and the instant of the publisher.
    The other hypotheses say that the older documents of the device can be shown, too, and
    that the clock is within the years JSON can carry. *)
Theorem published_reading_reaches_client `{!PgLib, !Env} N r w deviceId siteId type readings ts :
  plain deviceId = true → plain siteId = true → plain type = true →
  has_char slash siteId = false → has_char slash deviceId = false →
  deviceId ≠ "" → siteId ≠ "" → type ≠ "" → readings ≠ [] →
  forallb reading_ok readings = true → NoDup (map metric readings) → valid_civil ts = true →
  let received := bson_datetime (now_at (S (w_tick w))) in
  let w' := (run (@process go_text _ _ N
    (mkJob (telemetryTopic siteId deviceId) (simulator_payload deviceId siteId type readings ts))) w).2 in
  exec_fault (S (S (w_tick w))) = ExecOk → query_fault (w_tick w') = QueryOk →
  json_time received = true →
  Forall (λ d, t_device_id d = deviceId → fits (point_of_doc d) = true ∧ t_ts d < instant ts) (w_telemetry w) →
  PathValue r "id" = deviceId → @parseTimeParam go_text r "from" = None → @parseTimeParam go_text r "to" = None →
  let rw := (run (@getDeviceTelemetry go_text _ new_response r) w').1 in
  status_of rw = StatusOK ∧
  ∃ page body, w_body rw = [page] ∧ Encode page = Some body ∧ ∃ older,
    Forall (λ d, d ∈ w_telemetry w ∧ t_device_id d = deviceId) older ∧
    read_body SPoints body =
      Some (PPoints ((point_of_doc <$> older) ++
        [mkTelemetryPoint deviceId (readings_map readings) (instant ts) received])).
Proof.
  intros H1 H2 H3 H4 H5 H6 H7 H8 H9 H10 H11 H12 received w' He Hq Hrec Hold Hid Hfrom Hto rw.
  destruct (published_reading_is_readable N r w deviceId siteId type readings ts) as (Hst & older & Hin & Hbody);
    try done.
  { eapply Forall_impl; [exact Hold|]. intros d Hd Hdev. destruct (Hd Hdev). by split; [apply fits_point|]. }
  split; [done|]. eexists _, _. split; [exact Hbody|]. split; [reflexivity|]. exists older. split; [done|].
  apply (read_encoded (PPoints _)); [|done]. cbn [fits_payload fits slice_json]. rewrite forallb_app, andb_true_iff. split.
  - apply forallb_forall. intros p Hp%list_elem_of_In%list_elem_of_fmap. destruct Hp as (d & -> & Hd).
    rewrite Forall_forall in Hin, Hold. destruct (Hin d Hd) as [Hw Hdev]. by apply Hold.
  - cbn [forallb fits point_json tp_DeviceID tp_Readings tp_Ts tp_ReceivedAt].
    rewrite readings_map_fits by done. rewrite !andb_true_r, !andb_true_iff. split_and!; try done.
    + by apply plain_valid_string.
    + by apply json_time_instant.
Qed.

(** [process] accepts any instant that [time.Time] can parse, [Time.MarshalJSON] not:
    after a message of a year beyond 9999 (in UTC) is stored, every page of the device without
    a bound on the time is a 200 whose body is empty, whatever its other readings. *)
Theorem far_future_reading_hides_device `{!GoText, !PgLib, !Env} N j msg r w :
  validate j = Ok msg → json_time (bson_datetime (Ts msg)) = false →
  let w' := (run (process N j) w).2 in
  exec_fault (S (S (w_tick w))) = ExecOk → query_fault (w_tick w') = QueryOk →
  Forall (λ d, t_device_id d = DeviceID msg → t_ts d < bson_datetime (Ts msg)) (w_telemetry w) →
  PathValue r "id" = DeviceID msg → parseTimeParam r "from" = None → parseTimeParam r "to" = None →
  let rw := (run (getDeviceTelemetry new_response r) w').1 in
  status_of rw = StatusOK ∧ w_body rw = [].
Proof.
  intros Hv Hyear w' He Hq Hold Hid Hfrom Hto rw. subst rw.
  rewrite run_getDeviceTelemetry by done. subst w'. rewrite Hfrom, Hto, Hid, (process_stores N j msg) by done.
  set (doc := telemetry_doc msg _).
  destruct (newest_heads_page doc (w_telemetry w) (DeviceID msg) (telemetry_limit r)
    (row_order (w_tick (run (process N j) w).2)) (row_order_perm _)) as (page & -> & _);
    [apply telemetry_limit_range|done|done|].
  unfold writeJSON. rewrite (encodable_page_inv doc); [by rewrite run_bind| |].
  - rewrite elem_of_reverse. by left.
  - unfold json_point. cbn [point_of_doc tp_Ts doc telemetry_doc t_ts]. by rewrite Hyear, andb_false_r.
Qed.

(** ** Witnesses *)

Definition page_request : Request :=
  mkRequest "GET" "/devices/d/telemetry" ∅ ∅ "10.0.0.1:999" "" {["id" := wit_device]} None.

(** The device has one earlier reading. *)
Definition one_reading : World :=
  set_telemetry [mkTelemetryDoc wit_device wit_site "temp_sensor" {["temperature_c" := float_of_Z 20]} 0 0]
    (fresh_world init_sql).

Definition published : TelemetryPoint :=
  mkTelemetryPoint wit_device (readings_map [mkReading "temperature_c" 2480]) (instant doc_ts) (bson_datetime (1 * Second)).

Lemma published_reading_reaches_client_witness :
  let w' := (run (@process go_text fx_PgLib quiet_Env 3 (mkJob (telemetryTopic wit_site wit_device)
    (simulator_payload wit_device wit_site "temp_sensor" [mkReading "temperature_c" 2480] doc_ts))) one_reading).2 in
  let rw := (run (@getDeviceTelemetry go_text quiet_Env new_response page_request) w').1 in
  status_of rw = StatusOK ∧
  ∃ page body, w_body rw = [page] ∧ Encode page = Some body ∧ ∃ older,
    Forall (λ d, d ∈ w_telemetry one_reading ∧ t_device_id d = wit_device) older ∧
    read_body SPoints body = Some (PPoints ((point_of_doc <$> older) ++ [published])).
Proof.
  apply (@published_reading_reaches_client fx_PgLib quiet_Env 3 page_request one_reading wit_device wit_site
    "temp_sensor" [mkReading "temperature_c" 2480] doc_ts).
  - vm_compute. reflexivity.
  - vm_compute. reflexivity.
  - vm_compute. reflexivity.
  - vm_compute. reflexivity.
  - vm_compute. reflexivity.
  - discriminate.
  - discriminate.
  - discriminate.
  - discriminate.
  - vm_compute. reflexivity.
  - apply (bool_decide_unpack _). vm_compute. exact I.
  - vm_compute. reflexivity.
  - reflexivity.
  - reflexivity.
  - vm_compute. reflexivity.
  - constructor; [|constructor]. intros _. split; vm_compute; reflexivity.
  - vm_compute. reflexivity.
  - vm_compute. reflexivity.
  - vm_compute. reflexivity.
Defined.

(** The last hour of year 9999 west of Greenwich. *)
Definition far_future_payload : string :=
  stringify (JObj [("device_id", JStr wit_device wit_device); ("site_id", JStr wit_site wit_site);
    ("device_type", JStr "temp_sensor" "temp_sensor"); ("readings", JObj [("temperature_c", JNum "20")]);
    ("ts", JStr "9999-12-31T23:59:59-23:00" "9999-12-31T23:59:59-23:00")]).

Definition far_future : TelemetryMessage :=
  mkTelemetryMessage wit_device wit_site "temp_sensor" {["temperature_c" := float_of_decimal false 20 0]}
    ((253402300799 + 23 * 3600) * Second).

Lemma far_future_reading_hides_device_witness :
  let w' := (run (@process go_text fx_PgLib quiet_Env 3
    (mkJob (telemetryTopic wit_site wit_device) far_future_payload)) one_reading).2 in
  let rw := (run (@getDeviceTelemetry go_text quiet_Env new_response page_request) w').1 in
  status_of rw = StatusOK ∧ w_body rw = [].
Proof.
  apply (@far_future_reading_hides_device go_text fx_PgLib quiet_Env 3
    (mkJob (telemetryTopic wit_site wit_device) far_future_payload) far_future page_request one_reading).
  - vm_compute. reflexivity.
  - vm_compute. reflexivity.
  - reflexivity.
  - reflexivity.
  - constructor; [|constructor]. intros _. vm_compute. reflexivity.
  - vm_compute. reflexivity.
  - vm_compute. reflexivity.
  - vm_compute. reflexivity.
Defined.
