(* ===== verification/AlertFlow.v ===== *)
(** * From readings to the alert list

    The two services meet a second time in the table [alerts]: what the engine of the
    ingestion service writes is what [listAlerts] of the API shows. *)

From S2P Require Import Prelude GoStd Alerts Pg World Contract Fixtures Shared Store Process Engine.
From S2P Require Import Models Http ApiAlerts.
Open Scope Z_scope.
Open Scope string_scope.
Open Scope list_scope.
Open Scope go_scope.

Section Listing.
Context `{!PgLib, !Env}.

(** A request for the alerts of all sites, or of the device's site, of every status, of all
    devices or of [did], from the first on, with a limit that cuts nothing off. *)
Record asks_for (q : gmap string (list string)) (db : Pg) (did : string) : Prop := {
  ask_site : given (Query_Get q "site_id") (λ s, ∃ u, uuid_in s = Some u ∧ d_site_id <$> devices db !! did = Some u);
  ask_status : Query_Get q "status" = "";
  ask_device : given (Query_Get q "device_id") (λ s, uuid_in s = Some did);
  ask_offset : parseIntParam q "offset" 0 1000000 = 0;
  ask_limit : Z.of_nat (size (alerts db)) <= parseIntParam q "limit" 50 500;
}.

(** Alerts are listed at most once, so a limit of as many as there are is none. *)
Lemma take_all_alerts db (l : list (string * AlertRow)) n :
  NoDup l → (∀ i a, (i, a) ∈ l → alerts db !! i = Some a) → Z.of_nat (size (alerts db)) <= n → take (Z.to_nat n) l = l.
Proof.
  intros Hnd Hin Hn. apply take_ge. assert (l ⊆+ map_to_list (alerts db)) as Hs%submseteq_length.
  { apply NoDup_submseteq; [done|]. intros [i a] Hia%Hin. by apply elem_of_map_to_list. }
  rewrite length_map_to_list in Hs. lia.
Qed.

(** Such a listing has every alert of [did], and no others of that device. *)
Lemma device_listing q db did (ord : ∀ X, list X → list X) :
  (∀ X (l : list X), ord X l ≡ₚ l) → asks_for q db did →
  ∃ l, execute_list (build_query q) ord db = Ok l ∧
    ∀ i a, al_device_id a = did → (i, a) ∈ l ↔ alerts db !! i = Some a.
Proof.
  intros Hord [Hsite Hstatus Hdev Hoff Hlim]. pose proof (execute_list_page q ord db Hord) as Hp.
  destruct (execute_list (build_query q) ord db) as [rows|e].
  - destruct Hp as (_ & l & Hnd & _ & Hl & -> & _). eexists. split; [done|]. rewrite Hoff, drop_0.
    rewrite (take_all_alerts db) by (done || by intros i a Hia%Hl; apply Hia).
    intros i a Ha. rewrite Hl. split; [by intros [? _]|]. intros Hi. split; [done|]. unfold wanted. rewrite Ha, Hstatus.
    split_and!; [done|by left|done].
  - exfalso. apply Hp. split_and!.
    + destruct Hsite as [?|(u & Hu & _)]; [by left|right; by eexists].
    + by left.
    + destruct Hdev as [?|Hu]; [by left|right; by eexists].
Qed.

(** What the endpoint answers when the query works. *)
Lemma run_listAlerts r w rows :
  query_fault (w_tick w) = QueryOk →
  execute_list (build_query (r_Query r)) (row_order (w_tick w)) (w_pg w) = Ok rows →
  let rw := (run (listAlerts new_response r) w).1 in
  status_of rw = StatusOK ∧
  w_body rw = if encodable (PAlerts (alert_of_row <$> rows)) then [PAlerts (alert_of_row <$> rows)] else [].
Proof.
  intros Hq Hrows. pose proof (run_listing (execute_list (build_query (r_Query r))) r "query alerts"
    "failed to list alerts" "scan alert" (λ rows, PAlerts (alert_of_row <$> rows)) w :
    let '(rw, w') := run (listAlerts new_response r) w in _) as Hl.
  destruct (run _ w) as [rw w']. destruct Hl as [_ Hl]. by rewrite Hrows, Hq in Hl.
Qed.

End Listing.

Lemma active_text a : is_active a = true ↔ status_text (al_status a) ≠ "resolved".
Proof. unfold is_active. rewrite bool_decide_eq_true. destruct (al_status a); simpl; naive_solver. Qed.

(** C4: From readings to the operator's list.  Started with no streaks and no active alert for a rule,
    after any sequence of messages handled one at a time, while no statement and no query
    fails, a request for the alert list that asks for everything ([asks_for]: of all sites or
    the rule's, of all devices or the rule's, of every status, from offset 0, and with a limit
    no smaller than the table of alerts) is answered 200 with a list that shows an alert of
    the rule that is not resolved if and only if the rule's readings contain [n] consecutive
    breaches not followed by [n] consecutive clear readings.  With more alerts than the limit
    (50 by default) the alert may be on a later page. *)
Theorem breaches_reach_operator `{!GoText, !PgLib, !Env} (n : nat) js w rid row r :
  no_faults → uuids_fresh → serial_inv w → alert_rules (w_pg w) !! rid = Some row →
  w_streaks w = NewBreachTracker → ¬ rule_active (w_pg w) rid →
  (1 <= n)%nat → Z.of_nat (length js) < max_int64 →
  let w' := run_serial (Z.of_nat n) js w in
  asks_for (r_Query r) (w_pg w') (ar_device_id row) →
  let rw := (run (listAlerts new_response r) w').1 in
  status_of rw = StatusOK ∧ ∃ l,
    w_body rw = (if encodable (PAlerts l) then [PAlerts l] else []) ∧
    ((∃ a, a ∈ l ∧ alert_AlertRuleID a = rid ∧ alert_Status a ≠ "resolved") ↔
     alerting n (omap (λ j, job_reading j row) js)).
Proof.
  intros Hq Hu Hinv Hrow Hst Hna Hn Hlen w' Hask rw.
  pose proof (serial_active_alerting n js w rid row Hq Hu Hinv Hrow Hst Hna Hn Hlen) as Halert. fold w' in Halert.
  destruct (run_serial_effect Hq Hu (Z.of_nat n) js w Hinv) as (Hinv' & Hrules & _). fold w' in Hinv', Hrules.
  destruct (device_listing _ _ _ (row_order (w_tick w')) (row_order_perm (w_tick w')) Hask) as (rows & Hrows & Hl).
  destruct (run_listAlerts r w' rows (proj2 (Hq _)) Hrows) as [Hs Hb]. split; [exact Hs|].
  exists (alert_of_row <$> rows). split; [exact Hb|]. rewrite <- Halert.
  assert (∀ i a, alerts (w_pg w') !! i = Some a → al_alert_rule_id a = rid → al_device_id a = ar_device_id row) as Hdev.
  { intros i a Ha Hr. symmetry. apply (si_device _ Hinv' i a row Ha). by rewrite Hr, Hrules. }
  split.
  - intros (a & Hin & Hr & Hs'). apply list_elem_of_fmap in Hin as ([i b] & -> & Hin). cbn in *.
    assert (alerts (w_pg w') !! i = Some b) as Hi.
    { pose proof (execute_list_page (r_Query r) (row_order (w_tick w')) (w_pg w') (row_order_perm _)) as Hp.
      rewrite Hrows in Hp. destruct Hp as (_ & l & _ & _ & Hl' & -> & _). apply Hl'.
      eapply subseteq_drop, subseteq_take, Hin. }
    exists i, b. split_and!; [done|done|by apply active_text].
  - intros (i & a & Ha & Hr & Hact). exists (alert_of_row (i, a)). split_and!; [|done|by apply active_text].
    apply list_elem_of_fmap_2, Hl; [by eapply Hdev|done].
Qed.

(** ** Witnesses *)

Definition alerts_request : Request :=
  mkRequest "GET" "/alerts" {["device_id" := [temp_sensor_01]; "limit" := ["10"]]} ∅ "10.0.0.1:999" "" ∅ None.

Lemma breaches_reach_operator_witness :
  let w' := @run_serial wit_GoText fx_PgLib quiet_Env 2 [wit_job "33"; wit_job "33"; wit_job "20"]
    (fresh_world init_sql) in
  let rw := (run (@listAlerts fx_PgLib quiet_Env new_response alerts_request) w').1 in
  status_of rw = StatusOK ∧ ∃ l,
    w_body rw = (if encodable (PAlerts l) then [PAlerts l] else []) ∧
    ((∃ a, a ∈ l ∧ alert_AlertRuleID a = "rule-crit" ∧ alert_Status a ≠ "resolved") ↔
     alerting 2 (omap (λ j, @job_reading wit_GoText fx_PgLib j wit_crit) [wit_job "33"; wit_job "33"; wit_job "20"])).
Proof.
  apply (@breaches_reach_operator wit_GoText fx_PgLib quiet_Env 2 [wit_job "33"; wit_job "33"; wit_job "20"]
    (fresh_world init_sql) "rule-crit" wit_crit alerts_request quiet_Env_no_faults quiet_Env_uuids init_sql_serial).
  - vm_compute. reflexivity.
  - reflexivity.
  - by intros (i & a & Ha & _).
  - lia.
  - vm_compute. reflexivity.
  - split.
    + left. vm_compute. reflexivity.
    + vm_compute. reflexivity.
    + right. vm_compute. reflexivity.
    + vm_compute. reflexivity.
    + vm_compute. discriminate.
Defined.
